(** * Gomoku4: board, win detection, pattern scans and the two searches

    A shallow embedding of [simple_board.py] (class [SimpleGoBoard]) and
    [alphabeta.py], with the properties of the specification stated and
    settled against it.

    Conventions of the embedding.
    - A point is a Python integer, here a [Z]; the board array is a list of
      colours, read and written through numpy's index rule (a negative index
      counts from the end, anything outside [-len, len) raises IndexError).
    - Mutation of [self] is explicit state passing: a method that writes the
      board returns the new board next to its value.
    - A Python exception is the [Raise] outcome of [result]. *)

From Stdlib Require Import ZArith QArith Qreduction Lia Ascii String Sorted.
From stdpp Require Import base decidable option list gmap strings.

Open Scope Z_scope.

(** ** Colours (board_util) *)

(** Modelled from the spec: the colour constants EMPTY, BLACK, WHITE and
    BORDER of [board_util], which is not among the sources; the board array
    only ever holds these four values. *)
Inductive color : Type := EMPTY | BLACK | WHITE | BORDER.

#[global] Instance color_eq_dec : EqDecision color.
Proof. solve_decision. Defined.

Definition color_eqb (a b : color) : bool := bool_decide (a = b).

(** Modelled from the spec: [is_black_white] of [board_util]. *)
Definition is_black_white (c : color) : bool :=
  match c with BLACK | WHITE => true | _ => false end.

(** Modelled from the spec: [GoBoardUtil.opponent] of [board_util]
    ("opponent/colour arithmetic", WHITE + BLACK - color with the codes
    0, 1, 2, 3): it swaps BLACK and WHITE, and the same arithmetic swaps
    the two other codes. *)
Definition opponent (c : color) : color :=
  match c with
  | BLACK => WHITE
  | WHITE => BLACK
  | EMPTY => BORDER
  | BORDER => EMPTY
  end.

(** ** Outcomes *)

Inductive exn : Type :=
| AssertionError
| IndexError
| ValueError
| OutOfFuel.  (* a loop of the model ran out of fuel; never a Python outcome *)

Inductive result (A : Type) : Type :=
| Ok (a : A)
| Raise (e : exn).
Arguments Ok {A} a.
Arguments Raise {A} e.

Definition rbind {A B} (m : result A) (k : A → result B) : result B :=
  match m with Ok a => k a | Raise e => Raise e end.

Notation "'let*' x ':=' m 'in' k" := (rbind m (fun x => k))
  (at level 10, x pattern, m at level 100, k at level 200).

(** ** The board *)

(** The fields of [SimpleGoBoard] that the Gomoku path reads or writes.
    [NS], [WE] and [maxpoint] are functions of [size]; the ko point, the
    liberty cache and the neighbour lists belong to the Go rules and are
    never touched by the functions modelled here. Scores are Python numbers
    (integers, and floats that are multiples of 0.5), here rationals. *)
Record SimpleGoBoard : Type := mkBoard {
  size : Z;
  board : list color;
  current_player : color;
  best_move : option Z;
  best_move_score : Q;
}.

Definition NS (b : SimpleGoBoard) : Z := size b + 1.
Definition maxpoint_of (n : Z) : Z := n * n + 3 * (n + 1).
Definition len_board (b : SimpleGoBoard) : Z := Z.of_nat (length (board b)).

Definition with_board (b : SimpleGoBoard) (cells : list color) : SimpleGoBoard :=
  mkBoard (size b) cells (current_player b) (best_move b) (best_move_score b).
Definition with_player (b : SimpleGoBoard) (c : color) : SimpleGoBoard :=
  mkBoard (size b) (board b) c (best_move b) (best_move_score b).
Definition with_best (b : SimpleGoBoard) (score : Q) (move : option Z) : SimpleGoBoard :=
  mkBoard (size b) (board b) (current_player b) move score.

(** numpy's index rule for a one-dimensional array of length [len]. *)
Definition np_index (len p : Z) : result nat :=
  if (0 <=? p) && (p <? len) then Ok (Z.to_nat p)
  else if (- len <=? p) && (p <? 0) then Ok (Z.to_nat (p + len))
  else Raise IndexError.

(** [self.board[point]] *)
Definition get_color (b : SimpleGoBoard) (point : Z) : result color :=
  let* i := np_index (len_board b) point in
  match board b !! i with
  | Some c => Ok c
  | None => Raise IndexError
  end.

(** [self.board[point] = c] *)
Definition set_color (b : SimpleGoBoard) (point : Z) (c : color) : result SimpleGoBoard :=
  let* i := np_index (len_board b) point in
  Ok (with_board b (<[i := c]> (board b))).

(** [where1d(self.board == c)] and [where1d(self.board != c)]: the indices
    at which the condition holds, in increasing order. *)
Fixpoint where1d_from (i : Z) (f : color → bool) (cells : list color) : list Z :=
  match cells with
  | [] => []
  | c :: cells' =>
      if f c then i :: where1d_from (i + 1) f cells'
      else where1d_from (i + 1) f cells'
  end.
Definition where1d (f : color → bool) (cells : list color) : list Z :=
  where1d_from 0 f cells.

Definition get_empty_points (b : SimpleGoBoard) : list Z :=
  where1d (color_eqb EMPTY) (board b).

(** The start state of [reset(size)]: every cell BORDER except the [size]
    cells of each row, which are EMPTY. *)
Definition on_board_rc (n p : Z) : bool :=
  let row := p / (n + 1) in
  let col := p mod (n + 1) in
  (1 <=? row) && (row <=? n) && (1 <=? col).

Definition reset (n : Z) : SimpleGoBoard :=
  mkBoard n
    (map (fun p => if on_board_rc n p then EMPTY else BORDER)
         (map Z.of_nat (seq 0 (Z.to_nat (maxpoint_of n)))))
    BLACK None (- 1000000)%Q.

(** ** Gomoku moves *)

(** [play_move_gomoku(point, color)]. The second assertion, [point != PASS],
    always holds of an integer point. *)
Definition play_move_gomoku (b : SimpleGoBoard) (point : Z) (c : color)
  : result (bool * SimpleGoBoard) :=
  if negb (is_black_white c) then Raise AssertionError
  else
    let* cur := get_color b point in
    if negb (color_eqb cur EMPTY) then Ok (false, b)
    else
      let* b1 := set_color b point c in
      Ok (true, with_player b1 (opponent c)).

(** [alphabeta.undo(board, move)] *)
Definition undo (b : SimpleGoBoard) (move : Z) : result SimpleGoBoard :=
  let* b1 := set_color b move EMPTY in
  Ok (with_player b1 (opponent (current_player b1))).

(** ** Terminal detection *)

(** Both [while True] loops of [_point_direction_check_connect_gomoko]:
    step from [p] by [d] while the cells hold [c], stopping when [count]
    becomes exactly 5. Every iteration moves the index by [d], so for
    [d <> 0] the loop leaves [-len, len) (IndexError) within [2 * len]
    iterations; [connect_fuel] is that bound. *)
Fixpoint connect_loop (fuel : nat) (b : SimpleGoBoard) (c : color)
    (d p count : Z) : result Z :=
  match fuel with
  | O => Raise OutOfFuel
  | S fuel' =>
      let p := p + d in
      let* cur := get_color b p in
      if color_eqb cur c then
        let count := count + 1 in
        if count =? 5 then Ok count
        else connect_loop fuel' b c d p count
      else Ok count
  end.

Definition connect_fuel (b : SimpleGoBoard) : nat := S (2 * length (board b)).

Definition _point_direction_check_connect_gomoko (b : SimpleGoBoard)
    (point shift : Z) : result bool :=
  let* c := get_color b point in
  let* count := connect_loop (connect_fuel b) b c shift point 1 in
  let* count := connect_loop (connect_fuel b) b c (- shift) point count in
  if negb (count <=? 5) then Raise AssertionError
  else Ok (count =? 5).

Definition point_check_game_end_gomoku (b : SimpleGoBoard) (point : Z)
  : result bool :=
  let* h := _point_direction_check_connect_gomoko b point 1 in
  if h then Ok true else
  let* v := _point_direction_check_connect_gomoko b point (NS b) in
  if v then Ok true else
  let* d1 := _point_direction_check_connect_gomoko b point (NS b + 1) in
  if d1 then Ok true else
  let* d2 := _point_direction_check_connect_gomoko b point (NS b - 1) in
  if d2 then Ok true else Ok false.

(** The [for point in ...: if self.point_check_game_end_gomoku(point):
    return True, colour] loops of [check_game_end_gomoku]. *)
Fixpoint first_game_end (b : SimpleGoBoard) (points : list Z) : result bool :=
  match points with
  | [] => Ok false
  | point :: rest =>
      let* e := point_check_game_end_gomoku b point in
      if e then Ok true else first_game_end b rest
  end.

Definition check_game_end_gomoku (b : SimpleGoBoard)
  : result (bool * option color) :=
  let white_points := where1d (color_eqb WHITE) (board b) in
  let black_points := where1d (color_eqb BLACK) (board b) in
  let* w := first_game_end b white_points in
  if w then Ok (true, Some WHITE) else
  let* k := first_game_end b black_points in
  if k then Ok (true, Some BLACK) else Ok (false, None).

(** ** Python helpers *)

(** [range(start, stop, step)] for a positive [step]. *)
Definition py_range (start stop step : Z) : list Z :=
  map (fun k => start + Z.of_nat k * step)
      (seq 0 (Z.to_nat ((stop - start + step - 1) / step))).

(** [s[1:]] *)
Definition str_tail (s : string) : string :=
  match s with
  | EmptyString => EmptyString
  | String _ t => t
  end.

(** [s.index(".")], counted from 0; Python raises ValueError when the
    character is absent. *)
Fixpoint index_dot (s : string) : option Z :=
  match s with
  | EmptyString => None
  | String c t =>
      if Ascii.eqb c "."%char then Some 0
      else (fun i => i + 1) <$> index_dot t
  end.

(** A dictionary literal with string keys; [s in d] is [is_Some (d !! s)]. *)
Definition dict (V : Type) : Type := gmap string V.
Definition dict_of {V} (l : list (string * V)) : gmap string V := list_to_map l.

(** ** Pattern detector: the recursive scan *)

(** [for dis in patternList[i][have]: moveSet[i].add(...)] *)
Definition add_moves (point dx dy ns : Z) (dis : list Z) (s : gset Z) : gset Z :=
  foldl (fun s d => {[ point - dx * (d + 1) - dy * ns * (d + 1) ]} ∪ s) s dis.

(** The [for i in range(0,4)] loop of [check_pattern]: the first table that
    holds [have] gets its moves added, and the loop breaks. *)
Fixpoint match_tiers (i : nat) (patternList : list (gmap string (list Z)))
    (have : string) (point dx dy ns : Z) (moveSet : list (gset Z))
  : list (gset Z) :=
  match patternList with
  | [] => moveSet
  | d :: rest =>
      match d !! have with
      | Some dis => alter (add_moves point dx dy ns dis) i moveSet
      | None => match_tiers (S i) rest have point dx dy ns moveSet
      end
  end.

Definition piece_of (cur color : color) : string :=
  if color_eqb cur EMPTY then "."
  else if color_eqb cur color then "x"
  else if color_eqb cur BORDER then "B"
  else "o".

(** [check_pattern]. The signature grows by one character per call and the
    recursion stops at nine characters, so ten calls are the most a walk
    makes; [fuel] counts them. The [flag] argument is never written (the
    assignment is commented out in the source) and is left out. *)
Fixpoint check_pattern (fuel : nat) (b : SimpleGoBoard) (point : Z)
    (have : string) (dx dy : Z) (moveSet : list (gset Z))
    (patternList : list (gmap string (list Z))) (color : color)
  : result (list (gset Z)) :=
  let moveSet := match_tiers 0 patternList have point dx dy (NS b) moveSet in
  if negb ((0 <=? point) && (point <? len_board b))
     || (String.length have =? 9)%nat
  then Ok moveSet
  else
    match fuel with
    | O => Raise OutOfFuel
    | S fuel' =>
        let* cur := get_color b point in
        let have := (have +:+ piece_of cur color)%string in
        check_pattern fuel' b (point + dx + dy * NS b) have dx dy
                      moveSet patternList color
    end.

Definition solve_patternList : list (gmap string (list Z)) :=
  [ dict_of [("xxxx.", [0]); ("xxx.x", [1]); ("xx.xx", [2]); ("x.xxx", [3]);
             (".xxxx", [4])];
    dict_of [("oooo.", [0]); ("ooo.o", [1]); ("oo.oo", [2]); ("o.ooo", [3]);
             (".oooo", [4])];
    dict_of [(".xxx..", [1]); ("..xxx.", [4]); (".xx.x.", [2]); (".x.xx.", [3])];
    dict_of [(".ooo..", [1; 5]); ("..ooo.", [0; 4]); (".oo.o.", [2]);
             (".o.oo.", [3])] ]%string.

Definition directions : list (Z * Z) := [(1, 0); (0, 1); (1, 1); (-1, 1)].

(** The two nested [for] loops of [list_solve_point]: every non-border
    point, every direction. *)
Fixpoint scan_directions (b : SimpleGoBoard) (point : Z) (dirs : list (Z * Z))
    (moveSet : list (gset Z)) (patternList : list (gmap string (list Z)))
  : result (list (gset Z)) :=
  match dirs with
  | [] => Ok moveSet
  | (dx, dy) :: rest =>
      let* moveSet := check_pattern 10 b point "" dx dy moveSet patternList
                                    (current_player b) in
      scan_directions b point rest moveSet patternList
  end.

Fixpoint scan_points (b : SimpleGoBoard) (points : list Z)
    (moveSet : list (gset Z)) (patternList : list (gmap string (list Z)))
  : result (list (gset Z)) :=
  match points with
  | [] => Ok moveSet
  | point :: rest =>
      let* moveSet := scan_directions b point directions moveSet patternList in
      scan_points b rest moveSet patternList
  end.

(** The four sets [moveSet] of [list_solve_point] after both loops. *)
Definition solve_moveSet (b : SimpleGoBoard) : result (list (gset Z)) :=
  scan_points b (where1d (fun c => negb (color_eqb c BORDER)) (board b))
              [∅; ∅; ∅; ∅] solve_patternList.

(** [i=0; while i<4 and not bool(moveSet[i]): i+=1] *)
Fixpoint first_nonempty (moveSet : list (gset Z)) : option (gset Z) :=
  match moveSet with
  | [] => None
  | s :: rest => if bool_decide (s = ∅) then first_nonempty rest else Some s
  end.

Section SetOrder.

(** [list(moveSet[i])]: Python does not specify the order in which a set
    is iterated, so the enumeration is a parameter; the lemmas assume of
    it only that it lists the members of the set. *)
Variable list_of_set : gset Z → list Z.

Definition list_solve_point (b : SimpleGoBoard) : result (option (list Z)) :=
  let* moveSet := solve_moveSet b in
  Ok (list_of_set <$> first_nonempty moveSet).

End SetOrder.

(** ** Pattern detector: the line-window scan *)

Definition winDict : gmap string bool :=
  dict_of [("x.xxx", true); ("xx.xx", true); ("xxx.x", true); (".xxxx", true);
           ("xxxx.", true);
           ("o.ooo", false); ("oo.oo", false); ("ooo.o", false);
           (".oooo", false); ("oooo.", false)]%string.

Definition threatDict : gmap string (bool * Z) :=
  dict_of [(".x.xx.", (true, 3)); (".xx.x.", (true, 2)); (".xxx..", (true, 1));
           ("..xxx.", (true, 4));
           (".o.oo.", (false, 3)); (".oo.o.", (false, 2));
           (".ooo..", (false, 1)); ("..ooo.", (false, 4))]%string.

Definition getPointRep (b : SimpleGoBoard) (cp : color) (point : Z)
  : result string :=
  let* value := get_color b point in
  if color_eqb value cp then Ok "x"%string
  else if color_eqb value EMPTY then Ok "."%string
  else if color_eqb value BORDER then Ok "#"%string
  else Ok "o"%string.

(** [checkThreat]: the two lists it appends to are returned. *)
Definition checkThreat (d : gmap string (bool * Z)) (s : string)
    (cpList opList : list Z) (p step : Z) : list Z * list Z :=
  match (d !! s : option (bool * Z)) with
  | Some (mine, back) =>
      if mine then (cpList ++ [p - back * step], opList)
      else (cpList, opList ++ [p - back * step])
  | None => (cpList, opList)
  end.

(** [checkWin]: True on an own win, otherwise None (falsy); the two lists
    are returned with it. *)
Definition checkWin (d : gmap string bool) (s : string)
    (cpList opList : list Z) (p step : Z) : result (bool * list Z * list Z) :=
  match (d !! s : option bool) with
  | Some mine =>
      match index_dot s with
      | None => Raise ValueError
      | Some i =>
          let p := p + (i - 4) * step in
          if mine then Ok (true, cpList ++ [p], opList)
          else Ok (false, cpList, opList ++ [p])
      end
  | None => Ok (false, cpList, opList)
  end.

(** The four result lists: myWins, theirWins, my2mWins, their2mWins. *)
Definition buckets : Type := list Z * list Z * list Z * list Z.

(** The body shared by the four scanning loops of [winDetection]: extend
    the window by the cell at [point], test the 6-window, trim, test the
    5-window. [inl] is the early [return myWins, [], [], []]. *)
Definition scan_cell (b : SimpleGoBoard) (step : Z) (winStr : string)
    (bk : buckets) (point : Z) : result (buckets + string * buckets) :=
  let '(myWins, theirWins, my2mWins, their2mWins) := bk in
  let* rep := getPointRep b (current_player b) point in
  let winStr := (winStr +:+ rep)%string in
  let '(winStr, my2mWins, their2mWins) :=
    if (String.length winStr =? 6)%nat then
      let '(c, o) := checkThreat threatDict winStr my2mWins their2mWins
                                 point step in
      (str_tail winStr, c, o)
    else (winStr, my2mWins, their2mWins) in
  if (String.length winStr =? 5)%nat then
    let* (won, myWins, theirWins) :=
      checkWin winDict winStr myWins theirWins point step in
    if won then Ok (inl (myWins, [], [], []))
    else Ok (inr (winStr, (myWins, theirWins, my2mWins, their2mWins)))
  else Ok (inr (winStr, (myWins, theirWins, my2mWins, their2mWins))).

(** One line: the inner [for point in ...] loop, [winStr] starting empty. *)
Fixpoint scan_line (b : SimpleGoBoard) (step : Z) (points : list Z)
    (winStr : string) (bk : buckets) : result (buckets + buckets) :=
  match points with
  | [] => Ok (inr bk)
  | point :: rest =>
      let* r := scan_cell b step winStr bk point in
      match r with
      | inl early => Ok (inl early)
      | inr (winStr, bk) => scan_line b step rest winStr bk
      end
  end.

(** The horizontal and vertical families: one line per start. *)
Fixpoint scan_lines (b : SimpleGoBoard) (step : Z) (lines : list (list Z))
    (bk : buckets) : result (buckets + buckets) :=
  match lines with
  | [] => Ok (inr bk)
  | line :: rest =>
      let* r := scan_line b step line EmptyString bk in
      match r with
      | inl early => Ok (inl early)
      | inr bk => scan_lines b step rest bk
      end
  end.

(** The points [start, start + step, ...] visited by
    [for i in range(0, dSize): ...; point += step]. *)
Definition line_points (start step dSize : Z) : list Z :=
  map (fun i => start + i * step) (py_range 0 dSize 1).

(** The diagonal families: [dSize] shrinks after every second start. *)
Fixpoint scan_diagonals (b : SimpleGoBoard) (step : Z) (starts : list Z)
    (dSize : Z) (reduceDSize : bool) (bk : buckets)
  : result (buckets + buckets) :=
  match starts with
  | [] => Ok (inr bk)
  | start :: rest =>
      let* r := scan_line b step (line_points start step dSize)
                          EmptyString bk in
      match r with
      | inl early => Ok (inl early)
      | inr bk =>
          scan_diagonals b step rest
            (if reduceDSize then dSize - 1 else dSize) (negb reduceDSize) bk
      end
  end.

(** [for i in range(0, exists): starts.append(c1); starts.append(c2);
    c1 += inc1; c2 += inc2] *)
Fixpoint diag_starts (n : nat) (c1 c2 inc1 inc2 : Z) : list Z :=
  match n with
  | O => []
  | S n' => c1 :: c2 :: diag_starts n' (c1 + inc1) (c2 + inc2) inc1 inc2
  end.

Definition winDetection (b : SimpleGoBoard) : result buckets :=
  let size := size b in
  let startPoint := size + 2 in
  (* horizontal checks *)
  let rows := map (fun rowStart => py_range rowStart (rowStart + size) 1)
                  (py_range startPoint (startPoint + size * size + 1) (size + 1)) in
  let* r := scan_lines b 1 rows ([], [], [], []) in
  match r with inl early => Ok early | inr bk =>
  (* vertical checks *)
  let cols := map (fun colStart =>
                     py_range colStart (colStart + (size + 1) * (size - 1) + 1)
                              (size + 1))
                  (py_range startPoint (startPoint + size) 1) in
  let* r := scan_lines b (size + 1) cols bk in
  match r with inl early => Ok early | inr bk =>
  (* diagonal I *)
  let exists_ := Z.to_nat (size - 5) in
  let dIStarts := startPoint
                  :: diag_starts exists_ (startPoint + size + 1) (startPoint + 1)
                                 (size + 1) 1 in
  let* r := scan_diagonals b (size + 2) dIStarts size true bk in
  match r with inl early => Ok early | inr bk =>
  (* diagonal II *)
  let dIIStarts := (startPoint + size - 1)
                   :: diag_starts exists_ (startPoint + (size - 1) - 1)
                                  (startPoint + (size - 1) + (size + 1))
                                  (- 1) (size + 1) in
  let* r := scan_diagonals b size dIIStarts size true bk in
  match r with inl early => Ok early | inr bk => Ok bk end end end end.

(** ** Numbers *)

(** Python's comparisons on the numbers of the searches. *)
Definition num_gt (a b : Q) : bool := negb (Qle_bool a b).
Definition num_ge (a b : Q) : bool := Qle_bool b a.
Definition num_eq (a b : Q) : bool := Qeq_bool a b.

Definition WINNER_SCORE : Q := 100000.
Definition INFINITY : Q := 10000000000.
Definition START_DEPTH : Z := 2.

(** ** Heuristic score *)

(** The two [while True] loops of
    [_point_direction_check_connect_gomoko_heur]: extend the string until a
    cell that is neither [c] nor EMPTY closes it with a question mark. *)
Fixpoint heur_loop (fuel : nat) (b : SimpleGoBoard) (c : color) (d p : Z)
    (str : string) : result string :=
  match fuel with
  | O => Raise OutOfFuel
  | S fuel' =>
      let p := p + d in
      let* pt := get_color b p in
      if color_eqb pt c then heur_loop fuel' b c d p (str +:+ "x")%string
      else if color_eqb pt EMPTY then heur_loop fuel' b c d p (str +:+ ".")%string
      else Ok (str +:+ "?")%string
  end.

(** [s[::-1]] *)
Fixpoint str_rev (s : string) : string :=
  match s with
  | EmptyString => EmptyString
  | String c t => (str_rev t +:+ String c EmptyString)%string
  end.

(** [for c in string: ...]: full weight for an own stone, half for an empty
    cell, a penalty for the closing cell. *)
Fixpoint score_chars (s : string) (score : Q) : Q :=
  match s with
  | EmptyString => score
  | String c t =>
      score_chars t
        (if Ascii.eqb c "x"%char then score + 1
         else if Ascii.eqb c "."%char then score + (1 # 2)
         else if Ascii.eqb c "?"%char then score - 1
         else score)%Q
  end.

(** The score is a Python float with one representation; the rational is
    kept in lowest terms to match. *)
Definition _point_direction_check_connect_gomoko_heur (b : SimpleGoBoard)
    (point shift : Z) : result Q :=
  let* c := get_color b point in
  let* right_str := heur_loop (connect_fuel b) b c shift point EmptyString in
  let* left_str := heur_loop (connect_fuel b) b c (- shift) point EmptyString in
  let string := (str_rev left_str +:+ right_str)%string in
  Ok (Qred (score_chars string 0)).

(** [point_check_game_end_gomoku_heur] as the source has it: the [return]
    statement ends on its own line with the horizontal term; the three lines
    below it, each starting with [+], are not part of it. *)
Definition point_check_game_end_gomoku_heur (b : SimpleGoBoard) (point : Z)
  : result Q :=
  _point_direction_check_connect_gomoko_heur b point 1.

(** The sum the three dangling lines were meant to complete: the
    line-potential of [point] over the four directions. This follows the
    words of the specification, not the source. *)
Definition line_potential_spec (b : SimpleGoBoard) (point : Z) : result Q :=
  let* h := _point_direction_check_connect_gomoko_heur b point 1 in
  let* v := _point_direction_check_connect_gomoko_heur b point (NS b) in
  let* d1 := _point_direction_check_connect_gomoko_heur b point (NS b + 1) in
  let* d2 := _point_direction_check_connect_gomoko_heur b point (NS b - 1) in
  Ok (Qred (h + v + d1 + d2)).

(** [for point in points: score += f(point)] (sign [+1]) and
    [score -= f(point)] (sign [-1]). *)
Fixpoint accumulate (f : Z → result Q) (sign : Q) (points : list Z) (score : Q)
  : result Q :=
  match points with
  | [] => Ok score
  | point :: rest =>
      let* s := f point in
      accumulate f sign rest (Qred (score + sign * s))
  end.

(** [get_heuristic_score], reading the first loop body without the stray
    colon that ends its line in the source. *)
Definition get_heuristic_score (b : SimpleGoBoard) : result Q :=
  let current_points := where1d (color_eqb (current_player b)) (board b) in
  let enemy_points :=
    where1d (color_eqb (opponent (current_player b))) (board b) in
  let* score := accumulate (point_check_game_end_gomoku_heur b) 1
                           current_points 0 in
  accumulate (point_check_game_end_gomoku_heur b) (- 1) enemy_points score.

(** The accumulation rule of the specification: the four-direction
    potential of the current player's stones minus that of the opponent's. *)
Definition heuristic_score_spec (b : SimpleGoBoard) : result Q :=
  let current_points := where1d (color_eqb (current_player b)) (board b) in
  let enemy_points :=
    where1d (color_eqb (opponent (current_player b))) (board b) in
  let* score := accumulate (line_potential_spec b) 1 current_points 0 in
  accumulate (line_potential_spec b) (- 1) enemy_points score.

(** ** HeuristicSearch: negaAB *)

Definition search_result : Type := (Q * option Z) * SimpleGoBoard.

Section NegaAB.

(** The recursive call [self.negaAB(alpha, beta, d, prev_move)]. *)
Variable rec : Q → Q → Z → option Z → SimpleGoBoard → result search_result.

(** The forced block (the same text stands twice in the source, once for
    [theirWins[0]] and once for [their2mWins[0]]). *)
Definition negaAB_forced (alpha beta : Q) (d point : Z) (b : SimpleGoBoard)
  : result search_result :=
  let* b := set_color b point (current_player b) in
  let b := with_player b (opponent (current_player b)) in
  let* (res, b) := rec (- beta)%Q (- alpha)%Q (d - 1) (Some point) b in
  let v := (- fst res)%Q in
  let b := with_player b (opponent (current_player b)) in
  let* b := set_color b point EMPTY in
  Ok ((v, Some point), b).

(** The [while (len(empty_points) != 0)] loop; [points] is what is left of
    [empty_points], last element first. The string [bstr] built in the
    loop is never used and is left out. *)
Fixpoint negaAB_loop (points : list Z) (alpha beta : Q) (d point : Z)
    (b : SimpleGoBoard) : result search_result :=
  match points with
  | [] => Ok ((alpha, Some point), b)
  | point :: rest =>
      let* b := set_color b point (current_player b) in
      let* ended := point_check_game_end_gomoku b point in
      if ended then
        let* b := set_color b point EMPTY in
        Ok ((1%Q, Some point), b)
      else
        let b := with_player b (opponent (current_player b)) in
        let* (res, b) := rec (- beta)%Q (- alpha)%Q (d - 1) (Some point) b in
        let v := (- fst res)%Q in
        let alpha := if num_gt v alpha then v else alpha in
        let b := with_player b (opponent (current_player b)) in
        let* b := set_color b point EMPTY in
        if num_ge v beta then Ok ((beta, Some point), b)
        else negaAB_loop rest alpha beta d point b
  end.

Definition negaAB_body (alpha beta : Q) (d : Z) (prev_move : option Z)
    (b : SimpleGoBoard) : result search_result :=
  let empty_points := get_empty_points b in
  if d =? 0 then
    let* score := get_heuristic_score b in
    if num_gt score (best_move_score b) then
      let b := with_best b score prev_move in
      if num_eq score WINNER_SCORE then Ok ((1%Q, prev_move), b)
      else if num_eq score (- WINNER_SCORE) then Ok (((- 1)%Q, prev_move), b)
      else Ok ((0%Q, None), b)
    else Ok ((0%Q, None), b)
  else
    match empty_points with
    | [] => Ok ((0%Q, None), b)
    | point :: _ =>
        let* (myWins, theirWins, my2mWins, their2mWins) := winDetection b in
        match myWins with
        | w :: _ => Ok ((1%Q, Some w), b)
        | [] =>
            match theirWins with
            | t :: _ :: _ => Ok (((- 1)%Q, Some t), b)
            | [t] =>
                match their2mWins with
                | _ :: _ => Ok (((- 1)%Q, Some t), b)
                | [] => negaAB_forced alpha beta d t b
                end
            | [] =>
                match my2mWins with
                | w :: _ => Ok ((1%Q, Some w), b)
                | [] =>
                    match their2mWins with
                    | t :: _ :: _ => Ok (((- 1)%Q, Some t), b)
                    | [t] => negaAB_forced alpha beta d t b
                    | [] =>
                        negaAB_loop (rev empty_points) alpha beta d point b
                    end
                end
            end
        end
    end.

End NegaAB.

(** [negaAB]: every recursive call is made on a board with one more stone
    and a full board returns at once, so the recursion is no deeper than the
    number of empty points; [fuel] counts the nested calls. *)
Fixpoint negaAB_fuel (fuel : nat) (alpha beta : Q) (d : Z)
    (prev_move : option Z) (b : SimpleGoBoard) : result search_result :=
  match fuel with
  | O => Raise OutOfFuel
  | S fuel' => negaAB_body (negaAB_fuel fuel') alpha beta d prev_move b
  end.

Definition negaAB (alpha beta : Q) (d : Z) (prev_move : option Z)
    (b : SimpleGoBoard) : result search_result :=
  negaAB_fuel (S (length (get_empty_points b))) alpha beta d prev_move b.

(** ** AlphaBetaSolver *)

(** Modelled from the spec: [GoBoardUtil.generate_legal_moves_gomoku] of
    [board_util], which is not among the sources: "all remaining legal
    (empty) points". *)
Definition generate_legal_moves_gomoku (b : SimpleGoBoard) : list Z :=
  get_empty_points b.

Definition game_end (b : SimpleGoBoard) : result (option Q) :=
  let* (ended, winner) := check_game_end_gomoku b in
  let moves := get_empty_points b in
  let board_full := bool_decide (length moves = 0%nat) in
  if ended then
    Ok (Some (if bool_decide (winner = Some (current_player b))
              then INFINITY else (- INFINITY)%Q))
  else if board_full then Ok (Some 0%Q)
  else Ok None.

Section AlphaBeta.

Variable list_of_set : gset Z → list Z.

(** The recursive call [alphabeta(board, alpha, beta, d)]. *)
Variable rec : Q → Q → Z → SimpleGoBoard → result (Q * SimpleGoBoard).

(** Play [m], search one ply with the negated window, undo: the text
    shared by the forced branch and the enumeration. Returns [result],
    the raised [alpha] and the board. *)
Definition try_move (m : Z) (alpha beta : Q) (d : Z) (b : SimpleGoBoard)
  : result (Q * Q * SimpleGoBoard) :=
  let* (_, b) := play_move_gomoku b m (current_player b) in
  let* (r, b) := rec (- beta)%Q (- alpha)%Q (d - 1) b in
  let result := (- r)%Q in
  let alpha := if num_gt result alpha then result else alpha in
  let* b := undo b m in
  Ok (result, alpha, b).

Fixpoint alphabeta_moves (moves : list Z) (alpha beta : Q) (d : Z)
    (b : SimpleGoBoard) : result (Q * SimpleGoBoard) :=
  match moves with
  | [] => Ok (alpha, b)
  | m :: rest =>
      let* (result, alpha, b) := try_move m alpha beta d b in
      if num_ge result beta then Ok (beta, b)
      else alphabeta_moves rest alpha beta d b
  end.

Definition alphabeta_body (alpha beta : Q) (d : Z) (b : SimpleGoBoard)
  : result (Q * SimpleGoBoard) :=
  let* result := game_end b in
  match result with
  | Some v => Ok (v, b)
  | None =>
      let* solvePoint := list_solve_point list_of_set b in
      match solvePoint with
      | Some (m :: _) =>
          let* (result, alpha, b) := try_move m alpha beta d b in
          if num_ge result beta then Ok (beta, b) else Ok (alpha, b)
      | _ =>
          if d <=? 0 then
            let* score := get_heuristic_score b in Ok (score, b)
          else
            alphabeta_moves (generate_legal_moves_gomoku b) alpha beta d b
      end
  end.

End AlphaBeta.

(** [alphabeta]: as for [negaAB], each nested call is on a board with one
    more stone and a full board is terminal. *)
Fixpoint alphabeta_fuel (list_of_set : gset Z → list Z) (fuel : nat)
    (alpha beta : Q) (d : Z) (b : SimpleGoBoard) : result (Q * SimpleGoBoard) :=
  match fuel with
  | O => Raise OutOfFuel
  | S fuel' =>
      alphabeta_body list_of_set (alphabeta_fuel list_of_set fuel') alpha beta d b
  end.

Definition alphabeta (list_of_set : gset Z → list Z) (alpha beta : Q) (d : Z)
    (b : SimpleGoBoard) : result (Q * SimpleGoBoard) :=
  alphabeta_fuel list_of_set (S (length (get_empty_points b))) alpha beta d b.

(** The two components of what [solve] returns: the first is [True], the
    flag [haveDraw] or the terminal value; the second a point, ["NoMove"]
    or ["First"]. *)
Inductive solve_flag : Type := Flag (f : bool) | Value (v : Q).
Inductive solve_move : Type := Point (m : Z) | NoMove | First.

Section Solve.

Variable list_of_set : gset Z → list Z.

(** The [for m in ...] loop of [solve]; [sboard] only records the best
    fallback. The [print] of the loop is output only and left out. *)
Fixpoint solve_moves (moves : list Z) (alpha beta : Q)
    (b sboard : SimpleGoBoard)
  : result (option Z * SimpleGoBoard * SimpleGoBoard) :=
  match moves with
  | [] => Ok (None, b, sboard)
  | m :: rest =>
      let* (_, b) := play_move_gomoku b m (current_player b) in
      let* (r, b) := alphabeta list_of_set (- beta)%Q (- alpha)%Q START_DEPTH b in
      let result := (- r)%Q in
      let* b := undo b m in
      if num_eq result INFINITY then Ok (Some m, b, sboard)
      else
        let sboard :=
          if num_gt result (best_move_score sboard)
          then with_best sboard result (Some m) else sboard in
        solve_moves rest alpha beta b sboard
  end.

(** [solve(board, sboard)]: the answer, then the two boards. The search
    never reads or writes the best-move fields, so whether the two
    arguments are one object or two makes no difference to the answer. *)
Definition solve (b sboard : SimpleGoBoard)
  : result (solve_flag * solve_move * SimpleGoBoard * SimpleGoBoard) :=
  let* result := game_end b in
  match result with
  | Some v => Ok (Value v, First, b, sboard)
  | None =>
      let sboard := with_best sboard (- INFINITY)%Q None in
      let alpha := (- INFINITY)%Q in
      let beta := INFINITY in
      let haveDraw := false in
      let* solvePoint := list_solve_point list_of_set b in
      match solvePoint with
      | Some (m :: _) =>
          let* (_, b) := play_move_gomoku b m (current_player b) in
          let* (r, b) := alphabeta list_of_set (- beta)%Q (- alpha)%Q START_DEPTH b in
          let result := (- r)%Q in
          let* b := undo b m in
          if num_eq result INFINITY then Ok (Flag true, Point m, b, sboard)
          else
            let haveDraw := if num_eq result 0 then true else haveDraw in
            Ok (Flag haveDraw, NoMove, b, sboard)
      | _ =>
          let* (found, b, sboard) :=
            solve_moves (generate_legal_moves_gomoku b) alpha beta b sboard in
          match found with
          | Some m => Ok (Flag true, Point m, b, sboard)
          | None => Ok (Flag haveDraw, NoMove, b, sboard)
          end
      end
  end.

End Solve.

(** ** Well-formed boards and specification predicates *)

(** The invariant [reset] establishes and the Gomoku path keeps: the array
    has [maxpoint] cells, every cell off the [size] x [size] grid is BORDER,
    every cell on it is not, and the player to move is BLACK or WHITE. *)
Definition wf_cells (n : Z) (cells : list color) : bool :=
  bool_decide (Z.of_nat (length cells) = maxpoint_of n)
  && forallb (fun ic : Z * color =>
                bool_decide (on_board_rc n ic.1 = false ↔ ic.2 = BORDER))
             (zip (map Z.of_nat (seq 0 (length cells))) cells).

Definition wf_board (b : SimpleGoBoard) : bool :=
  (1 <=? size b) && wf_cells (size b) (board b)
  && is_black_white (current_player b).

(** A board of the 7 x 7 game given by its stones; [pt row col] is
    [coord_to_point], [row * NS + col]. *)
Definition pt (row col : Z) : Z := row * 8 + col.

Fixpoint put_stones (cells : list color) (stones : list (Z * color))
  : list color :=
  match stones with
  | [] => cells
  | (p, c) :: rest => put_stones (<[Z.to_nat p := c]> cells) rest
  end.

Definition board7 (stones : list (Z * color)) (to_play : color)
  : SimpleGoBoard :=
  mkBoard 7 (put_stones (board (reset 7)) stones) to_play None (- 1000000)%Q.


(** A stone colour. *)
Definition stone (c : color) : Prop := is_black_white c = true.

(** ** Runs of one colour *)

(** [run b c d p n]: the [n] cells after [p] in steps of [d] hold [c], and
    the next one holds something else. *)
Inductive run (b : SimpleGoBoard) (c : color) (d : Z) : Z → nat → Prop :=
| run_stop p c' :
    get_color b (p + d) = Ok c' → c' ≠ c → run b c d p 0
| run_step p n :
    get_color b (p + d) = Ok c → run b c d (p + d) n → run b c d p (S n).

(** ** Lines of five *)

(** The four directions of [point_check_game_end_gomoku]. *)
Definition shifts (b : SimpleGoBoard) : list Z :=
  [1; NS b; NS b + 1; NS b - 1].

(** [p] lies on [n] or more contiguous cells of colour [c] along [d]. *)
Definition on_line (b : SimpleGoBoard) (c : color) (p d n : Z) : Prop :=
  ∃ lo hi, lo ≤ 0 ≤ hi ∧ n ≤ hi - lo + 1 ∧
           ∀ k, lo ≤ k ≤ hi → get_color b (p + k * d) = Ok c.

(** [p] is a stone of colour [c] on a line of five or more, in one of the
    four directions. *)
Definition five_at (b : SimpleGoBoard) (c : color) (p : Z) : Prop :=
  0 ≤ p < len_board b ∧ ∃ d, d ∈ shifts b ∧ on_line b c p d 5.

Definition has_five (b : SimpleGoBoard) (c : color) : Prop :=
  ∃ p, five_at b c p.

(** ** Boards used as examples *)

(** Six BLACK stones in a row, from (1,1) to (1,6), and nothing else. *)
Definition six_in_a_row : SimpleGoBoard :=
  board7 [(pt 1 1, BLACK); (pt 1 2, BLACK); (pt 1 3, BLACK); (pt 1 4, BLACK);
          (pt 1 5, BLACK); (pt 1 6, BLACK)] WHITE.

(** Five BLACK stones in a row, from (3,2) to (3,6). *)
Definition five_in_a_row : SimpleGoBoard :=
  board7 [(pt 3 2, BLACK); (pt 3 3, BLACK); (pt 3 4, BLACK); (pt 3 5, BLACK);
          (pt 3 6, BLACK)] WHITE.

(** ** Windows spelled on the board *)

(** The direction vector [(dx, dy)] as an index step. *)
Definition step_of (b : SimpleGoBoard) (dir : Z * Z) : Z :=
  dir.1 + dir.2 * NS b.

(** The cells [s], [s + d], ... are cells of the array and read, in the
    alphabet of [check_pattern] for the player [color], as the string [w]. *)
Fixpoint spelled (b : SimpleGoBoard) (color : color) (s d : Z) (w : string)
  : Prop :=
  match w with
  | EmptyString => True
  | String ch w' =>
      0 ≤ s < len_board b ∧
      (∃ c, get_color b s = Ok c ∧ piece_of c color = String ch EmptyString) ∧
      spelled b color (s + d) d w'
  end.

(** The same as a test. *)
Fixpoint spelledb (b : SimpleGoBoard) (color : color) (s d : Z) (w : string)
  : bool :=
  match w with
  | EmptyString => true
  | String ch w' =>
      (0 <=? s) && (s <? len_board b)
      && match get_color b s with
         | Ok c => bool_decide (piece_of c color = String ch EmptyString)
         | Raise _ => false
         end
      && spelledb b color (s + d) d w'
  end.

(** [x] is a move that the table [table] attaches to some window of the
    board: the window is spelled from [s] along one of the four directions,
    it is a key of the table, and [x] is the cell [dis + 1] steps back from
    the cell after the window. *)
Definition pattern_move (b : SimpleGoBoard) (table : gmap string (list Z))
    (x : Z) : Prop :=
  ∃ s dir w l dis,
    dir ∈ directions ∧
    spelled b (current_player b) s (step_of b dir) w ∧
    table !! w = Some l ∧ dis ∈ l ∧
    x = s + (Z.of_nat (String.length w) - 1 - dis) * step_of b dir.

(** Membership in the [i]-th of the four sets. *)
Definition in_tier (moveSet : list (gset Z)) (i : nat) (x : Z) : Prop :=
  ∃ s, moveSet !! i = Some s ∧ x ∈ s.

(** [x] is the move of a window of at most nine cells spelled from [s]
    along [dir], for the table of index [i], which is the first of
    [tables] that holds the window. *)
Definition window_move (b : SimpleGoBoard)
    (tables : list (gmap string (list Z))) (s : Z) (dir : Z * Z) (i : nat)
    (x : Z) : Prop :=
  ∃ w table l dis,
    spelled b (current_player b) s (step_of b dir) w ∧
    (String.length w ≤ 9)%nat ∧
    tables !! i = Some table ∧ table !! w = Some l ∧
    (∀ j' t', (j' < i)%nat → tables !! j' = Some t' → t' !! w = None) ∧
    dis ∈ l ∧
    x = s + (Z.of_nat (String.length w) - 1 - dis) * step_of b dir.

(** The table of the tier [i] of [list_solve_point]: 0 immediate win,
    1 block the opponent's win, 2 create an open four, 3 block the
    opponent's open four. *)
Definition tier_table (i : nat) : gmap string (list Z) :=
  default ∅ (solve_patternList !! i).

(** The moves of tier [i] on a board. *)
Definition tier_move (b : SimpleGoBoard) (i : nat) (x : Z) : Prop :=
  pattern_move b (tier_table i) x.

(** BLACK to move with four in a row at (1,1)..(1,4) and WHITE with four in
    a row at (3,1)..(3,4): (1,5) wins, (3,5) blocks. *)
Definition win_and_block : SimpleGoBoard :=
  board7 [(pt 1 1, BLACK); (pt 1 2, BLACK); (pt 1 3, BLACK); (pt 1 4, BLACK);
          (pt 3 1, WHITE); (pt 3 2, WHITE); (pt 3 3, WHITE); (pt 3 4, WHITE)]
         BLACK.

(** ** Windows of the line scan *)

(** The content of a cell of the array. *)
Definition cell (b : SimpleGoBoard) (p : Z) : color :=
  default BORDER (board b !! Z.to_nat p).

(** The character [getPointRep] gives a colour. *)
Definition rep_of (value cp : color) : string :=
  if color_eqb value cp then "x"
  else if color_eqb value EMPTY then "."
  else if color_eqb value BORDER then "#"
  else "o".

(** The signature of the [m] cells [a], [a + st], ... for the player to
    move, in the alphabet of [getPointRep]. *)
Fixpoint sig (b : SimpleGoBoard) (a st : Z) (m : nat) : string :=
  match m with
  | O => EmptyString
  | S m' => (rep_of (cell b a) (current_player b) +:+ sig b (a + st) st m')%string
  end.

(** The [n] points [a], [a + st], ... of a scanned line. *)
Definition progression (a st : Z) (n : nat) : list Z :=
  map (fun k => a + Z.of_nat k * st) (seq 0 n).

(** A scanned line: its first point, its step and its number of points. *)
Definition line : Type := Z * Z * nat.

(** [x] is the empty cell of a 5-window of the line that [winDict] knows
    as a win of the player to move ([own = true]) or of the opponent. *)
Definition win5 (b : SimpleGoBoard) (own : bool) (ln : line) (x : Z) : Prop :=
  let '(a, st, n) := ln in
  ∃ (j : nat) (idx : Z),
    (j + 5 ≤ n)%nat ∧
    winDict !! sig b (a + Z.of_nat j * st) st 5 = Some own ∧
    index_dot (sig b (a + Z.of_nat j * st) st 5) = Some idx ∧
    x = a + (Z.of_nat j + idx) * st.

(** [x] is the cell that [threatDict] attaches to a 6-window of the line. *)
Definition thr6 (b : SimpleGoBoard) (own : bool) (ln : line) (x : Z) : Prop :=
  let '(a, st, n) := ln in
  ∃ (j : nat) (back : Z),
    (j + 6 ≤ n)%nat ∧
    threatDict !! sig b (a + Z.of_nat j * st) st 6 = Some (own, back) ∧
    x = a + (Z.of_nat j + 5 - back) * st.

(** Every point of the line indexes the array. *)
Definition line_in_range (b : SimpleGoBoard) (ln : line) : Prop :=
  let '(a, st, n) := ln in
  ∀ j : nat, (j < n)%nat → 0 ≤ a + Z.of_nat j * st < len_board b.

(** The windows of a line that the scan still has to test when [k] points
    of the line have been read: those that end at the point of index [k]
    or later. *)
Definition win5_from (b : SimpleGoBoard) (own : bool) (ln : line) (k : nat)
    (x : Z) : Prop :=
  let '(a, st, n) := ln in
  ∃ (j : nat) (idx : Z),
    (k ≤ j + 4)%nat ∧ (j + 5 ≤ n)%nat ∧
    winDict !! sig b (a + Z.of_nat j * st) st 5 = Some own ∧
    index_dot (sig b (a + Z.of_nat j * st) st 5) = Some idx ∧
    x = a + (Z.of_nat j + idx) * st.

Definition thr6_from (b : SimpleGoBoard) (own : bool) (ln : line) (k : nat)
    (x : Z) : Prop :=
  let '(a, st, n) := ln in
  ∃ (j : nat) (back : Z),
    (k ≤ j + 5)%nat ∧ (j + 6 ≤ n)%nat ∧
    threatDict !! sig b (a + Z.of_nat j * st) st 6 = Some (own, back) ∧
    x = a + (Z.of_nat j + 5 - back) * st.

(** [winStr] when [k] points of the line have been read: the signature of
    the last five of them, or of all of them when there are fewer. *)
Definition winStr_at (b : SimpleGoBoard) (a st : Z) (k : nat) : string :=
  sig b (a + Z.of_nat (k - min k 5) * st) st (min k 5).

(** What the scan tests at the point of index [k] of a line: the 5-window
    and the 6-window that end there. *)
Definition step_win (b : SimpleGoBoard) (own : bool) (a st : Z) (k : nat)
    (x : Z) : Prop :=
  (4 ≤ k)%nat ∧
  ∃ idx, winDict !! sig b (a + Z.of_nat (k - 4) * st) st 5 = Some own ∧
         index_dot (sig b (a + Z.of_nat (k - 4) * st) st 5) = Some idx ∧
         x = a + (Z.of_nat (k - 4) + idx) * st.

Definition step_thr (b : SimpleGoBoard) (own : bool) (a st : Z) (k : nat)
    (x : Z) : Prop :=
  (5 ≤ k)%nat ∧
  ∃ back, threatDict !! sig b (a + Z.of_nat (k - 5) * st) st 6
          = Some (own, back) ∧
          x = a + (Z.of_nat k - back) * st.

(** The points of a line. *)
Definition points_of (ln : line) : list Z :=
  let '(a, st, n) := ln in progression a st n.

(** The outcome of scanning the lines [lns] from the lists [bk]: either the
    early exit on the own win of some window, or the four lists extended by
    what the windows of the lines give, no window being an own win. *)
Definition scan_post (b : SimpleGoBoard) (lns : list line) (bk : buckets)
    (res : buckets + buckets) : Prop :=
  let '(mw, tw, m2, t2) := bk in
  (∃ x ln, ln ∈ lns ∧ win5 b true ln x ∧ res = inl (mw ++ [x], [], [], [])) ∨
  ((∀ ln x, ln ∈ lns → ¬ win5 b true ln x) ∧
   ∃ T M2 T2,
     res = inr (mw, tw ++ T, m2 ++ M2, t2 ++ T2) ∧
     (∀ x, x ∈ T ↔ ∃ ln, ln ∈ lns ∧ win5 b false ln x) ∧
     (∀ x, x ∈ M2 ↔ ∃ ln, ln ∈ lns ∧ thr6 b true ln x) ∧
     (∀ x, x ∈ T2 ↔ ∃ ln, ln ∈ lns ∧ thr6 b false ln x)).

(** ** The lines [winDetection] scans *)

Definition row_lines (b : SimpleGoBoard) : list line :=
  map (fun rowStart => (rowStart, 1, Z.to_nat (size b)))
      (py_range (size b + 2) (size b + 2 + size b * size b + 1) (size b + 1)).

Definition col_lines (b : SimpleGoBoard) : list line :=
  map (fun colStart => (colStart, size b + 1, Z.to_nat (size b)))
      (py_range (size b + 2) (size b + 2 + size b) 1).

(** The diagonals, with the length [dSize] each one is scanned to. *)
Fixpoint diag_lines (st : Z) (starts : list Z) (dSize : Z)
    (reduceDSize : bool) : list line :=
  match starts with
  | [] => []
  | start :: rest =>
      (start, st, Z.to_nat dSize)
      :: diag_lines st rest (if reduceDSize then dSize - 1 else dSize)
                    (negb reduceDSize)
  end.

Definition diag1_lines (b : SimpleGoBoard) : list line :=
  let startPoint := size b + 2 in
  diag_lines (size b + 2)
    (startPoint :: diag_starts (Z.to_nat (size b - 5))
                               (startPoint + size b + 1) (startPoint + 1)
                               (size b + 1) 1)
    (size b) true.

Definition diag2_lines (b : SimpleGoBoard) : list line :=
  let startPoint := size b + 2 in
  diag_lines (size b)
    ((startPoint + size b - 1)
     :: diag_starts (Z.to_nat (size b - 5))
                    (startPoint + (size b - 1) - 1)
                    (startPoint + (size b - 1) + (size b + 1))
                    (- 1) (size b + 1))
    (size b) true.

Definition scanned_lines (b : SimpleGoBoard) : list line :=
  row_lines b ++ col_lines b ++ diag1_lines b ++ diag2_lines b.

(** ** Windows on the board, for both scans *)

(** A signature without border characters. *)
Fixpoint cleanb (w : string) : bool :=
  match w with
  | EmptyString => true
  | String ch w' =>
      negb (Ascii.eqb ch "#"%char) && negb (Ascii.eqb ch "B"%char)
      && cleanb w'
  end.

(** [x] is the empty cell of five cells in a row, along one of the four
    directions, that [winDict] knows: four stones of the player to move and
    [x] ([own = true]), or four stones of the opponent and [x]. *)
Definition hit5 (b : SimpleGoBoard) (own : bool) (x : Z) : Prop :=
  ∃ s st w idx,
    st ∈ shifts b ∧ spelled b (current_player b) s st w ∧
    winDict !! w = Some own ∧ index_dot w = Some idx ∧ x = s + idx * st.

(** [x] is the cell [threatDict] attaches to six cells in a row: an open
    three of the player to move ([own = true]) or of the opponent. *)
Definition hit6 (b : SimpleGoBoard) (own : bool) (x : Z) : Prop :=
  ∃ s st w back,
    st ∈ shifts b ∧ spelled b (current_player b) s st w ∧
    threatDict !! w = Some (own, back) ∧ x = s + (5 - back) * st.

(** [x] is an immediate winning point: the player to move can play there,
    and the stone then lies on a line of five or more. *)
Definition immediate_win (b : SimpleGoBoard) (x : Z) : Prop :=
  0 ≤ x < len_board b ∧
  ∃ b', play_move_gomoku b x (current_player b) = Ok (true, b') ∧
        five_at b' (current_player b) x.

(** The board with the colour [c] written at the index [x]. *)
Definition place (b : SimpleGoBoard) (x : Z) (c : color) : SimpleGoBoard :=
  with_board b (<[Z.to_nat x := c]> (board b)).

(** The highest-priority non-empty list of [winDetection]'s four, with its
    rank: 0 own wins, 1 opponent wins, 2 own two-move wins, 3 opponent
    two-move wins. *)
Definition first_bucket (bk : buckets) : option (nat * list Z) :=
  let '(myWins, theirWins, my2mWins, their2mWins) := bk in
  match myWins, theirWins, my2mWins, their2mWins with
  | _ :: _, _, _, _ => Some (0%nat, myWins)
  | [], _ :: _, _, _ => Some (1%nat, theirWins)
  | [], [], _ :: _, _ => Some (2%nat, my2mWins)
  | [], [], [], _ :: _ => Some (3%nat, their2mWins)
  | [], [], [], [] => None
  end.

(** BLACK to move with four in a row at (1,1)..(1,4). *)
Definition four_in_a_row : SimpleGoBoard :=
  board7 [(pt 1 1, BLACK); (pt 1 2, BLACK); (pt 1 3, BLACK); (pt 1 4, BLACK)]
         BLACK.

(** BLACK to move with an open four at (3,2)..(3,5): both (3,1) and (3,6)
    win. *)
Definition open_four : SimpleGoBoard :=
  board7 [(pt 3 2, BLACK); (pt 3 3, BLACK); (pt 3 4, BLACK); (pt 3 5, BLACK)]
         BLACK.

(** ** The frame of the searches *)

(** Two board states with the same position: the same grid, cells and
    player to move. The best-move record is not part of the position. *)
Definition same_position (b b' : SimpleGoBoard) : Prop :=
  size b' = size b ∧ board b' = board b ∧
  current_player b' = current_player b.

(** A single BLACK stone in the middle of the board, BLACK to move. *)
Definition lone_stone : SimpleGoBoard := board7 [(pt 4 4, BLACK)] BLACK.

(** BLACK to move against a WHITE four at (3,1)..(3,4): (3,5) is WHITE's
    only winning point, and WHITE has no open three. *)
Definition white_four : SimpleGoBoard :=
  board7 [(pt 3 1, WHITE); (pt 3 2, WHITE); (pt 3 3, WHITE); (pt 3 4, WHITE);
          (pt 5 5, BLACK); (pt 6 2, BLACK); (pt 1 6, BLACK); (pt 7 7, BLACK)]
         BLACK.

(** ** The answer of the solver *)

(** The position after the player to move has played on [p]. *)
Definition after_move (b : SimpleGoBoard) (p : Z) : SimpleGoBoard :=
  with_player (place b p (current_player b)) (opponent (current_player b)).

Section SearchValue.

Variable list_of_set : gset Z → list Z.

(** The value [solve] gives the move [p]: minus what [alphabeta] returns
    for the position after it, with the full window and START_DEPTH. *)
Definition search_value (b : SimpleGoBoard) (p : Z) : result Q :=
  let* (r, _) := alphabeta list_of_set (- INFINITY)%Q (- - INFINITY)%Q
                           START_DEPTH (after_move b p) in
  Ok (- r)%Q.

(** The pair [solve] returns. *)
Definition solve_answer (b sboard : SimpleGoBoard)
  : result (solve_flag * solve_move) :=
  let* (flag, move, _, _) := solve list_of_set b sboard in
  Ok (flag, move).

End SearchValue.

(** ** What the answer of [solve] is *)

Section SolveAnswer.

Variable list_of_set : gset Z → list Z.

(** The search value of the move [p] is INFINITY. *)
Definition search_win (b : SimpleGoBoard) (p : Z) : bool :=
  match search_value list_of_set b p with
  | Ok v => num_eq v INFINITY
  | Raise _ => false
  end.

(** The search value of the move [p] is 0. *)
Definition search_draw (b : SimpleGoBoard) (p : Z) : bool :=
  match search_value list_of_set b p with
  | Ok v => num_eq v 0
  | Raise _ => false
  end.

(** The moves [solve] tries, in the order in which it tries them, given
    what [list_solve_point] has returned: its first point alone when it
    lists one, and every empty point, in increasing order, otherwise. *)
Definition solve_candidates (solvePoint : option (list Z))
    (b : SimpleGoBoard) : list Z :=
  match solvePoint with
  | Some (m :: _) => [m]
  | _ => get_empty_points b
  end.

(** The answer of [solve] on a position that is not over. The candidates
    are empty points and each has a search value. The answer is True with
    the first candidate whose search value is INFINITY when there is one;
    otherwise it is NoMove with the flag [haveDraw], which is True exactly
    when the single critical point tried has the search value 0. And when
    the player to move has an immediate winning point, the answer is True
    with such a point. *)
Definition answer_spec (b : SimpleGoBoard) (flag : solve_flag)
    (move : solve_move) : Prop :=
  ∃ solvePoint,
    list_solve_point list_of_set b = Ok solvePoint ∧
    (∀ m, m ∈ solve_candidates solvePoint b →
          m ∈ get_empty_points b ∧
          ∃ v, search_value list_of_set b m = Ok v) ∧
    match List.find (search_win b) (solve_candidates solvePoint b) with
    | Some p => flag = Flag true ∧ move = Point p
    | None =>
        move = NoMove ∧
        flag = Flag (match solvePoint with
                     | Some (m :: _) => search_draw b m
                     | _ => false
                     end)
    end ∧
    ((∃ x, immediate_win b x) →
     ∃ p, flag = Flag true ∧ move = Point p ∧ immediate_win b p).

End SolveAnswer.

(** A 7 x 7 board from its rows, top row first: B, W, and any other
    character for an empty point. *)
Fixpoint row_stones (row col : Z) (s : string) : list (Z * color) :=
  match s with
  | EmptyString => []
  | String ch t =>
      (if Ascii.eqb ch "B"%char then [(pt row col, BLACK)]
       else if Ascii.eqb ch "W"%char then [(pt row col, WHITE)]
       else [])
      ++ row_stones row (col + 1) t
  end.

Fixpoint rows_stones (row : Z) (rows : list string) : list (Z * color) :=
  match rows with
  | [] => []
  | s :: rest => row_stones row 1 s ++ rows_stones (row + 1) rest
  end.

Definition board_of_rows (rows : list string) (to_play : color)
  : SimpleGoBoard :=
  board7 (rows_stones 1 rows) to_play.

(** BLACK to move on a board with one empty point, (3,5), where WHITE
    threatens five; the block fills the board and nobody has five. *)
Definition last_point : SimpleGoBoard :=
  board_of_rows ["BWWWBBB";
                 "BBBWWWB";
                 "WWWW.BB";
                 "BBBBWBW";
                 "WWBWBBW";
                 "BWBWWBW";
                 "BBWWBWW"]%string BLACK.

(** BLACK to move. Playing (4,4) makes four in row 4 and four in column 4
    at once; WHITE has a split three in row 6, the only critical pattern
    of the position, which (6,4) blocks. *)
Definition missed_win : SimpleGoBoard :=
  board_of_rows ["BWBBWWW";
                 "BWWBBBB";
                 "WWBB.WW";
                 "BBB..BW";
                 "BWW.BBW";
                 ".WW.W.W";
                 "BWWBWBB"]%string BLACK.

(** BLACK to move, with no critical point on the board. BLACK on (4,2)
    makes an open three in column 2, which (2,2) and (6,2) block; WHITE on
    (2,3) instead makes four in row 2 and four in column 3 at once. *)
Definition spurious_win : SimpleGoBoard :=
  board_of_rows ["B.WWBBB";
                 "B..WW.W";
                 "BBWBBBW";
                 "B.WBBWB";
                 "WB.WBWW";
                 "W...WWB";
                 "WWWWBBB"]%string BLACK.

(** BLACK to move against W.WWWW in row 3: (3,2) is the one winning point
    of WHITE, and it completes two windows of five. *)
Definition dup_threat : SimpleGoBoard :=
  board_of_rows [".......";
                 "..B...B";
                 "W.WWWWB";
                 ".......";
                 ".B...B.";
                 ".......";
                 "......."]%string BLACK.

(** A second enumeration of a set, in the opposite order. *)
Definition rev_elements (s : gset Z) : list Z := reverse (elements s).

(** ** Certain wins *)

(** The game is over with [c] the winner. *)
Definition won (b : SimpleGoBoard) (c : color) : bool :=
  match check_game_end_gomoku b with
  | Ok (true, Some w) => color_eqb w c
  | _ => false
  end.

(** Playing [p] leads to a certain win of the player to move, with at most
    [k] further moves of their own: the stone on [p] ends the game, or the
    opponent has a move and, whatever they play, has not won and leaves a
    move that leads to a certain win with one move fewer. *)
Fixpoint forced_win (k : nat) (b : SimpleGoBoard) (p : Z) : bool :=
  let b1 := after_move b p in
  bool_decide (p ∈ get_empty_points b)
  && (won b1 (current_player b)
      || match k with
         | O => false
         | S k' =>
             negb (bool_decide (get_empty_points b1 = []))
             && forallb (fun q =>
                           let b2 := after_move b1 q in
                           negb (won b2 (current_player b1))
                           && existsb (forced_win k' b2) (get_empty_points b2))
                        (get_empty_points b1)
         end).

(** BLACK to move against two WHITE fours, in row 3 and in column 7:
    (3,5) and (3,7) both win for WHITE. *)
Definition white_two_fours : SimpleGoBoard :=
  board_of_rows ["B....B.";
                 "..B....";
                 "WWWW...";
                 "......W";
                 ".B.B..W";
                 "......W";
                 "B.B.B.W"]%string BLACK.

(** BLACK to move against a WHITE four in row 3 and a WHITE open three in
    row 6. *)
Definition white_four_and_three : SimpleGoBoard :=
  board_of_rows ["B....B.";
                 "..B....";
                 "WWWW...";
                 ".......";
                 ".B.B..B";
                 "..WWW..";
                 "B.....B"]%string BLACK.

(** * The rest of the board and of the players *)

(** ** Gomoku legality *)

(** [is_legal_gomoku(point, color)] *)
Definition is_legal_gomoku (b : SimpleGoBoard) (point : Z) (c : color)
  : result bool :=
  let* cur := get_color b point in
  Ok (color_eqb cur EMPTY).

(** ** The result of a game (Gomoku4.py) *)

(** What [game_result] returns: the winner as [check_game_end_gomoku]
    gave it, the string ['draw'], or None. *)
Inductive game_outcome : Type :=
| Won (winner : option color)
| Drawn
| Undecided.

(** [game_result(board)] *)
Definition game_result (b : SimpleGoBoard) : result game_outcome :=
  let* (game_end, winner) := check_game_end_gomoku b in
  let moves := get_empty_points b in
  let board_full := bool_decide (length moves = 0%nat) in
  if game_end then Ok (Won winner)
  else if board_full then Ok Drawn
  else Ok Undecided.

(** ** The start state, as [reset] builds it *)

(** [row_start(row)] *)
Definition row_start (b : SimpleGoBoard) (row : Z) : result Z :=
  if negb (1 <=? row) then Raise AssertionError
  else if negb (row <=? size b) then Raise AssertionError
  else Ok (row * NS b + 1).

(** A bound of a Python slice on an array of length [len]: a negative
    index counts from the end, and the result is clipped to the array. *)
Definition slice_bound (len i : Z) : Z :=
  if i <? 0 then Z.max (i + len) 0 else Z.min i len.

(** [cells[start : stop] = v] on a numpy array. *)
Definition fill_slice (cells : list color) (start stop : Z) (v : color)
  : list color :=
  let len := Z.of_nat (length cells) in
  let lo := slice_bound len start in
  let hi := slice_bound len stop in
  imap (fun i c => if (lo <=? Z.of_nat i) && (Z.of_nat i <? hi) then v else c)
       cells.

(** The loop of [_initialize_empty_points]: one slice per row. *)
Fixpoint fill_rows (b : SimpleGoBoard) (rows : list Z) (cells : list color)
  : result (list color) :=
  match rows with
  | [] => Ok cells
  | row :: rest =>
      let* start := row_start b row in
      fill_rows b rest (fill_slice cells start (start + size b) EMPTY)
  end.

Definition _initialize_empty_points (b : SimpleGoBoard) (cells : list color)
  : result (list color) :=
  fill_rows b (py_range 1 (size b + 1) 1) cells.

(** [reset(size)] on the fields of the Gomoku path: the array is filled
    with BORDER, then the rows are emptied. *)
Definition reset_board (n : Z) : result SimpleGoBoard :=
  let maxpoint := n * n + 3 * (n + 1) in
  let b := mkBoard n (replicate (Z.to_nat maxpoint) BORDER) BLACK
                   None (- 1000000)%Q in
  let* cells := _initialize_empty_points b (board b) in
  Ok (with_board b cells).

(** ** The record of the best move *)

(** Between two board states the best-move record is the same, or its
    score has risen. *)
Definition best_kept_or_raised (b b' : SimpleGoBoard) : Prop :=
  (best_move b' = best_move b ∧ best_move_score b' = best_move_score b) ∨
  (best_move_score b < best_move_score b')%Q.

(** A score between a loss and a win of [negaAB]. *)
Definition unit_score (v : Q) : Prop := (- 1 <= v)%Q ∧ (v <= 1)%Q.

(** The board seen by the other player: the same cells, the opponent to
    move. *)
Definition other_side (b : SimpleGoBoard) : SimpleGoBoard :=
  with_player b (opponent (current_player b)).

(** BLACK to move with three empty points left and no critical point. *)
Definition quiet_end : SimpleGoBoard :=
  board_of_rows ["BBBWWBW";
                 "WWBWWBW";
                 "BWBWBWW";
                 "WBWBWBB";
                 "WBWBWBW";
                 "BWWBB..";
                 "BBWBWB."]%string BLACK.

(** ** The second recursive scan: get_pattern_moves *)

(** The tables of [get_pattern_moves]: those of [list_solve_point] with a
    longer last one. A set of distances is written as a list. *)
Definition pattern_moves_patternList : list (gmap string (list Z)) :=
  [ dict_of [("xxxx.", [0]); ("xxx.x", [1]); ("xx.xx", [2]); ("x.xxx", [3]);
             (".xxxx", [4])];
    dict_of [("oooo.", [0]); ("ooo.o", [1]); ("oo.oo", [2]); ("o.ooo", [3]);
             (".oooo", [4])];
    dict_of [(".xxx..", [1]); ("..xxx.", [4]); (".xx.x.", [2]); (".x.xx.", [3])];
    dict_of [(".ooo..", [1; 5]); ("..ooo.", [0; 4]); (".oo.o.", [0; 2; 5]);
             (".o.oo.", [0; 3; 5]); ("B.ooo..", [0]); ("..ooo.B", [6]);
             ("x.ooo..", [0]); ("..ooo.x", [6])] ]%string.

(** [i=0; while i<4 and not bool(moveSet[i]): i+=1], keeping the index. *)
Fixpoint first_nonempty_at (i : Z) (moveSet : list (gset Z))
  : option (Z * gset Z) :=
  match moveSet with
  | [] => None
  | s :: rest =>
      if bool_decide (s = ∅) then first_nonempty_at (i + 1) rest
      else Some (i, s)
  end.

Section PatternMoves.

Variable list_of_set : gset Z → list Z.

(** [get_pattern_moves]: every index of the array is a start, border cells
    included; the answer is the index of the first non-empty set and the
    list of its points, or None. *)
Definition get_pattern_moves (b : SimpleGoBoard)
  : result (option (Z * list Z)) :=
  let* moveSet := scan_points b (py_range 0 (len_board b) 1)
                              [∅; ∅; ∅; ∅] pattern_moves_patternList in
  Ok ((fun r : Z * gset Z => (r.1, list_of_set r.2))
        <$> first_nonempty_at 0 moveSet).

End PatternMoves.

(** The table of the tier [i] of [get_pattern_moves], and its moves. *)
Definition pm_table (i : nat) : gmap string (list Z) :=
  default ∅ (pattern_moves_patternList !! i).

Definition pm_move (b : SimpleGoBoard) (i : nat) (x : Z) : Prop :=
  pattern_move b (pm_table i) x.


(** ** The windows from the other side *)

(** A signature as the opponent reads it: own stones and the opponent's
    change places. *)
Definition swap_char (ch : ascii) : ascii :=
  if Ascii.eqb ch "x"%char then "o"%char
  else if Ascii.eqb ch "o"%char then "x"%char
  else ch.

Fixpoint swap_sides (w : string) : string :=
  match w with
  | EmptyString => EmptyString
  | String ch w' => String (swap_char ch) (swap_sides w')
  end.

(** BLACK to move with an open three at (4,3)..(4,5). *)
Definition open_three : SimpleGoBoard :=
  board7 [(pt 4 3, BLACK); (pt 4 4, BLACK); (pt 4 5, BLACK);
          (pt 1 1, WHITE); (pt 2 6, WHITE); (pt 6 2, WHITE)] BLACK.

(** ** Sequences of moves *)

(** The players move in turn on the points of [moves]: what
    [play_move_gomoku] returned for each move, and the board after the
    last. *)
Fixpoint play_all (b : SimpleGoBoard) (moves : list Z)
  : result (list bool * SimpleGoBoard) :=
  match moves with
  | [] => Ok ([], b)
  | m :: rest =>
      let* (ok, b) := play_move_gomoku b m (current_player b) in
      let* (oks, b) := play_all b rest in
      Ok (ok :: oks, b)
  end.

(** The moves are taken back, one [undo] each. *)
Fixpoint undo_all (b : SimpleGoBoard) (moves : list Z) : result SimpleGoBoard :=
  match moves with
  | [] => Ok b
  | m :: rest =>
      let* b := undo b m in
      undo_all b rest
  end.

(** ** The Go rules: state *)

(** The fields of [SimpleGoBoard] that the Go rules add to those of the
    Gomoku path: the ko point ([None] when there is none), the liberty
    cache and the neighbour lists. *)
Record GoBoard : Type := mkGo {
  position : SimpleGoBoard;
  ko_recapture : option Z;
  liberty_of : list Z;
  neighbors : list (list Z);
}.

Definition with_position (g : GoBoard) (b : SimpleGoBoard) : GoBoard :=
  mkGo b (ko_recapture g) (liberty_of g) (neighbors g).
Definition with_liberty_of (g : GoBoard) (lo : list Z) : GoBoard :=
  mkGo (position g) (ko_recapture g) lo (neighbors g).
Definition with_ko (g : GoBoard) (ko : option Z) : GoBoard :=
  mkGo (position g) ko (liberty_of g) (neighbors g).

Definition maxpoint (g : GoBoard) : Z := maxpoint_of (size (position g)).

(** [a[p]] and [a[p] = v] for a numpy array or a Python list, which share
    the index rule. *)
Definition arr_get {A} (a : list A) (p : Z) : result A :=
  let* i := np_index (Z.of_nat (length a)) p in
  match a !! i with
  | Some x => Ok x
  | None => Raise IndexError
  end.

Definition arr_set {A} (a : list A) (p : Z) (v : A) : result (list A) :=
  let* i := np_index (Z.of_nat (length a)) p in
  Ok (<[i := v]> a).

(** [a[points] = v], or the loop [for p in points: a[p] = v]. *)
Fixpoint arr_set_all {A} (a : list A) (points : list Z) (v : A)
  : result (list A) :=
  match points with
  | [] => Ok a
  | p :: rest =>
      let* a := arr_set a p v in
      arr_set_all a rest v
  end.

(** [where1d(block)] for an array of booleans. *)
Fixpoint where_true_from (i : Z) (block : list bool) : list Z :=
  match block with
  | [] => []
  | m :: block' =>
      if m then i :: where_true_from (i + 1) block'
      else where_true_from (i + 1) block'
  end.
Definition where_true (block : list bool) : list Z := where_true_from 0 block.

(** ** The Go rules: neighbours *)

Definition _neighbors (b : SimpleGoBoard) (point : Z) : list Z :=
  [point - 1; point + 1; point - NS b; point + NS b].

Definition _diag_neighbors (b : SimpleGoBoard) (point : Z) : list Z :=
  [point - NS b - 1; point - NS b + 1; point + NS b - 1; point + NS b + 1].

(** The loops that collect the points of a list whose cell passes a test:
    the list appended to, from its first element. *)
Fixpoint collect_points (b : SimpleGoBoard) (keep : color → bool)
    (points : list Z) : result (list Z) :=
  match points with
  | [] => Ok []
  | nb :: rest =>
      let* c := get_color b nb in
      let* nbs := collect_points b keep rest in
      Ok (if keep c then nb :: nbs else nbs)
  end.

Definition _on_board_neighbors (b : SimpleGoBoard) (point : Z)
  : result (list Z) :=
  collect_points b (fun c => negb (color_eqb c BORDER)) (_neighbors b point).

Fixpoint initialize_neighbors_loop (b : SimpleGoBoard) (points : list Z)
  : result (list (list Z)) :=
  match points with
  | [] => Ok []
  | point :: rest =>
      let* c := get_color b point in
      let* nbs := if color_eqb c BORDER then Ok []
                  else _on_board_neighbors b point in
      let* table := initialize_neighbors_loop b rest in
      Ok (nbs :: table)
  end.

(** [_initialize_neighbors()]: the value it stores in [self.neighbors]. *)
Definition _initialize_neighbors (b : SimpleGoBoard)
  : result (list (list Z)) :=
  initialize_neighbors_loop b (py_range 0 (maxpoint_of (size b)) 1).

Definition neighbors_of_color (g : GoBoard) (point : Z) (c : color)
  : result (list Z) :=
  let* nbs := arr_get (neighbors g) point in
  collect_points (position g) (fun nb_color => color_eqb nb_color c) nbs.

Fixpoint find_color (b : SimpleGoBoard) (c : color) (nbs : list Z)
  : result (option Z) :=
  match nbs with
  | [] => Ok None
  | nb :: rest =>
      let* nb_color := get_color b nb in
      if color_eqb nb_color c then Ok (Some nb)
      else find_color b c rest
  end.

Definition find_neighbor_of_color (g : GoBoard) (point : Z) (c : color)
  : result (option Z) :=
  let* nbs := arr_get (neighbors g) point in
  find_color (position g) c nbs.

Fixpoint all_color (b : SimpleGoBoard) (c : color) (nbs : list Z)
  : result bool :=
  match nbs with
  | [] => Ok true
  | nb :: rest =>
      let* nb_color := get_color b nb in
      if negb (color_eqb nb_color c) then Ok false
      else all_color b c rest
  end.

Definition _is_surrounded (g : GoBoard) (point : Z) (c : color)
  : result bool :=
  let* nbs := arr_get (neighbors g) point in
  all_color (position g) c nbs.

(** The loop of [is_eye] over the diagonal neighbours. *)
Fixpoint eye_loop (b : SimpleGoBoard) (opp_color : color) (ds : list Z)
    (false_count at_edge : Z) : result (Z * Z) :=
  match ds with
  | [] => Ok (false_count, at_edge)
  | d :: rest =>
      let* c := get_color b d in
      if color_eqb c BORDER then eye_loop b opp_color rest false_count 1
      else if color_eqb c opp_color then
        eye_loop b opp_color rest (false_count + 1) at_edge
      else eye_loop b opp_color rest false_count at_edge
  end.

Definition is_eye (g : GoBoard) (point : Z) (c : color) : result bool :=
  let* surrounded := _is_surrounded g point c in
  if negb surrounded then Ok false
  else
    let opp_color := opponent c in
    let* (false_count, at_edge) :=
      eye_loop (position g) opp_color (_diag_neighbors (position g) point)
               0 0 in
    Ok (false_count <=? 1 - at_edge).

(** ** The Go rules: blocks and liberties *)

Definition _stone_has_liberty (g : GoBoard) (stone : Z) : result bool :=
  let* lib := find_neighbor_of_color g stone EMPTY in
  Ok (bool_decide (lib ≠ None)).

Fixpoint get_liberty_loop (g : GoBoard) (stones : list Z)
  : result (option Z) :=
  match stones with
  | [] => Ok None
  | stone :: rest =>
      let* lib := find_neighbor_of_color g stone EMPTY in
      match lib with
      | Some l => Ok (Some l)
      | None => get_liberty_loop g rest
      end
  end.

Definition _get_liberty (g : GoBoard) (block : list bool)
  : result (option Z) :=
  get_liberty_loop g (where_true block).

(** [_has_liberty(block)], with the state whose cache it may have
    written. *)
Definition _has_liberty (g : GoBoard) (block : list bool)
  : result (bool * GoBoard) :=
  let* lib := _get_liberty g block in
  match lib with
  | Some lib =>
      let* c := get_color (position g) lib in
      if negb (color_eqb c EMPTY) then Raise AssertionError
      else
        let* lo := arr_set_all (liberty_of g) (where_true block) lib in
        Ok (true, with_liberty_of g lo)
  | None => Ok (false, g)
  end.

(** The [for] loop of [_block_of]. The stack is kept with its top, the end
    of the Python list, at the head. *)
Fixpoint mark_neighbors (marker : list bool) (pointstack : list Z)
    (nbs : list Z) : result (list bool * list Z) :=
  match nbs with
  | [] => Ok (marker, pointstack)
  | nb :: rest =>
      let* marked := arr_get marker nb in
      if negb marked then
        let* marker := arr_set marker nb true in
        mark_neighbors marker (nb :: pointstack) rest
      else mark_neighbors marker pointstack rest
  end.

(** The [while pointstack] loop of [_block_of]. Every iteration pops one
    point and every point is pushed at most once, when it is marked, so the
    loop ends within [maxpoint + 1] iterations. *)
Fixpoint block_loop (fuel : nat) (g : GoBoard) (c : color)
    (marker : list bool) (pointstack : list Z) : result (list bool) :=
  match fuel with
  | O => Raise OutOfFuel
  | S fuel' =>
      match pointstack with
      | [] => Ok marker
      | p :: pointstack =>
          let* nbs := neighbors_of_color g p c in
          let* (marker, pointstack) := mark_neighbors marker pointstack nbs in
          block_loop fuel' g c marker pointstack
      end
  end.

Definition block_fuel (g : GoBoard) : nat := S (Z.to_nat (maxpoint g)).

Definition _block_of (g : GoBoard) (stone : Z) : result (list bool) :=
  let marker := replicate (Z.to_nat (maxpoint g)) false in
  let pointstack := [stone] in
  let* c := get_color (position g) stone in
  if negb (is_black_white c) then Raise AssertionError
  else
    let* marker := arr_set marker stone true in
    block_loop (block_fuel g) g c marker pointstack.

Section GoRules.

(** Modelled from the spec: the constant NULLPOINT of [board_util], which
    is not among the sources, is the integer that fills the liberty cache
    where no liberty is known; nothing here depends on which integer. *)
Variable NULLPOINT : Z.

Definition _fast_liberty_check (g : GoBoard) (nb_point : Z) : result bool :=
  let* lib := arr_get (liberty_of g) nb_point in
  let* cached :=
    if bool_decide (lib ≠ NULLPOINT) then
      let* c := get_color (position g) lib in
      Ok (color_eqb c EMPTY)
    else Ok false in
  if cached then Ok true
  else
    let* has := _stone_has_liberty g nb_point in
    if has then Ok true else Ok false.

Definition _detect_capture (g : GoBoard) (nb_point : Z)
  : result (bool * GoBoard) :=
  let* fast := _fast_liberty_check g nb_point in
  if fast then Ok (false, g)
  else
    let* opp_block := _block_of g nb_point in
    let* (has, g) := _has_liberty g opp_block in
    Ok (negb has, g).

Fixpoint detect_captures_loop (g : GoBoard) (nbs : list Z)
  : result (bool * GoBoard) :=
  match nbs with
  | [] => Ok (false, g)
  | nb :: rest =>
      let* (captured, g) := _detect_capture g nb in
      if captured then Ok (true, g)
      else detect_captures_loop g rest
  end.

Definition _detect_captures (g : GoBoard) (point : Z) (opp_color : color)
  : result (bool * GoBoard) :=
  let* nbs := neighbors_of_color g point opp_color in
  detect_captures_loop g nbs.

Definition _detect_and_process_capture (g : GoBoard) (nb_point : Z)
  : result (option Z * GoBoard) :=
  let* fast := _fast_liberty_check g nb_point in
  if fast then Ok (None, g)
  else
    let* opp_block := _block_of g nb_point in
    let* (has, g) := _has_liberty g opp_block in
    if has then Ok (None, g)
    else
      let captures := where_true opp_block in
      let* cells := arr_set_all (board (position g)) captures EMPTY in
      let* lo := arr_set_all (liberty_of g) captures NULLPOINT in
      let g := with_liberty_of (with_position g (with_board (position g) cells))
                               lo in
      Ok (if Z.of_nat (length captures) =? 1 then Some nb_point else None, g).

(** ** The Go rules: moves *)

(** Modelled from the spec: the constant PASS of [board_util] is not a
    point (the entry point of the agent answers "point | pass"); a move is
    a point or, for PASS, [None]. *)
Definition is_legal (g : GoBoard) (point : option Z) (c : color)
  : result (bool * GoBoard) :=
  if negb (is_black_white c) then Raise AssertionError
  else
    match point with
    | None => Ok (true, g)
    | Some point =>
        let* cur := get_color (position g) point in
        if negb (color_eqb cur EMPTY) then Ok (false, g)
        else if bool_decide (Some point = ko_recapture g) then Ok (false, g)
        else
          let opp_color := opponent c in
          let* b := set_color (position g) point c in
          let g := with_position g b in
          let* (has_capture, g) := _detect_captures g point opp_color in
          let* (legal, g) :=
            if has_capture then Ok (true, g)
            else
              let* has := _stone_has_liberty g point in
              if has then Ok (true, g)
              else
                let* block := _block_of g point in
                let* (has, g) := _has_liberty g block in
                if negb has then Ok (false, g) else Ok (true, g) in
          let* b := set_color (position g) point EMPTY in
          Ok (legal, with_position g b)
    end.

(** The loop of [play_move] over the neighbours of the point played. *)
Fixpoint process_captures_loop (g : GoBoard) (opp_color : color)
    (nbs : list Z) (single_captures : list Z) : result (list Z * GoBoard) :=
  match nbs with
  | [] => Ok (single_captures, g)
  | nb :: rest =>
      let* nb_color := get_color (position g) nb in
      if color_eqb nb_color opp_color then
        let* (single_capture, g) := _detect_and_process_capture g nb in
        match single_capture with
        | Some s =>
            process_captures_loop g opp_color rest (single_captures ++ [s])
        | None => process_captures_loop g opp_color rest single_captures
        end
      else process_captures_loop g opp_color rest single_captures
  end.

Definition play_move (g : GoBoard) (point : option Z) (c : color)
  : result (bool * GoBoard) :=
  if negb (is_black_white c) then Raise AssertionError
  else
    match point with
    | None =>
        Ok (true, with_position (with_ko g None)
                                (with_player (position g) (opponent c)))
    | Some point =>
        let* cur := get_color (position g) point in
        if negb (color_eqb cur EMPTY) then Ok (false, g)
        else if bool_decide (Some point = ko_recapture g) then Ok (false, g)
        else
          let opp_color := opponent c in
          let* in_enemy_eye := _is_surrounded g point opp_color in
          let* b := set_color (position g) point c in
          let g := with_position g b in
          let* nbs := arr_get (neighbors g) point in
          let* (single_captures, g) :=
            process_captures_loop g opp_color nbs [] in
          let* has := _stone_has_liberty g point in
          let* (suicide, g) :=
            if negb has then
              let* block := _block_of g point in
              let* (has, g) := _has_liberty g block in
              Ok (negb has, g)
            else Ok (false, g) in
          if suicide then
            let* b := set_color (position g) point EMPTY in
            Ok (false, with_position g b)
          else
            let ko :=
              if in_enemy_eye && (Z.of_nat (length single_captures) =? 1)
              then head single_captures else None in
            Ok (true, with_position (with_ko g ko)
                                    (with_player (position g) (opponent c)))
    end.

(** [reset(size)] with the fields of the Go rules. *)
Definition reset_go (n : Z) : result GoBoard :=
  let* b := reset_board n in
  let* table := _initialize_neighbors b in
  Ok (mkGo b None (replicate (Z.to_nat (maxpoint_of n)) NULLPOINT) table).

End GoRules.

(** ** Well-formed states of the Go rules *)

(** The neighbour lists of a board of size [n]: for a point of the grid,
    those of its four neighbours that are on the grid. *)
Definition neighbor_table (n : Z) : list (list Z) :=
  map (fun p => if on_board_rc n p
                then filter (fun q => on_board_rc n q = true)
                            [p - 1; p + 1; p - (n + 1); p + (n + 1)]
                else [])
      (map Z.of_nat (seq 0 (Z.to_nat (maxpoint_of n)))).

(** The board is well formed and the neighbour lists are those of its
    size. *)
Definition wf_position (g : GoBoard) : bool :=
  wf_board (position g)
  && bool_decide (neighbors g = neighbor_table (size (position g))).

(** Moreover the cache holds NULLPOINT or points of the array. *)
Definition wf_go (NULLPOINT : Z) (g : GoBoard) : bool :=
  wf_position g
  && bool_decide (Z.of_nat (length (liberty_of g)) = maxpoint g)
  && forallb (fun lib => bool_decide (lib = NULLPOINT)
                         || (0 <=? lib) && (lib <? maxpoint g))
             (liberty_of g).

(** ** Blocks *)

(** [q] is a neighbour of [p] in the neighbour lists. *)
Definition adjacent (g : GoBoard) (p q : Z) : Prop :=
  0 ≤ p ∧ ∃ nbs, neighbors g !! Z.to_nat p = Some nbs ∧ q ∈ nbs.

(** [q] is reached from [p] through neighbours of colour [c]. *)
Inductive connected (g : GoBoard) (c : color) (p : Z) : Z → Prop :=
| connected_refl : connected g c p p
| connected_step q r :
    connected g c p q → adjacent g q r →
    get_color (position g) r = Ok c → connected g c p r.

(** The block of [stone] has a liberty: an empty neighbour of one of its
    points. *)
Definition block_has_liberty (g : GoBoard) (c : color) (stone : Z) : Prop :=
  ∃ q l, connected g c stone q ∧ adjacent g q l ∧
         get_color (position g) l = Ok EMPTY.

(** The points of [marker] not marked yet. *)
Definition unmarked (marker : list bool) : nat :=
  length (filter (fun m => m = false) marker).

(** The cell [q] of the board passes the test [keep]. *)
Definition cell_is (b : SimpleGoBoard) (keep : color → bool) (q : Z) : bool :=
  match get_color b q with
  | Ok c => keep c
  | Raise _ => false
  end.

(** ** Captures *)

(** From [g] to [g'] nothing has changed but the cache and cells that held
    [opp] stones of blocks without a liberty, which are EMPTY in [g']. *)
Definition captured_from (opp : color) (g g' : GoBoard) : Prop :=
  neighbors g' = neighbors g ∧ ko_recapture g' = ko_recapture g ∧
  size (position g') = size (position g) ∧
  current_player (position g') = current_player (position g) ∧
  best_move (position g') = best_move (position g) ∧
  best_move_score (position g') = best_move_score (position g) ∧
  ∀ q, 0 ≤ q < maxpoint g →
       get_color (position g') q = get_color (position g) q ∨
       (get_color (position g) q = Ok opp ∧
        get_color (position g') q = Ok EMPTY ∧
        ¬ block_has_liberty g opp q).

(** ** States used as examples *)

(** A state of the Go rules on the 7 x 7 board, given by its stones. *)
Definition go7 (stones : list (Z * color)) (to_play : color) : GoBoard :=
  mkGo (board7 stones to_play) None (replicate 73 0) (neighbor_table 7).

(** A WHITE stone at (1,1) with one liberty left, (2,1); BLACK stones
    around it and a BLACK block of three on row 4. *)
Definition corner_atari : GoBoard :=
  go7 [(pt 1 1, WHITE); (pt 1 2, BLACK);
       (pt 4 3, BLACK); (pt 4 4, BLACK); (pt 5 4, BLACK)] BLACK.

(** The state with the stone of colour [c] put on [p], before any
    capture. *)
Definition stone_placed (g : GoBoard) (p : Z) (c : color) : GoBoard :=
  with_position g (place (position g) p c).

(** BLACK to move can capture the WHITE stone at (2,2) by playing on
    (2,3), a point whose four neighbours are WHITE: a ko. *)
Definition ko_shape : GoBoard :=
  go7 [(pt 1 2, BLACK); (pt 2 1, BLACK); (pt 3 2, BLACK);
       (pt 2 2, WHITE); (pt 1 3, WHITE); (pt 2 4, WHITE); (pt 3 3, WHITE)]
      BLACK.
(* ================================================================== *)
(** * Properties *)

(** Closed facts about the example boards are settled by evaluation, one
    conjunct at a time. *)
Ltac by_computation :=
  repeat match goal with |- _ ∧ _ => split end; vm_compute; reflexivity.

(** ** Basic facts about the array *)

Lemma np_index_Ok len p i :
  np_index len p = Ok i →
  (i < Z.to_nat len)%nat ∧
  ((0 ≤ p < len ∧ i = Z.to_nat p) ∨ (- len ≤ p < 0 ∧ i = Z.to_nat (p + len))).
Proof.
  unfold np_index.
  destruct (0 <=? p) eqn:H0; destruct (p <? len) eqn:H1; simpl;
    try (destruct (- len <=? p) eqn:H2; destruct (p <? 0) eqn:H3; simpl);
    intros [= <-] || intros [=]; lia.
Qed.

Lemma np_index_in_range len p :
  0 ≤ p < len → np_index len p = Ok (Z.to_nat p).
Proof.
  intros H. unfold np_index.
  replace (0 <=? p) with true by lia. replace (p <? len) with true by lia.
  reflexivity.
Qed.

Lemma get_color_Ok b p c :
  get_color b p = Ok c →
  ∃ i, np_index (len_board b) p = Ok i ∧ board b !! i = Some c.
Proof.
  unfold get_color. destruct (np_index _ _) as [i|] eqn:Hi; simpl; [|done].
  destruct (board b !! i) eqn:Hl; intros [= <-]. eauto.
Qed.

Lemma get_color_in_range b p :
  0 ≤ p < len_board b →
  get_color b p = match board b !! Z.to_nat p with
                  | Some c => Ok c
                  | None => Raise IndexError
                  end.
Proof. intros H. unfold get_color. by rewrite np_index_in_range. Qed.

Lemma opponent_involutive c : opponent (opponent c) = c.
Proof. by destruct c. Qed.

(** ** Well-formed boards *)

Lemma lookup_zip_index (cells : list color) (i : nat) (c : color) :
  cells !! i = Some c →
  (Z.of_nat i, c) ∈ zip (map Z.of_nat (seq 0 (length cells))) cells.
Proof.
  intros H. apply list_elem_of_lookup. exists i.
  apply lookup_zip_with_Some. exists (Z.of_nat i), c. split; [done|].
  split; [|done]. rewrite list_lookup_fmap, lookup_seq_lt; [done|].
  by apply lookup_lt_Some in H.
Qed.

Lemma wf_board_inv (b : SimpleGoBoard) :
  wf_board b = true →
  1 ≤ size b ∧ len_board b = maxpoint_of (size b) ∧
  stone (current_player b) ∧
  ∀ p c, 0 ≤ p → board b !! Z.to_nat p = Some c →
         (on_board_rc (size b) p = false ↔ c = BORDER).
Proof.
  unfold wf_board, wf_cells. rewrite !andb_true_iff, bool_decide_eq_true.
  intros [[Hs [Hl Hall]] Hp]. repeat split; try done; try lia.
  - intros Hb.
    rewrite forallb_forall in Hall.
    pose proof (lookup_zip_index _ _ _ H0) as Hin.
    apply list_elem_of_In, Hall in Hin. apply bool_decide_eq_true in Hin.
    simpl in Hin. rewrite Z2Nat.id in Hin by done. by apply Hin.
  - intros Hb.
    rewrite forallb_forall in Hall.
    pose proof (lookup_zip_index _ _ _ H0) as Hin.
    apply list_elem_of_In, Hall in Hin. apply bool_decide_eq_true in Hin.
    simpl in Hin. rewrite Z2Nat.id in Hin by done. by apply Hin.
Qed.

Lemma on_board_rc_range n p :
  1 ≤ n → on_board_rc n p = true → n + 2 ≤ p ≤ n * n + 2 * n.
Proof.
  intros Hn. unfold on_board_rc. rewrite !andb_true_iff.
  intros [[H1 H2] H3].
  pose proof (Z.div_mod p (n + 1) ltac:(lia)) as Hdm.
  pose proof (Z.mod_pos_bound p (n + 1) ltac:(lia)) as Hm.
  nia.
Qed.

(** A stone sits on the grid, and a step of at most [size + 2] cells from
    the grid stays inside the array. *)
Lemma stone_on_grid b p c :
  wf_board b = true → stone c → 0 ≤ p < len_board b →
  get_color b p = Ok c →
  size b + 2 ≤ p ≤ size b * size b + 2 * size b.
Proof.
  intros Hwf Hc Hp Hg. destruct (wf_board_inv b Hwf) as (Hn & Hl & _ & Hb).
  rewrite get_color_in_range in Hg by done.
  destruct (board b !! Z.to_nat p) as [c'|] eqn:Hlk; [|done].
  injection Hg as ->.
  apply on_board_rc_range; [done|].
  destruct (on_board_rc (size b) p) eqn:Ho; [done|].
  apply (Hb p c) in Ho; [|lia|done]. subst c. done.
Qed.

Lemma step_in_range b p d :
  wf_board b = true →
  size b + 2 ≤ p ≤ size b * size b + 2 * size b →
  - (size b + 2) ≤ d ≤ size b + 2 →
  0 ≤ p + d < len_board b.
Proof.
  intros Hwf Hp Hd. destruct (wf_board_inv b Hwf) as (Hn & Hl & _).
  rewrite Hl. unfold maxpoint_of. lia.
Qed.

Lemma get_color_total b p :
  0 ≤ p < len_board b → ∃ c, get_color b p = Ok c.
Proof.
  intros H. rewrite get_color_in_range by done.
  destruct (lookup_lt_is_Some_2 (board b) (Z.to_nat p)) as [c Hc].
  { unfold len_board in H. lia. }
  rewrite Hc. eauto.
Qed.

(** ** C9: play_move_gomoku *)

(** C9. For a colour BLACK or WHITE and a point that indexes the array,
    [play_move_gomoku] returns False and leaves the whole board state as it
    was when the cell is not EMPTY; otherwise it returns True, the cell
    holds the colour, [current_player] is the opponent of the colour, every
    other cell keeps its content (so no stone is removed) and nothing else
    of the state changes. *)
Theorem play_move_gomoku_spec (b : SimpleGoBoard) (point : Z) (c cur : color)
    (i : nat) :
  is_black_white c = true →
  np_index (len_board b) point = Ok i →
  board b !! i = Some cur →
  (cur ≠ EMPTY → play_move_gomoku b point c = Ok (false, b)) ∧
  (cur = EMPTY →
   ∃ b', play_move_gomoku b point c = Ok (true, b') ∧
         board b' !! i = Some c ∧
         (∀ j, j ≠ i → board b' !! j = board b !! j) ∧
         length (board b') = length (board b) ∧
         current_player b' = opponent c ∧
         size b' = size b ∧
         best_move b' = best_move b ∧
         best_move_score b' = best_move_score b).
Proof.
  intros Hc Hi Hcur.
  pose proof (np_index_Ok _ _ _ Hi) as [Hlt _].
  unfold play_move_gomoku, get_color, set_color. rewrite Hc, Hi. simpl.
  rewrite Hcur. split.
  - intros Hne. by destruct cur.
  - intros ->. simpl. eexists. split; [reflexivity|]. simpl.
    unfold len_board in Hlt.
    repeat split.
    + apply list_lookup_insert_eq. lia.
    + intros j Hj. by apply list_lookup_insert_ne.
    + apply length_insert.
Qed.

Lemma play_move_gomoku_spec_witness :
  ∃ b', play_move_gomoku (reset 7) 9 BLACK = Ok (true, b') ∧
        board b' !! 9%nat = Some BLACK ∧
        current_player b' = WHITE.
Proof.
  destruct (play_move_gomoku_spec (reset 7) 9 BLACK EMPTY 9
              eq_refl eq_refl eq_refl) as [_ H].
  destruct (H eq_refl) as (b' & H1 & H2 & _ & _ & H3 & _).
  exists b'. repeat split; assumption.
Defined.

(** ** C6: undo symmetry *)

(** C6, as stated, fails: playing WHITE on the start position, where BLACK
    is to move, and undoing leaves WHITE to move. *)
Lemma play_undo_other_color_counterexample :
  ∃ b1 b2,
    play_move_gomoku (reset 7) 9 WHITE = Ok (true, b1) ∧
    undo b1 9 = Ok b2 ∧
    board b2 = board (reset 7) ∧
    current_player (reset 7) = BLACK ∧
    current_player b2 = WHITE.
Proof. eexists _, _. by_computation. Qed.

(** A move of the player to move on an empty cell, undone. *)
Lemma play_undo (b : SimpleGoBoard) (p : Z) (i : nat) :
  is_black_white (current_player b) = true →
  np_index (len_board b) p = Ok i →
  board b !! i = Some EMPTY →
  ∃ b1, play_move_gomoku b p (current_player b) = Ok (true, b1) ∧
        undo b1 p = Ok b.
Proof.
  intros Hc Hi Hcur.
  unfold play_move_gomoku, get_color, set_color. rewrite Hc, Hi. simpl.
  rewrite Hcur. simpl. eexists. split; [reflexivity|].
  unfold undo, set_color, len_board, with_player, with_board. simpl.
  rewrite length_insert. fold (len_board b). rewrite Hi. simpl.
  rewrite opponent_involutive, list_insert_insert_eq.
  rewrite list_insert_id by done. by destruct b.
Qed.

(** C6, amended: [play_move_gomoku] of a colour BLACK or WHITE on an EMPTY
    cell followed by [undo] gives back the cells and every other field of
    the board state, with the colour played as the player to move; so the
    state is the one it started from exactly when the colour played was the
    player to move (as in every call of the searches). *)
Theorem play_undo_restores (b : SimpleGoBoard) (p : Z) (c : color) (i : nat) :
  is_black_white c = true →
  np_index (len_board b) p = Ok i →
  board b !! i = Some EMPTY →
  ∃ b1 b2, play_move_gomoku b p c = Ok (true, b1) ∧
           undo b1 p = Ok b2 ∧
           b2 = with_player b c ∧
           (c = current_player b → b2 = b).
Proof.
  intros Hc Hi Hcur.
  unfold play_move_gomoku, get_color, set_color. rewrite Hc, Hi. simpl.
  rewrite Hcur. simpl. eexists _, _. split; [reflexivity|].
  unfold undo, set_color, len_board, with_player, with_board. simpl.
  rewrite length_insert. fold (len_board b). rewrite Hi. simpl.
  rewrite opponent_involutive, list_insert_insert_eq.
  rewrite list_insert_id by done.
  split; [reflexivity|]. split; [reflexivity|].
  intros ->. by destruct b.
Qed.

Lemma play_undo_restores_witness :
  ∃ b1 b2, play_move_gomoku (reset 7) 9 BLACK = Ok (true, b1) ∧
           undo b1 9 = Ok b2 ∧
           b2 = with_player (reset 7) BLACK ∧
           (BLACK = current_player (reset 7) → b2 = reset 7).
Proof.
  exact (play_undo_restores (reset 7) 9 BLACK 9 eq_refl eq_refl eq_refl).
Defined.

(** ** Runs of one colour *)

(** Case analysis on every test of the goal, then linear arithmetic. *)
Ltac case_if_lia :=
  repeat match goal with
         | |- context [?a <? ?b] => destruct (Z.ltb_spec a b)
         | |- context [?a <=? ?b] => destruct (Z.leb_spec a b)
         | |- context [?a =? ?b] => destruct (Z.eqb_spec a b)
         end;
  simpl; try lia.


Lemma run_cells b c d p n :
  run b c d p n →
  (∀ k, 1 ≤ k ≤ Z.of_nat n → get_color b (p + k * d) = Ok c) ∧
  ∃ c', get_color b (p + (Z.of_nat n + 1) * d) = Ok c' ∧ c' ≠ c.
Proof.
  induction 1 as [p c' Hg Hne | p n Hg Hr [IH1 IH2]].
  - split; [lia|]. exists c'. split; [|done].
    by replace (p + (Z.of_nat 0 + 1) * d) with (p + d) by lia.
  - split.
    + intros k Hk. destruct (decide (k = 1)) as [->|Hk1].
      * by replace (p + 1 * d) with (p + d) by lia.
      * replace (p + k * d) with (p + d + (k - 1) * d) by lia.
        apply IH1. lia.
    + destruct IH2 as (c' & Hc' & Hne). exists c'. split; [|done].
      rewrite <- Hc'. f_equal. lia.
Qed.

Lemma run_of_cells b c d n : ∀ p c',
  (∀ k, 1 ≤ k ≤ Z.of_nat n → get_color b (p + k * d) = Ok c) →
  get_color b (p + (Z.of_nat n + 1) * d) = Ok c' → c' ≠ c →
  run b c d p n.
Proof.
  induction n as [|n IH]; intros p c' Hc Hlast Hne.
  - eapply run_stop; [|done].
    by replace (p + d) with (p + (Z.of_nat 0 + 1) * d) by lia.
  - apply run_step.
    + replace (p + d) with (p + 1 * d) by lia. apply Hc. lia.
    + apply (IH _ c'); [| |done].
      * intros k Hk. replace (p + d + k * d) with (p + (k + 1) * d) by lia.
        apply Hc. lia.
      * rewrite <- Hlast. f_equal. lia.
Qed.

Lemma run_functional b c d p n1 n2 :
  run b c d p n1 → run b c d p n2 → n1 = n2.
Proof.
  intros H1. revert n2.
  induction H1 as [p c' Hg Hne | p n Hg Hr IH]; intros n2 H2;
    inversion H2; subst; try congruence.
  f_equal. by apply IH.
Qed.

(** The cells a run visits are indices of the array, so it is shorter than
    twice the array. *)
Lemma run_bound b c d p n :
  d ≠ 0 → run b c d p n → (n < 2 * length (board b))%nat.
Proof.
  intros Hd Hr. destruct (run_cells _ _ _ _ _ Hr) as [_ (c' & Hlast & _)].
  assert (∃ c1, get_color b (p + d) = Ok c1) as [c1 Hfirst].
  { inversion Hr; eauto. }
  apply get_color_Ok in Hlast as (i & Hi & _).
  apply get_color_Ok in Hfirst as (j & Hj & _).
  apply np_index_Ok in Hi as [_ Hi]. apply np_index_Ok in Hj as [_ Hj].
  unfold len_board in *. nia.
Qed.

(** On a well-formed board a run from a stone ends inside the array. *)
Lemma run_exists b c d :
  wf_board b = true → stone c → d ≠ 0 →
  - (size b + 2) ≤ d ≤ size b + 2 →
  ∀ p, 0 ≤ p < len_board b → get_color b p = Ok c → ∃ n, run b c d p n.
Proof.
  intros Hwf Hc Hd0 Hd.
  assert (∀ m p, Z.to_nat (if decide (0 < d) then len_board b - p else p) = m →
                 0 ≤ p < len_board b → get_color b p = Ok c →
                 ∃ n, run b c d p n) as Hind.
  { induction m as [m IH] using lt_wf_ind. intros p Hm Hp Hg.
    pose proof (stone_on_grid _ _ _ Hwf Hc Hp Hg) as Hgrid.
    pose proof (step_in_range _ _ _ Hwf Hgrid Hd) as Hnext.
    destruct (get_color_total _ _ Hnext) as [c' Hc'].
    destruct (decide (c' = c)) as [->|Hne].
    - destruct (IH (Z.to_nat (if decide (0 < d) then len_board b - (p + d)
                                else p + d))) with (p := p + d)
        as [n Hn]; try done.
      { subst m. destruct (decide (0 < d)); lia. }
      exists (S n). by apply run_step.
    - exists 0%nat. by eapply run_stop. }
  intros p. by eapply Hind.
Qed.

(** ** The direction check *)

Lemma connect_loop_run b c d p n :
  run b c d p n →
  ∀ fuel count, (n < fuel)%nat →
    connect_loop fuel b c d p count =
    Ok (if (count <? 5) && (5 <=? count + Z.of_nat n) then 5
        else count + Z.of_nat n).
Proof.
  induction 1 as [p c' Hg Hne | p n Hg Hr IH]; intros fuel count Hf;
    (destruct fuel as [|fuel]; [lia|]); simpl; rewrite Hg; simpl.
  - unfold color_eqb. rewrite bool_decide_eq_false_2 by done.
    f_equal. case_if_lia.
  - unfold color_eqb. rewrite bool_decide_eq_true_2 by done.
    destruct (count + 1 =? 5) eqn:H5.
    + f_equal. case_if_lia.
    + rewrite IH by lia. f_equal. case_if_lia.
Qed.

(** What [_point_direction_check_connect_gomoko] computes from the two runs
    through a point: the assertion fails when the first loop stops at five
    and the second still finds a stone. *)
Lemma direction_check_runs b p d c nf nb :
  d ≠ 0 → get_color b p = Ok c →
  run b c d p nf → run b c (- d) p nb →
  _point_direction_check_connect_gomoko b p d =
  if (4 <=? Z.of_nat nf) && (1 <=? Z.of_nat nb) then Raise AssertionError
  else Ok (4 <=? Z.of_nat nf + Z.of_nat nb).
Proof.
  intros Hd Hg Hf Hb.
  unfold _point_direction_check_connect_gomoko. rewrite Hg. cbn [rbind].
  rewrite (connect_loop_run _ _ _ _ _ Hf).
  2:{ pose proof (run_bound _ _ _ _ _ Hd Hf). unfold connect_fuel. lia. }
  cbn [rbind].
  rewrite (connect_loop_run _ _ _ _ _ Hb).
  2:{ assert (- d ≠ 0) as Hd' by lia.
      pose proof (run_bound _ _ _ _ _ Hd' Hb). unfold connect_fuel. lia. }
  cbn [rbind]. change (1 <? 5) with true. cbn [andb].
  set (f := Z.of_nat nf). set (k := Z.of_nat nb).
  assert (0 ≤ f ∧ 0 ≤ k) as [Hf0 Hk0] by (unfold f, k; lia).
  clearbody f k.
  destruct (Z.leb_spec 5 (1 + f)); destruct (Z.leb_spec 5 (1 + f + k));
  repeat (cbn [andb negb];
          match goal with
          | |- context [?a <? ?b] => destruct (Z.ltb_spec a b)
          | |- context [?a <=? ?b] => destruct (Z.leb_spec a b)
          | |- context [?a =? ?b] => destruct (Z.eqb_spec a b)
          end);
    cbn [andb negb]; try reflexivity; lia.
Qed.

(** ** Lines of five *)


Lemma on_line_runs b c p d n nf nb :
  get_color b p = Ok c →
  run b c d p nf → run b c (- d) p nb →
  on_line b c p d n ↔ n ≤ Z.of_nat nf + Z.of_nat nb + 1.
Proof.
  intros Hg Hf Hb.
  destruct (run_cells _ _ _ _ _ Hf) as [Hfc (cf & Hfl & Hfn)].
  destruct (run_cells _ _ _ _ _ Hb) as [Hbc (cb & Hbl & Hbn)].
  split.
  - intros (lo & hi & H0 & Hn & Hseg).
    assert (hi ≤ Z.of_nat nf).
    { destruct (decide (hi ≤ Z.of_nat nf)) as [|Hgt]; [done|].
      specialize (Hseg (Z.of_nat nf + 1) ltac:(lia)). congruence. }
    assert (- Z.of_nat nb ≤ lo).
    { destruct (decide (- Z.of_nat nb ≤ lo)) as [|Hgt]; [done|].
      specialize (Hseg (- (Z.of_nat nb + 1)) ltac:(lia)).
      replace (p + - (Z.of_nat nb + 1) * d)
        with (p + (Z.of_nat nb + 1) * - d) in Hseg by lia.
      congruence. }
    lia.
  - intros Hn. exists (- Z.of_nat nb), (Z.of_nat nf).
    split; [lia|]. split; [lia|]. intros k Hk.
    destruct (Z.lt_trichotomy k 0) as [Hneg | [-> | Hpos]].
    + replace (p + k * d) with (p + (- k) * - d) by lia. apply Hbc. lia.
    + by replace (p + 0 * d) with p by lia.
    + apply Hfc. lia.
Qed.

Lemma elem_of_shifts b d :
  d ∈ shifts b ↔ d = 1 ∨ d = NS b ∨ d = NS b + 1 ∨ d = NS b - 1.
Proof. unfold shifts. rewrite !elem_of_cons, elem_of_nil. tauto. Qed.

Lemma shifts_range b d :
  wf_board b = true → d ∈ shifts b → 0 < d ≤ size b + 2.
Proof.
  intros Hwf Hd. destruct (wf_board_inv b Hwf) as (Hn & _).
  apply elem_of_shifts in Hd. unfold NS in Hd. lia.
Qed.

(** One direction, at a stone none of whose predecessors in the array lies
    on a line of five along this direction: the check returns, and says
    whether the stone lies on such a line. *)
Lemma direction_check_spec b c p d :
  wf_board b = true → stone c → 0 ≤ p < len_board b →
  get_color b p = Ok c → 0 < d ≤ size b + 2 →
  (∀ q, 0 ≤ q < p → ¬ on_line b c q d 5) →
  ∃ r, _point_direction_check_connect_gomoko b p d = Ok r ∧
       (r = true ↔ on_line b c p d 5).
Proof.
  intros Hwf Hc Hp Hg Hd Hmin.
  destruct (run_exists b c d Hwf Hc ltac:(lia) ltac:(lia) p Hp Hg) as [nf Hf].
  destruct (run_exists b c (- d) Hwf Hc ltac:(lia) ltac:(lia) p Hp Hg)
    as [nb Hb].
  rewrite (direction_check_runs b p d c nf nb) by (done || lia).
  pose proof (on_line_runs b c p d 5 nf nb Hg Hf Hb) as Hline.
  destruct ((4 <=? Z.of_nat nf) && (1 <=? Z.of_nat nb)) eqn:Hbad.
  - exfalso. apply andb_true_iff in Hbad as [H4 H1].
    destruct (run_cells _ _ _ _ _ Hf) as [Hfc _].
    destruct (run_cells _ _ _ _ _ Hb) as [Hbc _].
    pose proof (stone_on_grid _ _ _ Hwf Hc Hp Hg) as Hgrid.
    pose proof (step_in_range b p (- d) Hwf Hgrid ltac:(lia)) as Hq.
    apply (Hmin (p + - d)); [lia|].
    exists 0, 5. split; [lia|]. split; [lia|]. intros k Hk.
    destruct (decide (k = 0)) as [->|Hk0].
    + replace (p + - d + 0 * d) with (p + 1 * - d) by lia. apply Hbc. lia.
    + destruct (decide (k = 1)) as [->|Hk1].
      * by replace (p + - d + 1 * d) with p by lia.
      * replace (p + - d + k * d) with (p + (k - 1) * d) by lia.
        apply Hfc. lia.
  - eexists. split; [reflexivity|]. rewrite Hline.
    destruct (Z.leb_spec 4 (Z.of_nat nf + Z.of_nat nb)); split;
      intros; (done || lia).
Qed.

(** All four directions at such a stone. *)
Lemma point_check_spec b c p :
  wf_board b = true → stone c → 0 ≤ p < len_board b →
  get_color b p = Ok c →
  (∀ q, 0 ≤ q < p → ¬ five_at b c q) →
  ∃ r, point_check_game_end_gomoku b p = Ok r ∧ (r = true ↔ five_at b c p).
Proof.
  intros Hwf Hc Hp Hg Hmin.
  assert (∀ d, d ∈ shifts b →
            ∃ r, _point_direction_check_connect_gomoko b p d = Ok r ∧
                 (r = true ↔ on_line b c p d 5)) as Hdir.
  { intros d Hd. apply direction_check_spec; try done.
    - by apply shifts_range.
    - intros q Hq Hline. apply (Hmin q Hq). split; [lia|]. eauto. }
  unfold point_check_game_end_gomoku.
  destruct (Hdir 1) as (r1 & -> & H1); [apply elem_of_shifts; tauto|].
  cbn [rbind]. destruct r1.
  { eexists. split; [done|]. split; [|done]. intros _. split; [done|].
    exists 1. split; [apply elem_of_shifts; tauto|]. by apply H1. }
  destruct (Hdir (NS b)) as (r2 & -> & H2); [apply elem_of_shifts; tauto|].
  cbn [rbind]. destruct r2.
  { eexists. split; [done|]. split; [|done]. intros _. split; [done|].
    exists (NS b). split; [apply elem_of_shifts; tauto|]. by apply H2. }
  destruct (Hdir (NS b + 1)) as (r3 & -> & H3); [apply elem_of_shifts; tauto|].
  cbn [rbind]. destruct r3.
  { eexists. split; [done|]. split; [|done]. intros _. split; [done|].
    exists (NS b + 1). split; [apply elem_of_shifts; tauto|]. by apply H3. }
  destruct (Hdir (NS b - 1)) as (r4 & -> & H4); [apply elem_of_shifts; tauto|].
  cbn [rbind]. destruct r4.
  { eexists. split; [done|]. split; [|done]. intros _. split; [done|].
    exists (NS b - 1). split; [apply elem_of_shifts; tauto|]. by apply H4. }
  eexists. split; [done|]. split; [done|].
  intros [_ (d & Hd & Hline)]. apply elem_of_shifts in Hd.
  destruct Hd as [-> | [-> | [-> | ->]]];
    [apply H1 in Hline | apply H2 in Hline | apply H3 in Hline
     | apply H4 in Hline]; done.
Qed.

(** [where1d]: the indices holding a colour, in increasing order. *)
Lemma where1d_from_spec f cells : ∀ i p,
  p ∈ where1d_from i f cells ↔
  i ≤ p ∧ ∃ c, cells !! Z.to_nat (p - i) = Some c ∧ f c = true.
Proof.
  induction cells as [|c cells IH]; intros i p; simpl.
  - split; [by intros ?%elem_of_nil|]. by intros [_ (c & ? & _)].
  - assert (p ∈ where1d_from (i + 1) f cells ↔
            i + 1 ≤ p ∧ ∃ c', (c :: cells) !! Z.to_nat (p - i) = Some c'
                              ∧ f c' = true) as Htail.
    { rewrite IH. split; intros [Hle (c' & Hl & Hf)]; (split; [done|]);
        exists c'; (split; [|done]).
      - replace (Z.to_nat (p - i)) with (S (Z.to_nat (p - (i + 1)))) by lia.
        done.
      - replace (Z.to_nat (p - i)) with (S (Z.to_nat (p - (i + 1)))) in Hl
          by lia. done. }
    destruct (f c) eqn:Hfc.
    + rewrite elem_of_cons, Htail. split.
      * intros [-> | [Hle H]]; [|split; [lia|done]].
        split; [lia|]. exists c. replace (Z.to_nat (i - i)) with 0%nat by lia.
        done.
      * intros [Hle (c' & Hl & Hf)].
        destruct (decide (p = i)) as [->|Hne]; [by left|right].
        split; [lia|]. eauto.
    + rewrite Htail. split.
      * intros [Hle H]. split; [lia|done].
      * intros [Hle (c' & Hl & Hf)].
        destruct (decide (p = i)) as [->|Hne].
        -- replace (Z.to_nat (i - i)) with 0%nat in Hl by lia.
           simpl in Hl. congruence.
        -- split; [lia|]. eauto.
Qed.

Lemma where1d_spec b c p :
  p ∈ where1d (color_eqb c) (board b) ↔
  0 ≤ p < len_board b ∧ get_color b p = Ok c.
Proof.
  unfold where1d. rewrite where1d_from_spec. split.
  - intros [Hle (c' & Hl & Hf)]. replace (p - 0) with p in Hl by lia.
    assert (0 ≤ p < len_board b) as Hp.
    { apply lookup_lt_Some in Hl. unfold len_board. lia. }
    split; [done|]. rewrite get_color_in_range, Hl by done.
    unfold color_eqb in Hf. apply bool_decide_eq_true in Hf. by subst.
  - intros [Hp Hg]. split; [lia|]. rewrite get_color_in_range in Hg by done.
    replace (p - 0) with p by lia.
    destruct (board b !! Z.to_nat p) as [c'|]; [|done].
    injection Hg as ->. exists c. split; [done|].
    unfold color_eqb. by apply bool_decide_eq_true.
Qed.

Lemma where1d_from_sorted f cells : ∀ i,
  StronglySorted Z.lt (where1d_from i f cells).
Proof.
  induction cells as [|c cells IH]; intros i; simpl; [constructor|].
  destruct (f c); [|apply IH].
  constructor; [apply IH|].
  apply Forall_forall. intros p Hp. apply where1d_from_spec in Hp. lia.
Qed.

(** The loop over the stones of one colour: it returns, and says whether
    that colour has a line of five. The loop meets the stones in increasing
    order, so the first stone of a line is checked before the others. *)
Lemma first_game_end_spec b c :
  wf_board b = true → stone c →
  ∀ points,
    StronglySorted Z.lt points →
    (∀ p, p ∈ points → 0 ≤ p < len_board b ∧ get_color b p = Ok c) →
    (∀ q, five_at b c q → q ∈ points) →
    ∃ r, first_game_end b points = Ok r ∧ (r = true ↔ has_five b c).
Proof.
  intros Hwf Hc points. induction points as [|p rest IH];
    intros Hsort Hpts Hfive; simpl.
  - eexists. split; [done|]. split; [done|].
    intros [q Hq]. by apply Hfive, elem_of_nil in Hq.
  - apply StronglySorted_inv in Hsort as [Hsort Hlt].
    destruct (Hpts p ltac:(by left)) as [Hp Hg].
    destruct (point_check_spec b c p Hwf Hc Hp Hg) as (r & -> & Hr).
    { intros q Hq Hq5. apply Hfive in Hq5.
      apply elem_of_cons in Hq5 as [->|Hin]; [lia|].
      rewrite Forall_forall in Hlt. apply Hlt in Hin. lia. }
    cbn [rbind]. destruct r.
    + eexists. split; [done|]. split; [|done]. intros _. exists p.
      by apply Hr.
    + apply IH; [done| |].
      * intros q Hq. apply Hpts. by right.
      * intros q Hq5. pose proof (Hfive q Hq5) as Hin.
        apply elem_of_cons in Hin as [->|Hin]; [|done].
        apply Hr in Hq5. done.
Qed.

(** ** C2: terminal detection *)


(** C2, as stated, fails for the runs of six: the only stones of this board
    are six BLACK stones in one row, between the border and an empty cell,
    so no stone lies on a run of exactly five, and the game is reported as
    ended, won by BLACK. Asked at the second stone of the row, the check at
    a point fails its own assertion [count <= 5]. *)
Lemma six_in_a_row_counterexample :
  where1d (color_eqb BLACK) (board six_in_a_row) = [9; 10; 11; 12; 13; 14] ∧
  where1d (color_eqb WHITE) (board six_in_a_row) = [] ∧
  get_color six_in_a_row 8 = Ok BORDER ∧
  get_color six_in_a_row 15 = Ok EMPTY ∧
  check_game_end_gomoku six_in_a_row = Ok (true, Some BLACK) ∧
  point_check_game_end_gomoku six_in_a_row 10 = Raise AssertionError.
Proof. by_computation. Qed.

(** What [check_game_end_gomoku] returns on a well-formed board. *)
Lemma check_game_end_gomoku_cases (b : SimpleGoBoard) :
  wf_board b = true →
  (check_game_end_gomoku b = Ok (true, Some WHITE) ∧ has_five b WHITE) ∨
  (check_game_end_gomoku b = Ok (true, Some BLACK) ∧
   ¬ has_five b WHITE ∧ has_five b BLACK) ∨
  (check_game_end_gomoku b = Ok (false, None) ∧
   ¬ has_five b WHITE ∧ ¬ has_five b BLACK).
Proof.
  intros Hwf.
  assert (∀ c, stone c →
            ∃ r, first_game_end b (where1d (color_eqb c) (board b)) = Ok r ∧
                 (r = true ↔ has_five b c)) as Hloop.
  { intros c Hc. apply first_game_end_spec; try done.
    - apply where1d_from_sorted.
    - intros p Hp. by apply where1d_spec.
    - intros q [Hq (d & _ & lo & hi & H0 & _ & Hseg)].
      apply where1d_spec. split; [done|].
      specialize (Hseg 0 ltac:(lia)).
      by replace (q + 0 * d) with q in Hseg by lia. }
  unfold check_game_end_gomoku.
  destruct (Hloop WHITE eq_refl) as (w & -> & Hw). cbn [rbind].
  destruct w.
  { left. split; [done|]. by apply Hw. }
  destruct (Hloop BLACK eq_refl) as (k & -> & Hk). cbn [rbind].
  assert (¬ has_five b WHITE) as Hnw by (intros H; by apply Hw in H).
  destruct k.
  - right. left. split; [done|]. split; [done|]. by apply Hk.
  - right. right. split; [done|]. split; [done|].
    intros H. by apply Hk in H.
Qed.

(** C2, amended: on a well-formed board [check_game_end_gomoku] returns,
    and it reports the end of the game exactly when some stone lies on a
    line (horizontal, vertical or diagonal) of five or more contiguous
    stones of its colour: WHITE wins if a white stone does, otherwise BLACK
    if a black stone does, otherwise the game has not ended. A run of
    exactly five is reported, a board whose runs are all of four or fewer
    is not, and a run of six or more is reported like a run of five. *)
Theorem check_game_end_gomoku_spec (b : SimpleGoBoard) :
  wf_board b = true →
  ∃ ended winner,
    check_game_end_gomoku b = Ok (ended, winner) ∧
    (ended = true ↔ has_five b WHITE ∨ has_five b BLACK) ∧
    (winner = Some WHITE ↔ has_five b WHITE) ∧
    (winner = Some BLACK ↔ ¬ has_five b WHITE ∧ has_five b BLACK) ∧
    (winner = None ↔ ended = false).
Proof.
  intros Hwf.
  destruct (check_game_end_gomoku_cases b Hwf)
    as [[-> Hw] | [(-> & Hnw & Hk) | (-> & Hnw & Hnk)]];
    eexists _, _; (split; [reflexivity|]).
  - split; [by split; [left|]|]. split; [done|].
    split; [|done]. split; [done|]. by intros [Hno _].
  - split; [by split; [right|]|]. split; [done|]. done.
  - split; [split; [done|by intros [H|H]]|].
    split; [done|]. split; [|done]. split; [done|]. by intros [_ H].
Qed.

Lemma check_game_end_gomoku_spec_witness :
  ∃ ended winner,
    check_game_end_gomoku five_in_a_row = Ok (ended, winner) ∧
    (ended = true ↔
     has_five five_in_a_row WHITE ∨ has_five five_in_a_row BLACK) ∧
    (winner = Some WHITE ↔ has_five five_in_a_row WHITE) ∧
    (winner = Some BLACK ↔
     ¬ has_five five_in_a_row WHITE ∧ has_five five_in_a_row BLACK) ∧
    (winner = None ↔ ended = false).
Proof. exact (check_game_end_gomoku_spec five_in_a_row eq_refl). Defined.

(** ** The recursive scan *)

Lemma length_append (s1 s2 : string) :
  String.length (s1 +:+ s2) = (String.length s1 + String.length s2)%nat.
Proof. induction s1 as [|c s1 IH]; simpl; [done|]. by rewrite IH. Qed.

Lemma piece_of_length c color : String.length (piece_of c color) = 1%nat.
Proof. unfold piece_of. by repeat case_match. Qed.

Lemma piece_of_char c color :
  ∃ ch, piece_of c color = String ch EmptyString.
Proof. unfold piece_of. repeat case_match; eauto. Qed.

Lemma spelledb_true b color d w : ∀ s,
  spelledb b color s d w = true → spelled b color s d w.
Proof.
  induction w as [|ch w IH]; intros s; simpl; [done|].
  rewrite !andb_true_iff. intros [[[H0 H1] Hc] Hrest].
  split; [lia|]. split; [|by apply IH].
  destruct (get_color b s) as [c|]; [|done].
  apply bool_decide_eq_true in Hc. eauto.
Qed.

Lemma spelled_app b color d w1 : ∀ s w2,
  spelled b color s d (w1 +:+ w2) ↔
  spelled b color s d w1 ∧
  spelled b color (s + Z.of_nat (String.length w1) * d) d w2.
Proof.
  induction w1 as [|ch w1 IH]; intros s w2; simpl.
  - replace (s + Z.of_nat 0 * d) with s by lia. tauto.
  - rewrite IH.
    replace (s + d + Z.of_nat (String.length w1) * d)
      with (s + Z.of_nat (S (String.length w1)) * d) by lia.
    tauto.
Qed.

Lemma add_moves_spec point dx dy ns l : ∀ s x,
  x ∈ add_moves point dx dy ns l s ↔
  x ∈ s ∨ ∃ dis, dis ∈ l ∧ x = point - dx * (dis + 1) - dy * ns * (dis + 1).
Proof.
  unfold add_moves. induction l as [|a l IH]; intros s x; simpl.
  - split; [by left|]. intros [H | (dis & H & _)]; [done|].
    by apply elem_of_nil in H.
  - rewrite IH, elem_of_union, elem_of_singleton. split.
    + intros [[-> | H] | (dis & Hd & ->)].
      * right. exists a. split; [by left|done].
      * by left.
      * right. exists dis. split; [by right|done].
    + intros [H | (dis & Hd & ->)]; [left; by right|].
      apply elem_of_cons in Hd as [-> | Hd]; [left; by left|].
      right. eauto.
Qed.

Lemma in_tier_alter (f : gset Z → gset Z) ms k i x :
  in_tier (alter f k ms) i x ↔
  ∃ s, ms !! i = Some s ∧ x ∈ (if decide (k = i) then f s else s).
Proof.
  unfold in_tier. destruct (decide (k = i)) as [->|Hne].
  - rewrite list_lookup_alter_eq. destruct (ms !! i) as [s'|]; simpl.
    + split; intros (s & [= <-] & Hx); eauto.
    + split; intros (s & [=] & _).
  - by rewrite list_lookup_alter_ne.
Qed.

(** What one round of the table loop adds: the moves of the first table
    that holds [have], to the set of that table. *)
Lemma match_tiers_spec tables have point dx dy ns : ∀ k ms i x,
  in_tier (match_tiers k tables have point dx dy ns ms) i x ↔
  in_tier ms i x ∨
  ∃ j table l dis,
    i = (k + j)%nat ∧ tables !! j = Some table ∧ table !! have = Some l ∧
    (∀ j' t', (j' < j)%nat → tables !! j' = Some t' → t' !! have = None) ∧
    is_Some (ms !! i) ∧ dis ∈ l ∧
    x = point - dx * (dis + 1) - dy * ns * (dis + 1).
Proof.
  induction tables as [|t tables IH]; intros k ms i x; simpl.
  - split; [by left|]. intros [H | (j & table & l & dis & _ & H & _)]; done.
  - destruct (t !! have) as [l|] eqn:Ht.
    + rewrite in_tier_alter. split.
      * intros (s & Hs & Hx). destruct (decide (k = i)) as [->|Hne].
        -- apply add_moves_spec in Hx as [Hx | (dis & Hd & ->)].
           ++ left. exists s. done.
           ++ right. exists 0%nat, t, l, dis.
              split; [lia|]. split; [done|]. split; [done|].
              split; [intros; lia|]. split; [by eexists|]. done.
        -- left. exists s. done.
      * intros [(s & Hs & Hx) | (j & table & l' & dis & -> & Hj & Hl & Hfirst
                                 & [s Hs] & Hd & ->)].
        -- exists s. split; [done|]. case_decide; [|done].
           apply add_moves_spec. by left.
        -- destruct j as [|j].
           ++ simpl in Hj. injection Hj as <-.
              assert (l' = l) as -> by congruence.
              exists s. split; [done|].
              rewrite decide_True by lia. apply add_moves_spec. right. eauto.
           ++ specialize (Hfirst 0%nat t ltac:(lia) eq_refl). congruence.
    + rewrite IH. split.
      * intros [H | (j & table & l & dis & -> & Hj & Hl & Hfirst & Hs & Hd & ->)];
          [by left|].
        right. exists (S j), table, l, dis.
        split; [lia|]. split; [done|]. split; [done|].
        split; [|done].
        intros [|j'] t' Hlt Ht'; simpl in Ht'.
        -- by injection Ht' as <-.
        -- apply (Hfirst j'); [lia|done].
      * intros [H | (j & table & l & dis & -> & Hj & Hl & Hfirst & Hs & Hd & ->)];
          [by left|].
        destruct j as [|j]; simpl in Hj.
        -- injection Hj as <-. congruence.
        -- right. exists j, table, l, dis.
           split; [lia|]. split; [done|]. split; [done|].
           split; [|done].
           intros j' t' Hlt Ht'. apply (Hfirst (S j')); [lia|done].
Qed.

Lemma match_tiers_length tables have point dx dy ns : ∀ k ms,
  length (match_tiers k tables have point dx dy ns ms) = length ms.
Proof.
  induction tables as [|t tables IH]; intros k ms; simpl; [done|].
  destruct (t !! have); [apply length_alter | apply IH].
Qed.

(** Split a conjunction into its parts and close the easy ones. *)
Ltac split_all :=
  repeat match goal with |- _ ∧ _ => split end; try done; try lia.

Lemma append_cons c (s t : string) :
  (String c s +:+ t)%string = String c (s +:+ t).
Proof. reflexivity. Qed.

Lemma append_assoc_char (s : string) ch (t : string) :
  ((s +:+ String ch EmptyString) +:+ t = s +:+ String ch t)%string.
Proof.
  induction s as [|c s IH]; [done|]. rewrite !append_cons. by f_equal.
Qed.

Lemma append_empty_r (s : string) : (s +:+ EmptyString)%string = s.
Proof. induction s as [|c s IH]; [done|]. rewrite append_cons. by f_equal. Qed.

(** What a walk of [check_pattern] adds, from the call at [point] with the
    signature [have] of the cells before it: the moves of every window that
    starts where the walk started, extends [have] by cells of the array and
    has at most nine cells, each for the first table that holds it. *)
Lemma check_pattern_spec b dx dy tables color :
  let d := dx + dy * NS b in
  ∀ fuel point have ms,
    (10 ≤ fuel + String.length have)%nat →
    (String.length have ≤ 9)%nat →
    let start := point - Z.of_nat (String.length have) * d in
    spelled b color start d have →
    ∃ ms', check_pattern fuel b point have dx dy ms tables color = Ok ms' ∧
           length ms' = length ms ∧
           ∀ i x, in_tier ms' i x ↔
             in_tier ms i x ∨
             ∃ rest table l dis,
               let w := (have +:+ rest)%string in
               spelled b color start d w ∧
               (String.length w ≤ 9)%nat ∧
               tables !! i = Some table ∧ table !! w = Some l ∧
               (∀ j' t', (j' < i)%nat → tables !! j' = Some t' →
                         t' !! w = None) ∧
               is_Some (ms !! i) ∧ dis ∈ l ∧
               x = start + (Z.of_nat (String.length w) - 1 - dis) * d.
Proof.
  intros d fuel. induction fuel as [|fuel IH]; intros point have ms Hfuel Hlen
    start Hsp.
  { simpl in Hfuel. lia. }
  (* the table loop of this call *)
  assert (∀ i x,
            in_tier (match_tiers 0 tables have point dx dy (NS b) ms) i x ↔
            in_tier ms i x ∨
            ∃ table l dis,
              tables !! i = Some table ∧ table !! have = Some l ∧
              (∀ j' t', (j' < i)%nat → tables !! j' = Some t' →
                        t' !! have = None) ∧
              is_Some (ms !! i) ∧ dis ∈ l ∧
              x = start + (Z.of_nat (String.length have) - 1 - dis) * d)
    as Hhere.
  { intros i x. rewrite match_tiers_spec. split.
    - intros [H | (j & table & l & dis & -> & Hj & Hl & Hf & Hs & Hd & ->)];
        [by left|].
      right. exists table, l, dis. split_all; unfold start, d; lia.
    - intros [H | (table & l & dis & Hj & Hl & Hf & Hs & Hd & ->)];
        [by left|].
      right. exists i, table, l, dis. split_all; unfold start, d; lia. }
  cbn [check_pattern].
  set (ms1 := match_tiers 0 tables have point dx dy (NS b) ms) in *.
  assert (length ms1 = length ms) as Hlen1 by apply match_tiers_length.
  destruct (negb ((0 <=? point) && (point <? len_board b))
            || (String.length have =? 9)%nat) eqn:Hstop.
  - (* the walk ends here *)
    exists ms1. split; [done|]. split; [done|].
    intros i x. rewrite Hhere. split.
    + intros [H | (table & l & dis & Hj & Hl & Hf & Hs & Hd & ->)];
        [by left|].
      right. exists EmptyString, table, l, dis. cbn zeta.
      rewrite append_empty_r. split_all.
    + intros [H | (rest & table & l & dis & Hw & Hwl & Hj & Hl & Hf & Hs & Hd
                   & ->)]; [by left|].
      cbn zeta in *. destruct rest as [|ch rest].
      { rewrite append_empty_r in *. right. exists table, l, dis. split_all. }
      exfalso. apply spelled_app in Hw as [_ Hw]. fold start in Hw.
      replace (start + Z.of_nat (String.length have) * d) with point in Hw
        by (unfold start; lia).
      destruct Hw as (Hrange & _).
      apply orb_true_iff in Hstop as [Hstop | Hstop].
      * apply negb_true_iff, andb_false_iff in Hstop. lia.
      * apply Nat.eqb_eq in Hstop. rewrite length_append in Hwl.
        simpl in Hwl. lia.
  - (* one more cell *)
    apply orb_false_iff in Hstop as [Hrange H9].
    apply negb_false_iff, andb_true_iff in Hrange.
    apply Nat.eqb_neq in H9.
    destruct (get_color_total b point ltac:(lia)) as [cur Hcur].
    rewrite Hcur. cbn [rbind].
    destruct (piece_of_char cur color) as [ch Hch].
    assert (spelled b color start d (have +:+ piece_of cur color)) as Hsp'.
    { apply spelled_app. split; [done|]. rewrite Hch. simpl.
      replace (start + Z.of_nat (String.length have) * d) with point
        by (unfold start; lia).
      split; [lia|]. split; [|done]. exists cur. done. }
    assert (String.length (have +:+ piece_of cur color)
            = S (String.length have)) as Hlen'.
    { rewrite length_append, piece_of_length. lia. }
    destruct (IH (point + dx + dy * NS b) (have +:+ piece_of cur color)%string
                 ms1) as (ms' & Hms' & Hl' & Hin').
    { lia. } { lia. }
    { rewrite Hlen'.
      replace (point + dx + dy * NS b - Z.of_nat (S (String.length have)) * d)
        with start by (unfold start, d; lia).
      done. }
    rewrite Hlen' in Hin'.
    replace (point + dx + dy * NS b - Z.of_nat (S (String.length have)) * d)
      with start in Hin' by (unfold start, d; lia).
    exists ms'. split; [done|]. split; [lia|].
    intros i x. rewrite Hin', Hhere. split.
    + intros [[H | (table & l & dis & Hj & Hl & Hf & Hs & Hd & ->)]
             | (rest & table & l & dis & Hw & Hwl & Hj & Hl & Hf & Hs & Hd
                & ->)].
      * by left.
      * right. exists EmptyString, table, l, dis. cbn zeta.
        rewrite append_empty_r. split_all.
      * right. cbn zeta in *. rewrite Hch, append_assoc_char in *.
        exists (String ch rest), table, l, dis. split_all;
          apply lookup_lt_is_Some; apply lookup_lt_is_Some in Hs; lia.
    + intros [H | (rest & table & l & dis & Hw & Hwl & Hj & Hl & Hf & Hs & Hd
                   & ->)]; [by left; left|].
      cbn zeta in *. destruct rest as [|ch' rest].
      { rewrite append_empty_r in *. left. right. exists table, l, dis.
        split_all. }
      right.
      assert (ch' = ch) as ->.
      { apply spelled_app in Hw as [_ Hw]. simpl in Hw.
        replace (start + Z.of_nat (String.length have) * d) with point in Hw
          by (unfold start; lia).
        destruct Hw as (_ & (c & Hc & Hp) & _).
        assert (c = cur) as -> by congruence. congruence. }
      exists rest, table, l, dis. rewrite Hch, append_assoc_char.
      split_all; apply lookup_lt_is_Some; apply lookup_lt_is_Some in Hs; lia.
Qed.

(** A whole walk, from the empty signature. *)
Lemma check_pattern_start b dx dy tables point ms :
  ∃ ms', check_pattern 10 b point EmptyString dx dy ms tables
                       (current_player b) = Ok ms' ∧
         length ms' = length ms ∧
         ∀ i x, in_tier ms' i x ↔
           in_tier ms i x ∨
           ((i < length ms)%nat ∧ window_move b tables point (dx, dy) i x).
Proof.
  destruct (check_pattern_spec b dx dy tables (current_player b) 10 point
              EmptyString ms) as (ms1 & Hms1 & Hl1 & H1);
    [simpl; lia | simpl; lia | done |].
  exists ms1. split; [done|]. split; [done|].
  intros i x. rewrite H1. clear H1 Hms1.
  change (Z.of_nat (String.length EmptyString)) with 0.
  replace (point - 0 * (dx + dy * NS b)) with point by lia.
  unfold window_move, step_of. cbn [fst snd].
  split.
  - intros [H | (rest & table & l & dis & Hw & Hwl & Hj & Hl & Hf & Hs & Hd
                 & ->)]; [by left|].
    right. split; [by apply lookup_lt_is_Some|].
    exists rest, table, l, dis. split_all.
  - intros [H | (Hi & w & table & l & dis & Hw & Hwl & Hj & Hl & Hf & Hd & ->)];
      [by left|].
    right. exists w, table, l, dis. split_all. by apply lookup_lt_is_Some.
Qed.

Lemma scan_directions_spec b point tables : ∀ dirs ms,
  ∃ ms', scan_directions b point dirs ms tables = Ok ms' ∧
         length ms' = length ms ∧
         ∀ i x, in_tier ms' i x ↔
           in_tier ms i x ∨
           ((i < length ms)%nat ∧
            ∃ dir, dir ∈ dirs ∧ window_move b tables point dir i x).
Proof.
  induction dirs as [|[dx dy] dirs IH]; intros ms; cbn [scan_directions].
  - exists ms. split_all. intros i x. split; [by left|].
    intros [H | (_ & dir & H & _)]; [done|]. by apply elem_of_nil in H.
  - destruct (check_pattern_start b dx dy tables point ms)
      as (ms1 & -> & Hl1 & H1).
    cbn [rbind]. destruct (IH ms1) as (ms' & -> & Hl' & H').
    exists ms'. split_all. intros i x. rewrite H', H1, Hl1.
    split.
    + intros [[H | (Hi & Hwm)] | (Hi & dir & Hdir & Hwm)].
      * by left.
      * right. split; [done|]. exists (dx, dy). split; [by left|done].
      * right. split; [done|]. exists dir. split; [by right|done].
    + intros [H | (Hi & dir & Hdir & Hwm)]; [by left; left|].
      apply elem_of_cons in Hdir as [-> | Hdir].
      * left. by right.
      * right. split; [done|]. eauto.
Qed.

Lemma scan_points_spec b tables : ∀ points ms,
  ∃ ms', scan_points b points ms tables = Ok ms' ∧
         length ms' = length ms ∧
         ∀ i x, in_tier ms' i x ↔
           in_tier ms i x ∨
           ((i < length ms)%nat ∧
            ∃ s dir, s ∈ points ∧ dir ∈ directions ∧
                     window_move b tables s dir i x).
Proof.
  induction points as [|p points IH]; intros ms; cbn [scan_points].
  - exists ms. split_all. intros i x. split; [by left|].
    intros [H | (_ & s & dir & H & _)]; [done|]. by apply elem_of_nil in H.
  - destruct (scan_directions_spec b p tables directions ms)
      as (ms1 & -> & Hl1 & H1).
    cbn [rbind]. destruct (IH ms1) as (ms' & -> & Hl' & H').
    exists ms'. split_all. intros i x. rewrite H', H1, Hl1. split.
    + intros [[H | (Hi & dir & Hdir & Hwm)] | (Hi & s & dir & Hs & Hdir & Hwm)].
      * by left.
      * right. split; [done|]. exists p, dir. split_all. by left.
      * right. split; [done|]. exists s, dir. split_all. by right.
    + intros [H | (Hi & s & dir & Hs & Hdir & Hwm)]; [by left; left|].
      apply elem_of_cons in Hs as [-> | Hs].
      * left. right. eauto.
      * right. split; [done|]. eauto.
Qed.

(** Facts about the four tables of [list_solve_point], each checked on the
    finitely many keys. *)
Ltac table_cases H :=
  repeat (apply lookup_insert_Some in H as [[<- <-] | [_ H]]);
  [..|by rewrite lookup_empty in H].

Ltac tier_cases i Hi :=
  destruct i as [|[|[|[|i]]]]; simpl in Hi; [..|done]; injection Hi as <-.

Lemma solve_tables_keys i table w l :
  solve_patternList !! i = Some table → table !! w = Some l →
  (String.length w ≤ 9)%nat ∧
  (∃ ch w', w = String ch w' ∧ ch ≠ "B"%char) ∧
  (∀ j t', j ≠ i → solve_patternList !! j = Some t' → t' !! w = None).
Proof.
  intros Hi Hw. tier_cases i Hi; table_cases Hw;
    (split; [simpl; lia|]); (split; [eexists _, _; split; [reflexivity|done]|]);
    intros j t' Hne Hj; tier_cases j Hj; (done || by vm_compute).
Qed.

Lemma solve_tables_dot i table w l dis :
  solve_patternList !! i = Some table → table !! w = Some l → dis ∈ l →
  ∃ k, String.get k w = Some "."%char ∧
       Z.of_nat k = Z.of_nat (String.length w) - 1 - dis.
Proof.
  intros Hi Hw Hd. tier_cases i Hi; table_cases Hw;
    repeat (apply elem_of_cons in Hd as [-> | Hd]);
    try (by apply elem_of_nil in Hd);
    match goal with
    | |- ∃ k, _ ∧ _ = ?n =>
        let n' := eval vm_compute in (Z.to_nat n) in
        exists n'; split; reflexivity
    end.
Qed.

Lemma spelled_get b color d w : ∀ s k ch,
  spelled b color s d w → String.get k w = Some ch →
  0 ≤ s + Z.of_nat k * d < len_board b ∧
  ∃ c, get_color b (s + Z.of_nat k * d) = Ok c ∧
       piece_of c color = String ch EmptyString.
Proof.
  induction w as [|a w IH]; intros s k ch Hsp Hget; [done|].
  destruct Hsp as (Hr & Hc & Hrest). destruct k as [|k]; simpl in Hget.
  - injection Hget as <-. replace (s + Z.of_nat 0 * d) with s by lia. done.
  - replace (s + Z.of_nat (S k) * d) with (s + d + Z.of_nat k * d) by lia.
    by apply IH.
Qed.

Lemma piece_of_dot c color : piece_of c color = "."%string → c = EMPTY.
Proof. destruct c, color; vm_compute; congruence. Qed.

Lemma piece_of_not_border c color ch :
  stone color → piece_of c color = String ch EmptyString → ch ≠ "B"%char →
  c ≠ BORDER.
Proof.
  intros Hs Hp Hch ->. destruct color; vm_compute in Hp, Hs; congruence.
Qed.

Lemma tier_table_lookup i w (l : list Z) :
  tier_table i !! w = Some l →
  ∃ table, solve_patternList !! i = Some table ∧ table !! w = Some l.
Proof.
  unfold tier_table. destruct (solve_patternList !! i) as [table|]; simpl.
  - eauto.
  - by rewrite lookup_empty.
Qed.

(** A move of a tier is an empty cell of the array. *)
Lemma tier_move_empty b i x :
  tier_move b i x → 0 ≤ x < len_board b ∧ get_color b x = Ok EMPTY.
Proof.
  intros (s & dir & w & l & dis & Hdir & Hsp & Hw & Hd & ->).
  apply tier_table_lookup in Hw as (table & Hi & Hw).
  destruct (solve_tables_dot i table w l dis Hi Hw Hd) as (k & Hk & <-).
  destruct (spelled_get _ _ _ _ _ _ _ Hsp Hk) as (Hr & c & Hc & Hp).
  split; [done|]. by apply piece_of_dot in Hp as ->.
Qed.

(** The four sets after the scan are the moves of the four tiers. *)
Lemma solve_moveSet_spec b :
  stone (current_player b) →
  ∃ t0 t1 t2 t3,
    solve_moveSet b = Ok [t0; t1; t2; t3] ∧
    ∀ i x, in_tier [t0; t1; t2; t3] i x ↔ ((i < 4)%nat ∧ tier_move b i x).
Proof.
  intros Hcp. unfold solve_moveSet.
  destruct (scan_points_spec b solve_patternList
              (where1d (λ c, negb (color_eqb c BORDER)) (board b))
              [∅; ∅; ∅; ∅]) as (ms & -> & Hlen & Hin).
  destruct ms as [|t0 [|t1 [|t2 [|t3 [|]]]]]; try done.
  exists t0, t1, t2, t3. split; [done|].
  intros i x. rewrite Hin. simpl. split.
  - intros [(s & Hs & Hx) | (Hi & s & dir & Hs & Hdir & Hwm)].
    + destruct i as [|[|[|[|i]]]]; simpl in Hs; try done;
        injection Hs as <-; by apply not_elem_of_empty in Hx.
    + split; [done|].
      destruct Hwm as (w & table & l & dis & Hsp & _ & Hi' & Hw & _ & Hd & ->).
      exists s, dir, w, l, dis. unfold tier_table. rewrite Hi'. done.
  - intros [Hi (s & dir & w & l & dis & Hdir & Hsp & Hw & Hd & ->)].
    right. split; [done|].
    apply tier_table_lookup in Hw as (table & Hi' & Hw).
    destruct (solve_tables_keys i table w l Hi' Hw)
      as (Hlen9 & (ch & w' & -> & Hch) & Hdisj).
    exists s, dir. split; [|split; [done|]].
    + destruct Hsp as (Hr & (c & Hc & Hp) & _).
      apply where1d_from_spec. split; [lia|].
      replace (s - 0) with s by lia.
      rewrite get_color_in_range in Hc by done.
      destruct (board b !! Z.to_nat s) as [c'|]; [|done].
      injection Hc as ->. exists c. split; [done|].
      pose proof (piece_of_not_border _ _ _ Hcp Hp Hch). by destruct c.
    + exists (String ch w'), table, l, dis. split_all.
      intros j' t' Hlt Hj'. apply (Hdisj j'); [lia|done].
Qed.

Lemma first_nonempty_spec (ms : list (gset Z)) :
  match first_nonempty ms with
  | None => ∀ i x, ¬ in_tier ms i x
  | Some s =>
      ∃ i, ms !! i = Some s ∧ s ≠ ∅ ∧
           ∀ j x, (j < i)%nat → ¬ in_tier ms j x
  end.
Proof.
  induction ms as [|t ms IH]; simpl.
  - intros i x (s & Hs & _). done.
  - case_bool_decide as Ht.
    + destruct (first_nonempty ms) as [s|].
      * destruct IH as (i & Hi & Hne & Hbefore). exists (S i). split_all.
        intros [|j] x Hlt (s' & Hs' & Hx); simpl in Hs'.
        -- injection Hs' as <-. subst t. by apply not_elem_of_empty in Hx.
        -- apply (Hbefore j x); [lia|]. by exists s'.
      * intros [|i] x (s' & Hs' & Hx); simpl in Hs'.
        -- injection Hs' as <-. subst t. by apply not_elem_of_empty in Hx.
        -- apply (IH i x). by exists s'.
    + exists 0%nat. split_all; intros j x Hlt; lia.
Qed.

(** The result of [list_solve_point]: the moves of the first non-empty
    tier. *)
Lemma list_solve_point_tiers (list_of_set : gset Z → list Z)
    (b : SimpleGoBoard) :
  (∀ s x, x ∈ list_of_set s ↔ x ∈ s) →
  is_black_white (current_player b) = true →
  ∃ result,
    list_solve_point list_of_set b = Ok result ∧
    match result with
    | None => ∀ i x, ¬ tier_move b i x
    | Some l =>
        ∃ i, (i < 4)%nat ∧
             (∃ x, x ∈ l) ∧
             (∀ x, x ∈ l ↔ tier_move b i x) ∧
             (∀ j x, (j < i)%nat → ¬ tier_move b j x)
    end.
Proof.
  intros Hlist Hcp. unfold list_solve_point.
  destruct (solve_moveSet_spec b Hcp) as (t0 & t1 & t2 & t3 & -> & Hin).
  cbn [rbind]. eexists. split; [reflexivity|].
  pose proof (first_nonempty_spec [t0; t1; t2; t3]) as Hfirst.
  destruct (first_nonempty [t0; t1; t2; t3]) as [s|]; simpl.
  - destruct Hfirst as (i & Hi & Hne & Hbefore).
    assert (i < 4)%nat as Hi4 by (apply lookup_lt_Some in Hi; simpl in Hi; lia).
    exists i. split; [done|]. split; [|split].
    + apply set_choose_L in Hne as [x Hx]. exists x. by apply Hlist.
    + intros x. rewrite Hlist. split.
      * intros Hx. apply Hin. by exists s.
      * intros Hx. destruct (proj2 (Hin i x) (conj Hi4 Hx)) as (s' & Hs' & Hx').
        congruence.
    + intros j x Hlt Hx. apply (Hbefore j x Hlt). apply Hin. split; [lia|done].
  - intros i x Hx. destruct (decide (i < 4)%nat) as [Hi|Hi].
    + apply (Hfirst i x). apply Hin. done.
    + destruct Hx as (s & dir & w & l & dis & _ & _ & Hw & _).
      apply tier_table_lookup in Hw as (table & Hi' & _).
      apply lookup_lt_Some in Hi'. simpl in Hi'. lia.
Qed.

(** ** C4: priority of the tiers *)

(** C4. Whatever the order in which Python lists a set, the result of
    [list_solve_point] is the set of moves of the highest-priority
    non-empty tier, in the order immediate win, block the opponent's win,
    create an open four, block the opponent's open four; it is None exactly
    when all four tiers are empty. In particular, when an immediate win
    exists, the result lists immediate wins only, whatever there is to
    block. *)
Theorem list_solve_point_priority (list_of_set : gset Z → list Z)
    (b : SimpleGoBoard) :
  (∀ s x, x ∈ list_of_set s ↔ x ∈ s) →
  is_black_white (current_player b) = true →
  ∃ result,
    list_solve_point list_of_set b = Ok result ∧
    match result with
    | None => ∀ i x, ¬ tier_move b i x
    | Some l =>
        ∃ i, (i < 4)%nat ∧
             (∃ x, x ∈ l) ∧
             (∀ x, x ∈ l ↔ tier_move b i x) ∧
             (∀ j x, (j < i)%nat → ¬ tier_move b j x)
    end ∧
    ((∃ w, tier_move b 0 w) →
     ∃ l, result = Some l ∧ (∃ x, x ∈ l) ∧ ∀ x, x ∈ l ↔ tier_move b 0 x).
Proof.
  intros Hlist Hcp.
  destruct (list_solve_point_tiers list_of_set b Hlist Hcp)
    as (result & Hresult & Htier).
  exists result. split; [done|]. split; [done|].
  intros [w Hw]. destruct result as [l|].
  - destruct Htier as (i & _ & Hne & Hmem & Hbefore).
    exists l. split; [done|]. split; [done|].
    destruct i as [|i]; [done|].
    destruct (Hbefore 0%nat w); [lia|done].
  - by destruct (Htier 0%nat w).
Qed.

Lemma win_and_block_tiers :
  tier_move win_and_block 0 13 ∧ tier_move win_and_block 1 29.
Proof.
  split.
  - exists 9, (1, 0), "xxxx."%string, [0], 0.
    split; [by left|]. split; [by apply spelledb_true; vm_compute|].
    split; [vm_compute; reflexivity|]. split; [by left|].
    vm_compute; reflexivity.
  - exists 25, (1, 0), "oooo."%string, [0], 0.
    split; [by left|]. split; [by apply spelledb_true; vm_compute|].
    split; [vm_compute; reflexivity|]. split; [by left|].
    vm_compute; reflexivity.
Qed.

Lemma list_solve_point_priority_witness :
  ∃ l, list_solve_point elements win_and_block = Ok (Some l) ∧
       (∀ x, x ∈ l ↔ tier_move win_and_block 0 x) ∧ l = [13].
Proof.
  destruct (list_solve_point_priority elements win_and_block
              (λ s x, elem_of_elements s x) eq_refl)
    as (r & Hr & _ & Hwin).
  destruct Hwin as (l & -> & _ & Hmem).
  - exists 13. exact (proj1 win_and_block_tiers).
  - exists l. split; [exact Hr|]. split; [exact Hmem|].
    vm_compute in Hr. congruence.
Defined.

(** ** The line-window scan *)

Lemma getPointRep_cell b cp p :
  0 ≤ p < len_board b → getPointRep b cp p = Ok (rep_of (cell b p) cp).
Proof.
  intros Hp. unfold getPointRep, cell. rewrite get_color_in_range by done.
  destruct (lookup_lt_is_Some_2 (board b) (Z.to_nat p)) as [c ->].
  { unfold len_board in Hp. lia. }
  simpl. unfold rep_of. by repeat case_match.
Qed.

Lemma rep_of_char c cp : ∃ ch, rep_of c cp = String ch EmptyString.
Proof. unfold rep_of. repeat case_match; eauto. Qed.

Lemma sig_length b a st m : String.length (sig b a st m) = m.
Proof.
  revert a. induction m as [|m IH]; intros a; [done|]. cbn [sig].
  rewrite length_append, IH.
  by destruct (rep_of_char (cell b a) (current_player b)) as [ch ->].
Qed.

Lemma sig_snoc b st m : ∀ a,
  sig b a st (S m) =
  (sig b a st m +:+ rep_of (cell b (a + Z.of_nat m * st)) (current_player b))%string.
Proof.
  induction m as [|m IH]; intros a.
  - cbn [sig]. replace (a + Z.of_nat 0 * st) with a by lia.
    destruct (rep_of_char (cell b a) (current_player b)) as [ch ->].
    reflexivity.
  - change (sig b a st (S (S m)))
      with (rep_of (cell b a) (current_player b) +:+ sig b (a + st) st (S m))%string.
    rewrite IH. cbn [sig].
    destruct (rep_of_char (cell b a) (current_player b)) as [ch ->].
    rewrite !append_cons. f_equal.
    replace (a + st + Z.of_nat m * st) with (a + Z.of_nat (S m) * st) by lia.
    reflexivity.
Qed.

Lemma sig_tail b a st m :
  str_tail (sig b a st (S m)) = sig b (a + st) st m.
Proof.
  cbn [sig]. destruct (rep_of_char (cell b a) (current_player b)) as [ch ->].
  reflexivity.
Qed.

(** Every key of [winDict] has its empty cell. *)
Lemma winDict_dot s own :
  winDict !! s = Some own → ∃ idx, index_dot s = Some idx ∧ 0 ≤ idx ≤ 4.
Proof.
  intros H. unfold winDict, dict_of in H. simpl in H.
  repeat (apply lookup_insert_Some in H as [[<- <-] | [_ H]]);
    [..|by rewrite lookup_empty in H]; eexists; (split; [reflexivity|lia]).
Qed.

Lemma progression_cons a st n :
  progression a st (S n) = a :: progression (a + st) st n.
Proof.
  unfold progression. cbn [seq map]. f_equal; [lia|].
  rewrite <- seq_shift, map_map. apply map_ext. intros k. lia.
Qed.

(** One step of the scan, at the point of index [k] of a line. *)
Lemma scan_cell_spec b a st k mw tw m2 t2 :
  0 ≤ a + Z.of_nat k * st < len_board b →
  scan_cell b st (winStr_at b a st k) (mw, tw, m2, t2) (a + Z.of_nat k * st) =
  let p := a + Z.of_nat k * st in
  let '(m2', t2') :=
    if (5 <=? k)%nat
    then checkThreat threatDict (sig b (a + Z.of_nat (k - 5) * st) st 6)
                     m2 t2 p st
    else (m2, t2) in
  if (4 <=? k)%nat then
    let* (won, mw', tw') :=
      checkWin winDict (sig b (a + Z.of_nat (k - 4) * st) st 5) mw tw p st in
    if won then Ok (inl (mw', [], [], []))
    else Ok (inr (winStr_at b a st (S k), (mw', tw', m2', t2')))
  else Ok (inr (winStr_at b a st (S k), (mw, tw, m2', t2'))).
Proof.
  intros Hp. unfold scan_cell. rewrite getPointRep_cell by done. cbn [rbind].
  assert (winStr_at b a st k
          +:+ rep_of (cell b (a + Z.of_nat k * st)) (current_player b)
          = sig b (a + Z.of_nat (k - min k 5) * st) st (S (min k 5)))%string
    as ->.
  { rewrite sig_snoc. unfold winStr_at.
    replace (a + Z.of_nat (k - min k 5) * st + Z.of_nat (min k 5) * st)
      with (a + Z.of_nat k * st); [reflexivity|].
    replace (Z.of_nat k)
      with (Z.of_nat (k - min k 5) + Z.of_nat (min k 5)) by lia.
    ring. }
  rewrite sig_length.
  destruct (decide (k < 4)%nat) as [Hlt|Hge].
  - replace (min k 5) with k by lia. replace (k - k)%nat with 0%nat by lia.
    replace (S k =? 6)%nat with false by (symmetry; apply Nat.eqb_neq; lia).
    rewrite sig_length.
    replace (S k =? 5)%nat with false by (symmetry; apply Nat.eqb_neq; lia).
    replace (5 <=? k)%nat with false by (symmetry; apply Nat.leb_gt; lia).
    replace (4 <=? k)%nat with false by (symmetry; apply Nat.leb_gt; lia).
    unfold winStr_at. replace (min (S k) 5) with (S k) by lia.
    replace (S k - S k)%nat with 0%nat by lia. reflexivity.
  - destruct (decide (k = 4)%nat) as [->|Hne].
    + cbn [Nat.min Nat.sub Nat.eqb Nat.leb]. cbn iota. rewrite sig_length.
      cbn [Nat.eqb]. unfold winStr_at. cbn [Nat.min Nat.sub]. reflexivity.
    + replace (min k 5) with 5%nat by lia.
      replace (5 <=? k)%nat with true by (symmetry; apply Nat.leb_le; lia).
      replace (4 <=? k)%nat with true by (symmetry; apply Nat.leb_le; lia).
      change (6 =? 6)%nat with true. cbn iota.
      destruct (checkThreat threatDict
                  (sig b (a + Z.of_nat (k - 5) * st) st 6) m2 t2
                  (a + Z.of_nat k * st) st) as [m2' t2'].
      rewrite sig_tail, sig_length. change (5 =? 5)%nat with true. cbn iota.
      replace (a + Z.of_nat (k - 5) * st + st)
        with (a + Z.of_nat (k - 4) * st)
        by (replace (Z.of_nat (k - 4)) with (Z.of_nat (k - 5) + 1) by lia;
            ring).
      unfold winStr_at. replace (min (S k) 5) with 5%nat by lia.
      replace (S k - 5)%nat with (k - 4)%nat by lia. reflexivity.
Qed.

Lemma win5_from_step b own a st n k x :
  win5_from b own (a, st, n) k x ↔
  ((k < n)%nat ∧ step_win b own a st k x) ∨ win5_from b own (a, st, n) (S k) x.
Proof.
  unfold win5_from, step_win. split.
  - intros (j & idx & Hk & Hn & Hw & Hi & ->).
    destruct (decide (j + 4 = k)%nat) as [<-|Hne].
    + left. split; [lia|]. split; [lia|]. exists idx.
      replace (j + 4 - 4)%nat with j by lia. done.
    + right. exists j, idx. split_all.
  - intros [(Hn & H4 & idx & Hw & Hi & ->) | (j & idx & Hk & Hn & Hw & Hi & ->)].
    + exists (k - 4)%nat, idx. split_all.
    + exists j, idx. split_all.
Qed.

Lemma thr6_from_step b own a st n k x :
  thr6_from b own (a, st, n) k x ↔
  ((k < n)%nat ∧ step_thr b own a st k x) ∨ thr6_from b own (a, st, n) (S k) x.
Proof.
  unfold thr6_from, step_thr. split.
  - intros (j & back & Hk & Hn & Hw & ->).
    destruct (decide (j + 5 = k)%nat) as [<-|Hne].
    + left. split; [lia|]. split; [lia|]. exists back.
      replace (j + 5 - 5)%nat with j by lia. split; [done|].
      replace (Z.of_nat (j + 5)) with (Z.of_nat j + 5) by lia. done.
    + right. exists j, back. split_all.
  - intros [(Hn & H5 & back & Hw & ->) | (j & back & Hk & Hn & Hw & ->)].
    + exists (k - 5)%nat, back. split_all.
      replace (Z.of_nat (k - 5) + 5) with (Z.of_nat k) by lia. done.
    + exists j, back. split_all.
Qed.

Lemma checkThreat_spec d s cpl opl p st :
  ∃ C O, checkThreat d s cpl opl p st = (cpl ++ C, opl ++ O) ∧
         (∀ x, x ∈ C ↔ ∃ back, d !! s = Some (true, back) ∧ x = p - back * st) ∧
         (∀ x, x ∈ O ↔ ∃ back, d !! s = Some (false, back) ∧ x = p - back * st).
Proof.
  unfold checkThreat. destruct (d !! s) as [[[] back]|].
  - exists [p - back * st], []. rewrite app_nil_r. split; [done|]. split.
    + intros x. rewrite list_elem_of_singleton. split; [intros ->; eauto|].
      by intros (back' & [= <-] & ->).
    + intros x. split; [by intros ?%elem_of_nil|]. by intros (? & [=] & _).
  - exists [], [p - back * st]. rewrite app_nil_r. split; [done|]. split.
    + intros x. split; [by intros ?%elem_of_nil|]. by intros (? & [=] & _).
    + intros x. rewrite list_elem_of_singleton. split; [intros ->; eauto|].
      by intros (back' & [= <-] & ->).
  - exists [], []. rewrite !app_nil_r. split; [done|].
    split; intros x; (split; [by intros ?%elem_of_nil|]);
      by intros (? & [=] & _).
Qed.

Lemma checkWin_spec s cpl opl p st :
  match winDict !! s with
  | Some true =>
      ∃ idx, index_dot s = Some idx ∧
             checkWin winDict s cpl opl p st
             = Ok (true, cpl ++ [p + (idx - 4) * st], opl)
  | Some false =>
      ∃ idx, index_dot s = Some idx ∧
             checkWin winDict s cpl opl p st
             = Ok (false, cpl, opl ++ [p + (idx - 4) * st])
  | None => checkWin winDict s cpl opl p st = Ok (false, cpl, opl)
  end.
Proof.
  unfold checkWin. destruct (winDict !! s) as [own|] eqn:Hs; [|done].
  destruct (winDict_dot s own Hs) as (idx & Hidx & _). rewrite Hidx.
  destruct own; eauto.
Qed.

(** One step of the scan, by what it finds. *)
Lemma scan_cell_outcome b a st k mw tw m2 t2 :
  0 ≤ a + Z.of_nat k * st < len_board b →
  (∃ x, step_win b true a st k x ∧
        scan_cell b st (winStr_at b a st k) (mw, tw, m2, t2)
                  (a + Z.of_nat k * st)
        = Ok (inl (mw ++ [x], [], [], []))) ∨
  ((∀ x, ¬ step_win b true a st k x) ∧
   ∃ T M2 T2,
     scan_cell b st (winStr_at b a st k) (mw, tw, m2, t2)
               (a + Z.of_nat k * st)
     = Ok (inr (winStr_at b a st (S k), (mw, tw ++ T, m2 ++ M2, t2 ++ T2))) ∧
     (∀ x, x ∈ T ↔ step_win b false a st k x) ∧
     (∀ x, x ∈ M2 ↔ step_thr b true a st k x) ∧
     (∀ x, x ∈ T2 ↔ step_thr b false a st k x)).
Proof.
  intros Hp. rewrite scan_cell_spec by done. cbn zeta.
  (* the 6-window *)
  assert (∃ M2 T2,
            (if (5 <=? k)%nat
             then checkThreat threatDict
                    (sig b (a + Z.of_nat (k - 5) * st) st 6) m2 t2
                    (a + Z.of_nat k * st) st
             else (m2, t2)) = (m2 ++ M2, t2 ++ T2) ∧
            (∀ x, x ∈ M2 ↔ step_thr b true a st k x) ∧
            (∀ x, x ∈ T2 ↔ step_thr b false a st k x))
    as (M2 & T2 & -> & HM2 & HT2).
  { unfold step_thr. destruct (Nat.leb_spec 5 k) as [H5|H5].
    - destruct (checkThreat_spec threatDict
                  (sig b (a + Z.of_nat (k - 5) * st) st 6) m2 t2
                  (a + Z.of_nat k * st) st) as (C & O & -> & HC & HO).
      exists C, O. split; [done|].
      split; intros x; [rewrite HC | rewrite HO];
        (split; [intros (back & Hb & ->); split; [done|]; exists back;
                 split; [done|ring]
                |intros (_ & back & Hb & ->); exists back;
                 split; [done|ring]]).
    - exists [], []. rewrite !app_nil_r. split; [done|].
      split; intros x; (split; [by intros ?%elem_of_nil|]); intros [? _]; lia. }
  (* the 5-window *)
  unfold step_win. destruct (Nat.leb_spec 4 k) as [H4|H4].
  - pose proof (checkWin_spec (sig b (a + Z.of_nat (k - 4) * st) st 5) mw tw
                  (a + Z.of_nat k * st) st) as Hwin.
    assert (∀ idx, a + Z.of_nat k * st + (idx - 4) * st
                   = a + (Z.of_nat (k - 4) + idx) * st) as Hx.
    { intros idx. replace (Z.of_nat k) with (Z.of_nat (k - 4) + 4) by lia.
      ring. }
    destruct (winDict !! sig b (a + Z.of_nat (k - 4) * st) st 5)
      as [[]|] eqn:Hlk.
    + destruct Hwin as (idx & Hidx & ->). cbn [rbind]. left.
      exists (a + (Z.of_nat (k - 4) + idx) * st). rewrite Hx.
      split; [|done]. split; [done|]. exists idx. done.
    + destruct Hwin as (idx & Hidx & ->). cbn [rbind]. right.
      split. { intros x (_ & idx' & [=] & _). }
      exists [a + (Z.of_nat (k - 4) + idx) * st], M2, T2. rewrite Hx.
      split; [done|]. split; [|done].
      intros x. rewrite list_elem_of_singleton. split.
      * intros ->. split; [done|]. exists idx. done.
      * intros (_ & idx' & _ & Hidx' & ->). congruence.
    + rewrite Hwin. cbn [rbind]. right.
      split. { intros x (_ & idx' & [=] & _). }
      exists [], M2, T2. rewrite app_nil_r. split; [done|]. split; [|done].
      intros x. split; [by intros ?%elem_of_nil|].
      intros (_ & idx' & [=] & _).
  - right. split. { intros x [? _]. lia. }
    exists [], M2, T2. rewrite app_nil_r. split; [done|]. split; [|done].
    intros x. split; [by intros ?%elem_of_nil|]. intros [? _]. lia.
Qed.

(** A line, from the point of index [k] on. *)
Lemma scan_line_from b a st n :
  line_in_range b (a, st, n) →
  ∀ r k mw tw m2 t2, (k + r = n)%nat →
    (∃ x, win5_from b true (a, st, n) k x ∧
          scan_line b st (progression (a + Z.of_nat k * st) st r)
                    (winStr_at b a st k) (mw, tw, m2, t2)
          = Ok (inl (mw ++ [x], [], [], []))) ∨
    ((∀ x, ¬ win5_from b true (a, st, n) k x) ∧
     ∃ T M2 T2,
       scan_line b st (progression (a + Z.of_nat k * st) st r)
                 (winStr_at b a st k) (mw, tw, m2, t2)
       = Ok (inr (mw, tw ++ T, m2 ++ M2, t2 ++ T2)) ∧
       (∀ x, x ∈ T ↔ win5_from b false (a, st, n) k x) ∧
       (∀ x, x ∈ M2 ↔ thr6_from b true (a, st, n) k x) ∧
       (∀ x, x ∈ T2 ↔ thr6_from b false (a, st, n) k x)).
Proof.
  intros Hrange r. induction r as [|r IH]; intros k mw tw m2 t2 Hk.
  - right. split.
    { intros x (j & idx & H1 & H2 & _). lia. }
    exists [], [], []. rewrite !app_nil_r. split; [done|].
    split; [|split]; intros x; (split; [by intros ?%elem_of_nil|]).
    + intros (j & idx & H1 & H2 & _). lia.
    + intros (j & back & H1 & H2 & _). lia.
    + intros (j & back & H1 & H2 & _). lia.
  - rewrite progression_cons. cbn [scan_line].
    replace (a + Z.of_nat k * st + st) with (a + Z.of_nat (S k) * st) by lia.
    destruct (scan_cell_outcome b a st k mw tw m2 t2 (Hrange k ltac:(lia)))
      as [(x & Hx & ->) | (Hnone & T & M2 & T2 & -> & HT & HM2 & HT2)];
      cbn [rbind].
    + left. exists x. split; [|done]. apply win5_from_step. left.
      split; [lia|done].
    + destruct (IH (S k) mw (tw ++ T) (m2 ++ M2) (t2 ++ T2) ltac:(lia))
        as [(x & Hx & ->) | (Hnone' & T' & M2' & T2' & -> & HT' & HM2' & HT2')].
      * left. exists x. split; [|done]. apply win5_from_step. by right.
      * right. split.
        { intros x Hx. apply win5_from_step in Hx as [[_ Hx] | Hx].
          - by apply (Hnone x). - by apply (Hnone' x). }
        exists (T ++ T'), (M2 ++ M2'), (T2 ++ T2'). rewrite <- !app_assoc.
        split; [done|].
        split; [|split]; intros x; rewrite elem_of_app.
        -- rewrite win5_from_step, HT, HT'. split.
           ++ intros [H|H]; [left; split; [lia|done] | by right].
           ++ intros [[_ H]|H]; [by left | by right].
        -- rewrite thr6_from_step, HM2, HM2'. split.
           ++ intros [H|H]; [left; split; [lia|done] | by right].
           ++ intros [[_ H]|H]; [by left | by right].
        -- rewrite thr6_from_step, HT2, HT2'. split.
           ++ intros [H|H]; [left; split; [lia|done] | by right].
           ++ intros [[_ H]|H]; [by left | by right].
Qed.

Lemma win5_from_0 b own ln x : win5_from b own ln 0 x ↔ win5 b own ln x.
Proof.
  destruct ln as [[a st] n]. unfold win5_from, win5.
  split; intros (j & idx & H); exists j, idx; [tauto|].
  split; [lia|tauto].
Qed.

Lemma thr6_from_0 b own ln x : thr6_from b own ln 0 x ↔ thr6 b own ln x.
Proof.
  destruct ln as [[a st] n]. unfold thr6_from, thr6.
  split; intros (j & idx & H); exists j, idx; [tauto|].
  split; [lia|tauto].
Qed.

(** A whole line. *)
Lemma scan_line_spec b ln bk :
  line_in_range b ln →
  ∃ res, scan_line b ln.1.2 (points_of ln) EmptyString bk = Ok res ∧
         scan_post b [ln] bk res.
Proof.
  destruct ln as [[a st] n], bk as [[[mw tw] m2] t2]. intros Hrange.
  cbn [fst snd points_of].
  destruct (scan_line_from b a st n Hrange n 0%nat mw tw m2 t2 eq_refl)
    as [(x & Hx & Hs) | (Hnone & T & M2 & T2 & Hs & HT & HM2 & HT2)];
    change (winStr_at b a st 0) with EmptyString in Hs;
    replace (a + Z.of_nat 0 * st) with a in Hs by lia;
    rewrite Hs; eexists; (split; [reflexivity|]).
  - left. exists x, (a, st, n). split; [by left|].
    split; [by apply win5_from_0|done].
  - right. split.
    { intros ln x ->%list_elem_of_singleton Hx.
      by apply (Hnone x), win5_from_0. }
    exists T, M2, T2. split; [done|].
    split; [|split]; intros x.
    + rewrite HT, win5_from_0. split; [intros; eexists; split; [by left|done]|].
      by intros (ln & ->%list_elem_of_singleton & H).
    + rewrite HM2, thr6_from_0.
      split; [intros; eexists; split; [by left|done]|].
      by intros (ln & ->%list_elem_of_singleton & H).
    + rewrite HT2, thr6_from_0.
      split; [intros; eexists; split; [by left|done]|].
      by intros (ln & ->%list_elem_of_singleton & H).
Qed.

(** Scanning more lines after the lines [lns1]. *)
Lemma scan_post_app b lns1 lns2 bk res1 :
  scan_post b lns1 bk res1 →
  match res1 with
  | inl early => scan_post b (lns1 ++ lns2) bk (inl early)
  | inr bk1 => ∀ res2, scan_post b lns2 bk1 res2 →
                       scan_post b (lns1 ++ lns2) bk res2
  end.
Proof.
  destruct bk as [[[mw tw] m2] t2]. unfold scan_post.
  intros [(x & ln & Hln & Hx & ->)
         | (Hnone & T & M2 & T2 & -> & HT & HM2 & HT2)].
  - left. exists x, ln. split; [|done]. apply elem_of_app. by left.
  - intros res2 [(x & ln & Hln & Hx & ->)
                | (Hnone' & T' & M2' & T2' & -> & HT' & HM2' & HT2')].
    + left. exists x, ln. split; [|done]. apply elem_of_app. by right.
    + right. split.
      { intros ln x [Hln|Hln]%elem_of_app; [by apply Hnone|by apply Hnone']. }
      exists (T ++ T'), (M2 ++ M2'), (T2 ++ T2'). rewrite <- !app_assoc.
      split; [done|].
      split; [|split]; intros x; rewrite elem_of_app.
      * rewrite HT, HT'. split.
        -- intros [(ln & Hln & H) | (ln & Hln & H)]; exists ln;
             (split; [apply elem_of_app; by (left + right)|done]).
        -- intros (ln & [Hln|Hln]%elem_of_app & H); [left|right]; eauto.
      * rewrite HM2, HM2'. split.
        -- intros [(ln & Hln & H) | (ln & Hln & H)]; exists ln;
             (split; [apply elem_of_app; by (left + right)|done]).
        -- intros (ln & [Hln|Hln]%elem_of_app & H); [left|right]; eauto.
      * rewrite HT2, HT2'. split.
        -- intros [(ln & Hln & H) | (ln & Hln & H)]; exists ln;
             (split; [apply elem_of_app; by (left + right)|done]).
        -- intros (ln & [Hln|Hln]%elem_of_app & H); [left|right]; eauto.
Qed.

(** A family of lines with one step. *)
Lemma scan_lines_spec b st : ∀ lns bk,
  (∀ ln, ln ∈ lns → ln.1.2 = st ∧ line_in_range b ln) →
  ∃ res, scan_lines b st (map points_of lns) bk = Ok res ∧
         scan_post b lns bk res.
Proof.
  induction lns as [|ln lns IH]; intros bk Hlns; cbn [map scan_lines].
  - eexists. split; [reflexivity|]. destruct bk as [[[mw tw] m2] t2].
    right. split; [by intros ln x ?%elem_of_nil|].
    exists [], [], []. rewrite !app_nil_r. split; [done|].
    split; [|split]; intros x; (split; [by intros ?%elem_of_nil|]);
      by intros (ln & ?%elem_of_nil & _).
  - destruct (Hlns ln ltac:(by left)) as [Hst Hrange].
    destruct (scan_line_spec b ln bk Hrange) as (res1 & Hres1 & Hpost1).
    rewrite Hst in Hres1. rewrite Hres1. cbn [rbind].
    pose proof (scan_post_app b [ln] lns bk res1 Hpost1) as Happ.
    destruct res1 as [early|bk1].
    + eexists. split; [reflexivity|]. exact Happ.
    + destruct (IH bk1) as (res2 & -> & Hpost2).
      { intros ln' Hln'. apply Hlns. by right. }
      eexists. split; [reflexivity|]. by apply Happ.
Qed.

Lemma py_range_progression start stop step :
  py_range start stop step
  = progression start step (Z.to_nat ((stop - start + step - 1) / step)).
Proof. reflexivity. Qed.

Lemma line_points_progression start step dSize :
  line_points start step dSize = progression start step (Z.to_nat dSize).
Proof.
  unfold line_points, py_range, progression. rewrite map_map.
  replace ((dSize - 0 + 1 - 1) / 1) with dSize by (rewrite Z.div_1_r; lia).
  apply map_ext. intros k. lia.
Qed.

Lemma scan_diagonals_lines b st : ∀ starts dSize red bk,
  scan_diagonals b st starts dSize red bk
  = scan_lines b st (map points_of (diag_lines st starts dSize red)) bk.
Proof.
  induction starts as [|start starts IH]; intros dSize red bk;
    cbn [scan_diagonals diag_lines map scan_lines points_of]; [done|].
  rewrite line_points_progression.
  destruct (scan_line b st (progression start st (Z.to_nat dSize))
                      EmptyString bk) as [[early|bk1]|e]; cbn [rbind];
    [done| |done].
  apply IH.
Qed.

Lemma diag_lines_step st : ∀ starts dSize red ln,
  ln ∈ diag_lines st starts dSize red → ln.1.2 = st.
Proof.
  induction starts as [|start starts IH]; intros dSize red ln;
    cbn [diag_lines]; [by intros ?%elem_of_nil|].
  intros [->|Hln]%elem_of_cons; [done|]. by eapply IH.
Qed.

(** [winDetection] scans the four families one after the other. *)
Lemma winDetection_lines (b : SimpleGoBoard) :
  1 ≤ size b →
  (∀ ln, ln ∈ scanned_lines b → line_in_range b ln) →
  ∃ res, winDetection b = Ok (match res with inl e => e | inr bk => bk end) ∧
         scan_post b (scanned_lines b) ([], [], [], []) res.
Proof.
  intros Hsize Hrange. unfold winDetection. cbn zeta.
  (* rows *)
  assert (map (λ rowStart, py_range rowStart (rowStart + size b) 1)
              (py_range (size b + 2) (size b + 2 + size b * size b + 1)
                        (size b + 1))
          = map points_of (row_lines b)) as ->.
  { unfold row_lines. rewrite map_map. apply map_ext. intros rs.
    rewrite py_range_progression. cbn [points_of].
    replace ((rs + size b - rs + 1 - 1) / 1) with (size b)
      by (rewrite Z.div_1_r; lia).
    reflexivity. }
  destruct (scan_lines_spec b 1 (row_lines b) ([], [], [], []))
    as (r1 & -> & Hp1).
  { intros ln Hln. split.
    - unfold row_lines in Hln. apply list_elem_of_fmap in Hln as (? & -> & _).
      done.
    - apply Hrange. unfold scanned_lines. apply elem_of_app. by left. }
  cbn [rbind].
  pose proof (scan_post_app b (row_lines b)
                (col_lines b ++ diag1_lines b ++ diag2_lines b) _ _ Hp1) as H1.
  destruct r1 as [e|bk1]; [by exists (inl e)|].
  (* columns *)
  assert (map (λ colStart,
                 py_range colStart
                          (colStart + (size b + 1) * (size b - 1) + 1)
                          (size b + 1))
              (py_range (size b + 2) (size b + 2 + size b) 1)
          = map points_of (col_lines b)) as ->.
  { unfold col_lines. rewrite map_map. apply map_ext. intros cs.
    rewrite py_range_progression. cbn [points_of].
    replace ((cs + (size b + 1) * (size b - 1) + 1 - cs + (size b + 1) - 1)
             / (size b + 1)) with (size b); [reflexivity|].
    replace (cs + (size b + 1) * (size b - 1) + 1 - cs + (size b + 1) - 1)
      with (size b * (size b + 1)) by ring.
    rewrite Z.div_mul by lia. reflexivity. }
  destruct (scan_lines_spec b (size b + 1) (col_lines b) bk1)
    as (r2 & -> & Hp2).
  { intros ln Hln. split.
    - unfold col_lines in Hln. apply list_elem_of_fmap in Hln as (? & -> & _).
      done.
    - apply Hrange. unfold scanned_lines. rewrite !elem_of_app. tauto. }
  cbn [rbind].
  pose proof (scan_post_app b (col_lines b)
                (diag1_lines b ++ diag2_lines b) _ _ Hp2) as H2.
  destruct r2 as [e|bk2]; [exists (inl e); split; [done|]; by apply H1|].
  (* diagonal I *)
  rewrite scan_diagonals_lines. fold (diag1_lines b).
  destruct (scan_lines_spec b (size b + 2) (diag1_lines b) bk2)
    as (r3 & -> & Hp3).
  { intros ln Hln. split.
    - by eapply diag_lines_step.
    - apply Hrange. unfold scanned_lines. rewrite !elem_of_app. tauto. }
  cbn [rbind].
  pose proof (scan_post_app b (diag1_lines b) (diag2_lines b) _ _ Hp3) as H3.
  destruct r3 as [e|bk3];
    [exists (inl e); split; [done|]; by apply H1, H2|].
  (* diagonal II *)
  rewrite scan_diagonals_lines. fold (diag2_lines b).
  destruct (scan_lines_spec b (size b) (diag2_lines b) bk3)
    as (r4 & -> & Hp4).
  { intros ln Hln. split.
    - by eapply diag_lines_step.
    - apply Hrange. unfold scanned_lines. rewrite !elem_of_app. tauto. }
  cbn [rbind].
  exists r4. split; [by destruct r4|]. by apply H1, H2, H3.
Qed.

(** ** The scanned lines on the grid *)

Lemma elem_of_progression a st n x :
  x ∈ progression a st n ↔ ∃ k : nat, (k < n)%nat ∧ x = a + Z.of_nat k * st.
Proof.
  unfold progression. rewrite list_elem_of_fmap. split.
  - intros (k & -> & Hk). apply elem_of_seq in Hk. exists k. split; [lia|done].
  - intros (k & Hk & ->). exists k. split; [done|]. apply elem_of_seq. lia.
Qed.

Lemma elem_of_row_lines (b : SimpleGoBoard) ln :
  1 ≤ size b →
  ln ∈ row_lines b ↔
  ∃ k : nat, Z.of_nat k < size b ∧
             ln = (size b + 2 + Z.of_nat k * (size b + 1), 1, Z.to_nat (size b)).
Proof.
  intros Hn. unfold row_lines. rewrite list_elem_of_fmap.
  assert ((size b + 2 + size b * size b + 1 - (size b + 2) + (size b + 1) - 1)
          / (size b + 1) = size b) as Hcount.
  { replace (size b + 2 + size b * size b + 1 - (size b + 2) + (size b + 1) - 1)
      with (size b * (size b + 1) + 1) by ring.
    rewrite Z.div_add_l by lia. rewrite Z.div_small by lia. lia. }
  rewrite py_range_progression, Hcount. split.
  - intros (rs & -> & Hrs). apply elem_of_progression in Hrs as (k & Hk & ->).
    exists k. split; [lia|done].
  - intros (k & Hk & ->). eexists. split; [reflexivity|].
    apply elem_of_progression. exists k. split; [lia|done].
Qed.

Lemma elem_of_col_lines (b : SimpleGoBoard) ln :
  1 ≤ size b →
  ln ∈ col_lines b ↔
  ∃ k : nat, Z.of_nat k < size b ∧
             ln = (size b + 2 + Z.of_nat k, size b + 1, Z.to_nat (size b)).
Proof.
  intros Hn. unfold col_lines. rewrite list_elem_of_fmap.
  rewrite py_range_progression.
  replace ((size b + 2 + size b - (size b + 2) + 1 - 1) / 1) with (size b)
    by (rewrite Z.div_1_r; lia).
  split.
  - intros (cs & -> & Hcs). apply elem_of_progression in Hcs as (k & Hk & ->).
    exists k. split; [lia|]. do 2 f_equal. lia.
  - intros (k & Hk & ->). eexists. split; [reflexivity|].
    apply elem_of_progression. exists k. split; [lia|]. lia.
Qed.

Lemma line_eq (a1 a2 st n1 n2 : Z) :
  a1 = a2 → n1 = n2 → (a1, st, Z.to_nat n1) = (a2, st, Z.to_nat n2).
Proof. by intros -> ->. Qed.

Ltac zn := rewrite ?Nat2Z.inj_succ; cbn [Z.of_nat]; lia.

(** The diagonals after the first: the [i]-th pair of starts is scanned to
    the length [dSize - i]. *)
Lemma elem_of_diag_lines_pairs st i1 i2 : ∀ (e : nat) c1 c2 dS ln,
  ln ∈ diag_lines st (diag_starts e c1 c2 i1 i2) dS false ↔
  ∃ i : nat, (i < e)%nat ∧
             (ln = (c1 + Z.of_nat i * i1, st, Z.to_nat (dS - Z.of_nat i)) ∨
              ln = (c2 + Z.of_nat i * i2, st, Z.to_nat (dS - Z.of_nat i))).
Proof.
  induction e as [|e IH]; intros c1 c2 dS ln; cbn [diag_starts diag_lines negb].
  - split; [by intros ?%elem_of_nil|]. intros (i & Hi & _). lia.
  - rewrite !elem_of_cons, IH. split.
    + intros [-> | [-> | (i & Hi & H)]].
      * exists 0%nat. split; [lia|]. left. apply line_eq; zn.
      * exists 0%nat. split; [lia|]. right. apply line_eq; zn.
      * exists (S i). split; [lia|].
        destruct H as [-> | ->]; [left|right]; apply line_eq; zn.
    + intros (i & Hi & H). destruct i as [|i].
      * destruct H as [-> | ->]; [left | right; left]; apply line_eq; zn.
      * right. right. exists i. split; [lia|].
        destruct H as [-> | ->]; [left|right]; apply line_eq; zn.
Qed.

Lemma elem_of_diag1_lines (b : SimpleGoBoard) ln :
  ln ∈ diag1_lines b ↔
  ln = (size b + 2, size b + 2, Z.to_nat (size b)) ∨
  ∃ i : nat, Z.of_nat i < size b - 5 ∧
    (ln = (size b + 2 + (Z.of_nat i + 1) * (size b + 1), size b + 2,
           Z.to_nat (size b - 1 - Z.of_nat i)) ∨
     ln = (size b + 2 + (Z.of_nat i + 1), size b + 2,
           Z.to_nat (size b - 1 - Z.of_nat i))).
Proof.
  unfold diag1_lines. cbn zeta. cbn [diag_lines negb].
  rewrite elem_of_cons, elem_of_diag_lines_pairs. split.
  - intros [-> | (i & Hi & H)]; [by left|]. right. exists i. split; [lia|].
    destruct H as [-> | ->]; [left|right]; apply line_eq; zn.
  - intros [-> | (i & Hi & H)]; [by left|]. right. exists i. split; [lia|].
    destruct H as [-> | ->]; [left|right]; apply line_eq; zn.
Qed.

Lemma elem_of_diag2_lines (b : SimpleGoBoard) ln :
  ln ∈ diag2_lines b ↔
  ln = (size b + 2 + size b - 1, size b, Z.to_nat (size b)) ∨
  ∃ i : nat, Z.of_nat i < size b - 5 ∧
    (ln = (size b + 2 + size b - 1 - (Z.of_nat i + 1), size b,
           Z.to_nat (size b - 1 - Z.of_nat i)) ∨
     ln = (size b + 2 + size b - 1 + (Z.of_nat i + 1) * (size b + 1), size b,
           Z.to_nat (size b - 1 - Z.of_nat i))).
Proof.
  unfold diag2_lines. cbn zeta. cbn [diag_lines negb].
  rewrite elem_of_cons, elem_of_diag_lines_pairs. split.
  - intros [-> | (i & Hi & H)]; [by left|]. right. exists i. split; [lia|].
    destruct H as [-> | ->]; [left|right]; apply line_eq; zn.
  - intros [-> | (i & Hi & H)]; [by left|]. right. exists i. split; [lia|].
    destruct H as [-> | ->]; [left|right]; apply line_eq; zn.
Qed.

Lemma on_board_rc_coords n r c :
  1 ≤ n → 0 ≤ c ≤ n →
  on_board_rc n (r * (n + 1) + c) = (1 <=? r) && (r <=? n) && (1 <=? c).
Proof.
  intros Hn Hc. unfold on_board_rc.
  assert ((r * (n + 1) + c) / (n + 1) = r) as ->.
  { rewrite Z.div_add_l by lia. rewrite Z.div_small by lia. lia. }
  assert ((r * (n + 1) + c) mod (n + 1) = c) as ->.
  { rewrite (Z.add_comm (r * (n + 1)) c), Z.mod_add by lia.
    apply Z.mod_small. lia. }
  reflexivity.
Qed.

Lemma on_board_rc_exists n p :
  1 ≤ n → on_board_rc n p = true →
  ∃ r c, 1 ≤ r ≤ n ∧ 1 ≤ c ≤ n ∧ p = r * (n + 1) + c.
Proof.
  intros Hn. unfold on_board_rc. rewrite !andb_true_iff.
  intros [[H1 H2] H3].
  pose proof (Z.div_mod p (n + 1) ltac:(lia)) as Hdm.
  pose proof (Z.mod_pos_bound p (n + 1) ltac:(lia)) as Hm.
  exists (p / (n + 1)), (p mod (n + 1)). split; [lia|]. split; [lia|]. lia.
Qed.

Lemma grid_point n r c p :
  1 ≤ n → 1 ≤ r ≤ n → 1 ≤ c ≤ n → p = r * (n + 1) + c →
  on_board_rc n p = true.
Proof.
  intros Hn Hr Hc ->. rewrite on_board_rc_coords by lia.
  rewrite !andb_true_iff. lia.
Qed.

(** Every point of a scanned line is on the grid. *)
Lemma scanned_lines_on_grid (b : SimpleGoBoard) a st n (j : nat) :
  1 ≤ size b → (a, st, n) ∈ scanned_lines b → (j < n)%nat →
  on_board_rc (size b) (a + Z.of_nat j * st) = true.
Proof.
  intros Hn Hln Hj. unfold scanned_lines in Hln.
  rewrite !elem_of_app in Hln.
  destruct Hln as [Hln | [Hln | [Hln | Hln]]].
  - apply elem_of_row_lines in Hln as (k & Hk & [= -> -> ->]); [|done].
    apply (grid_point _ (Z.of_nat k + 1) (Z.of_nat j + 1)); lia.
  - apply elem_of_col_lines in Hln as (k & Hk & [= -> -> ->]); [|done].
    apply (grid_point _ (Z.of_nat j + 1) (Z.of_nat k + 1)); lia.
  - apply elem_of_diag1_lines in Hln
      as [[= -> -> ->] | (i & Hi & [[= -> -> ->] | [= -> -> ->]])].
    + apply (grid_point _ (Z.of_nat j + 1) (Z.of_nat j + 1)); lia.
    + apply (grid_point _ (Z.of_nat i + 2 + Z.of_nat j) (Z.of_nat j + 1)); lia.
    + apply (grid_point _ (Z.of_nat j + 1) (Z.of_nat i + 2 + Z.of_nat j)); lia.
  - apply elem_of_diag2_lines in Hln
      as [[= -> -> ->] | (i & Hi & [[= -> -> ->] | [= -> -> ->]])].
    + apply (grid_point _ (Z.of_nat j + 1) (size b - Z.of_nat j)); lia.
    + apply (grid_point _ (Z.of_nat j + 1)
                        (size b - 1 - Z.of_nat i - Z.of_nat j)); lia.
    + apply (grid_point _ (Z.of_nat i + 2 + Z.of_nat j)
                        (size b - Z.of_nat j)); lia.
Qed.

Lemma scanned_lines_step (b : SimpleGoBoard) a st n :
  (a, st, n) ∈ scanned_lines b → st ∈ shifts b.
Proof.
  intros Hln. unfold scanned_lines in Hln. rewrite !elem_of_app in Hln.
  apply elem_of_shifts. unfold NS.
  destruct Hln as [Hln | [Hln | [Hln | Hln]]].
  - unfold row_lines in Hln. apply list_elem_of_fmap in Hln as (? & [= -> -> ->] & _).
    lia.
  - unfold col_lines in Hln. apply list_elem_of_fmap in Hln as (? & [= -> -> ->] & _).
    lia.
  - apply diag_lines_step in Hln. simpl in Hln. lia.
  - apply diag_lines_step in Hln. simpl in Hln. lia.
Qed.

Lemma scanned_lines_in_range (b : SimpleGoBoard) ln :
  wf_board b = true → ln ∈ scanned_lines b → line_in_range b ln.
Proof.
  intros Hwf Hln. destruct (wf_board_inv b Hwf) as (Hn & Hl & _).
  destruct ln as [[a st] n]. intros j Hj.
  pose proof (scanned_lines_on_grid b a st n j Hn Hln Hj) as Hg.
  apply on_board_rc_range in Hg; [|done].
  rewrite Hl. unfold maxpoint_of. lia.
Qed.

Ltac zn' := rewrite ?Z2Nat.id by lia; lia.

(** Every window of five or more grid cells along one of the four
    directions lies inside a scanned line. *)
Lemma window_on_line (b : SimpleGoBoard) s st (m : nat) :
  1 ≤ size b → st ∈ shifts b → (5 ≤ m)%nat →
  (∀ i : nat, (i < m)%nat → on_board_rc (size b) (s + Z.of_nat i * st) = true) →
  ∃ a n (j : nat),
    (a, st, n) ∈ scanned_lines b ∧ s = a + Z.of_nat j * st ∧ (j + m ≤ n)%nat.
Proof.
  intros Hn Hst Hm Hcells.
  destruct (on_board_rc_exists _ _ Hn (Hcells 0%nat ltac:(lia)))
    as (r & c & Hr & Hc & Hs).
  replace (s + Z.of_nat 0 * st) with s in Hs by lia.
  set (N := size b) in *.
  (* a cell of the window at coordinates given for it *)
  assert (∀ (i : nat) R C, (i < m)%nat → 0 ≤ C ≤ N →
            s + Z.of_nat i * st = R * (N + 1) + C →
            1 ≤ R ≤ N ∧ 1 ≤ C) as Hcell.
  { intros i R C Hi HC Heq. specialize (Hcells i Hi).
    rewrite Heq, on_board_rc_coords in Hcells by done.
    rewrite !andb_true_iff in Hcells. lia. }
  apply elem_of_shifts in Hst. unfold NS in Hst. fold N in Hst.
  unfold scanned_lines. repeat setoid_rewrite elem_of_app.
  destruct Hst as [-> | [-> | [-> | ->]]].
  - (* horizontal *)
    assert (c + Z.of_nat m - 1 ≤ N) as Hfit.
    { destruct (decide (c + Z.of_nat m - 1 ≤ N)) as [|Hbad]; [done|].
      destruct (Hcell (Z.to_nat (N + 1 - c)) (r + 1) 0) as [_ ?]; lia. }
    exists (N + 2 + (r - 1) * (N + 1)), (Z.to_nat N), (Z.to_nat (c - 1)).
    split; [|split; [zn'|lia]].
    left. apply elem_of_row_lines; [done|]. exists (Z.to_nat (r - 1)).
    fold N. split; [lia|]. apply line_eq; zn'.
  - (* vertical *)
    destruct (Hcell (m - 1)%nat (r + Z.of_nat m - 1) c) as [Hfit _]; [lia..|].
    exists (N + 2 + (c - 1)), (Z.to_nat N), (Z.to_nat (r - 1)).
    split; [|split; [zn'|lia]].
    right. left. apply elem_of_col_lines; [done|]. exists (Z.to_nat (c - 1)).
    fold N. split; [lia|]. apply line_eq; zn'.
  - (* diagonal I *)
    replace (N + 1 + 1) with (N + 2) in * by lia.
    assert (c + Z.of_nat m - 1 ≤ N) as Hfitc.
    { destruct (decide (c + Z.of_nat m - 1 ≤ N)) as [|Hbad]; [done|].
      destruct (Hcell (Z.to_nat (N + 1 - c)) (r + (N + 1 - c) + 1) 0)
        as [_ ?]; lia. }
    destruct (Hcell (m - 1)%nat (r + Z.of_nat m - 1) (c + Z.of_nat m - 1))
      as [Hfitr _]; [lia..|].
    destruct (Z.lt_trichotomy r c) as [Hlt | [Heq | Hgt]].
    + (* above the main diagonal: the line starts on the first row *)
      exists (N + 2 + (c - r)), (Z.to_nat (N - (c - r))), (Z.to_nat (r - 1)).
      split; [|split; [zn'|lia]].
      right. right. left. apply elem_of_diag1_lines. right.
      exists (Z.to_nat (c - r - 1)). fold N. split; [lia|]. right.
      apply line_eq; zn'.
    + exists (N + 2), (Z.to_nat N), (Z.to_nat (r - 1)).
      split; [|split; [zn'|lia]].
      right. right. left. apply elem_of_diag1_lines. by left.
    + (* below the main diagonal: the line starts on the first column *)
      exists (N + 2 + (r - c) * (N + 1)), (Z.to_nat (N - (r - c))),
             (Z.to_nat (c - 1)).
      split; [|split; [zn'|lia]].
      right. right. left. apply elem_of_diag1_lines. right.
      exists (Z.to_nat (r - c - 1)). fold N. split; [lia|]. left.
      apply line_eq; zn'.
  - (* diagonal II *)
    replace (N + 1 - 1) with N in * by lia.
    assert (1 ≤ c - Z.of_nat m + 1) as Hfitc.
    { destruct (decide (1 ≤ c - Z.of_nat m + 1)) as [|Hbad]; [done|].
      destruct (Hcell (Z.to_nat c) (r + c) 0) as [_ ?]; lia. }
    destruct (Hcell (m - 1)%nat (r + Z.of_nat m - 1) (c - Z.of_nat m + 1))
      as [Hfitr _]; [lia..|].
    destruct (Z.lt_trichotomy (r + c) (N + 1)) as [Hlt | [Heq | Hgt]].
    + (* the line starts on the first row, left of the corner *)
      exists (N + 2 + N - 1 - (N + 1 - (r + c))), (Z.to_nat (r + c - 1)),
             (Z.to_nat (r - 1)).
      split; [|split; [zn'|lia]].
      right. right. right. apply elem_of_diag2_lines. right.
      exists (Z.to_nat (N - (r + c))). fold N. split; [lia|]. left.
      apply line_eq; zn'.
    + exists (N + 2 + N - 1), (Z.to_nat N), (Z.to_nat (r - 1)).
      split; [|split; [zn'|lia]].
      right. right. right. apply elem_of_diag2_lines. by left.
    + (* the line starts on the last column, below the corner *)
      exists (N + 2 + N - 1 + (r + c - (N + 1)) * (N + 1)),
             (Z.to_nat (2 * N + 1 - (r + c))), (Z.to_nat (N - c)).
      split; [|split; [zn'|lia]].
      right. right. right. apply elem_of_diag2_lines. right.
      exists (Z.to_nat (r + c - N - 2)). fold N. split; [lia|]. right.
      apply line_eq; zn'.
Qed.

(** ** The two alphabets agree off the border *)

Lemma rep_piece c cp ch :
  stone cp → ch ≠ "#"%char → ch ≠ "B"%char →
  rep_of c cp = String ch EmptyString ↔ piece_of c cp = String ch EmptyString.
Proof.
  intros Hcp H1 H2.
  destruct c, cp; try done; vm_compute; split; intros [= <-]; congruence.
Qed.

Lemma cleanb_cons ch w :
  cleanb (String ch w) = true ↔
  ch ≠ "#"%char ∧ ch ≠ "B"%char ∧ cleanb w = true.
Proof.
  cbn [cleanb]. rewrite !andb_true_iff, !negb_true_iff.
  rewrite !Ascii.eqb_neq. tauto.
Qed.

Lemma cell_get_color b p :
  0 ≤ p < len_board b → get_color b p = Ok (cell b p).
Proof.
  intros Hp. rewrite get_color_in_range by done. unfold cell.
  destruct (lookup_lt_is_Some_2 (board b) (Z.to_nat p)) as [c ->]; [|done].
  unfold len_board in Hp. lia.
Qed.

(** A window read by the line scan is spelled in the alphabet of the
    recursive scan, and conversely, when it has no border character. *)
Lemma spelled_sig b st w : ∀ a,
  stone (current_player b) → cleanb w = true →
  spelled b (current_player b) a st w ↔
  (∀ i : nat, (i < String.length w)%nat →
              0 ≤ a + Z.of_nat i * st < len_board b) ∧
  sig b a st (String.length w) = w.
Proof.
  induction w as [|ch w IH]; intros a Hcp Hclean.
  - simpl. split; [|done]. intros _. split; [intros; lia|done].
  - apply cleanb_cons in Hclean as (H1 & H2 & Hclean).
    cbn [spelled String.length sig].
    rewrite (IH (a + st) Hcp Hclean). split.
    + intros (Ha & (c & Hc & Hp) & Hrange & Hsig). split.
      * intros [|i] Hi; [by replace (a + Z.of_nat 0 * st) with a by lia|].
        replace (a + Z.of_nat (S i) * st) with (a + st + Z.of_nat i * st)
          by lia.
        apply Hrange. lia.
      * rewrite Hsig. rewrite cell_get_color in Hc by done.
        injection Hc as <-. apply rep_piece in Hp; [|done..]. by rewrite Hp.
    + intros (Hrange & Hsig).
      pose proof (Hrange 0%nat ltac:(lia)) as Ha.
      replace (a + Z.of_nat 0 * st) with a in Ha by lia.
      destruct (rep_of_char (cell b a) (current_player b)) as [ch' Hch'].
      rewrite Hch' in Hsig. rewrite append_cons in Hsig.
      injection Hsig as -> Hsig.
      split; [done|]. split.
      * exists (cell b a). split; [by apply cell_get_color|].
        by apply rep_piece.
      * split; [|done]. intros i Hi.
        replace (a + st + Z.of_nat i * st) with (a + Z.of_nat (S i) * st)
          by lia.
        apply Hrange. lia.
Qed.

(** Keys of the two dictionaries of the line scan. *)
Lemma winDict_key w own :
  winDict !! w = Some own → String.length w = 5%nat ∧ cleanb w = true.
Proof.
  intros H. unfold winDict, dict_of in H. simpl in H.
  repeat (apply lookup_insert_Some in H as [[<- <-] | [_ H]]);
    [..|by rewrite lookup_empty in H]; done.
Qed.

Lemma threatDict_key w own back :
  threatDict !! w = Some (own, back) →
  String.length w = 6%nat ∧ cleanb w = true.
Proof.
  intros H. unfold threatDict, dict_of in H. simpl in H.
  repeat (apply lookup_insert_Some in H as [[<- [= <- <-]] | [_ H]]);
    [..|by rewrite lookup_empty in H]; done.
Qed.

Lemma get_lt (w : string) : ∀ i : nat,
  (i < String.length w)%nat → ∃ ch, String.get i w = Some ch.
Proof.
  induction w as [|a w IH]; intros i Hi; simpl in Hi; [lia|].
  destruct i as [|i]; simpl; [eauto|]. apply IH. lia.
Qed.

Lemma cleanb_get (w : string) : ∀ (i : nat) ch,
  cleanb w = true → String.get i w = Some ch →
  ch ≠ "#"%char ∧ ch ≠ "B"%char.
Proof.
  induction w as [|a w IH]; intros i ch Hclean Hget; [done|].
  apply cleanb_cons in Hclean as (H1 & H2 & Hclean).
  destruct i as [|i]; simpl in Hget; [by injection Hget as <-|].
  by eapply IH.
Qed.

(** A spelled window without border characters lies on the grid. *)
Lemma spelled_on_grid b s st w (i : nat) :
  wf_board b = true → cleanb w = true →
  spelled b (current_player b) s st w → (i < String.length w)%nat →
  on_board_rc (size b) (s + Z.of_nat i * st) = true.
Proof.
  intros Hwf Hclean Hsp Hi.
  destruct (wf_board_inv b Hwf) as (Hn & Hl & Hcp & Hborder).
  destruct (get_lt w i Hi) as [ch Hget].
  destruct (spelled_get _ _ _ _ _ _ _ Hsp Hget) as (Hr & c & Hc & Hp).
  destruct (cleanb_get w i ch Hclean Hget) as [_ HB].
  pose proof (piece_of_not_border _ _ _ Hcp Hp HB) as Hnb.
  rewrite get_color_in_range in Hc by done.
  destruct (board b !! Z.to_nat (s + Z.of_nat i * st)) as [c'|] eqn:Hlk;
    [|done].
  injection Hc as ->.
  destruct (on_board_rc (size b) (s + Z.of_nat i * st)) eqn:Hon; [done|].
  apply (Hborder _ c) in Hon; [done|lia|done].
Qed.

(** The windows of the scanned lines are the windows of the board. *)
Lemma lines_hit5 (b : SimpleGoBoard) own x :
  wf_board b = true →
  (∃ ln, ln ∈ scanned_lines b ∧ win5 b own ln x) ↔ hit5 b own x.
Proof.
  intros Hwf. destruct (wf_board_inv b Hwf) as (Hn & Hl & Hcp & _). split.
  - intros ([[a st] n] & Hln & j & idx & Hj & Hw & Hidx & ->).
    destruct (winDict_key _ _ Hw) as [Hlen Hclean].
    exists (a + Z.of_nat j * st), st, (sig b (a + Z.of_nat j * st) st 5), idx.
    split; [by eapply scanned_lines_step|]. split; [|split_all; lia].
    apply spelled_sig; [done..|]. rewrite Hlen. split; [|done].
    intros i Hi.
    replace (a + Z.of_nat j * st + Z.of_nat i * st)
      with (a + Z.of_nat (j + i) * st) by lia.
    apply (scanned_lines_in_range b _ Hwf Hln). lia.
  - intros (s & st & w & idx & Hst & Hsp & Hw & Hidx & ->).
    destruct (winDict_key _ _ Hw) as [Hlen Hclean].
    destruct (window_on_line b s st 5 Hn Hst ltac:(lia)) as (a & n & j & Hln & -> & Hj).
    { intros i Hi. apply (spelled_on_grid b s st w); try done. lia. }
    apply spelled_sig in Hsp as [_ Hsig]; [|done..]. rewrite Hlen in Hsig.
    exists (a, st, n). split; [done|]. exists j, idx. rewrite Hsig.
    split_all; lia.
Qed.

Lemma lines_hit6 (b : SimpleGoBoard) own x :
  wf_board b = true →
  (∃ ln, ln ∈ scanned_lines b ∧ thr6 b own ln x) ↔ hit6 b own x.
Proof.
  intros Hwf. destruct (wf_board_inv b Hwf) as (Hn & Hl & Hcp & _). split.
  - intros ([[a st] n] & Hln & j & back & Hj & Hw & ->).
    destruct (threatDict_key _ _ _ Hw) as [Hlen Hclean].
    exists (a + Z.of_nat j * st), st, (sig b (a + Z.of_nat j * st) st 6), back.
    split; [by eapply scanned_lines_step|]. split; [|split_all; lia].
    apply spelled_sig; [done..|]. rewrite Hlen. split; [|done].
    intros i Hi.
    replace (a + Z.of_nat j * st + Z.of_nat i * st)
      with (a + Z.of_nat (j + i) * st) by lia.
    apply (scanned_lines_in_range b _ Hwf Hln). lia.
  - intros (s & st & w & back & Hst & Hsp & Hw & ->).
    destruct (threatDict_key _ _ _ Hw) as [Hlen Hclean].
    destruct (window_on_line b s st 6 Hn Hst ltac:(lia)) as (a & n & j & Hln & -> & Hj).
    { intros i Hi. apply (spelled_on_grid b s st w); try done. lia. }
    apply spelled_sig in Hsp as [_ Hsig]; [|done..]. rewrite Hlen in Hsig.
    exists (a, st, n). split; [done|]. exists j, back. rewrite Hsig.
    split_all; lia.
Qed.

(** What [winDetection] returns on a well-formed board. *)
Lemma winDetection_spec (b : SimpleGoBoard) :
  wf_board b = true →
  (∃ x, winDetection b = Ok ([x], [], [], []) ∧ hit5 b true x) ∨
  ((∀ x, ¬ hit5 b true x) ∧
   ∃ T M2 T2,
     winDetection b = Ok ([], T, M2, T2) ∧
     (∀ x, x ∈ T ↔ hit5 b false x) ∧
     (∀ x, x ∈ M2 ↔ hit6 b true x) ∧
     (∀ x, x ∈ T2 ↔ hit6 b false x)).
Proof.
  intros Hwf. destruct (wf_board_inv b Hwf) as (Hn & _).
  destruct (winDetection_lines b Hn) as (res & -> & Hpost).
  { intros ln. by apply scanned_lines_in_range. }
  destruct Hpost as [(x & ln & Hln & Hx & ->)
                    | (Hnone & T & M2 & T2 & -> & HT & HM2 & HT2)].
  - left. exists x. split; [done|]. apply lines_hit5; eauto.
  - right. split.
    { intros x Hx. apply lines_hit5 in Hx as (ln & Hln & Hx); [|done].
      by apply (Hnone ln x). }
    exists T, M2, T2. split; [done|].
    split; [|split]; intros x.
    + by rewrite HT, lines_hit5.
    + by rewrite HM2, lines_hit6.
    + by rewrite HT2, lines_hit6.
Qed.

(** ** The tiers of the recursive scan, as windows of the board *)

Lemma directions_shifts (b : SimpleGoBoard) st :
  st ∈ shifts b ↔ ∃ dir, dir ∈ directions ∧ step_of b dir = st.
Proof.
  rewrite elem_of_shifts. unfold directions, step_of. split.
  - intros [-> | [-> | [-> | ->]]].
    + exists (1, 0). split; [by left|]. simpl. lia.
    + exists (0, 1). split; [by right; left|]. simpl. lia.
    + exists (1, 1). split; [by do 2 right; left|]. simpl. lia.
    + exists (-1, 1). split; [by do 3 right; left|]. simpl. lia.
  - intros (dir & Hdir & <-).
    repeat (apply elem_of_cons in Hdir as [-> | Hdir]); simpl; [lia..|].
    by apply elem_of_nil in Hdir.
Qed.

Ltac dict_cases H :=
  simpl in H;
  repeat (apply lookup_insert_Some in H as [[? ?] | [_ H]]; [simplify_eq|]);
  [..|by rewrite lookup_empty in H].

Ltac mem_cases H :=
  repeat (apply elem_of_cons in H as [-> | H]);
  try (by apply elem_of_nil in H).

Lemma tier0_winDict w l dis :
  tier_table 0 !! w = Some l → dis ∈ l →
  winDict !! w = Some true ∧
  index_dot w = Some (Z.of_nat (String.length w) - 1 - dis).
Proof.
  intros Hw Hd. unfold tier_table in Hw. dict_cases Hw; mem_cases Hd;
    by vm_compute.
Qed.

Lemma winDict_tier0 w idx :
  winDict !! w = Some true → index_dot w = Some idx →
  ∃ l dis, tier_table 0 !! w = Some l ∧ dis ∈ l ∧
           idx = Z.of_nat (String.length w) - 1 - dis.
Proof.
  intros Hw Hi. unfold winDict, dict_of in Hw. dict_cases Hw;
    vm_compute in Hi; injection Hi as <-;
    eexists _, _; (split; [by vm_compute|]); (split; [by left|]); by vm_compute.
Qed.

Lemma tier1_winDict w l dis :
  tier_table 1 !! w = Some l → dis ∈ l →
  winDict !! w = Some false ∧
  index_dot w = Some (Z.of_nat (String.length w) - 1 - dis).
Proof.
  intros Hw Hd. unfold tier_table in Hw. dict_cases Hw; mem_cases Hd;
    by vm_compute.
Qed.

Lemma winDict_tier1 w idx :
  winDict !! w = Some false → index_dot w = Some idx →
  ∃ l dis, tier_table 1 !! w = Some l ∧ dis ∈ l ∧
           idx = Z.of_nat (String.length w) - 1 - dis.
Proof.
  intros Hw Hi. unfold winDict, dict_of in Hw. dict_cases Hw;
    vm_compute in Hi; injection Hi as <-;
    eexists _, _; (split; [by vm_compute|]); (split; [by left|]); by vm_compute.
Qed.

Lemma tier2_threatDict w l dis :
  tier_table 2 !! w = Some l → dis ∈ l →
  threatDict !! w = Some (true, dis) ∧ String.length w = 6%nat.
Proof.
  intros Hw Hd. unfold tier_table in Hw. dict_cases Hw; mem_cases Hd;
    by vm_compute.
Qed.

Lemma threatDict_tier2 w back :
  threatDict !! w = Some (true, back) →
  tier_table 2 !! w = Some [back] ∧ String.length w = 6%nat.
Proof.
  intros Hw. unfold threatDict, dict_of in Hw. dict_cases Hw; by vm_compute.
Qed.

Lemma tier3_threatDict w l :
  tier_table 3 !! w = Some l →
  ∃ back, threatDict !! w = Some (false, back).
Proof.
  intros Hw. unfold tier_table in Hw. dict_cases Hw; eexists; by vm_compute.
Qed.

Lemma threatDict_tier3 w back :
  threatDict !! w = Some (false, back) →
  ∃ l, tier_table 3 !! w = Some l ∧ back ∈ l ∧ String.length w = 6%nat.
Proof.
  intros Hw. unfold threatDict, dict_of in Hw. dict_cases Hw;
    eexists; (split; [by vm_compute|]); (split; [|done]);
    repeat first [by left | right].
Qed.

Lemma tier0_hit5 (b : SimpleGoBoard) x : tier_move b 0 x ↔ hit5 b true x.
Proof.
  split.
  - intros (s & dir & w & l & dis & Hdir & Hsp & Hw & Hd & ->).
    destruct (tier0_winDict _ _ _ Hw Hd) as [Hwin Hidx].
    exists s, (step_of b dir), w, (Z.of_nat (String.length w) - 1 - dis).
    split_all. apply directions_shifts. eauto.
  - intros (s & st & w & idx & Hst & Hsp & Hw & Hidx & ->).
    apply directions_shifts in Hst as (dir & Hdir & <-).
    destruct (winDict_tier0 _ _ Hw Hidx) as (l & dis & Hl & Hd & ->).
    exists s, dir, w, l, dis. split_all.
Qed.

Lemma tier1_hit5 (b : SimpleGoBoard) x : tier_move b 1 x ↔ hit5 b false x.
Proof.
  split.
  - intros (s & dir & w & l & dis & Hdir & Hsp & Hw & Hd & ->).
    destruct (tier1_winDict _ _ _ Hw Hd) as [Hwin Hidx].
    exists s, (step_of b dir), w, (Z.of_nat (String.length w) - 1 - dis).
    split_all. apply directions_shifts. eauto.
  - intros (s & st & w & idx & Hst & Hsp & Hw & Hidx & ->).
    apply directions_shifts in Hst as (dir & Hdir & <-).
    destruct (winDict_tier1 _ _ Hw Hidx) as (l & dis & Hl & Hd & ->).
    exists s, dir, w, l, dis. split_all.
Qed.

Lemma tier2_hit6 (b : SimpleGoBoard) x : tier_move b 2 x ↔ hit6 b true x.
Proof.
  split.
  - intros (s & dir & w & l & dis & Hdir & Hsp & Hw & Hd & ->).
    destruct (tier2_threatDict _ _ _ Hw Hd) as [Hthr Hlen].
    exists s, (step_of b dir), w, dis. rewrite Hlen.
    split_all. apply directions_shifts. eauto.
  - intros (s & st & w & back & Hst & Hsp & Hw & ->).
    apply directions_shifts in Hst as (dir & Hdir & <-).
    destruct (threatDict_tier2 _ _ Hw) as [Hl Hlen].
    exists s, dir, w, [back], back. rewrite Hlen. split_all. by left.
Qed.

(** The last tier holds the cells of the line scan and, for an open three
    with two empty cells on one side, the far cell as well. *)
Lemma hit6_tier3 (b : SimpleGoBoard) x : hit6 b false x → tier_move b 3 x.
Proof.
  intros (s & st & w & back & Hst & Hsp & Hw & ->).
  apply directions_shifts in Hst as (dir & Hdir & <-).
  destruct (threatDict_tier3 _ _ Hw) as (l & Hl & Hd & Hlen).
  exists s, dir, w, l, back. rewrite Hlen. split_all.
Qed.

Lemma tier3_hit6 (b : SimpleGoBoard) x :
  tier_move b 3 x → ∃ x', hit6 b false x'.
Proof.
  intros (s & dir & w & l & dis & Hdir & Hsp & Hw & Hd & ->).
  destruct (tier3_threatDict _ _ Hw) as (back & Hthr).
  exists (s + (5 - back) * step_of b dir), s, (step_of b dir), w, back.
  split_all. apply directions_shifts. eauto.
Qed.

(** ** Placing a stone *)

Lemma set_color_place b x c :
  0 ≤ x < len_board b → set_color b x c = Ok (place b x c).
Proof. intros Hx. unfold set_color. by rewrite np_index_in_range. Qed.

Lemma len_board_place b x c : len_board (place b x c) = len_board b.
Proof. unfold len_board, place. simpl. by rewrite length_insert. Qed.

Lemma len_board_with_player b c : len_board (with_player b c) = len_board b.
Proof. done. Qed.

Lemma get_color_with_player b c p :
  get_color (with_player b c) p = get_color b p.
Proof. done. Qed.

Lemma get_color_place_eq b x c :
  0 ≤ x < len_board b → get_color (place b x c) x = Ok c.
Proof.
  intros Hx. rewrite get_color_in_range by (by rewrite len_board_place).
  unfold place. simpl. rewrite list_lookup_insert_eq; [done|].
  unfold len_board in Hx. lia.
Qed.

Lemma get_color_place_ne b x c q :
  0 ≤ x → 0 ≤ q < len_board b → q ≠ x →
  get_color (place b x c) q = get_color b q.
Proof.
  intros Hx Hq Hne.
  rewrite !get_color_in_range by (by rewrite ?len_board_place).
  unfold place. simpl. rewrite list_lookup_insert_ne; [done|]. lia.
Qed.

Lemma play_move_place b x :
  stone (current_player b) → 0 ≤ x < len_board b →
  get_color b x = Ok EMPTY →
  play_move_gomoku b x (current_player b)
  = Ok (true, with_player (place b x (current_player b))
                          (opponent (current_player b))).
Proof.
  intros Hcp Hx Hg. unfold play_move_gomoku. unfold stone in Hcp.
  rewrite Hcp, Hg. simpl. by rewrite set_color_place.
Qed.

Lemma play_move_true b x c b' :
  0 ≤ x < len_board b → play_move_gomoku b x c = Ok (true, b') →
  stone c ∧ get_color b x = Ok EMPTY ∧
  b' = with_player (place b x c) (opponent c).
Proof.
  intros Hx. unfold play_move_gomoku.
  destruct (is_black_white c) eqn:Hc; simpl; [|done].
  destruct (get_color b x) as [cur|] eqn:Hg; simpl; [|done].
  destruct cur; simpl; try done.
  rewrite set_color_place by done. simpl. by intros [= <-].
Qed.

(** Well-formedness, from its parts. *)
Lemma wf_board_intro (b : SimpleGoBoard) :
  1 ≤ size b → len_board b = maxpoint_of (size b) →
  stone (current_player b) →
  (∀ (i : nat) c, board b !! i = Some c →
                  (on_board_rc (size b) (Z.of_nat i) = false ↔ c = BORDER)) →
  wf_board b = true.
Proof.
  intros Hn Hl Hcp Hcells. unfold wf_board, wf_cells.
  rewrite !andb_true_iff. split; [split; [lia|split]|done].
  - by apply bool_decide_eq_true.
  - apply forallb_forall. intros [p c] Hin. apply bool_decide_eq_true.
    apply list_elem_of_In, list_elem_of_lookup in Hin as [i Hi].
    apply lookup_zip_with_Some in Hi as (p' & c' & [= <- <-] & Hp & Hc).
    rewrite list_lookup_fmap in Hp.
    destruct (seq 0 (length (board b)) !! i) as [k|] eqn:Hk; [|done].
    apply lookup_seq in Hk as [-> _]. injection Hp as <-. simpl.
    by apply Hcells.
Qed.

Lemma wf_board_place (b : SimpleGoBoard) x c cp :
  wf_board b = true → 0 ≤ x < len_board b → get_color b x = Ok EMPTY →
  stone c → stone cp →
  wf_board (with_player (place b x c) cp) = true.
Proof.
  intros Hwf Hx Hg Hc Hcp.
  destruct (wf_board_inv b Hwf) as (Hn & Hl & _ & Hcells).
  apply wf_board_intro; simpl; try done.
  - change (len_board (place b x c) = maxpoint_of (size b)).
    by rewrite len_board_place.
  - intros i c' Hi.
    destruct (decide (i = Z.to_nat x)) as [->|Hne].
    + rewrite list_lookup_insert_eq in Hi by (unfold len_board in Hx; lia).
      injection Hi as <-. rewrite Z2Nat.id by lia.
      rewrite get_color_in_range in Hg by done.
      destruct (board b !! Z.to_nat x) as [c0|] eqn:Hlk; [|done].
      injection Hg as ->.
      pose proof (Hcells x EMPTY ltac:(lia) Hlk) as Hiff.
      split; [|intros ->; done].
      intros Hoff. apply Hiff in Hoff. done.
    + rewrite list_lookup_insert_ne in Hi by done.
      apply (Hcells (Z.of_nat i) c'); [lia|]. by rewrite Nat2Z.id.
Qed.

(** A segment of stones through a stone of a well-formed board stays
    inside the array. *)
Lemma segment_in_range b c p d lo hi :
  wf_board b = true → stone c → 0 ≤ p < len_board b →
  - (size b + 2) ≤ d ≤ size b + 2 → lo ≤ 0 ≤ hi →
  (∀ k, lo ≤ k ≤ hi → get_color b (p + k * d) = Ok c) →
  ∀ k, lo ≤ k ≤ hi → 0 ≤ p + k * d < len_board b.
Proof.
  intros Hwf Hc Hp Hd H0 Hseg.
  assert (∀ n : nat, (Z.of_nat n ≤ hi → 0 ≤ p + Z.of_nat n * d < len_board b) ∧
                     (lo ≤ - Z.of_nat n →
                      0 ≤ p + - Z.of_nat n * d < len_board b)) as Hind.
  { induction n as [|n [IHp IHn]].
    - split; intros _; simpl; lia.
    - split; intros Hn.
      + specialize (IHp ltac:(lia)).
        assert (lo ≤ Z.of_nat n ≤ hi) as Hk by lia.
        pose proof (stone_on_grid b _ c Hwf Hc IHp (Hseg _ Hk)) as Hg.
        pose proof (step_in_range b _ d Hwf Hg Hd) as Hs.
        replace (p + Z.of_nat (S n) * d) with (p + Z.of_nat n * d + d);
          [done|]. rewrite Nat2Z.inj_succ. ring.
      + specialize (IHn ltac:(lia)).
        assert (lo ≤ - Z.of_nat n ≤ hi) as Hk by lia.
        pose proof (stone_on_grid b _ c Hwf Hc IHn (Hseg _ Hk)) as Hg.
        assert (- (size b + 2) ≤ - d ≤ size b + 2) as Hd' by lia.
        pose proof (step_in_range b _ (- d) Hwf Hg Hd') as Hs.
        replace (p + - Z.of_nat (S n) * d) with (p + - Z.of_nat n * d + - d);
          [done|]. rewrite Nat2Z.inj_succ. ring. }
  intros k Hk. destruct (Z.le_gt_cases 0 k).
  - destruct (Hind (Z.to_nat k)) as [Hpos _].
    rewrite Z2Nat.id in Hpos by lia. apply Hpos. lia.
  - destruct (Hind (Z.to_nat (- k))) as [_ Hneg].
    rewrite Z2Nat.id in Hneg by lia.
    replace (- - k) with k in Hneg by lia. apply Hneg. lia.
Qed.

(** ** Immediate wins *)

Lemma spelled_intro b color st w : ∀ s,
  (∀ j : nat, (j < String.length w)%nat →
     0 ≤ s + Z.of_nat j * st < len_board b ∧
     ∃ ch c, String.get j w = Some ch ∧
             get_color b (s + Z.of_nat j * st) = Ok c ∧
             piece_of c color = String ch EmptyString) →
  spelled b color s st w.
Proof.
  induction w as [|a w IH]; intros s H; [done|]. cbn [spelled].
  destruct (H 0%nat ltac:(simpl; lia)) as (Hr & ch & c & Hget & Hc & Hp).
  replace (s + Z.of_nat 0 * st) with s in * by lia.
  simpl in Hget. injection Hget as ->.
  split; [done|]. split; [eauto|].
  apply IH. intros j Hj.
  destruct (H (S j) ltac:(simpl; lia)) as (Hr' & ch' & c' & Hget' & Hc' & Hp').
  replace (s + Z.of_nat (S j) * st) with (s + st + Z.of_nat j * st) in * by lia.
  split; [done|]. exists ch', c'. done.
Qed.

Lemma piece_of_x c cp :
  stone cp → (piece_of c cp = "x"%string ↔ c = cp).
Proof.
  intros Hcp. destruct c, cp; try done; vm_compute; split; congruence.
Qed.

(** The keys of [winDict] for the player to move: four stones and the
    empty cell at [idx]. *)
Lemma own_key_chars w idx :
  winDict !! w = Some true → index_dot w = Some idx →
  0 ≤ idx ≤ 4 ∧ String.length w = 5%nat ∧
  ∀ j : nat, (j < 5)%nat →
    String.get j w
    = Some (if decide (Z.of_nat j = idx) then "."%char else "x"%char).
Proof.
  intros Hw Hi. unfold winDict, dict_of in Hw. dict_cases Hw;
    vm_compute in Hi; injection Hi as <-; (split; [lia|]); (split; [done|]);
    intros [|[|[|[|[|j]]]]] Hj; try lia; reflexivity.
Qed.

Lemma own_key_exists idx :
  0 ≤ idx ≤ 4 →
  ∃ w, winDict !! w = Some true ∧ index_dot w = Some idx.
Proof.
  intros H.
  assert (idx = 0 ∨ idx = 1 ∨ idx = 2 ∨ idx = 3 ∨ idx = 4)
    as [-> | [-> | [-> | [-> | ->]]]] by lia.
  - by exists ".xxxx"%string.
  - by exists "x.xxx"%string.
  - by exists "xx.xx"%string.
  - by exists "xxx.x"%string.
  - by exists "xxxx."%string.
Qed.

Lemma shifts_with_player_place b x c cp :
  shifts (with_player (place b x c) cp) = shifts b.
Proof. reflexivity. Qed.

(** The empty cell of a window of four own stones is where playing makes
    five, and conversely. *)
Lemma hit5_immediate_win (b : SimpleGoBoard) x :
  wf_board b = true → hit5 b true x ↔ immediate_win b x.
Proof.
  intros Hwf. destruct (wf_board_inv b Hwf) as (Hn & Hl & Hcp & _).
  set (cp := current_player b) in *. split.
  - intros (s & st & w & idx & Hst & Hsp & Hw & Hidx & ->).
    destruct (own_key_chars w idx Hw Hidx) as (Hi4 & Hlen & Hchars).
    pose proof (shifts_range b st Hwf Hst) as Hst0.
    (* the five cells *)
    assert (∀ j : nat, (j < 5)%nat →
              0 ≤ s + Z.of_nat j * st < len_board b ∧
              get_color b (s + Z.of_nat j * st)
              = Ok (if decide (Z.of_nat j = idx) then EMPTY else cp))
      as Hcells.
    { intros j Hj.
      destruct (spelled_get _ _ _ _ _ _ _ Hsp (Hchars j Hj))
        as (Hr & c & Hc & Hp).
      split; [done|]. rewrite Hc. f_equal. case_decide.
      - by apply piece_of_dot in Hp.
      - by apply piece_of_x in Hp. }
    destruct (Hcells (Z.to_nat idx) ltac:(lia)) as [Hx Hxe].
    rewrite Z2Nat.id in Hx, Hxe by lia. rewrite decide_True in Hxe by done.
    split; [done|]. eexists. split; [by apply play_move_place|].
    split; [by rewrite len_board_with_player, len_board_place|].
    exists st. split; [done|].
    exists (- idx), (4 - idx). split; [lia|]. split; [lia|].
    intros k Hk. rewrite get_color_with_player.
    destruct (decide (k = 0)) as [->|Hk0].
    + replace (s + idx * st + 0 * st) with (s + idx * st) by lia.
      by apply get_color_place_eq.
    + destruct (Hcells (Z.to_nat (idx + k)) ltac:(lia)) as [Hr Hc].
      rewrite Z2Nat.id in Hr, Hc by lia.
      rewrite decide_False in Hc by lia.
      replace (s + idx * st + k * st) with (s + (idx + k) * st) by lia.
      rewrite get_color_place_ne; [done|lia|done|]. nia.
  - intros (Hx & b' & Hplay & _ & d & Hd & lo & hi & H0 & H5 & Hseg).
    apply play_move_true in Hplay as (_ & Hxe & ->); [|done].
    rewrite shifts_with_player_place in Hd.
    pose proof (shifts_range b d Hwf Hd) as Hd0.
    assert (wf_board (with_player (place b x cp) (opponent cp)) = true)
      as Hwf'.
    { apply wf_board_place; try done. by destruct cp. }
    pose proof (segment_in_range _ cp x d lo hi Hwf' Hcp
                  ltac:(by rewrite len_board_with_player, len_board_place)
                  ltac:(simpl; lia) H0 Hseg) as Hrange.
    rewrite len_board_with_player, len_board_place in Hrange.
    set (lo' := Z.max lo (- 4)).
    destruct (own_key_exists (- lo') ltac:(lia)) as (w & Hw & Hidx).
    destruct (own_key_chars w _ Hw Hidx) as (_ & Hlen & Hchars).
    exists (x + lo' * d), d, w, (- lo').
    split; [done|]. split; [|split_all; lia].
    apply spelled_intro. rewrite Hlen. intros j Hj.
    assert (x + lo' * d + Z.of_nat j * d = x + (lo' + Z.of_nat j) * d)
      as -> by lia.
    split; [apply Hrange; lia|].
    rewrite (Hchars j Hj). case_decide as Hj0.
    + exists "."%char, EMPTY. split; [done|].
      replace (lo' + Z.of_nat j) with 0 by lia.
      replace (x + 0 * d) with x by lia. done.
    + exists "x"%char, cp. split; [done|]. split; [|by apply piece_of_x].
      assert (lo ≤ lo' + Z.of_nat j ≤ hi) as Hk by lia.
      pose proof (Hseg _ Hk) as Hc. rewrite get_color_with_player in Hc.
      rewrite get_color_place_ne in Hc; [exact Hc|lia|by apply Hrange|nia].
Qed.

(** ** C3: the early exit of winDetection *)

(** C3. On a well-formed board on which the player to move has an immediate
    winning point, [winDetection] returns a singleton list holding an
    immediate winning point, and three empty lists. *)
Theorem winDetection_early_exit (b : SimpleGoBoard) :
  wf_board b = true → (∃ x, immediate_win b x) →
  ∃ p, winDetection b = Ok ([p], [], [], []) ∧ immediate_win b p.
Proof.
  intros Hwf [x Hx]. apply hit5_immediate_win in Hx; [|done].
  destruct (winDetection_spec b Hwf) as [(p & Hp & Hhit) | (Hnone & _)].
  - exists p. split; [done|]. by apply hit5_immediate_win.
  - by destruct (Hnone x).
Qed.

Lemma four_in_a_row_win : immediate_win four_in_a_row 13.
Proof.
  split; [by vm_compute|]. eexists. split; [by vm_compute|].
  split; [by vm_compute|]. exists 1. split; [by left|].
  exists (- 4), 0. split; [lia|]. split; [lia|]. intros k Hk.
  assert (k = -4 ∨ k = -3 ∨ k = -2 ∨ k = -1 ∨ k = 0)
    as [-> | [-> | [-> | [-> | ->]]]] by lia; reflexivity.
Qed.

Lemma winDetection_early_exit_witness :
  ∃ p, winDetection four_in_a_row = Ok ([p], [], [], []) ∧
       immediate_win four_in_a_row p.
Proof.
  apply (winDetection_early_exit four_in_a_row eq_refl).
  exists 13. exact four_in_a_row_win.
Defined.

(** ** C5: the two scans compared *)

Lemma lsp_first list_of_set (b : SimpleGoBoard) (i : nat) :
  (∀ s x, x ∈ list_of_set s ↔ x ∈ s) →
  is_black_white (current_player b) = true →
  (∃ x, tier_move b i x) → (∀ j x, (j < i)%nat → ¬ tier_move b j x) →
  ∃ l, list_solve_point list_of_set b = Ok (Some l) ∧
       ∀ x, x ∈ l ↔ tier_move b i x.
Proof.
  intros Hlist Hcp [x Hx] Hbefore.
  destruct (list_solve_point_tiers list_of_set b Hlist Hcp) as (r & -> & Hr).
  destruct r as [l|]; [|by destruct (Hr i x)].
  destruct Hr as (i' & Hi' & [y Hy] & Hl & Hbefore').
  exists l. split; [done|].
  assert (i' = i) as ->; [|done].
  destruct (Nat.lt_trichotomy i' i) as [Hlt | [-> | Hgt]]; [|done|].
  - apply Hl in Hy. by destruct (Hbefore i' y).
  - by destruct (Hbefore' i x).
Qed.

Lemma lsp_none list_of_set (b : SimpleGoBoard) :
  (∀ s x, x ∈ list_of_set s ↔ x ∈ s) →
  is_black_white (current_player b) = true →
  (∀ i x, (i < 4)%nat → ¬ tier_move b i x) →
  list_solve_point list_of_set b = Ok None.
Proof.
  intros Hlist Hcp Hnone.
  destruct (list_solve_point_tiers list_of_set b Hlist Hcp) as (r & -> & Hr).
  destruct r as [l|]; [|done].
  destruct Hr as (i & Hi & [y Hy] & Hl & _). apply Hl in Hy.
  by destruct (Hnone i y).
Qed.

(** C5, as stated, fails: with an open four the line scan stops at the
    first winning cell it meets, (3,1), while the recursive scan lists both
    winning cells, (3,1) and (3,6). *)
Lemma open_four_counterexample :
  winDetection open_four = Ok ([25], [], [], []) ∧
  ∃ l, list_solve_point elements open_four = Ok (Some l) ∧
       25 ∈ l ∧ 30 ∈ l.
Proof.
  split; [by vm_compute|]. eexists. split; [by vm_compute|].
  split; [by left|]. by right; left.
Qed.

(** C5, amended: on a well-formed board the two scans rank the same tier
    first, and every point of the highest-priority non-empty list of
    [winDetection] is in the result of [list_solve_point]; the two hold the
    same points for the tiers "opponent wins" and "own two-move wins". They
    differ for own wins, where [winDetection] keeps the first winning cell
    only, and for the opponent's two-move wins, where [list_solve_point]
    has more blocking cells. *)
Theorem scans_agree (list_of_set : gset Z → list Z) (b : SimpleGoBoard) :
  (∀ s x, x ∈ list_of_set s ↔ x ∈ s) →
  wf_board b = true →
  ∃ bk result,
    winDetection b = Ok bk ∧
    list_solve_point list_of_set b = Ok result ∧
    match first_bucket bk with
    | None => result = None
    | Some (i, bucket) =>
        ∃ l, result = Some l ∧
             (∀ x, x ∈ l ↔ tier_move b i x) ∧
             (∀ x, x ∈ bucket → x ∈ l) ∧
             ((i = 1 ∨ i = 2)%nat → ∀ x, x ∈ l → x ∈ bucket)
    end.
Proof.
  intros Hlist Hwf. destruct (wf_board_inv b Hwf) as (_ & _ & Hcp & _).
  destruct (winDetection_spec b Hwf)
    as [(p & -> & Hp) | (Hnone & T & M2 & T2 & -> & HT & HM2 & HT2)].
  - (* an own win *)
    destruct (lsp_first list_of_set b 0 Hlist Hcp) as (l & -> & Hl).
    { exists p. by apply tier0_hit5. } { intros j x Hj. lia. }
    eexists _, _. split; [done|]. split; [done|]. cbn.
    exists l. split; [done|]. split; [done|]. split; [|lia].
    intros x ->%list_elem_of_singleton. by apply Hl, tier0_hit5.
  - assert (∀ x, ¬ tier_move b 0 x) as H0.
    { intros x Hx. by apply tier0_hit5, Hnone in Hx. }
    destruct T as [|t T].
    2:{ (* the opponent's wins *)
      destruct (lsp_first list_of_set b 1 Hlist Hcp) as (l & -> & Hl).
      { exists t. apply tier1_hit5, HT. by left. }
      { intros [|j] x Hj; [apply H0|lia]. }
      eexists _, _. split; [done|]. split; [done|]. cbn.
      exists l. split; [done|]. split; [done|].
      split; [|intros _]; intros x; rewrite Hl, tier1_hit5, HT; done. }
    assert (∀ x, ¬ tier_move b 1 x) as H1.
    { intros x Hx. by apply tier1_hit5, HT, elem_of_nil in Hx. }
    destruct M2 as [|m M2].
    2:{ (* own two-move wins *)
      destruct (lsp_first list_of_set b 2 Hlist Hcp) as (l & -> & Hl).
      { exists m. apply tier2_hit6, HM2. by left. }
      { intros [|[|j]] x Hj; [apply H0|apply H1|lia]. }
      eexists _, _. split; [done|]. split; [done|]. cbn.
      exists l. split; [done|]. split; [done|].
      split; [|intros _]; intros x; rewrite Hl, tier2_hit6, HM2; done. }
    assert (∀ x, ¬ tier_move b 2 x) as H2.
    { intros x Hx. by apply tier2_hit6, HM2, elem_of_nil in Hx. }
    destruct T2 as [|t T2].
    2:{ (* the opponent's two-move wins *)
      destruct (lsp_first list_of_set b 3 Hlist Hcp) as (l & -> & Hl).
      { exists t. apply hit6_tier3, HT2. by left. }
      { intros [|[|[|j]]] x Hj; [apply H0|apply H1|apply H2|lia]. }
      eexists _, _. split; [done|]. split; [done|]. cbn.
      exists l. split; [done|]. split; [done|]. split; [|lia].
      intros x Hx. by apply Hl, hit6_tier3, HT2. }
    (* nothing *)
    rewrite (lsp_none list_of_set b Hlist Hcp).
    { eexists _, _. split; [done|]. split; [done|]. done. }
    intros [|[|[|[|i]]]] x Hi; [apply H0|apply H1|apply H2| |lia].
    intros Hx. apply tier3_hit6 in Hx as [x' Hx'].
    by apply HT2, elem_of_nil in Hx'.
Qed.

Lemma scans_agree_witness :
  ∃ l, winDetection win_and_block = Ok ([13], [], [], []) ∧
       list_solve_point elements win_and_block = Ok (Some l) ∧
       13 ∈ l.
Proof.
  destruct (scans_agree elements win_and_block
              (λ s x, elem_of_elements s x) eq_refl)
    as (bk & r & Hbk & Hr & Hagree).
  assert (bk = ([13], [], [], [])) as -> by (vm_compute in Hbk; congruence).
  cbn in Hagree. destruct Hagree as (l & -> & _ & Hsub & _).
  exists l. split; [exact Hbk|]. split; [exact Hr|]. apply Hsub. by left.
Defined.
(** ** Counting the empty points *)

Lemma where1d_from_insert_length (f : color → bool) (l : list color) :
  ∀ (k : Z) (i : nat) (c0 c : color),
    l !! i = Some c0 → f c0 = true → f c = false →
    S (length (where1d_from k f (<[i := c]> l)))
    = length (where1d_from k f l).
Proof.
  induction l as [|a l IH]; intros k i c0 c Hi H0 Hc; [done|].
  destruct i as [|i]; simpl in *.
  - injection Hi as ->. by rewrite H0, Hc.
  - destruct (f a); simpl; by rewrite (IH _ _ c0).
Qed.

Lemma empty_points_place b x c :
  0 ≤ x < len_board b → get_color b x = Ok EMPTY → c ≠ EMPTY →
  S (length (get_empty_points (place b x c))) = length (get_empty_points b).
Proof.
  intros Hx Hg Hc. rewrite get_color_in_range in Hg by done.
  destruct (board b !! Z.to_nat x) as [c0|] eqn:Hlk; [|done].
  injection Hg as ->. unfold get_empty_points, where1d, place. simpl.
  apply (where1d_from_insert_length _ _ _ _ EMPTY); [done|done|].
  unfold color_eqb. by apply bool_decide_eq_false_2.
Qed.

Lemma empty_point_spec b p :
  p ∈ get_empty_points b ↔ 0 ≤ p < len_board b ∧ get_color b p = Ok EMPTY.
Proof. apply where1d_spec. Qed.

(** ** Cells off the border *)

Lemma off_border_on_grid b p c :
  wf_board b = true → 0 ≤ p < len_board b → get_color b p = Ok c →
  c ≠ BORDER → size b + 2 ≤ p ≤ size b * size b + 2 * size b.
Proof.
  intros Hwf Hp Hg Hc. destruct (wf_board_inv b Hwf) as (Hn & Hl & _ & Hb).
  rewrite get_color_in_range in Hg by done.
  destruct (board b !! Z.to_nat p) as [c'|] eqn:Hlk; [|done].
  injection Hg as ->.
  apply on_board_rc_range; [done|].
  destruct (on_board_rc (size b) p) eqn:Ho; [done|].
  apply (Hb p c) in Ho; [done|lia|done].
Qed.

(** ** The heuristic score returns *)

Lemma heur_loop_total b c d :
  wf_board b = true → c ≠ BORDER → d ≠ 0 →
  - (size b + 2) ≤ d ≤ size b + 2 →
  ∀ fuel p str,
    size b + 2 ≤ p ≤ size b * size b + 2 * size b →
    (Z.to_nat (if decide (0 < d) then len_board b - p else p)%Z < fuel)%nat →
    ∃ s, heur_loop fuel b c d p str = Ok s.
Proof.
  intros Hwf Hc Hd0 Hd. induction fuel as [|fuel IH]; intros p str Hp Hf;
    [lia|].
  pose proof (step_in_range _ _ _ Hwf Hp Hd) as Hnext.
  destruct (get_color_total _ _ Hnext) as [pt Hpt].
  simpl. rewrite Hpt. cbn [rbind].
  assert (pt ≠ BORDER →
          ∀ str', ∃ s, heur_loop fuel b c d (p + d) str' = Ok s) as Hgo.
  { intros Hne str'. apply IH.
    - by apply (off_border_on_grid b (p + d) pt).
    - destruct (decide (0 < d)); lia. }
  unfold color_eqb. case_bool_decide as H1.
  - apply Hgo. by subst pt.
  - case_bool_decide as H2; [|eauto].
    apply Hgo. by subst pt.
Qed.

Lemma direction_heur_total b p c d :
  wf_board b = true → stone c → 0 ≤ p < len_board b →
  get_color b p = Ok c → d ≠ 0 → - (size b + 2) ≤ d ≤ size b + 2 →
  ∃ s, _point_direction_check_connect_gomoko_heur b p d = Ok s.
Proof.
  intros Hwf Hc Hp Hg Hd0 Hd.
  pose proof (stone_on_grid _ _ _ Hwf Hc Hp Hg) as Hgrid.
  assert (c ≠ BORDER) as Hcb by (intros ->; done).
  unfold _point_direction_check_connect_gomoko_heur. rewrite Hg. cbn [rbind].
  destruct (heur_loop_total b c d Hwf Hcb Hd0 Hd (connect_fuel b) p
              EmptyString Hgrid) as [r ->].
  { unfold connect_fuel, len_board in *. destruct (decide (0 < d)); lia. }
  cbn [rbind].
  destruct (heur_loop_total b c (- d) Hwf Hcb ltac:(lia) ltac:(lia)
              (connect_fuel b) p EmptyString Hgrid) as [l ->].
  { unfold connect_fuel, len_board in *. destruct (decide (0 < - d)); lia. }
  cbn [rbind]. eauto.
Qed.

Lemma accumulate_total (f : Z → result Q) (sign : Q) (points : list Z) :
  (∀ p, p ∈ points → ∃ s, f p = Ok s) →
  ∀ score, ∃ s, accumulate f sign points score = Ok s.
Proof.
  induction points as [|p points IH]; intros Hf score; simpl; [eauto|].
  destruct (Hf p) as [s ->]; [by left|]. cbn [rbind].
  apply IH. intros q Hq. apply Hf. by right.
Qed.

Lemma get_heuristic_score_total b :
  wf_board b = true → ∃ s, get_heuristic_score b = Ok s.
Proof.
  intros Hwf. destruct (wf_board_inv b Hwf) as (Hn & _ & Hcp & _).
  assert (∀ c, stone c → ∀ p, p ∈ where1d (color_eqb c) (board b) →
               ∃ s, point_check_game_end_gomoku_heur b p = Ok s) as Hpt.
  { intros c Hc p Hin. apply where1d_spec in Hin as [Hp Hg].
    apply (direction_heur_total b p c); try done; lia. }
  unfold get_heuristic_score.
  destruct (accumulate_total (point_check_game_end_gomoku_heur b) 1 _
              (Hpt _ Hcp) 0) as [s ->].
  cbn [rbind]. apply accumulate_total, Hpt.
  unfold stone in *. by destruct (current_player b).
Qed.
(** ** Functions of the position *)

Lemma same_position_refl b : same_position b b.
Proof. by repeat split. Qed.

Lemma wf_board_same b b' :
  same_position b b' → wf_board b' = wf_board b.
Proof. intros (Hs & Hb & Hp). unfold wf_board. by rewrite Hs, Hb, Hp. Qed.

Lemma get_color_same b b' p :
  board b' = board b → get_color b' p = get_color b p.
Proof. intros Hb. unfold get_color, len_board. by rewrite Hb. Qed.

Lemma connect_loop_same b b' c d :
  board b' = board b →
  ∀ fuel p count,
    connect_loop fuel b' c d p count = connect_loop fuel b c d p count.
Proof.
  intros Hb. induction fuel as [|fuel IH]; intros p count; [done|].
  simpl. rewrite (get_color_same b b') by done.
  destruct (get_color b (p + d)) as [cur|]; [|done]. cbn [rbind].
  destruct (color_eqb cur c); [|done].
  destruct (count + 1 =? 5); [done|]. apply IH.
Qed.

Lemma point_check_same b b' p :
  size b' = size b → board b' = board b →
  point_check_game_end_gomoku b' p = point_check_game_end_gomoku b p.
Proof.
  intros Hs Hb.
  assert (∀ d, _point_direction_check_connect_gomoko b' p d
               = _point_direction_check_connect_gomoko b p d) as Hd.
  { intros d. unfold _point_direction_check_connect_gomoko, connect_fuel.
    rewrite (get_color_same b b') by done. rewrite Hb.
    destruct (get_color b p) as [c|]; [|done]. cbn [rbind].
    rewrite (connect_loop_same b b') by done.
    destruct (connect_loop _ b c d p 1) as [k|]; [|done]. cbn [rbind].
    by rewrite (connect_loop_same b b'). }
  unfold point_check_game_end_gomoku, NS. by rewrite !Hd, Hs.
Qed.

(** ** A stone that makes no line of five *)

Lemma point_check_no_five b c p :
  wf_board b = true → stone c → 0 ≤ p < len_board b →
  get_color b p = Ok c → ¬ five_at b c p →
  point_check_game_end_gomoku b p = Ok false.
Proof.
  intros Hwf Hc Hp Hg Hno.
  assert (∀ d, d ∈ shifts b →
               _point_direction_check_connect_gomoko b p d = Ok false) as Hd.
  { intros d Hd. pose proof (shifts_range b d Hwf Hd) as Hd0.
    destruct (run_exists b c d Hwf Hc ltac:(lia) ltac:(lia) p Hp Hg)
      as [nf Hf].
    destruct (run_exists b c (- d) Hwf Hc ltac:(lia) ltac:(lia) p Hp Hg)
      as [nb Hb].
    rewrite (direction_check_runs b p d c nf nb) by (done || lia).
    pose proof (on_line_runs b c p d 5 nf nb Hg Hf Hb) as Hline.
    assert (¬ 5 ≤ Z.of_nat nf + Z.of_nat nb + 1) as Hshort.
    { intros H5. apply Hno. split; [done|]. exists d. split; [done|].
      by apply Hline. }
    destruct (Z.leb_spec 4 (Z.of_nat nf)); [lia|]. cbn [andb].
    destruct (Z.leb_spec 4 (Z.of_nat nf + Z.of_nat nb)); [lia|done]. }
  unfold point_check_game_end_gomoku.
  rewrite (Hd 1) by (apply elem_of_shifts; tauto). cbn [rbind].
  rewrite (Hd (NS b)) by (apply elem_of_shifts; tauto). cbn [rbind].
  rewrite (Hd (NS b + 1)) by (apply elem_of_shifts; tauto). cbn [rbind].
  by rewrite (Hd (NS b - 1)) by (apply elem_of_shifts; tauto).
Qed.

(** Without an immediate win, the stone the player to move puts on an
    empty point ends nothing. *)
Lemma no_win_point_check b x :
  wf_board b = true → 0 ≤ x < len_board b → get_color b x = Ok EMPTY →
  ¬ immediate_win b x →
  point_check_game_end_gomoku (place b x (current_player b)) x = Ok false.
Proof.
  intros Hwf Hx Hg Hno. destruct (wf_board_inv b Hwf) as (_ & _ & Hcp & _).
  apply (point_check_no_five _ (current_player b)); try done.
  - by apply (wf_board_place b x _ (current_player b)).
  - by rewrite len_board_place.
  - by apply get_color_place_eq.
  - intros Hfive. apply Hno. split; [done|]. eexists.
    split; [by apply play_move_place|]. exact Hfive.
Qed.

Lemma hit5_empty b own x :
  hit5 b own x → 0 ≤ x < len_board b ∧ get_color b x = Ok EMPTY.
Proof.
  destruct own; intros H.
  - apply tier0_hit5 in H. by apply tier_move_empty in H.
  - apply tier1_hit5 in H. by apply tier_move_empty in H.
Qed.

Lemma hit6_empty b x :
  hit6 b false x → 0 ≤ x < len_board b ∧ get_color b x = Ok EMPTY.
Proof. intros H. apply hit6_tier3 in H. by apply tier_move_empty in H. Qed.
(** ** The frame of negaAB *)

Section NegaABFrame.

(** The nested calls return, with the position they were given, on every
    well-formed board with fewer than [n] empty points. *)
Variable rec : Q → Q → Z → option Z → SimpleGoBoard → result search_result.
Variable n : nat.
Hypothesis rec_frame :
  ∀ alpha beta d prev c,
    wf_board c = true → (length (get_empty_points c) < n)%nat →
    ∃ r c', rec alpha beta d prev c = Ok (r, c') ∧ same_position c c'.

(** Put a stone on the empty point [x], switch the player, search, switch
    back and clear the point: the position is the one before. *)
Lemma play_search_undo b bi x :
  wf_board b = true → (length (get_empty_points b) ≤ n)%nat →
  same_position b bi →
  0 ≤ x < len_board b → get_color b x = Ok EMPTY →
  set_color bi x (current_player bi)
  = Ok (place bi x (current_player bi)) ∧
  point_check_game_end_gomoku (place bi x (current_player bi)) x
  = point_check_game_end_gomoku (place b x (current_player b)) x ∧
  ∀ alpha beta d prev,
    ∃ res b2 b3,
      rec alpha beta d prev
          (with_player (place bi x (current_player bi))
                       (opponent (current_player bi)))
      = Ok (res, b2) ∧
      set_color (with_player b2 (opponent (current_player b2))) x EMPTY
      = Ok b3 ∧
      same_position b b3.
Proof.
  intros Hwf Hn (Hs & Hb & Hp) Hx Hg.
  destruct (wf_board_inv b Hwf) as (_ & _ & Hcp & _).
  assert (len_board bi = len_board b) as Hlen
    by (unfold len_board; by rewrite Hb).
  split; [apply set_color_place; lia|]. split.
  { apply point_check_same; simpl; [done|]. by rewrite Hb, Hp. }
  intros alpha beta d prev.
  set (child := with_player (place b x (current_player b))
                            (opponent (current_player b))).
  set (childi := with_player (place bi x (current_player bi))
                             (opponent (current_player bi))).
  assert (same_position child childi) as Hsame.
  { unfold child, childi. repeat split; simpl; by rewrite ?Hs, ?Hb, ?Hp. }
  assert (wf_board child = true) as Hwfc.
  { apply wf_board_place; try done. unfold stone in *.
    by destruct (current_player b). }
  assert (S (length (get_empty_points child))
          = length (get_empty_points b)) as Hcount.
  { apply (empty_points_place b x (current_player b)); try done.
    intros Hc. unfold stone in Hcp. by rewrite Hc in Hcp. }
  destruct (rec_frame alpha beta d prev childi) as (res & b2 & Hrec & Hb2).
  { by rewrite (wf_board_same child). }
  { destruct Hsame as (_ & Hbc & _). unfold get_empty_points in *.
    rewrite Hbc. lia. }
  destruct Hb2 as (Hs2 & Hbd2 & Hp2).
  exists res, b2, (place (with_player b2 (opponent (current_player b2)))
                         x EMPTY).
  split; [done|]. split.
  { apply set_color_place. rewrite len_board_with_player.
    unfold len_board. rewrite Hbd2. simpl. rewrite length_insert.
    unfold len_board in *. lia. }
  repeat split; simpl.
  - by rewrite Hs2.
  - rewrite Hbd2. simpl. rewrite list_insert_insert_eq, Hb.
    apply list_insert_id. rewrite get_color_in_range in Hg by done.
    by destruct (board b !! Z.to_nat x) as [c|]; [injection Hg as ->|].
  - rewrite Hp2. simpl. by rewrite opponent_involutive, Hp.
Qed.

Lemma negaAB_forced_frame b x alpha beta d :
  wf_board b = true → (length (get_empty_points b) ≤ n)%nat →
  0 ≤ x < len_board b → get_color b x = Ok EMPTY →
  ∃ r b', negaAB_forced rec alpha beta d x b = Ok (r, b') ∧
          same_position b b'.
Proof.
  intros Hwf Hn Hx Hg.
  destruct (play_search_undo b b x Hwf Hn (same_position_refl b) Hx Hg)
    as (Hset & _ & Hrec).
  destruct (Hrec (- beta)%Q (- alpha)%Q (d - 1) (Some x))
    as (res & b2 & b3 & Hr & Hundo & Hsame).
  unfold negaAB_forced. rewrite Hset. cbn [rbind].
  change (current_player (place b x (current_player b)))
    with (current_player b).
  rewrite Hr. cbn [rbind]. rewrite Hundo. cbn [rbind]. eauto.
Qed.

Lemma negaAB_loop_frame b d :
  wf_board b = true → (length (get_empty_points b) ≤ n)%nat →
  (∀ x, ¬ immediate_win b x) →
  ∀ points alpha beta point bi,
    (∀ x, x ∈ points → x ∈ get_empty_points b) →
    same_position b bi →
    ∃ r b', negaAB_loop rec points alpha beta d point bi = Ok (r, b') ∧
            same_position b b'.
Proof.
  intros Hwf Hn Hno.
  induction points as [|x points IH]; intros alpha beta point bi Hpts Hbi.
  { simpl. eauto. }
  destruct (proj1 (empty_point_spec b x) (Hpts x ltac:(by left)))
    as [Hx Hg].
  destruct (play_search_undo b bi x Hwf Hn Hbi Hx Hg)
    as (Hset & Hcheck & Hrec).
  destruct (Hrec (- beta)%Q (- alpha)%Q (d - 1) (Some x))
    as (res & b2 & b3 & Hr & Hundo & Hsame).
  simpl. rewrite Hset. cbn [rbind].
  rewrite Hcheck, (no_win_point_check b x) by done. cbn [rbind].
  change (current_player (place bi x (current_player bi)))
    with (current_player bi).
  rewrite Hr. cbn [rbind]. rewrite Hundo. cbn [rbind].
  destruct (num_ge (- fst res) beta); [eauto|].
  apply IH; [|done]. intros y Hy. apply Hpts. by right.
Qed.

Lemma negaAB_body_frame b alpha beta d prev :
  wf_board b = true → (length (get_empty_points b) ≤ n)%nat →
  ∃ r b', negaAB_body rec alpha beta d prev b = Ok (r, b') ∧
          same_position b b'.
Proof.
  intros Hwf Hn. unfold negaAB_body.
  destruct (d =? 0).
  { destruct (get_heuristic_score_total b Hwf) as [score ->]. cbn [rbind].
    destruct (num_gt score (best_move_score b)); [|by eauto using same_position_refl].
    destruct (num_eq score WINNER_SCORE);
      [by eexists _, _; split; [done|]|].
    destruct (num_eq score (- WINNER_SCORE));
      by eexists _, _; split; [done|]. }
  destruct (get_empty_points b) as [|point rest] eqn:Hempty.
  { eauto using same_position_refl. }
  rewrite <- Hempty in Hn |- *.
  destruct (winDetection_spec b Hwf)
    as [(x & -> & _) | (Hnone & T & M2 & T2 & -> & HT & _ & HT2)];
    cbn [rbind].
  { eauto using same_position_refl. }
  assert (∀ x, ¬ immediate_win b x) as Hno.
  { intros x Hx. apply (Hnone x). by apply hit5_immediate_win. }
  destruct T as [|t [|t' T]].
  - destruct M2 as [|w M2]; [|eauto using same_position_refl].
    destruct T2 as [|t [|t' T2]].
    + apply negaAB_loop_frame; try done.
      intros x Hx. apply list_elem_of_In. apply list_elem_of_In in Hx.
      by apply in_rev.
    + destruct (hit6_empty b t) as [Hx Hg]; [apply HT2; by left|].
      by apply negaAB_forced_frame.
    + eauto using same_position_refl.
  - destruct T2 as [|t2 T2]; [|eauto using same_position_refl].
    destruct (hit5_empty b false t) as [Hx Hg]; [apply HT; by left|].
    by apply negaAB_forced_frame.
  - eauto using same_position_refl.
Qed.

End NegaABFrame.

Lemma negaAB_fuel_frame :
  ∀ fuel alpha beta d prev b,
    wf_board b = true → (length (get_empty_points b) < fuel)%nat →
    ∃ r b', negaAB_fuel fuel alpha beta d prev b = Ok (r, b') ∧
            same_position b b'.
Proof.
  induction fuel as [|fuel IH]; intros alpha beta d prev b Hwf Hf; [lia|].
  simpl. apply (negaAB_body_frame _ fuel); [|done|lia].
  intros. by apply IH.
Qed.
(** ** The frame of alphabeta *)

Lemma game_end_total b :
  wf_board b = true →
  ∃ r, game_end b = Ok r ∧
       (r = None → ¬ has_five b WHITE ∧ ¬ has_five b BLACK ∧
                   get_empty_points b ≠ []).
Proof.
  intros Hwf. unfold game_end.
  destruct (check_game_end_gomoku_cases b Hwf)
    as [[-> _] | [(-> & _) | (-> & Hw & Hk)]]; cbn [rbind];
    [by eexists; split | by eexists; split |].
  case_bool_decide as Hfull; [by eexists; split|].
  eexists. split; [done|]. intros _. split; [done|]. split; [done|].
  intros Hnil. by rewrite Hnil in Hfull.
Qed.

Section AlphaBetaFrame.

Variable list_of_set : gset Z → list Z.
Hypothesis list_of_set_spec : ∀ s x, x ∈ list_of_set s ↔ x ∈ s.

(** The nested calls return, with the board they were given, on every
    well-formed board with fewer than [n] empty points. *)
Variable rec : Q → Q → Z → SimpleGoBoard → result (Q * SimpleGoBoard).
Variable n : nat.
Hypothesis rec_frame :
  ∀ alpha beta d c,
    wf_board c = true → (length (get_empty_points c) < n)%nat →
    ∃ v, rec alpha beta d c = Ok (v, c).

Lemma try_move_frame b x alpha beta d :
  wf_board b = true → (length (get_empty_points b) ≤ n)%nat →
  0 ≤ x < len_board b → get_color b x = Ok EMPTY →
  ∃ r a, try_move rec x alpha beta d b = Ok (r, a, b).
Proof.
  intros Hwf Hn Hx Hg. destruct (wf_board_inv b Hwf) as (_ & _ & Hcp & _).
  set (child := with_player (place b x (current_player b))
                            (opponent (current_player b))).
  assert (undo child x = Ok b) as Hundo.
  { destruct (play_undo b x (Z.to_nat x)) as (b1 & Hplay & Hu).
    - exact Hcp.
    - by apply np_index_in_range.
    - rewrite get_color_in_range in Hg by done.
      by destruct (board b !! Z.to_nat x) as [c|]; [injection Hg as ->|].
    - rewrite play_move_place in Hplay by done. by injection Hplay as <-. }
  destruct (rec_frame (- beta)%Q (- alpha)%Q (d - 1) child) as [v Hv].
  { apply wf_board_place; try done. unfold stone in *.
    by destruct (current_player b). }
  { pose proof (empty_points_place b x (current_player b) Hx Hg) as Hc.
    unfold child, get_empty_points in *. simpl in *.
    assert (current_player b ≠ EMPTY) as Hne.
    { intros He. unfold stone in Hcp. by rewrite He in Hcp. }
    specialize (Hc Hne). lia. }
  unfold try_move. rewrite play_move_place by done. cbn [rbind].
  fold child. rewrite Hv. cbn [rbind]. rewrite Hundo. cbn [rbind]. eauto.
Qed.

Lemma alphabeta_moves_frame b d beta :
  wf_board b = true → (length (get_empty_points b) ≤ n)%nat →
  ∀ moves alpha,
    (∀ x, x ∈ moves → x ∈ get_empty_points b) →
    ∃ v, alphabeta_moves rec moves alpha beta d b = Ok (v, b).
Proof.
  intros Hwf Hn. induction moves as [|x moves IH]; intros alpha Hm; simpl;
    [eauto|].
  destruct (proj1 (empty_point_spec b x) (Hm x ltac:(by left))) as [Hx Hg].
  destruct (try_move_frame b x alpha beta d Hwf Hn Hx Hg) as (r & a & ->).
  cbn [rbind]. destruct (num_ge r beta); [eauto|].
  apply IH. intros y Hy. apply Hm. by right.
Qed.

Lemma alphabeta_body_frame b alpha beta d :
  wf_board b = true → (length (get_empty_points b) ≤ n)%nat →
  ∃ v, alphabeta_body list_of_set rec alpha beta d b = Ok (v, b).
Proof.
  intros Hwf Hn. destruct (wf_board_inv b Hwf) as (_ & _ & Hcp & _).
  unfold alphabeta_body.
  destruct (game_end_total b Hwf) as (r & -> & _). cbn [rbind].
  destruct r as [v|]; [eauto|].
  destruct (list_solve_point_tiers list_of_set b list_of_set_spec Hcp)
    as (sp & -> & Hsp).
  cbn [rbind].
  assert (∃ v, (if d <=? 0
                then let* score := get_heuristic_score b in Ok (score, b)
                else alphabeta_moves rec (generate_legal_moves_gomoku b)
                                     alpha beta d b) = Ok (v, b)) as Hrest.
  { destruct (d <=? 0).
    - destruct (get_heuristic_score_total b Hwf) as [s ->]. cbn [rbind].
      eauto.
    - by apply alphabeta_moves_frame. }
  destruct sp as [[|m l]|]; [done| |done].
  destruct Hsp as (i & _ & _ & Hl & _).
  destruct (tier_move_empty b i m) as [Hx Hg]; [apply Hl; by left|].
  destruct (try_move_frame b m alpha beta d Hwf Hn Hx Hg) as (r & a & ->).
  cbn [rbind]. destruct (num_ge r beta); eauto.
Qed.

End AlphaBetaFrame.

Lemma alphabeta_fuel_frame list_of_set :
  (∀ s x, x ∈ list_of_set s ↔ x ∈ s) →
  ∀ fuel alpha beta d b,
    wf_board b = true → (length (get_empty_points b) < fuel)%nat →
    ∃ v, alphabeta_fuel list_of_set fuel alpha beta d b = Ok (v, b).
Proof.
  intros Hspec.
  induction fuel as [|fuel IH]; intros alpha beta d b Hwf Hf; [lia|].
  simpl. apply (alphabeta_body_frame _ Hspec _ fuel); [|done|lia].
  intros. by apply IH.
Qed.

Lemma alphabeta_frame list_of_set alpha beta d b :
  (∀ s x, x ∈ list_of_set s ↔ x ∈ s) → wf_board b = true →
  ∃ v, alphabeta list_of_set alpha beta d b = Ok (v, b).
Proof. intros Hspec Hwf. apply alphabeta_fuel_frame; [done|done|lia]. Qed.

Lemma negaAB_frame alpha beta d prev b :
  wf_board b = true →
  ∃ r b', negaAB alpha beta d prev b = Ok (r, b') ∧ same_position b b'.
Proof. intros Hwf. apply negaAB_fuel_frame; [done|lia]. Qed.
(** ** C7: the searches leave the position as it was *)

(** C7. On a well-formed board, for every window and depth, [alphabeta]
    returns with the board state it was given, and [negaAB] returns with the
    cells and the player to move it was given, whatever path the search
    takes: no call raises, and every stone played is taken back. *)
Theorem search_frame (list_of_set : gset Z → list Z) (alpha beta : Q)
    (d : Z) (prev_move : option Z) (b : SimpleGoBoard) :
  (∀ s x, x ∈ list_of_set s ↔ x ∈ s) →
  wf_board b = true →
  (∃ v, alphabeta list_of_set alpha beta d b = Ok (v, b)) ∧
  (∃ r b', negaAB alpha beta d prev_move b = Ok (r, b') ∧
           board b' = board b ∧ current_player b' = current_player b).
Proof.
  intros Hspec Hwf. split.
  - by apply alphabeta_frame.
  - destruct (negaAB_frame alpha beta d prev_move b Hwf)
      as (r & b' & Hr & _ & Hb & Hp).
    by exists r, b'.
Qed.

Lemma search_frame_witness :
  (∃ v, alphabeta elements (- 1) 1 2 white_four = Ok (v, white_four)) ∧
  (∃ r b', negaAB (- 1) 1 2 None white_four = Ok (r, b') ∧
           board b' = board white_four ∧
           current_player b' = current_player white_four).
Proof.
  apply (search_frame elements (- 1) 1 2 None white_four).
  - intros s x. apply elem_of_elements.
  - reflexivity.
Defined.

(** ** The threat bookkeeping of negaAB *)

Lemma negaAB_unfold alpha beta d prev b point rest mw tw m2 t2 :
  d ≠ 0 → get_empty_points b = point :: rest →
  winDetection b = Ok (mw, tw, m2, t2) →
  negaAB alpha beta d prev b =
  let rec := negaAB_fuel (length (get_empty_points b)) in
  match mw with
  | w :: _ => Ok ((1%Q, Some w), b)
  | [] =>
      match tw with
      | t :: _ :: _ => Ok (((- 1)%Q, Some t), b)
      | [t] =>
          match t2 with
          | _ :: _ => Ok (((- 1)%Q, Some t), b)
          | [] => negaAB_forced rec alpha beta d t b
          end
      | [] =>
          match m2 with
          | w :: _ => Ok ((1%Q, Some w), b)
          | [] =>
              match t2 with
              | t :: _ :: _ => Ok (((- 1)%Q, Some t), b)
              | [t] => negaAB_forced rec alpha beta d t b
              | [] => negaAB_loop rec (rev (get_empty_points b))
                                  alpha beta d point b
              end
          end
      end
  end.
Proof.
  intros Hd Hempty Hwin. unfold negaAB. cbn [negaAB_fuel]. unfold negaAB_body.
  rewrite (proj2 (Z.eqb_neq d 0) Hd), Hwin. cbn [rbind].
  by rewrite Hempty.
Qed.

(** The bookkeeping on the lists of [winDetection], whose entries it
    counts: at depth [d <> 0], with an empty point left and no own win in
    the lists, more than one entry in [theirWins] makes [negaAB] return -1
    with the first of them, the board untouched; one entry and an entry in
    [their2mWins] as well, the same; with one entry [t] and no entry in
    [their2mWins], [negaAB] puts the stone on [t], searches that one
    position with the negated window at depth [d - 1], takes the stone back
    and returns the negated value with [t]. *)
Theorem negaAB_threat_bookkeeping (alpha beta : Q) (d : Z)
    (prev_move : option Z) (b : SimpleGoBoard)
    (theirWins my2mWins their2mWins : list Z) :
  d ≠ 0 → get_empty_points b ≠ [] →
  winDetection b = Ok ([], theirWins, my2mWins, their2mWins) →
  ((1 < length theirWins)%nat →
   ∃ t, head theirWins = Some t ∧
        negaAB alpha beta d prev_move b = Ok (((- 1)%Q, Some t), b)) ∧
  (length theirWins = 1%nat → (0 < length their2mWins)%nat →
   ∃ t, theirWins = [t] ∧
        negaAB alpha beta d prev_move b = Ok (((- 1)%Q, Some t), b)) ∧
  (wf_board b = true →
   length theirWins = 1%nat → length their2mWins = 0%nat →
   ∃ t, theirWins = [t] ∧ get_color b t = Ok EMPTY ∧
        negaAB alpha beta d prev_move b =
        let* (res, b1) :=
          negaAB (- beta)%Q (- alpha)%Q (d - 1) (Some t)
                 (with_player (place b t (current_player b))
                              (opponent (current_player b))) in
        let* b2 :=
          set_color (with_player b1 (opponent (current_player b1))) t EMPTY in
        Ok (((- fst res)%Q, Some t), b2)).
Proof.
  intros Hd Hempty Hwin.
  destruct (get_empty_points b) as [|point rest] eqn:He; [done|].
  pose proof (negaAB_unfold alpha beta d prev_move b point rest _ _ _ _
                Hd He Hwin) as Hn.
  cbn zeta in Hn. split; [|split].
  - intros Hlen. destruct theirWins as [|t [|t' T]]; simpl in Hlen; try lia.
    by exists t.
  - intros Hlen H2. destruct theirWins as [|t [|t' T]]; try done.
    destruct their2mWins as [|t2 T2]; simpl in H2; [lia|]. by exists t.
  - intros Hwf Hlen H2. destruct theirWins as [|t [|t' T]]; try done.
    destruct their2mWins as [|t2 T2]; [|done].
    exists t. split; [done|].
    destruct (winDetection_spec b Hwf)
      as [(x & Hx & _) | (_ & T & M2 & T2 & HT & Hmem & _)];
      [congruence|].
    rewrite Hwin in HT. injection HT as <- <- <-.
    destruct (hit5_empty b false t) as [Ht Hg]; [apply Hmem; by left|].
    split; [done|]. rewrite Hn. unfold negaAB_forced.
    rewrite set_color_place by done. cbn [rbind].
    change (current_player (place b t (current_player b)))
      with (current_player b).
    unfold negaAB.
    assert (S (length (get_empty_points
                         (with_player (place b t (current_player b))
                                      (opponent (current_player b)))))
            = length (get_empty_points b)) as ->; [|by rewrite He].
    apply (empty_points_place b t (current_player b)); try done.
    destruct (wf_board_inv b Hwf) as (_ & _ & Hcp & _).
    intros Hc. unfold stone in Hcp. by rewrite Hc in Hcp.
Qed.

Lemma negaAB_threat_bookkeeping_witness :
  ((1 < length [29])%nat →
   ∃ t, head [29] = Some t ∧
        negaAB (- 1) 1 2 None white_four = Ok (((- 1)%Q, Some t), white_four)) ∧
  (length [29] = 1%nat → (0 < length (@nil Z))%nat →
   ∃ t, [29] = [t] ∧
        negaAB (- 1) 1 2 None white_four = Ok (((- 1)%Q, Some t), white_four)) ∧
  (wf_board white_four = true →
   length [29] = 1%nat → length (@nil Z) = 0%nat →
   ∃ t, [29] = [t] ∧ get_color white_four t = Ok EMPTY ∧
        negaAB (- 1) 1 2 None white_four =
        let* (res, b1) :=
          negaAB (- 1)%Q (- - 1)%Q (2 - 1) (Some t)
                 (with_player (place white_four t (current_player white_four))
                              (opponent (current_player white_four))) in
        let* b2 :=
          set_color (with_player b1 (opponent (current_player b1))) t EMPTY in
        Ok (((- fst res)%Q, Some t), b2)).
Proof.
  apply (negaAB_threat_bookkeeping (- 1) 1 2 None white_four [29] [] []).
  - lia.
  - by vm_compute.
  - vm_compute. reflexivity.
Defined.

(** The three cases on boards: two winning points of WHITE; one winning
    point and an open three; one winning point alone, which is blocked. *)
Lemma negaAB_two_threats :
  winDetection white_two_fours = Ok ([], [29; 31], [], []) ∧
  negaAB (- 1) 1 2 None white_two_fours
  = Ok (((- 1)%Q, Some 29), white_two_fours).
Proof. by_computation. Qed.

Lemma negaAB_threat_and_three :
  winDetection white_four_and_three = Ok ([], [29], [], [50; 54]) ∧
  negaAB (- 1) 1 2 None white_four_and_three
  = Ok (((- 1)%Q, Some 29), white_four_and_three).
Proof. by_computation. Qed.

Lemma negaAB_single_threat :
  winDetection white_four = Ok ([], [29], [], []) ∧
  ∃ v b', negaAB (- 1) 1 2 None white_four = Ok ((v, Some 29), b').
Proof. split; [|eexists _, _]; by_computation. Qed.

(** ** C10: the heuristic score *)

(** C10. For a single BLACK stone in the middle of the empty 7 x 7 board,
    BLACK to move, [get_heuristic_score] returns 1, the potential of the
    stone along its row alone, where the sum over the four directions is
    4. *)
Theorem heuristic_score_row_only :
  wf_board lone_stone = true ∧
  get_heuristic_score lone_stone = Ok 1%Q ∧
  heuristic_score_spec lone_stone = Ok 4%Q.
Proof. by_computation. Qed.

(** ** The answer of solve *)

Lemma play_after_move b m :
  wf_board b = true → m ∈ get_empty_points b →
  play_move_gomoku b m (current_player b) = Ok (true, after_move b m) ∧
  undo (after_move b m) m = Ok b ∧
  wf_board (after_move b m) = true.
Proof.
  intros Hwf Hm. apply empty_point_spec in Hm as [Hx Hg].
  destruct (wf_board_inv b Hwf) as (_ & _ & Hcp & _).
  assert (play_move_gomoku b m (current_player b) = Ok (true, after_move b m))
    as Hplay by (by apply play_move_place).
  split; [done|]. split.
  - destruct (play_undo b m (Z.to_nat m)) as (b1 & Hb1 & Hu).
    + exact Hcp.
    + by apply np_index_in_range.
    + rewrite get_color_in_range in Hg by done.
      by destruct (board b !! Z.to_nat m) as [c|]; [injection Hg as ->|].
    + rewrite Hplay in Hb1. by injection Hb1 as <-.
  - apply wf_board_place; try done. unfold stone in *.
    by destruct (current_player b).
Qed.

(** A stone of one colour makes no line of five of the other. *)
Lemma has_five_after_move b m c :
  wf_board b = true → m ∈ get_empty_points b →
  stone c → c ≠ current_player b →
  has_five (after_move b m) c → has_five b c.
Proof.
  intros Hwf Hm Hc Hne [p (Hp & d & Hd & lo & hi & H0 & H5 & Hseg)].
  destruct (play_after_move b m Hwf Hm) as (_ & _ & Hwf').
  apply empty_point_spec in Hm as [Hx Hg].
  change (len_board (after_move b m)) with (len_board (place b m (current_player b))) in Hp.
  rewrite len_board_place in Hp.
  pose proof (shifts_range _ d Hwf' Hd) as Hd0.
  pose proof (segment_in_range _ c p d lo hi Hwf' Hc
                ltac:(by unfold after_move;
                         rewrite len_board_with_player, len_board_place)
                ltac:(simpl in *; lia) H0 Hseg) as Hrange.
  unfold after_move in Hrange.
  rewrite len_board_with_player, len_board_place in Hrange.
  exists p. split; [done|]. exists d. split; [exact Hd|].
  exists lo, hi. split; [done|]. split; [done|]. intros k Hk.
  pose proof (Hseg k Hk) as Hcell. unfold after_move in Hcell.
  rewrite get_color_with_player in Hcell.
  destruct (decide (p + k * d = m)) as [Heq|Hq].
  - rewrite Heq, get_color_place_eq in Hcell by done. congruence.
  - rewrite get_color_place_ne in Hcell; [done|lia| |done].
    by apply Hrange.
Qed.

Lemma game_end_None b :
  wf_board b = true → game_end b = Ok None →
  ¬ has_five b WHITE ∧ ¬ has_five b BLACK ∧ get_empty_points b ≠ [].
Proof.
  intros Hwf He. destruct (game_end_total b Hwf) as (r & Hr & Hn).
  rewrite He in Hr. injection Hr as <-. by apply Hn.
Qed.

(** After an immediate win the game is over, and lost for the player then
    to move. *)
Lemma game_end_after_win b m :
  wf_board b = true → game_end b = Ok None → immediate_win b m →
  m ∈ get_empty_points b ∧
  game_end (after_move b m) = Ok (Some (- INFINITY)%Q).
Proof.
  intros Hwf He (Hx & b' & Hplay & Hfive).
  destruct (game_end_None b Hwf He) as (Hw & Hk & _).
  destruct (wf_board_inv b Hwf) as (_ & _ & Hcp & _).
  apply play_move_true in Hplay as (_ & Hg & ->); [|done].
  assert (m ∈ get_empty_points b) as Hm by (by apply empty_point_spec).
  split; [done|].
  destruct (play_after_move b m Hwf Hm) as (_ & _ & Hwf').
  fold (after_move b m) in Hfive.
  assert (has_five (after_move b m) (current_player b)) as Hhas
    by (by exists m).
  assert (check_game_end_gomoku (after_move b m)
          = Ok (true, Some (current_player b))) as Hcheck.
  { unfold stone in Hcp.
    destruct (check_game_end_gomoku_cases _ Hwf')
      as [[-> Hfw] | [(-> & Hnw & Hfb) | (_ & Hnw & Hnb)]].
    - destruct (current_player b) eqn:Hc; try done.
      exfalso. apply Hw. apply (has_five_after_move b m); try done.
      by rewrite Hc.
    - destruct (current_player b) eqn:Hc; try done.
    - destruct (current_player b) eqn:Hc; done. }
  unfold game_end. rewrite Hcheck. cbn [rbind].
  rewrite bool_decide_eq_false_2; [done|].
  simpl. intros [= Hc]. unfold stone in Hcp.
  by destruct (current_player b).
Qed.

Section SolveSpec.

Variable list_of_set : gset Z → list Z.
Hypothesis list_of_set_spec : ∀ s x, x ∈ list_of_set s ↔ x ∈ s.

(** One candidate move of [solve]: play, search, undo. *)
Lemma search_value_total b m :
  wf_board b = true → m ∈ get_empty_points b →
  ∃ r, alphabeta list_of_set (- INFINITY)%Q (- - INFINITY)%Q START_DEPTH
                 (after_move b m) = Ok (r, after_move b m) ∧
       search_value list_of_set b m = Ok (- r)%Q.
Proof.
  intros Hwf Hm. destruct (play_after_move b m Hwf Hm) as (_ & _ & Hwf').
  destruct (alphabeta_frame list_of_set (- INFINITY)%Q (- - INFINITY)%Q
              START_DEPTH _ list_of_set_spec Hwf') as [r Hr].
  exists r. split; [done|]. unfold search_value. by rewrite Hr.
Qed.

Lemma search_value_win b m :
  wf_board b = true → game_end b = Ok None → immediate_win b m →
  search_value list_of_set b m = Ok (- - INFINITY)%Q.
Proof.
  intros Hwf He Hwin.
  destruct (game_end_after_win b m Hwf He Hwin) as [Hm Hend].
  unfold search_value, alphabeta. cbn [alphabeta_fuel].
  unfold alphabeta_body. by rewrite Hend.
Qed.

Lemma solve_moves_spec b :
  wf_board b = true →
  ∀ moves sboard,
    (∀ x, x ∈ moves → x ∈ get_empty_points b) →
    ∃ found sboard',
      solve_moves list_of_set moves (- INFINITY)%Q INFINITY b sboard
      = Ok (found, b, sboard') ∧
      ∀ m, found = Some m →
           m ∈ moves ∧
           ∃ v, search_value list_of_set b m = Ok v ∧ (v == INFINITY)%Q.
Proof.
  intros Hwf. induction moves as [|x moves IH]; intros sboard Hm.
  { simpl. by eexists _, _. }
  pose proof (Hm x ltac:(by left)) as Hx.
  destruct (play_after_move b x Hwf Hx) as (Hplay & Hundo & _).
  destruct (search_value_total b x Hwf Hx) as (r & Hr & Hv).
  simpl. rewrite Hplay. cbn [rbind]. rewrite Hr. cbn [rbind].
  rewrite Hundo. cbn [rbind].
  destruct (num_eq (- r) INFINITY) eqn:Hinf.
  - eexists _, _. split; [done|]. intros m [= <-]. split; [by left|].
    exists (- r)%Q. split; [done|]. by apply Qeq_bool_iff.
  - destruct (IH (if num_gt (- r) (best_move_score sboard)
                  then with_best sboard (- r)%Q (Some x) else sboard))
      as (found & sboard' & -> & Hfound).
    { intros y Hy. apply Hm. by right. }
    eexists _, _. split; [done|]. intros m Hf.
    destruct (Hfound m Hf) as [Hin Hval]. split; [by right|done].
Qed.

(** What [solve] returns on a position that is not over. *)
Lemma solve_cases b sboard :
  wf_board b = true → game_end b = Ok None →
  ∃ sp, list_solve_point list_of_set b = Ok sp ∧
    match sp with
    | Some (m :: _) =>
        m ∈ get_empty_points b ∧
        ∃ v, search_value list_of_set b m = Ok v ∧
             solve list_of_set b sboard
             = Ok (if num_eq v INFINITY then (Flag true, Point m)
                   else (Flag (num_eq v 0), NoMove),
                   b, with_best sboard (- INFINITY)%Q None)
    | _ =>
        ∃ found sboard',
          solve list_of_set b sboard
          = Ok (match found with
                | Some m => (Flag true, Point m)
                | None => (Flag false, NoMove)
                end, b, sboard') ∧
          ∀ m, found = Some m →
               m ∈ get_empty_points b ∧
               ∃ v, search_value list_of_set b m = Ok v ∧ (v == INFINITY)%Q
    end.
Proof.
  intros Hwf He. destruct (wf_board_inv b Hwf) as (_ & _ & Hcp & _).
  destruct (list_solve_point_tiers list_of_set b list_of_set_spec Hcp)
    as (sp & Hsp & Htier).
  exists sp. split; [done|]. unfold solve. rewrite He, Hsp. cbn [rbind].
  assert (∃ found sboard',
            (let* (found, b0, sboard0) :=
               solve_moves list_of_set (generate_legal_moves_gomoku b)
                           (- INFINITY)%Q INFINITY b
                           (with_best sboard (- INFINITY)%Q None) in
             match found with
             | Some m => Ok (Flag true, Point m, b0, sboard0)
             | None => Ok (Flag false, NoMove, b0, sboard0)
             end)
            = Ok (match found with
                  | Some m => (Flag true, Point m)
                  | None => (Flag false, NoMove)
                  end, b, sboard') ∧
            ∀ m, found = Some m →
                 m ∈ get_empty_points b ∧
                 ∃ v, search_value list_of_set b m = Ok v ∧ (v == INFINITY)%Q)
    as Hloop.
  { destruct (solve_moves_spec b Hwf (generate_legal_moves_gomoku b)
                (with_best sboard (- INFINITY)%Q None))
      as (found & sboard' & -> & Hfound); [done|].
    cbn [rbind]. exists found, sboard'. by destruct found. }
  destruct sp as [[|m l]|]; [done| |done].
  destruct Htier as (i & _ & _ & Hl & _).
  assert (m ∈ get_empty_points b) as Hm.
  { apply empty_point_spec, (tier_move_empty b i), Hl. by left. }
  split; [done|].
  destruct (play_after_move b m Hwf Hm) as (Hplay & Hundo & _).
  destruct (search_value_total b m Hwf Hm) as (r & Hr & Hv).
  exists (- r)%Q. split; [done|].
  rewrite Hplay. cbn [rbind]. rewrite Hr. cbn [rbind].
  rewrite Hundo. cbn [rbind].
  destruct (num_eq (- r) INFINITY); [done|].
  by destruct (num_eq (- r) 0).
Qed.

(** The loop of [solve] returns the first of the moves whose search value
    is INFINITY. *)
Lemma solve_moves_find b :
  wf_board b = true →
  ∀ moves sboard,
    (∀ x, x ∈ moves → x ∈ get_empty_points b) →
    ∃ sboard',
      solve_moves list_of_set moves (- INFINITY)%Q INFINITY b sboard
      = Ok (List.find (search_win list_of_set b) moves, b, sboard').
Proof.
  intros Hwf. induction moves as [|x moves IH]; intros sboard Hm.
  { by eexists. }
  pose proof (Hm x ltac:(by left)) as Hx.
  destruct (play_after_move b x Hwf Hx) as (Hplay & Hundo & _).
  destruct (search_value_total b x Hwf Hx) as (r & Hr & Hv).
  cbn [solve_moves List.find]. rewrite Hplay. cbn [rbind].
  rewrite Hr. cbn [rbind]. rewrite Hundo. cbn [rbind].
  unfold search_win at 1. rewrite Hv.
  destruct (num_eq (- r) INFINITY) eqn:Hinf; [by eexists|].
  apply IH. intros y Hy. apply Hm. by right.
Qed.

(** The answer of [solve] on a position that is not over, from its
    candidates and their search values. *)
Lemma solve_answer_cases b sboard :
  wf_board b = true → game_end b = Ok None →
  ∃ sp sboard',
    list_solve_point list_of_set b = Ok sp ∧
    (∀ m, m ∈ solve_candidates sp b → m ∈ get_empty_points b) ∧
    solve list_of_set b sboard
    = Ok (match List.find (search_win list_of_set b)
                          (solve_candidates sp b) with
          | Some p => (Flag true, Point p)
          | None =>
              (Flag (match sp with
                     | Some (m :: _) => search_draw list_of_set b m
                     | _ => false
                     end), NoMove)
          end, b, sboard').
Proof.
  intros Hwf He. destruct (wf_board_inv b Hwf) as (_ & _ & Hcp & _).
  destruct (list_solve_point_tiers list_of_set b list_of_set_spec Hcp)
    as (sp & Hsp & Htier).
  assert (∃ sboard',
            (let* (found, b0, sboard0) :=
               solve_moves list_of_set (generate_legal_moves_gomoku b)
                           (- INFINITY)%Q INFINITY b
                           (with_best sboard (- INFINITY)%Q None) in
             match found with
             | Some m => Ok (Flag true, Point m, b0, sboard0)
             | None => Ok (Flag false, NoMove, b0, sboard0)
             end)
            = Ok (match List.find (search_win list_of_set b)
                                  (get_empty_points b) with
                  | Some p => (Flag true, Point p)
                  | None => (Flag false, NoMove)
                  end, b, sboard')) as [sboard' Hloop].
  { destruct (solve_moves_find b Hwf (generate_legal_moves_gomoku b)
                (with_best sboard (- INFINITY)%Q None))
      as (sboard' & Hs); [done|].
    rewrite Hs. cbn [rbind]. exists sboard'.
    unfold generate_legal_moves_gomoku.
    by destruct (List.find _ _). }
  unfold solve. rewrite He, Hsp. cbn [rbind].
  destruct sp as [[|m l]|].
  - exists (Some []), sboard'. by split; [|split].
  - destruct Htier as (i & _ & _ & Hl & _).
    assert (m ∈ get_empty_points b) as Hm.
    { apply empty_point_spec, (tier_move_empty b i), Hl. by left. }
    destruct (play_after_move b m Hwf Hm) as (Hplay & Hundo & _).
    destruct (search_value_total b m Hwf Hm) as (r & Hr & Hv).
    exists (Some (m :: l)), (with_best sboard (- INFINITY)%Q None).
    split; [done|]. split.
    { by intros x ->%list_elem_of_singleton. }
    rewrite Hplay. cbn [rbind]. rewrite Hr. cbn [rbind].
    rewrite Hundo. cbn [rbind].
    cbn [solve_candidates List.find]. unfold search_win, search_draw.
    rewrite Hv. destruct (num_eq (- r) INFINITY); [done|].
    by destruct (num_eq (- r) 0).
  - exists None, sboard'. by split; [|split].
Qed.

End SolveSpec.

(** ** C1: what solve returns *)

(** A move that the opponent answers with a certain win is no certain
    win. *)
Lemma forced_win_answered (b : SimpleGoBoard) (p q : Z) :
  won (after_move b p) (current_player b) = false →
  forced_win 1 (after_move b p) q = true →
  ∀ k, forced_win k b p = false.
Proof.
  intros Hnot Hq k. set (b1 := after_move b p) in *.
  assert (∀ f (l : list Z) x, x ∈ l → f x = false → forallb f l = false)
    as Hforall.
  { intros f l x Hx Hf. destruct (forallb f l) eqn:Hall; [|done].
    rewrite forallb_forall in Hall.
    rewrite (Hall x) in Hf; [done|]. by apply list_elem_of_In. }
  assert (∀ f (l : list Z), (∀ x, x ∈ l → f x = false) → existsb f l = false)
    as Hexists.
  { intros f l Hf. destruct (existsb f l) eqn:Hex; [|done].
    apply existsb_exists in Hex as (x & Hx & Hfx).
    rewrite Hf in Hfx; [done|]. by apply list_elem_of_In. }
  cbn [forced_win] in Hq. apply andb_true_iff in Hq as [Hqe Hq].
  apply bool_decide_eq_true in Hqe.
  destruct k as [|k]; cbn [forced_win]; fold b1; rewrite Hnot;
    [by rewrite andb_false_r|].
  cbn [orb]. apply andb_false_iff. right. apply andb_false_iff. right.
  apply (Hforall _ _ q Hqe).
  set (b2 := after_move b1 q) in *.
  destruct (won b2 (current_player b1)) eqn:Hw2; [done|].
  cbn [negb orb andb] in *. apply andb_true_iff in Hq as [_ Hall].
  rewrite forallb_forall in Hall.
  apply Hexists. intros r Hr.
  pose proof (Hall r ltac:(by apply list_elem_of_In)) as Hr'.
  apply andb_true_iff in Hr' as [Hw3 Hex].
  apply negb_true_iff in Hw3.
  apply existsb_exists in Hex as (w & Hw & Hwin).
  apply list_elem_of_In in Hw.
  cbn [forced_win] in Hwin. rewrite orb_false_r in Hwin.
  apply andb_true_iff in Hwin as [_ Hwin].
  destruct k as [|k]; cbn [forced_win]; rewrite Hw3;
    [by rewrite andb_false_r|].
  cbn [orb]. apply andb_false_iff. right. apply andb_false_iff. right.
  apply (Hforall _ _ w Hw). by rewrite Hwin.
Qed.

(** C1, as stated, fails in both directions, for either enumeration of
    the sets.

    A certain win that [solve] does not report: on [missed_win] BLACK wins
    by playing (4,4), and the search gives that move the value INFINITY;
    but the one critical point of the position is (6,4), which blocks
    WHITE's three, and [solve] tries that point alone.

    A win that [solve] reports and that is none: on [spurious_win] there
    is no critical point, [solve] tries the empty points in turn and
    answers True with (4,2), whose search value is INFINITY because the
    search lets WHITE answer only with the first block of BLACK's open
    three; WHITE's answer (2,3) makes two fours and is a certain win of
    WHITE, so (4,2) is a certain win of BLACK for no number of moves. *)
Lemma solve_counterexample :
  (wf_board missed_win = true ∧
   game_end missed_win = Ok None ∧
   forced_win 1 missed_win (pt 4 4) = true ∧
   search_value elements missed_win (pt 4 4) = Ok INFINITY ∧
   solve_moveSet missed_win = Ok [∅; ∅; ∅; {[pt 6 4]}] ∧
   solve_answer elements missed_win missed_win = Ok (Flag false, NoMove) ∧
   solve_answer rev_elements missed_win missed_win
   = Ok (Flag false, NoMove)) ∧
  (wf_board spurious_win = true ∧
   game_end spurious_win = Ok None ∧
   solve_moveSet spurious_win = Ok [∅; ∅; ∅; ∅] ∧
   solve_answer elements spurious_win spurious_win
   = Ok (Flag true, Point (pt 4 2)) ∧
   solve_answer rev_elements spurious_win spurious_win
   = Ok (Flag true, Point (pt 4 2)) ∧
   search_value elements spurious_win (pt 4 2) = Ok INFINITY ∧
   solve_moveSet (after_move spurious_win (pt 4 2))
   = Ok [∅; ∅; ∅; {[pt 2 2; pt 6 2]}] ∧
   forced_win 1 (after_move spurious_win (pt 4 2)) (pt 2 3) = true ∧
   ∀ k, forced_win k spurious_win (pt 4 2) = false).
Proof.
  split; [by_computation|].
  assert (forced_win 1 (after_move spurious_win (pt 4 2)) (pt 2 3) = true)
    as Hanswer by (vm_compute; reflexivity).
  split; [vm_compute; reflexivity|]. split; [vm_compute; reflexivity|].
  split; [vm_compute; reflexivity|]. split; [vm_compute; reflexivity|].
  split; [vm_compute; reflexivity|]. split; [vm_compute; reflexivity|].
  split; [vm_compute; reflexivity|]. split; [exact Hanswer|].
  apply (forced_win_answered spurious_win (pt 4 2) (pt 2 3)); [|exact Hanswer].
  vm_compute. reflexivity.
Qed.

(** The flag of a draw: on [last_point] the one move left blocks WHITE and
    fills the board, and [solve] answers True with NoMove. *)
Lemma last_point_draw_flag :
  get_empty_points last_point = [pt 3 5] ∧
  game_end (after_move last_point (pt 3 5)) = Ok (Some 0%Q) ∧
  solve_answer elements last_point last_point = Ok (Flag true, NoMove).
Proof. by_computation. Qed.

(** C1, as the code has it. On a well-formed board [solve] returns, with
    the board as it was. When the game is over on entry it returns the
    terminal value with First. Otherwise its candidates are the first
    critical point of [list_solve_point] alone when there is one, and every
    empty point in increasing order when there is none; each candidate is
    an empty point and has a search value (minus what [alphabeta] returns,
    with the full window and START_DEPTH, for the position after it).
    [solve] returns True with a point exactly when a candidate has the
    search value INFINITY, and the point is the first such candidate;
    otherwise it returns NoMove with the flag [haveDraw], True exactly when
    the single critical point tried has the search value 0. When the
    player to move has an immediate winning point, the answer is True with
    such a point. *)
Theorem solve_spec (list_of_set : gset Z → list Z)
    (b sboard : SimpleGoBoard) :
  (∀ s x, x ∈ list_of_set s ↔ x ∈ s) →
  wf_board b = true →
  ∃ flag move sboard',
    solve list_of_set b sboard = Ok (flag, move, b, sboard') ∧
    (∀ v, game_end b = Ok (Some v) → flag = Value v ∧ move = First) ∧
    (game_end b = Ok None → answer_spec list_of_set b flag move).
Proof.
  intros Hspec Hwf. destruct (wf_board_inv b Hwf) as (_ & _ & Hcp & _).
  destruct (game_end_total b Hwf) as ([v|] & He & _).
  { exists (Value v), First, sboard. unfold solve. rewrite He. cbn [rbind].
    split; [done|]. split; [|done]. by intros v' [= <-]. }
  destruct (solve_answer_cases list_of_set Hspec b sboard Hwf He)
    as (sp & sboard' & Hsp & Hcands & Hsolve).
  assert ((∃ x, immediate_win b x) →
          ∃ m l, sp = Some (m :: l) ∧ immediate_win b m) as Hwin.
  { intros [x Hx]. apply hit5_immediate_win, tier0_hit5 in Hx; [|done].
    destruct (lsp_first list_of_set b 0 Hspec Hcp) as (l & Hl & Hmem);
      [by exists x|intros j y Hj; lia|].
    rewrite Hsp in Hl. injection Hl as ->.
    destruct l as [|m l]; [by apply Hmem, elem_of_nil in Hx|].
    exists m, l. split; [done|].
    apply hit5_immediate_win, tier0_hit5, Hmem; [done|]. by left. }
  assert (∀ m, m ∈ solve_candidates sp b →
               ∃ v, search_value list_of_set b m = Ok v) as Hvalues.
  { intros m Hm%Hcands.
    destruct (search_value_total list_of_set Hspec b m Hwf Hm) as (r & _ & Hv).
    by eexists. }
  destruct (List.find (search_win list_of_set b) (solve_candidates sp b))
    as [p|] eqn:Hfind.
  - exists (Flag true), (Point p), sboard'. split; [done|].
    split; [by intros v Hv; rewrite He in Hv|]. intros _.
    exists sp. split; [done|]. split; [by split; [apply Hcands|apply Hvalues]|].
    rewrite Hfind. split; [done|].
    intros Hx. destruct (Hwin Hx) as (m & l & -> & Hm).
    cbn [solve_candidates List.find] in Hfind.
    destruct (search_win list_of_set b m); [|done].
    injection Hfind as <-. by exists m.
  - exists (Flag (match sp with
                  | Some (m :: _) => search_draw list_of_set b m
                  | _ => false
                  end)), NoMove, sboard'.
    split; [done|]. split; [by intros v Hv; rewrite He in Hv|]. intros _.
    exists sp. split; [done|]. split; [by split; [apply Hcands|apply Hvalues]|].
    rewrite Hfind. split; [done|].
    intros Hx. exfalso. destruct (Hwin Hx) as (m & l & -> & Hm).
    cbn [solve_candidates List.find] in Hfind.
    unfold search_win in Hfind.
    rewrite (search_value_win list_of_set b m Hwf He Hm) in Hfind.
    by vm_compute in Hfind.
Qed.

Lemma solve_spec_witness :
  ∃ flag move sboard',
    solve elements open_three open_three
    = Ok (flag, move, open_three, sboard') ∧
    (∀ v, game_end open_three = Ok (Some v) →
          flag = Value v ∧ move = First) ∧
    (game_end open_three = Ok None →
     answer_spec elements open_three flag move).
Proof.
  apply (solve_spec elements open_three open_three).
  - intros s x. apply elem_of_elements.
  - reflexivity.
Defined.
(** ** The scans report legal moves *)

(** X1. Every point [list_solve_point] returns is an EMPTY point of the
    board, whatever the order in which the set is listed. *)
Theorem list_solve_point_legal (list_of_set : gset Z → list Z)
    (b : SimpleGoBoard) (l : list Z) (x : Z) :
  (∀ s x, x ∈ list_of_set s ↔ x ∈ s) →
  is_black_white (current_player b) = true →
  list_solve_point list_of_set b = Ok (Some l) → x ∈ l →
  x ∈ get_empty_points b.
Proof.
  intros Hspec Hcp Hl Hx.
  destruct (list_solve_point_tiers list_of_set b Hspec Hcp)
    as (r & Hr & Htier).
  rewrite Hl in Hr. injection Hr as <-.
  destruct Htier as (i & _ & _ & Hmem & _).
  apply empty_point_spec, (tier_move_empty b i), Hmem, Hx.
Qed.

Lemma list_solve_point_legal_witness : 13 ∈ get_empty_points win_and_block.
Proof.
  apply (list_solve_point_legal elements win_and_block [13] 13).
  - intros s x. apply elem_of_elements.
  - reflexivity.
  - vm_compute. reflexivity.
  - by left.
Defined.

(** X2. Every point in the four lists of [winDetection] is an EMPTY point
    of the board. *)
Theorem winDetection_legal (b : SimpleGoBoard)
    (myWins theirWins my2mWins their2mWins : list Z) (x : Z) :
  wf_board b = true →
  winDetection b = Ok (myWins, theirWins, my2mWins, their2mWins) →
  x ∈ myWins ++ theirWins ++ my2mWins ++ their2mWins →
  x ∈ get_empty_points b.
Proof.
  intros Hwf Hwin Hx. apply empty_point_spec.
  destruct (winDetection_spec b Hwf)
    as [(w & Hw & Hhit) | (_ & T & M2 & T2 & Hr & HT & HM2 & HT2)].
  - rewrite Hwin in Hw. injection Hw as -> -> -> ->.
    rewrite !app_nil_r in Hx. apply list_elem_of_singleton in Hx as ->.
    by apply (hit5_empty b true).
  - rewrite Hwin in Hr. injection Hr as -> -> -> ->.
    rewrite !elem_of_app in Hx.
    destruct Hx as [Hx | [Hx | [Hx | Hx]]].
    + by apply elem_of_nil in Hx.
    + by apply (hit5_empty b false), HT.
    + by apply (tier_move_empty b 2), tier2_hit6, HM2.
    + by apply hit6_empty, HT2.
Qed.

Lemma winDetection_legal_witness : 29 ∈ get_empty_points white_four.
Proof.
  apply (winDetection_legal white_four [] [29] [] [] 29).
  - reflexivity.
  - vm_compute. reflexivity.
  - by left.
Defined.

(* ================================================================== *)
From Stdlib Require Import Lqa.

(** * The rest of the board and of the players *)

(** ** Gomoku legality *)

(** X3. For a colour BLACK or WHITE, [play_move_gomoku] accepts a move
    exactly when [is_legal_gomoku] says it is legal, refuses it (leaving
    the board as it was) exactly when it says it is not, and raises the
    same exception on a point outside the array. *)
Theorem play_move_gomoku_legal (b : SimpleGoBoard) (point : Z) (c : color) :
  is_black_white c = true →
  match is_legal_gomoku b point c with
  | Ok true => ∃ b', play_move_gomoku b point c = Ok (true, b') ∧
                     get_color b' point = Ok c
  | Ok false => play_move_gomoku b point c = Ok (false, b)
  | Raise e => play_move_gomoku b point c = Raise e
  end.
Proof.
  intros Hc. unfold is_legal_gomoku, play_move_gomoku. rewrite Hc. simpl.
  destruct (get_color b point) as [cur|e] eqn:Hg; simpl; [|done].
  destruct (color_eqb cur EMPTY) eqn:He; simpl; [|done].
  apply get_color_Ok in Hg as (i & Hi & Hcur).
  unfold set_color. rewrite Hi. simpl. eexists. split; [done|].
  unfold get_color, len_board. simpl. rewrite length_insert.
  fold (len_board b). rewrite Hi. simpl.
  rewrite list_lookup_insert_eq; [done|].
  by apply lookup_lt_Some in Hcur.
Qed.

Lemma play_move_gomoku_legal_witness :
  ∃ b', play_move_gomoku (reset 7) 9 BLACK = Ok (true, b') ∧
        get_color b' 9 = Ok BLACK.
Proof. exact (play_move_gomoku_legal (reset 7) 9 BLACK eq_refl). Defined.

(** ** The result of a game *)

(** X4. On a well-formed board [game_result] returns WHITE when a white
    stone lies on a line of five or more, BLACK when no white stone but a
    black stone does, ['draw'] when there is no such line and no empty
    point, and None otherwise; and [game_end] of the search returns None
    in exactly the last case, 0 for the draw, and INFINITY or -INFINITY
    for a winner that is or is not the player to move. *)
Theorem game_result_spec (b : SimpleGoBoard) :
  wf_board b = true →
  ∃ r, game_result b = Ok r ∧
    (r = Won (Some WHITE) ↔ has_five b WHITE) ∧
    (r = Won (Some BLACK) ↔ ¬ has_five b WHITE ∧ has_five b BLACK) ∧
    (r = Drawn ↔ ¬ has_five b WHITE ∧ ¬ has_five b BLACK ∧
                 get_empty_points b = []) ∧
    (r = Undecided ↔ ¬ has_five b WHITE ∧ ¬ has_five b BLACK ∧
                     get_empty_points b ≠ []) ∧
    game_end b = Ok match r with
                    | Won winner =>
                        Some (if bool_decide (winner = Some (current_player b))
                              then INFINITY else (- INFINITY)%Q)
                    | Drawn => Some 0%Q
                    | Undecided => None
                    end.
Proof.
  intros Hwf. unfold game_result, game_end.
  destruct (check_game_end_gomoku_cases b Hwf)
    as [[-> Hw] | [(-> & Hnw & Hk) | (-> & Hnw & Hnk)]]; cbn [rbind].
  - eexists. split; [done|]. split; [done|].
    split; [split; [done|by intros [? _]]|].
    split; [split; [done|by intros [? _]]|].
    split; [split; [done|by intros [? _]]|]. done.
  - eexists. split; [done|].
    split; [split; [done|intros H; by destruct (Hnw H)]|].
    split; [done|].
    split; [split; [done|by intros (_ & ? & _)]|].
    split; [split; [done|by intros (_ & ? & _)]|]. done.
  - destruct (get_empty_points b) as [|p l] eqn:Hempty; simpl.
    + eexists. split; [done|].
      split; [split; [done|intros H; by destruct (Hnw H)]|].
      split; [split; [done|by intros [_ ?]]|].
      split; [done|].
      split; [split; [done|by intros (_ & _ & ?)]|]. done.
    + eexists. split; [done|].
      split; [split; [done|intros H; by destruct (Hnw H)]|].
      split; [split; [done|by intros [_ ?]]|].
      split; [split; [done|by intros (_ & _ & ?)]|].
      split; [done|]. done.
Qed.

Lemma game_result_spec_witness :
  ∃ r, game_result five_in_a_row = Ok r ∧
    (r = Won (Some WHITE) ↔ has_five five_in_a_row WHITE) ∧
    (r = Won (Some BLACK) ↔
     ¬ has_five five_in_a_row WHITE ∧ has_five five_in_a_row BLACK) ∧
    (r = Drawn ↔ ¬ has_five five_in_a_row WHITE ∧
                 ¬ has_five five_in_a_row BLACK ∧
                 get_empty_points five_in_a_row = []) ∧
    (r = Undecided ↔ ¬ has_five five_in_a_row WHITE ∧
                     ¬ has_five five_in_a_row BLACK ∧
                     get_empty_points five_in_a_row ≠ []) ∧
    game_end five_in_a_row
    = Ok match r with
         | Won winner =>
             Some (if bool_decide (winner = Some (current_player five_in_a_row))
                   then INFINITY else (- INFINITY)%Q)
         | Drawn => Some 0%Q
         | Undecided => None
         end.
Proof. exact (game_result_spec five_in_a_row eq_refl). Defined.

(** ** The start state *)

(** The rows 1 to [k] of the grid. *)
Lemma fill_slice_lookup cells start stop v (i : nat) :
  fill_slice cells start stop v !! i
  = (λ c, if (slice_bound (Z.of_nat (length cells)) start <=? Z.of_nat i)
             && (Z.of_nat i <? slice_bound (Z.of_nat (length cells)) stop)
          then v else c) <$> cells !! i.
Proof. unfold fill_slice. by rewrite list_lookup_imap. Qed.

Lemma fill_slice_length cells start stop v :
  length (fill_slice cells start stop v) = length cells.
Proof. unfold fill_slice. apply length_imap. Qed.

Lemma row_cells (n j i : Z) :
  1 ≤ n → 0 ≤ j →
  ((j + 1) * (n + 1) + 1 ≤ i < (j + 1) * (n + 1) + 1 + n) ↔
  (i / (n + 1) = j + 1 ∧ 1 ≤ i mod (n + 1)).
Proof.
  intros Hn Hj.
  pose proof (Z.div_mod i (n + 1) ltac:(lia)) as Hdm.
  pose proof (Z.mod_pos_bound i (n + 1) ltac:(lia)) as Hm.
  split.
  - intros Hi. assert (i / (n + 1) = j + 1) by nia. lia.
  - intros [Hr Hc]. rewrite Hr in Hdm. lia.
Qed.

Lemma fill_rows_spec (b : SimpleGoBoard) :
  1 ≤ size b →
  ∀ (m j : nat) cells,
    (j + m ≤ Z.to_nat (size b))%nat →
    Z.of_nat (length cells) = maxpoint_of (size b) →
    (∀ (i : nat) c, cells !! i = Some c →
       c = if (1 <=? Z.of_nat i / NS b) && (Z.of_nat i / NS b <=? Z.of_nat j)
              && (1 <=? Z.of_nat i mod NS b)
           then EMPTY else BORDER) →
    ∃ cells',
      fill_rows b (progression (1 + Z.of_nat j) 1 m) cells = Ok cells' ∧
      length cells' = length cells ∧
      ∀ (i : nat) c, cells' !! i = Some c →
        c = if (1 <=? Z.of_nat i / NS b)
               && (Z.of_nat i / NS b <=? Z.of_nat (j + m))
               && (1 <=? Z.of_nat i mod NS b)
            then EMPTY else BORDER.
Proof.
  intros Hn. induction m as [|m IH]; intros j cells Hjm Hlen Hcells.
  { exists cells. split; [done|]. split; [done|].
    by rewrite Nat.add_0_r. }
  unfold progression. cbn [seq map]. fold (progression (1 + Z.of_nat j) 1 m).
  cbn [fill_rows]. unfold row_start.
  replace (1 + Z.of_nat j + Z.of_nat 0 * 1) with (Z.of_nat j + 1) by lia.
  rewrite (proj2 (Z.leb_le 1 _)) by lia.
  rewrite (proj2 (Z.leb_le _ (size b))) by lia.
  cbn [negb rbind].
  set (start := (Z.of_nat j + 1) * NS b + 1).
  destruct (IH (S j) (fill_slice cells start (start + size b) EMPTY))
    as (cells' & Hfill & Hlen' & Hcells').
  - lia.
  - by rewrite fill_slice_length.
  - intros i c. rewrite fill_slice_lookup.
    destruct (cells !! i) as [c0|] eqn:Hi; [|done]. simpl.
    intros [= <-]. rewrite (Hcells i c0 Hi).
    unfold slice_bound. rewrite Hlen. unfold maxpoint_of, start, NS.
    pose proof (row_cells (size b) (Z.of_nat j) (Z.of_nat i) Hn ltac:(lia))
      as Hrow.
    pose proof (Nat2Z.is_nonneg j) as Hj0.
    rewrite (proj2 (Z.ltb_ge _ 0)) by nia.
    rewrite (proj2 (Z.ltb_ge _ 0)) by nia.
    rewrite Z.min_l by nia. rewrite Z.min_l by nia.
    rewrite Nat2Z.inj_succ.
    set (S := (_ <=? Z.of_nat i) && (Z.of_nat i <? _)).
    set (A := (1 <=? _) && (_ <=? Z.of_nat j) && (1 <=? _)).
    set (B := (1 <=? _) && (_ <=? Z.succ (Z.of_nat j)) && (1 <=? _)).
    assert (B = true ↔ S = true ∨ A = true) as Hiff.
    { unfold A, B, S. rewrite !andb_true_iff, !Z.leb_le, Z.ltb_lt. lia. }
    clearbody S A B. clear -Hiff.
    destruct S, A, B; try reflexivity; exfalso; intuition discriminate.
  - exists cells'. split.
    + rewrite <- Hfill. f_equal.
      unfold progression. rewrite <- seq_shift, map_map.
      apply map_ext. intros k. lia.
    + split; [by rewrite Hlen', fill_slice_length|].
      intros i c Hi. rewrite (Hcells' i c Hi).
      by replace (S j + m)%nat with (j + S m)%nat by lia.
Qed.

Lemma reset_board_cells (n : Z) :
  1 ≤ n →
  ∃ b, reset_board n = Ok b ∧ size b = n ∧ current_player b = BLACK ∧
       best_move b = None ∧ best_move_score b = (- 1000000)%Q ∧
       len_board b = maxpoint_of n ∧
       ∀ (i : nat) c, board b !! i = Some c →
         c = if on_board_rc n (Z.of_nat i) then EMPTY else BORDER.
Proof.
  intros Hn. unfold reset_board, _initialize_empty_points.
  set (b0 := mkBoard n _ BLACK None _).
  destruct (fill_rows_spec b0 Hn (Z.to_nat n) 0 (board b0))
    as (cells & Hfill & Hlen & Hcells).
  - simpl. lia.
  - simpl. rewrite length_replicate. unfold maxpoint_of. nia.
  - intros i c Hi. apply lookup_replicate in Hi as [-> _].
    change (Z.of_nat 0) with 0.
    destruct (Z.leb_spec 1 (Z.of_nat i / NS b0));
      destruct (Z.leb_spec (Z.of_nat i / NS b0) 0); (done || lia).
  - rewrite py_range_progression.
    replace ((size b0 + 1 - 1 + 1 - 1) / 1) with n
      by (rewrite Z.div_1_r; simpl; lia).
    change (1 + Z.of_nat 0) with 1 in Hfill. rewrite Hfill. cbn [rbind].
    eexists. split; [done|]. simpl. split; [done|]. split; [done|].
    split; [done|]. split; [done|]. split.
    + unfold len_board. simpl. rewrite Hlen. simpl.
      rewrite length_replicate. unfold maxpoint_of. nia.
    + intros i c Hi. rewrite (Hcells i c Hi). unfold on_board_rc, NS.
      simpl. by rewrite Z2Nat.id by lia.
Qed.

Lemma sorted_lt_NoDup (l : list Z) : StronglySorted Z.lt l → NoDup l.
Proof.
  induction 1 as [|x l Hs IH Hall]; constructor; [|done].
  intros Hin. rewrite Forall_forall in Hall. specialize (Hall x Hin). lia.
Qed.

Lemma reset_lookup (n : Z) (i : nat) c :
  board (reset n) !! i = Some c →
  c = if on_board_rc n (Z.of_nat i) then EMPTY else BORDER.
Proof.
  unfold reset. simpl. rewrite !list_lookup_fmap.
  destruct (seq 0 (Z.to_nat (maxpoint_of n)) !! i) as [k|] eqn:Hk; [|done].
  apply lookup_seq in Hk as [-> _]. simpl. by intros [= <-].
Qed.

Lemma reset_len (n : Z) : 1 ≤ n → len_board (reset n) = maxpoint_of n.
Proof.
  intros Hn. unfold len_board, reset. simpl.
  rewrite !length_map, length_seq. unfold maxpoint_of. nia.
Qed.

Lemma reset_board_reset (n : Z) : 1 ≤ n → reset_board n = Ok (reset n).
Proof.
  intros Hn.
  destruct (reset_board_cells n Hn)
    as (b & -> & Hs & Hp & Hm & Hsc & Hl & Hcells).
  f_equal. destruct b as [s cells p m sc]. simpl in *. subst.
  unfold reset. f_equal.
  apply list_eq. intros i.
  destruct (cells !! i) as [c|] eqn:Hi.
  - rewrite (Hcells i c Hi).
    rewrite !list_lookup_fmap, lookup_seq_lt; [done|].
    apply lookup_lt_Some in Hi. unfold len_board in Hl. simpl in Hl. lia.
  - symmetry. apply lookup_ge_None. apply lookup_ge_None in Hi.
    rewrite !length_map, length_seq.
    unfold len_board in Hl. simpl in Hl. lia.
Qed.

Lemma reset_wf (n : Z) : 1 ≤ n → wf_board (reset n) = true.
Proof.
  intros Hn. apply wf_board_intro; simpl; try done.
  - by apply reset_len.
  - intros i c Hi. rewrite (reset_lookup n i c Hi).
    by destruct (on_board_rc n (Z.of_nat i)).
Qed.

Lemma reset_get_color (n p : Z) :
  1 ≤ n → 0 ≤ p < maxpoint_of n →
  get_color (reset n) p = Ok (if on_board_rc n p then EMPTY else BORDER).
Proof.
  intros Hn Hp. rewrite get_color_in_range by (by rewrite reset_len).
  destruct (board (reset n) !! Z.to_nat p) as [c|] eqn:Hc.
  - rewrite (reset_lookup n _ c Hc). by rewrite Z2Nat.id by lia.
  - apply lookup_ge_None in Hc. pose proof (reset_len n Hn) as Hl.
    unfold len_board in Hl. lia.
Qed.

(** The [k]-th point of the grid, row by row. *)
Lemma grid_index (n k : Z) :
  1 ≤ n → 0 ≤ k < n * n →
  1 ≤ k / n + 1 ≤ n ∧ 1 ≤ k mod n + 1 ≤ n.
Proof.
  intros Hn Hk.
  pose proof (Z.div_mod k n ltac:(lia)) as Hdm.
  pose proof (Z.mod_pos_bound k n ltac:(lia)) as Hm.
  assert (0 ≤ k / n) by (apply Z.div_pos; lia).
  assert (k / n < n) by (apply Z.div_lt_upper_bound; lia).
  lia.
Qed.

Lemma reset_empty_count (n : Z) :
  1 ≤ n → Z.of_nat (length (get_empty_points (reset n))) = n * n.
Proof.
  intros Hn.
  set (f := λ k : nat, (Z.of_nat k / n + 1) * (n + 1) + (Z.of_nat k mod n + 1)).
  assert (get_empty_points (reset n) ≡ₚ f <$> seq 0 (Z.to_nat (n * n)))
    as Hperm.
  { apply NoDup_Permutation.
    - apply sorted_lt_NoDup, where1d_from_sorted.
    - apply NoDup_fmap_2_strong; [|apply NoDup_seq].
      intros k1 k2 Hk1 Hk2 Hf. apply elem_of_seq in Hk1, Hk2. unfold f in Hf.
      pose proof (Z.div_mod (Z.of_nat k1) n ltac:(lia)).
      pose proof (Z.div_mod (Z.of_nat k2) n ltac:(lia)).
      pose proof (Z.mod_pos_bound (Z.of_nat k1) n ltac:(lia)).
      pose proof (Z.mod_pos_bound (Z.of_nat k2) n ltac:(lia)).
      assert (Z.of_nat k1 / n = Z.of_nat k2 / n) by nia.
      nia.
    - intros p. rewrite empty_point_spec, list_elem_of_fmap.
      rewrite reset_len by done. split.
      + intros [Hp Hg]. rewrite reset_get_color in Hg by done.
        destruct (on_board_rc n p) eqn:Hon; [|done].
        apply on_board_rc_exists in Hon as (r & c & Hr & Hc & ->); [|done].
        exists (Z.to_nat ((r - 1) * n + (c - 1))). split.
        * unfold f. rewrite Z2Nat.id by nia.
          rewrite Z.div_add_l by lia. rewrite Z.div_small by lia.
          rewrite (Z.add_comm ((r - 1) * n)), Z.mod_add by lia.
          rewrite Z.mod_small by lia. lia.
        * apply elem_of_seq. nia.
      + intros (k & -> & Hk). apply elem_of_seq in Hk.
        destruct (grid_index n (Z.of_nat k) Hn ltac:(nia)) as [Hr Hc].
        assert (on_board_rc n (f k) = true) as Hon
          by (by apply (grid_point n (Z.of_nat k / n + 1)
                                   (Z.of_nat k mod n + 1))).
        pose proof (on_board_rc_range n (f k) Hn Hon) as Hrange.
        assert (0 ≤ f k < maxpoint_of n) as Hin
          by (unfold maxpoint_of; lia).
        split; [done|]. rewrite reset_get_color by done. by rewrite Hon. }
  rewrite (Permutation_length Hperm), length_fmap, length_seq. nia.
Qed.

(** X5. For [size >= 1], [reset(size)] builds an array of
    [size * size + 3 * (size + 1)] cells in which the cells of the rows 1
    to [size], columns 1 to [size], are EMPTY and every other cell is
    BORDER, with BLACK to move: a well-formed board with [size * size]
    empty points. No slice it writes leaves the array, and no assertion of
    [row_start] fails. *)
Theorem reset_board_spec (n : Z) :
  1 ≤ n →
  ∃ b, reset_board n = Ok b ∧
       size b = n ∧ current_player b = BLACK ∧
       len_board b = n * n + 3 * (n + 1) ∧
       (∀ row col, 0 ≤ row → 0 ≤ col ≤ n →
                   row * (n + 1) + col < len_board b →
                   get_color b (row * (n + 1) + col)
                   = Ok (if (1 <=? row) && (row <=? n) && (1 <=? col)
                         then EMPTY else BORDER)) ∧
       wf_board b = true ∧
       Z.of_nat (length (get_empty_points b)) = n * n.
Proof.
  intros Hn. exists (reset n).
  split; [by apply reset_board_reset|]. split; [done|]. split; [done|].
  pose proof (reset_len n Hn) as Hlen. unfold maxpoint_of in Hlen.
  split; [done|]. split; [|split; [by apply reset_wf|by apply reset_empty_count]].
  intros row col Hrow Hcol Hlt.
  rewrite reset_get_color by (unfold maxpoint_of; nia).
  by rewrite on_board_rc_coords.
Qed.

Lemma reset_board_spec_witness :
  ∃ b, reset_board 7 = Ok b ∧
       size b = 7 ∧ current_player b = BLACK ∧
       len_board b = 7 * 7 + 3 * (7 + 1) ∧
       (∀ row col, 0 ≤ row → 0 ≤ col ≤ 7 →
                   row * (7 + 1) + col < len_board b →
                   get_color b (row * (7 + 1) + col)
                   = Ok (if (1 <=? row) && (row <=? 7) && (1 <=? col)
                         then EMPTY else BORDER)) ∧
       wf_board b = true ∧
       Z.of_nat (length (get_empty_points b)) = 7 * 7.
Proof. apply (reset_board_spec 7). lia. Defined.

(** ** negaAB: what it returns and what it records *)

Lemma rbind_Ok {A B} (m : result A) (k : A → result B) (r : B) :
  rbind m k = Ok r → ∃ a, m = Ok a ∧ k a = Ok r.
Proof. destruct m as [a|e]; simpl; [eauto|done]. Qed.

Lemma set_color_Ok b p c b' :
  set_color b p c = Ok b' →
  size b' = size b ∧ current_player b' = current_player b ∧
  best_move b' = best_move b ∧ best_move_score b' = best_move_score b.
Proof.
  unfold set_color. intros (i & _ & [= <-])%rbind_Ok. done.
Qed.

Lemma best_kept_refl b : best_kept_or_raised b b.
Proof. by left. Qed.

Lemma best_kept_trans b1 b2 b3 :
  best_kept_or_raised b1 b2 → best_kept_or_raised b2 b3 →
  best_kept_or_raised b1 b3.
Proof.
  intros [[Hm1 Hs1] | H1] [[Hm2 Hs2] | H2].
  - left. by rewrite Hm2, Hs2.
  - right. by rewrite <- Hs1.
  - right. by rewrite Hs2.
  - right. by apply (Qlt_trans _ (best_move_score b2)).
Qed.

Lemma num_gt_lt (a b : Q) : num_gt a b = true → (b < a)%Q.
Proof.
  unfold num_gt. intros H. apply Qnot_le_lt. intros Hle.
  apply Qle_bool_iff in Hle. by rewrite Hle in H.
Qed.

Section NegaABRecord.

Variable rec : Q → Q → Z → option Z → SimpleGoBoard → result search_result.
Hypothesis rec_kept :
  ∀ alpha beta d prev c r c',
    rec alpha beta d prev c = Ok (r, c') → best_kept_or_raised c c'.

(** Play, search, undo: the record is touched by the search alone. *)
Lemma played_kept b b1 b2 b3 x c alpha beta d prev r :
  set_color b x c = Ok b1 →
  rec alpha beta d prev (with_player b1 (opponent (current_player b1)))
  = Ok (r, b2) →
  set_color (with_player b2 (opponent (current_player b2))) x EMPTY = Ok b3 →
  best_kept_or_raised b b3.
Proof.
  intros H1 Hr H3.
  apply set_color_Ok in H1 as (_ & _ & Hm1 & Hs1).
  apply set_color_Ok in H3 as (_ & _ & Hm3 & Hs3).
  apply rec_kept in Hr.
  apply (best_kept_trans _ (with_player b1 (opponent (current_player b1)))).
  { left. done. }
  apply (best_kept_trans _ b2); [done|]. left. done.
Qed.

Lemma negaAB_forced_kept alpha beta d t b r b' :
  negaAB_forced rec alpha beta d t b = Ok (r, b') →
  best_kept_or_raised b b'.
Proof.
  unfold negaAB_forced.
  intros (b1 & H1 & ([res b2] & Hr & (b3 & H3 & [= _ <-])%rbind_Ok)%rbind_Ok)
    %rbind_Ok.
  by eapply played_kept.
Qed.

Lemma negaAB_loop_kept d : ∀ points alpha beta point b r b',
  negaAB_loop rec points alpha beta d point b = Ok (r, b') →
  best_kept_or_raised b b'.
Proof.
  induction points as [|x points IH]; intros alpha beta point b r b'; simpl.
  { intros [= _ <-]. apply best_kept_refl. }
  intros (b1 & H1 & (ended & _ & H)%rbind_Ok)%rbind_Ok.
  destruct ended.
  { apply rbind_Ok in H as (b2 & H2 & [= _ <-]).
    apply set_color_Ok in H1 as (_ & _ & Hm1 & Hs1).
    apply set_color_Ok in H2 as (_ & _ & Hm2 & Hs2).
    left. by rewrite Hm2, Hs2. }
  apply rbind_Ok in H as ([res b2] & Hr & (b3 & H3 & H)%rbind_Ok).
  assert (best_kept_or_raised b b3) as Hb3 by (by eapply played_kept).
  destruct (num_ge (- fst res) beta).
  { injection H as _ <-. done. }
  apply IH in H. by apply (best_kept_trans _ b3).
Qed.

Lemma negaAB_body_kept alpha beta d prev b r b' :
  negaAB_body rec alpha beta d prev b = Ok (r, b') →
  best_kept_or_raised b b'.
Proof.
  unfold negaAB_body. destruct (d =? 0).
  { intros (score & _ & H)%rbind_Ok.
    destruct (num_gt score (best_move_score b)) eqn:Hgt.
    - assert (best_kept_or_raised b (with_best b score prev)) as Hup
        by (right; by apply num_gt_lt).
      destruct (num_eq score WINNER_SCORE); [by injection H as _ <-|].
      destruct (num_eq score (- WINNER_SCORE)); by injection H as _ <-.
    - injection H as _ <-. apply best_kept_refl. }
  destruct (get_empty_points b) as [|point rest].
  { intros [= _ <-]. apply best_kept_refl. }
  intros ([[[mw tw] m2] t2] & _ & H)%rbind_Ok.
  destruct mw as [|w mw]; [|injection H as _ <-; apply best_kept_refl].
  destruct tw as [|t [|t' tw]].
  - destruct m2 as [|w m2]; [|injection H as _ <-; apply best_kept_refl].
    destruct t2 as [|t [|t' t2]].
    + by eapply negaAB_loop_kept.
    + by eapply negaAB_forced_kept.
    + injection H as _ <-. apply best_kept_refl.
  - destruct t2 as [|t2' t2].
    + by eapply negaAB_forced_kept.
    + injection H as _ <-. apply best_kept_refl.
  - injection H as _ <-. apply best_kept_refl.
Qed.

End NegaABRecord.

Lemma negaAB_fuel_kept : ∀ fuel alpha beta d prev b r b',
  negaAB_fuel fuel alpha beta d prev b = Ok (r, b') →
  best_kept_or_raised b b'.
Proof.
  induction fuel as [|fuel IH]; intros alpha beta d prev b r b'; [done|].
  simpl. apply negaAB_body_kept. intros. by eapply IH.
Qed.

(** X6. [negaAB] never lowers the recorded best score: on a well-formed
    board it returns, and either [best_move] and [best_move_score] are
    then what they were, or [best_move_score] is higher than it was. *)
Theorem negaAB_best_move (alpha beta : Q) (d : Z) (prev_move : option Z)
    (b : SimpleGoBoard) :
  wf_board b = true →
  ∃ r b', negaAB alpha beta d prev_move b = Ok (r, b') ∧
          best_kept_or_raised b b'.
Proof.
  intros Hwf.
  destruct (negaAB_frame alpha beta d prev_move b Hwf) as (r & b' & Hr & _).
  exists r, b'. split; [done|].
  by apply (negaAB_fuel_kept _ _ _ _ _ _ _ _ Hr).
Qed.

Lemma negaAB_best_move_witness :
  ∃ r b', negaAB (- 1) 1 0 (Some 36) lone_stone = Ok (r, b') ∧
          best_kept_or_raised lone_stone b'.
Proof.
  apply (negaAB_best_move (- 1) 1 0 (Some 36) lone_stone). reflexivity.
Defined.


Lemma unit_score_opp v : unit_score v → unit_score (- v).
Proof. unfold unit_score. intros [H1 H2]. split; lra. Qed.

Section NegaABRange.

Variable rec : Q → Q → Z → option Z → SimpleGoBoard → result search_result.
Hypothesis rec_range :
  ∀ alpha beta d prev c r c',
    rec alpha beta d prev c = Ok (r, c') →
    unit_score alpha → unit_score beta → unit_score (fst r).

Lemma negaAB_forced_range alpha beta d t b r b' :
  negaAB_forced rec alpha beta d t b = Ok (r, b') →
  unit_score alpha → unit_score beta → unit_score (fst r).
Proof.
  unfold negaAB_forced.
  intros (b1 & H1 & ([res b2] & Hr & (b3 & H3 & [= <- _])%rbind_Ok)%rbind_Ok)
    %rbind_Ok Ha Hb.
  simpl. apply unit_score_opp.
  apply (rec_range _ _ _ _ _ _ _ Hr); by apply unit_score_opp.
Qed.

Lemma negaAB_loop_range d : ∀ points alpha beta point b r b',
  negaAB_loop rec points alpha beta d point b = Ok (r, b') →
  unit_score alpha → unit_score beta → unit_score (fst r).
Proof.
  induction points as [|x points IH]; intros alpha beta point b r b'; simpl.
  { by intros [= <- _]. }
  intros (b1 & H1 & (ended & _ & H)%rbind_Ok)%rbind_Ok Ha Hb.
  destruct ended.
  { apply rbind_Ok in H as (b2 & H2 & [= <- _]). simpl.
    unfold unit_score. split; lra. }
  apply rbind_Ok in H as ([res b2] & Hr & (b3 & H3 & H)%rbind_Ok).
  assert (unit_score (- fst res)) as Hv.
  { apply unit_score_opp.
    apply (rec_range _ _ _ _ _ _ _ Hr); by apply unit_score_opp. }
  destruct (num_ge (- fst res) beta).
  { by injection H as <- _. }
  apply IH in H; [done| |done].
  by destruct (num_gt (- fst res) alpha).
Qed.

Lemma negaAB_body_range alpha beta d prev b r b' :
  negaAB_body rec alpha beta d prev b = Ok (r, b') →
  unit_score alpha → unit_score beta → unit_score (fst r).
Proof.
  assert (unit_score 1 ∧ unit_score (- 1) ∧ unit_score 0) as (H1 & Hm1 & H0)
    by (unfold unit_score; repeat split; lra).
  unfold negaAB_body. intros H Ha Hb. destruct (d =? 0).
  { apply rbind_Ok in H as (score & _ & H).
    destruct (num_gt score (best_move_score b)).
    - destruct (num_eq score WINNER_SCORE); [by injection H as <- _|].
      destruct (num_eq score (- WINNER_SCORE)); by injection H as <- _.
    - by injection H as <- _. }
  destruct (get_empty_points b) as [|point rest].
  { by injection H as <- _. }
  apply rbind_Ok in H as ([[[mw tw] m2] t2] & _ & H).
  destruct mw as [|w mw]; [|by injection H as <- _].
  destruct tw as [|t [|t' tw]].
  - destruct m2 as [|w m2]; [|by injection H as <- _].
    destruct t2 as [|t [|t' t2]].
    + by eapply negaAB_loop_range.
    + by eapply negaAB_forced_range.
    + by injection H as <- _.
  - destruct t2 as [|t2' t2].
    + by eapply negaAB_forced_range.
    + by injection H as <- _.
  - by injection H as <- _.
Qed.

End NegaABRange.

Lemma negaAB_fuel_range : ∀ fuel alpha beta d prev b r b',
  negaAB_fuel fuel alpha beta d prev b = Ok (r, b') →
  unit_score alpha → unit_score beta → unit_score (fst r).
Proof.
  induction fuel as [|fuel IH]; intros alpha beta d prev b r b'; [done|].
  simpl. apply negaAB_body_range. intros. by eapply IH.
Qed.

(** X7. Called with a window inside [-1, 1] on a well-formed board,
    [negaAB] returns a score inside [-1, 1]. *)
Theorem negaAB_score_range (alpha beta : Q) (d : Z) (prev_move : option Z)
    (b : SimpleGoBoard) :
  wf_board b = true →
  (- 1 <= alpha)%Q → (alpha <= 1)%Q → (- 1 <= beta)%Q → (beta <= 1)%Q →
  ∃ v move b', negaAB alpha beta d prev_move b = Ok ((v, move), b') ∧
               (- 1 <= v)%Q ∧ (v <= 1)%Q.
Proof.
  intros Hwf Ha1 Ha2 Hb1 Hb2.
  destruct (negaAB_frame alpha beta d prev_move b Hwf)
    as ([v move] & b' & Hr & _).
  exists v, move, b'. split; [done|].
  by apply (negaAB_fuel_range _ _ _ _ _ _ _ _ Hr).
Qed.

Lemma negaAB_score_range_witness :
  ∃ v move b', negaAB (- 1) 1 2 None white_four = Ok ((v, move), b') ∧
               (- 1 <= v)%Q ∧ (v <= 1)%Q.
Proof.
  apply (negaAB_score_range (- 1) 1 2 None white_four); [reflexivity|..];
    by vm_compute.
Defined.

(** X8. At a depth other than 0, on a well-formed board on which the
    player to move has an immediate winning point, [negaAB] returns the
    score 1 with such a point as its move, and leaves the board state
    untouched. *)
Theorem negaAB_takes_win (alpha beta : Q) (d : Z) (prev_move : option Z)
    (b : SimpleGoBoard) :
  wf_board b = true → d ≠ 0 → (∃ x, immediate_win b x) →
  ∃ p, negaAB alpha beta d prev_move b = Ok ((1%Q, Some p), b) ∧
       immediate_win b p.
Proof.
  intros Hwf Hd [x Hx].
  assert (x ∈ get_empty_points b) as Hempty.
  { destruct Hx as (Hr & b' & Hplay & _).
    apply play_move_true in Hplay as (_ & Hg & _); [|done].
    by apply empty_point_spec. }
  destruct (get_empty_points b) as [|point rest] eqn:He;
    [by apply elem_of_nil in Hempty|].
  apply hit5_immediate_win in Hx; [|done].
  destruct (winDetection_spec b Hwf) as [(p & Hp & Hhit) | (Hnone & _)];
    [|by destruct (Hnone x)].
  exists p. split; [|by apply hit5_immediate_win].
  by rewrite (negaAB_unfold alpha beta d prev_move b point rest _ _ _ _
                Hd He Hp).
Qed.

Lemma negaAB_takes_win_witness :
  ∃ p, negaAB (- 1) 1 2 None four_in_a_row = Ok ((1%Q, Some p), four_in_a_row) ∧
       immediate_win four_in_a_row p.
Proof.
  apply (negaAB_takes_win (- 1) 1 2 None four_in_a_row); [reflexivity|lia|].
  exists 13. exact four_in_a_row_win.
Defined.

(** ** The heuristic score from the other side *)

Lemma heur_loop_with_player b cp c d : ∀ fuel p str,
  heur_loop fuel (with_player b cp) c d p str = heur_loop fuel b c d p str.
Proof.
  induction fuel as [|fuel IH]; intros p str; [done|]. simpl.
  change (get_color (with_player b cp) (p + d)) with (get_color b (p + d)).
  destruct (get_color b (p + d)) as [pt|]; [|done]. cbn [rbind].
  by rewrite !IH.
Qed.

Lemma point_heur_with_player b cp p :
  point_check_game_end_gomoku_heur (with_player b cp) p
  = point_check_game_end_gomoku_heur b p.
Proof.
  unfold point_check_game_end_gomoku_heur,
    _point_direction_check_connect_gomoko_heur.
  change (get_color (with_player b cp) p) with (get_color b p).
  change (connect_fuel (with_player b cp)) with (connect_fuel b).
  destruct (get_color b p) as [c|]; [|done]. cbn [rbind].
  by rewrite !heur_loop_with_player.
Qed.

Lemma accumulate_ext (f g : Z → result Q) sign : ∀ points score,
  (∀ p, f p = g p) →
  accumulate f sign points score = accumulate g sign points score.
Proof.
  induction points as [|p points IH]; intros score Hfg; [done|]. simpl.
  rewrite Hfg. destruct (g p); [|done]. cbn [rbind]. by apply IH.
Qed.

(** What a loop of [accumulate] adds is the same whatever the sign and the
    score it starts from. *)
Lemma accumulate_sum (f : Z → result Q) : ∀ points sign0 score0 r0,
  accumulate f sign0 points score0 = Ok r0 →
  ∃ t, ∀ sign score,
    ∃ r, accumulate f sign points score = Ok r ∧ (r == score + sign * t)%Q.
Proof.
  induction points as [|p points IH]; intros sign0 score0 r0; simpl.
  { intros _. exists 0%Q. intros sign score. exists score. split; [done|].
    lra. }
  intros (v & Hv & Hrest)%rbind_Ok. destruct (IH _ _ _ Hrest) as [t Ht].
  exists (v + t)%Q. intros sign score. rewrite Hv. cbn [rbind].
  destruct (Ht sign (Qred (score + sign * v))) as (r & -> & Hr).
  exists r. split; [done|]. rewrite Hr, Qred_correct. lra.
Qed.

Lemma Qred_Qred q : Qred (Qred q) = Qred q.
Proof. apply Qred_complete, Qred_correct. Qed.

Lemma accumulate_reduced (f : Z → result Q) sign : ∀ points score r,
  accumulate f sign points score = Ok r → Qred score = score → Qred r = r.
Proof.
  induction points as [|p points IH]; intros score r; simpl.
  { by intros [= <-]. }
  intros (v & _ & Hrest)%rbind_Ok _. apply (IH _ _ Hrest), Qred_Qred.
Qed.

(** X9. The heuristic score is antisymmetric: when [get_heuristic_score]
    returns [s] for the player to move, it returns [-s] for the same
    cells with the opponent to move. *)
Theorem heuristic_score_other_side (b : SimpleGoBoard) (s : Q) :
  get_heuristic_score b = Ok s →
  get_heuristic_score (other_side b) = Ok (- s)%Q.
Proof.
  unfold get_heuristic_score, other_side. simpl.
  rewrite opponent_involutive.
  set (f := point_check_game_end_gomoku_heur b).
  set (cur := where1d (color_eqb (current_player b)) (board b)).
  set (enemy := where1d (color_eqb (opponent (current_player b))) (board b)).
  intros (s1 & H1 & H2)%rbind_Ok.
  destruct (accumulate_sum f _ _ _ _ H1) as [tc Hc].
  destruct (accumulate_sum f _ _ _ _ H2) as [te He].
  assert (s == tc - te)%Q as Hs.
  { destruct (Hc 1%Q 0%Q) as (r1 & Hr1 & Hv1).
    rewrite H1 in Hr1. injection Hr1 as <-.
    destruct (He (- 1)%Q s1) as (r2 & Hr2 & Hv2).
    rewrite H2 in Hr2. injection Hr2 as <-. rewrite Hv2, Hv1. lra. }
  assert (Qred s = s) as Hsr.
  { apply (accumulate_reduced _ _ _ _ _ H2),
          (accumulate_reduced _ _ _ _ _ H1). reflexivity. }
  rewrite !(accumulate_ext (point_check_game_end_gomoku_heur
                              (with_player b (opponent (current_player b))))
                           f)
    by (intros p; apply point_heur_with_player).
  destruct (He 1%Q 0%Q) as (r1 & Hr1 & Hv1). rewrite Hr1. cbn [rbind].
  rewrite (accumulate_ext (point_check_game_end_gomoku_heur
                             (with_player b (opponent (current_player b))))
                          f)
    by (intros p; apply point_heur_with_player).
  destruct (Hc (- 1)%Q r1) as (r2 & Hr2 & Hv2). rewrite Hr2. f_equal.
  assert (Qred r2 = r2) as <-.
  { apply (accumulate_reduced _ _ _ _ _ Hr2),
          (accumulate_reduced _ _ _ _ _ Hr1). reflexivity. }
  rewrite <- Hsr, <- Qred_opp. apply Qred_complete.
  rewrite Hv2, Hv1, Hs. lra.
Qed.

Lemma heuristic_score_other_side_witness :
  get_heuristic_score (other_side lone_stone) = Ok (- 1)%Q.
Proof.
  apply (heuristic_score_other_side lone_stone 1). vm_compute. reflexivity.
Defined.

(** ** The fallback move of solve *)

Lemma num_gt_false_le (a b : Q) : num_gt a b = false → (a <= b)%Q.
Proof.
  unfold num_gt. intros H. apply Qle_bool_iff.
  by destruct (Qle_bool a b).
Qed.

Section SolveFallback.

Variable list_of_set : gset Z → list Z.
Hypothesis list_of_set_spec : ∀ s x, x ∈ list_of_set s ↔ x ∈ s.

(** The enumeration of [solve] when it finds no winning move: [sboard]
    ends with the highest value met, and the first move that has it. *)
Lemma solve_moves_best b :
  wf_board b = true →
  ∀ moves sboard sboard' b',
    (∀ x, x ∈ moves → x ∈ get_empty_points b) →
    solve_moves list_of_set moves (- INFINITY)%Q INFINITY b sboard
    = Ok (None, b', sboard') →
    (∀ p, p ∈ moves →
          ∃ v, search_value list_of_set b p = Ok v ∧
               (v <= best_move_score sboard')%Q) ∧
    (best_move_score sboard <= best_move_score sboard')%Q ∧
    ((best_move sboard' = best_move sboard ∧
      best_move_score sboard' = best_move_score sboard) ∨
     ∃ m, m ∈ moves ∧ best_move sboard' = Some m ∧
          search_value list_of_set b m = Ok (best_move_score sboard')).
Proof.
  intros Hwf. induction moves as [|x moves IH]; intros sboard sboard' b' Hm.
  { simpl. intros [= _ <-]. split; [by intros p Hp%elem_of_nil|].
    split; [lra|by left]. }
  pose proof (Hm x ltac:(by left)) as Hx.
  destruct (play_after_move b x Hwf Hx) as (Hplay & Hundo & _).
  destruct (search_value_total list_of_set list_of_set_spec b x Hwf Hx)
    as (r & Hr & Hv).
  simpl. rewrite Hplay. cbn [rbind]. rewrite Hr. cbn [rbind].
  rewrite Hundo. cbn [rbind].
  destruct (num_eq (- r) INFINITY); [done|].
  intros Hrest.
  apply IH in Hrest as (Hall & Hle & Hbest);
    [|intros y Hy; apply Hm; by right].
  destruct (num_gt (- r) (best_move_score sboard)) eqn:Hgt.
  - simpl in Hle, Hbest. apply num_gt_lt in Hgt.
    split; [|split; [lra|]].
    + intros p [-> | Hp]%elem_of_cons; [|by apply Hall].
      exists (- r)%Q. split; [done|lra].
    + right. destruct Hbest as [[Hbm Hbs] | (m & Hin & Hbm & Hbs)].
      * exists x. split; [by left|]. split; [done|]. by rewrite Hbs.
      * exists m. split; [by right|]. done.
  - apply num_gt_false_le in Hgt. split; [|split; [done|]].
    + intros p [-> | Hp]%elem_of_cons; [|by apply Hall].
      exists (- r)%Q. split; [done|lra].
    + destruct Hbest as [Hsame | (m & Hin & Hbm & Hbs)]; [by left|].
      right. exists m. split; [by right|]. done.
Qed.

End SolveFallback.

(** X10. When the position is not over and has no critical point, and
    [solve] finds no winning move among the empty points, the best-move
    record it leaves in [sboard] is the best it met: no empty point has a
    search value above [best_move_score], and [best_move] is an empty
    point with exactly that value (or None, with the score -INFINITY,
    when no value exceeds -INFINITY). *)
Theorem solve_fallback_move (list_of_set : gset Z → list Z)
    (b sboard : SimpleGoBoard) (sp : option (list Z)) :
  (∀ s x, x ∈ list_of_set s ↔ x ∈ s) →
  wf_board b = true →
  game_end b = Ok None →
  list_solve_point list_of_set b = Ok sp →
  (∀ m l, sp ≠ Some (m :: l)) →
  ∃ flag move sboard',
    solve list_of_set b sboard = Ok (flag, move, b, sboard') ∧
    (move = NoMove →
     (∀ p, p ∈ get_empty_points b →
           ∃ v, search_value list_of_set b p = Ok v ∧
                (v <= best_move_score sboard')%Q) ∧
     match best_move sboard' with
     | Some m => m ∈ get_empty_points b ∧
                 search_value list_of_set b m = Ok (best_move_score sboard')
     | None => best_move_score sboard' = (- INFINITY)%Q
     end).
Proof.
  intros Hspec Hwf He Hsp Hnone.
  destruct (solve_moves_spec list_of_set Hspec b Hwf
              (generate_legal_moves_gomoku b)
              (with_best sboard (- INFINITY)%Q None))
    as (found & sboard' & Hloop & _); [done|].
  assert (solve list_of_set b sboard
          = Ok (match found with
                | Some m => (Flag true, Point m)
                | None => (Flag false, NoMove)
                end, b, sboard')) as Hsolve.
  { unfold solve. rewrite He, Hsp. cbn [rbind].
    destruct sp as [[|m l]|]; [| by destruct (Hnone m l) |];
      rewrite Hloop; cbn [rbind]; by destruct found. }
  destruct found as [m|].
  { exists (Flag true), (Point m), sboard'. by split. }
  exists (Flag false), NoMove, sboard'. split; [done|]. intros _.
  destruct (solve_moves_best list_of_set Hspec b Hwf _ _ _ _
              ltac:(done) Hloop) as (Hall & _ & Hbest).
  split; [done|].
  destruct Hbest as [[-> ->] | (m & Hin & -> & Hv)]; done.
Qed.

Lemma solve_fallback_move_witness :
  ∃ flag move sboard',
    solve elements quiet_end quiet_end = Ok (flag, move, quiet_end, sboard') ∧
    (move = NoMove →
     (∀ p, p ∈ get_empty_points quiet_end →
           ∃ v, search_value elements quiet_end p = Ok v ∧
                (v <= best_move_score sboard')%Q) ∧
     match best_move sboard' with
     | Some m => m ∈ get_empty_points quiet_end ∧
                 search_value elements quiet_end m
                 = Ok (best_move_score sboard')
     | None => best_move_score sboard' = (- INFINITY)%Q
     end).
Proof.
  apply (solve_fallback_move elements quiet_end quiet_end None).
  - intros s x. apply elem_of_elements.
  - reflexivity.
  - vm_compute. reflexivity.
  - vm_compute. reflexivity.
  - done.
Defined.

(** ** get_pattern_moves and list_solve_point *)

Ltac pm_tier_cases i Hi :=
  destruct i as [|[|[|[|i]]]]; simpl in Hi; [..|done]; injection Hi as <-.

Lemma pm_tables_keys i table w l :
  pattern_moves_patternList !! i = Some table → table !! w = Some l →
  (String.length w ≤ 9)%nat ∧
  (∃ ch w', w = String ch w') ∧
  (∀ j t', j ≠ i → pattern_moves_patternList !! j = Some t' →
           t' !! w = None).
Proof.
  intros Hi Hw. pm_tier_cases i Hi; table_cases Hw;
    (split; [simpl; lia|]); (split; [by eexists _, _|]);
    intros j t' Hne Hj; pm_tier_cases j Hj; (done || by vm_compute).
Qed.

Lemma pm_table_lookup i w (l : list Z) :
  pm_table i !! w = Some l →
  ∃ table, pattern_moves_patternList !! i = Some table ∧ table !! w = Some l.
Proof.
  unfold pm_table. destruct (pattern_moves_patternList !! i) as [table|]; simpl.
  - eauto.
  - by rewrite lookup_empty.
Qed.

Lemma elem_of_py_range_1 (n x : Z) :
  x ∈ py_range 0 n 1 ↔ 0 ≤ x < n.
Proof.
  rewrite py_range_progression, elem_of_progression.
  replace ((n - 0 + 1 - 1) / 1) with n by (rewrite Z.div_1_r; lia).
  split.
  - intros (k & Hk & ->). lia.
  - intros Hx. exists (Z.to_nat x). lia.
Qed.

(** The four sets of [get_pattern_moves] after the scan. *)
Lemma pattern_moveSet_spec b :
  ∃ t0 t1 t2 t3,
    scan_points b (py_range 0 (len_board b) 1) [∅; ∅; ∅; ∅]
                pattern_moves_patternList = Ok [t0; t1; t2; t3] ∧
    ∀ i x, in_tier [t0; t1; t2; t3] i x ↔ ((i < 4)%nat ∧ pm_move b i x).
Proof.
  destruct (scan_points_spec b pattern_moves_patternList
              (py_range 0 (len_board b) 1) [∅; ∅; ∅; ∅])
    as (ms & -> & Hlen & Hin).
  destruct ms as [|t0 [|t1 [|t2 [|t3 [|]]]]]; try done.
  exists t0, t1, t2, t3. split; [done|].
  intros i x. rewrite Hin. simpl. split.
  - intros [(s & Hs & Hx) | (Hi & s & dir & Hs & Hdir & Hwm)].
    + destruct i as [|[|[|[|i]]]]; simpl in Hs; try done;
        injection Hs as <-; by apply not_elem_of_empty in Hx.
    + split; [done|].
      destruct Hwm as (w & table & l & dis & Hsp & _ & Hi' & Hw & _ & Hd & ->).
      exists s, dir, w, l, dis. unfold pm_table. rewrite Hi'. done.
  - intros [Hi (s & dir & w & l & dis & Hdir & Hsp & Hw & Hd & ->)].
    right. split; [done|].
    apply pm_table_lookup in Hw as (table & Hi' & Hw).
    destruct (pm_tables_keys i table w l Hi' Hw)
      as (Hlen9 & (ch & w' & ->) & Hdisj).
    exists s, dir. split; [|split; [done|]].
    + destruct Hsp as (Hr & _). by apply elem_of_py_range_1.
    + exists (String ch w'), table, l, dis. split_all.
      intros j' t' Hlt Hj'. apply (Hdisj j'); [lia|done].
Qed.

Lemma first_nonempty_at_spec (ms : list (gset Z)) : ∀ k,
  match first_nonempty_at k ms with
  | None => ∀ i x, ¬ in_tier ms i x
  | Some (i, s) =>
      ∃ j : nat, i = k + Z.of_nat j ∧ ms !! j = Some s ∧ s ≠ ∅ ∧
                 ∀ j' x, (j' < j)%nat → ¬ in_tier ms j' x
  end.
Proof.
  induction ms as [|t ms IH]; intros k; simpl.
  - intros i x (s & Hs & _). done.
  - case_bool_decide as Ht.
    + specialize (IH (k + 1)).
      destruct (first_nonempty_at (k + 1) ms) as [[i s]|].
      * destruct IH as (j & -> & Hj & Hne & Hbefore). exists (S j).
        split; [lia|]. split; [done|]. split; [done|].
        intros [|j'] x Hlt (s' & Hs' & Hx); simpl in Hs'.
        -- injection Hs' as <-. subst t. by apply not_elem_of_empty in Hx.
        -- apply (Hbefore j' x); [lia|]. by exists s'.
      * intros [|i] x (s' & Hs' & Hx); simpl in Hs'.
        -- injection Hs' as <-. subst t. by apply not_elem_of_empty in Hx.
        -- apply (IH i x). by exists s'.
    + exists 0%nat. split; [lia|]. split; [done|]. split; [done|].
      intros j x Hlt; lia.
Qed.

(** The first three tables are those of [list_solve_point]; the last has
    every key and distance of the other, and its four longer keys hold one
    of the shorter. *)
Lemma pm_move_tier_move b i x :
  (i < 3)%nat → pm_move b i x ↔ tier_move b i x.
Proof.
  intros Hi. unfold pm_move, tier_move.
  assert (pm_table i = tier_table i) as ->; [|done].
  destruct i as [|[|[|i]]]; (reflexivity || lia).
Qed.

Lemma tier_move_pm_move b x : tier_move b 3 x → pm_move b 3 x.
Proof.
  intros (s & dir & w & l & dis & Hdir & Hsp & Hw & Hd & ->).
  unfold tier_table in Hw. simpl in Hw. table_cases Hw; mem_cases Hd;
    eexists s, dir, _, _, _; (split; [done|]); (split; [exact Hsp|]);
    (split; [by vm_compute|]);
    (split; [|reflexivity]);
    repeat (first [by left | right]).
Qed.

Lemma pm_move_some_tier_move b x :
  pm_move b 3 x → ∃ x', tier_move b 3 x'.
Proof.
  intros (s & dir & w & l & dis & Hdir & Hsp & Hw & Hd & ->).
  unfold pm_table in Hw. simpl in Hw. table_cases Hw.
  - eexists. exists s, dir, ".ooo.."%string, [1; 5], 1. split_all. by left.
  - eexists. exists s, dir, "..ooo."%string, [0; 4], 0. split_all. by left.
  - eexists. exists s, dir, ".oo.o."%string, [2], 2. split_all. by left.
  - eexists. exists s, dir, ".o.oo."%string, [3], 3. split_all. by left.
  - destruct Hsp as (_ & _ & Hsp).
    eexists. exists (s + step_of b dir), dir, ".ooo.."%string, [1; 5], 1.
    split_all. by left.
  - apply (spelled_app _ _ _ "..ooo."%string _ "B"%string) in Hsp as [Hsp _].
    eexists. exists s, dir, "..ooo."%string, [0; 4], 0. split_all. by left.
  - destruct Hsp as (_ & _ & Hsp).
    eexists. exists (s + step_of b dir), dir, ".ooo.."%string, [1; 5], 1.
    split_all. by left.
  - apply (spelled_app _ _ _ "..ooo."%string _ "x"%string) in Hsp as [Hsp _].
    eexists. exists s, dir, "..ooo."%string, [0; 4], 0. split_all. by left.
Qed.

Lemma pm_move_nonempty b i :
  (i < 4)%nat → (∃ x, pm_move b i x) ↔ (∃ x, tier_move b i x).
Proof.
  intros Hi. destruct (decide (i < 3)%nat) as [H3|H3].
  - split; intros [x Hx]; exists x; by apply (pm_move_tier_move b i x).
  - assert (i = 3%nat) as -> by lia. split; intros [x Hx].
    + by apply pm_move_some_tier_move in Hx.
    + exists x. by apply tier_move_pm_move.
Qed.

Lemma pm_tables_dot i table w l dis :
  pattern_moves_patternList !! i = Some table → table !! w = Some l →
  dis ∈ l →
  ∃ k, String.get k w = Some "."%char ∧
       Z.of_nat k = Z.of_nat (String.length w) - 1 - dis.
Proof.
  intros Hi Hw Hd. pm_tier_cases i Hi; table_cases Hw;
    repeat (apply elem_of_cons in Hd as [-> | Hd]);
    try (by apply elem_of_nil in Hd);
    match goal with
    | |- ∃ k, _ ∧ _ = ?n =>
        let n' := eval vm_compute in (Z.to_nat n) in
        exists n'; split; reflexivity
    end.
Qed.

Lemma pm_move_empty b i x : pm_move b i x → x ∈ get_empty_points b.
Proof.
  intros (s & dir & w & l & dis & Hdir & Hsp & Hw & Hd & ->).
  apply pm_table_lookup in Hw as (table & Hi & Hw).
  destruct (pm_tables_dot i table w l dis Hi Hw Hd) as (k & Hk & <-).
  destruct (spelled_get _ _ _ _ _ _ _ Hsp Hk) as (Hr & c & Hc & Hp).
  apply empty_point_spec. split; [done|]. by apply piece_of_dot in Hp as ->.
Qed.

(** X11. [get_pattern_moves] and [list_solve_point] rank the same tier
    first: one returns None exactly when the other does, and otherwise the
    index [i] that [get_pattern_moves] returns is the tier whose points
    [list_solve_point] lists. Its list holds every point of that list,
    and no other point when [i < 3]; all its points are EMPTY points. *)
Theorem pattern_moves_agree (list_of_set : gset Z → list Z)
    (b : SimpleGoBoard) :
  (∀ s x, x ∈ list_of_set s ↔ x ∈ s) →
  is_black_white (current_player b) = true →
  ∃ r r',
    get_pattern_moves list_of_set b = Ok r ∧
    list_solve_point list_of_set b = Ok r' ∧
    match r, r' with
    | None, None => True
    | Some (i, l), Some l' =>
        0 ≤ i ≤ 3 ∧
        (∀ x, x ∈ l' ↔ tier_move b (Z.to_nat i) x) ∧
        (∀ x, x ∈ l' → x ∈ l) ∧
        (i < 3 → ∀ x, x ∈ l → x ∈ l') ∧
        (∀ x, x ∈ l → x ∈ get_empty_points b)
    | _, _ => False
    end.
Proof.
  intros Hspec Hcp. unfold get_pattern_moves.
  destruct (pattern_moveSet_spec b) as (t0 & t1 & t2 & t3 & -> & Hin).
  cbn [rbind].
  destruct (list_solve_point_tiers list_of_set b Hspec Hcp)
    as (r' & -> & Htier).
  eexists _, r'. split; [reflexivity|]. split; [reflexivity|].
  pose proof (first_nonempty_at_spec [t0; t1; t2; t3] 0) as Hfirst.
  destruct (first_nonempty_at 0 [t0; t1; t2; t3]) as [[i s]|]; simpl.
  - destruct Hfirst as (j & -> & Hj & Hne & Hbefore).
    assert (j < 4)%nat as Hj4
      by (apply lookup_lt_Some in Hj; simpl in Hj; lia).
    assert (∀ x, x ∈ s ↔ pm_move b j x) as Hs.
    { intros x. split.
      - intros Hx. apply Hin. by exists s.
      - intros Hx. destruct (proj2 (Hin j x) (conj Hj4 Hx)) as (s' & Hs' & Hx').
        congruence. }
    apply set_choose_L in Hne as [y Hy].
    destruct (proj1 (pm_move_nonempty b j Hj4)) as [y' Hy'];
      [exists y; by apply Hs|].
    destruct r' as [l'|]; [|by destruct (Htier j y')].
    destruct Htier as (i' & Hi' & [z Hz] & Hmem & Hnone).
    assert (i' = j) as ->.
    { destruct (Nat.lt_trichotomy i' j) as [Hlt | [-> | Hgt]]; [|done|].
      - destruct (proj2 (pm_move_nonempty b i' Hi')) as [z' Hz'];
          [exists z; by apply Hmem|].
        destruct (Hbefore i' z' Hlt). apply Hin. done.
      - by destruct (Hnone j y' Hgt). }
    rewrite Z.add_0_l, Nat2Z.id. split; [lia|]. split; [done|].
    split; [|split].
    + intros x Hx. apply Hspec, Hs. apply Hmem in Hx.
      destruct (decide (j < 3)%nat) as [H3|H3].
      * by apply pm_move_tier_move.
      * assert (j = 3%nat) as -> by lia. by apply tier_move_pm_move.
    + intros H3 x Hx. apply Hmem, pm_move_tier_move; [lia|].
      by apply Hs, Hspec.
    + intros x Hx. apply (pm_move_empty b j). by apply Hs, Hspec.
  - destruct r' as [l'|]; [|done].
    destruct Htier as (i' & Hi' & [z Hz] & Hmem & _).
    destruct (proj2 (pm_move_nonempty b i' Hi')) as [z' Hz'];
      [exists z; by apply Hmem|].
    destruct (Hfirst i' z'). by apply Hin.
Qed.

Lemma pattern_moves_agree_witness :
  ∃ r r',
    get_pattern_moves elements white_four = Ok r ∧
    list_solve_point elements white_four = Ok r' ∧
    match r, r' with
    | None, None => True
    | Some (i, l), Some l' =>
        0 ≤ i ≤ 3 ∧
        (∀ x, x ∈ l' ↔ tier_move white_four (Z.to_nat i) x) ∧
        (∀ x, x ∈ l' → x ∈ l) ∧
        (i < 3 → ∀ x, x ∈ l → x ∈ l') ∧
        (∀ x, x ∈ l → x ∈ get_empty_points white_four)
    | _, _ => False
    end.
Proof.
  apply (pattern_moves_agree elements white_four).
  - intros s x. apply elem_of_elements.
  - reflexivity.
Defined.


(** ** The opponent's winning points *)

Lemma piece_of_swap c cp ch :
  stone cp → piece_of c cp = String ch EmptyString →
  piece_of c (opponent cp) = String (swap_char ch) EmptyString.
Proof.
  intros Hcp Hp. destruct c, cp; try done; vm_compute in Hp;
    injection Hp as <-; reflexivity.
Qed.

Lemma spelled_swap b cp c' d w : ∀ s,
  stone cp → spelled b cp s d w →
  spelled (with_player b c') (opponent cp) s d (swap_sides w).
Proof.
  induction w as [|ch w IH]; intros s Hcp; [done|]. cbn [spelled swap_sides].
  intros (Hr & (c & Hc & Hp) & Hrest).
  split; [done|]. split; [|by apply IH].
  exists c. split; [done|]. by apply piece_of_swap.
Qed.

Lemma spelled_with_player b cp c' d w : ∀ s,
  spelled (with_player b c') cp s d w → spelled b cp s d w.
Proof.
  induction w as [|ch w IH]; intros s; [done|]. cbn [spelled].
  intros (Hr & Hc & Hrest). split; [done|]. split; [done|]. by apply IH.
Qed.

Lemma winDict_swap w own :
  winDict !! w = Some own →
  winDict !! swap_sides w = Some (negb own) ∧
  index_dot (swap_sides w) = index_dot w.
Proof.
  intros H. unfold winDict, dict_of in H. simpl in H.
  repeat (apply lookup_insert_Some in H as [[<- <-] | [_ H]]);
    [..|by rewrite lookup_empty in H]; by vm_compute.
Qed.

Lemma hit5_other_side b own x :
  stone (current_player b) →
  hit5 b own x → hit5 (other_side b) (negb own) x.
Proof.
  intros Hcp (s & st & w & idx & Hst & Hsp & Hw & Hidx & ->).
  destruct (winDict_swap w own Hw) as [Hw' Hidx'].
  exists s, st, (swap_sides w), idx. split; [done|]. split.
  - by apply spelled_swap.
  - split; [done|]. split; [by rewrite Hidx'|done].
Qed.

Lemma hit5_other_side_iff b x :
  stone (current_player b) →
  hit5 b false x ↔ hit5 (other_side b) true x.
Proof.
  intros Hcp. split; [apply (hit5_other_side b false x Hcp)|].
  intros H. apply hit5_other_side in H.
  2:{ unfold stone in *. simpl. by destruct (current_player b). }
  destruct H as (s & st & w & idx & Hst & Hsp & Hw & Hidx & ->).
  exists s, st, w, idx. split; [done|]. split; [|done].
  unfold other_side in Hsp. simpl in Hsp.
  rewrite opponent_involutive in Hsp.
  by apply spelled_with_player, spelled_with_player in Hsp.
Qed.

Lemma other_side_wf b : wf_board b = true → wf_board (other_side b) = true.
Proof.
  unfold wf_board, other_side. simpl. rewrite !andb_true_iff.
  intros [H Hcp]. split; [done|]. by destruct (current_player b).
Qed.

(** X12. On a well-formed board, every point of the second list of
    [winDetection] (the opponent's wins) is a point where the opponent
    would make five by playing; and when the player to move has no
    immediate win, the list holds every such point. *)
Theorem winDetection_their_wins (b : SimpleGoBoard)
    (myWins theirWins my2mWins their2mWins : list Z) (x : Z) :
  wf_board b = true →
  winDetection b = Ok (myWins, theirWins, my2mWins, their2mWins) →
  (x ∈ theirWins → immediate_win (other_side b) x) ∧
  ((∀ y, ¬ immediate_win b y) →
   immediate_win (other_side b) x → x ∈ theirWins).
Proof.
  intros Hwf Hwin. destruct (wf_board_inv b Hwf) as (_ & _ & Hcp & _).
  pose proof (other_side_wf b Hwf) as Hwf'.
  destruct (winDetection_spec b Hwf)
    as [(w & Hw & Hhit) | (_ & T & M2 & T2 & Hr & HT & _)].
  - rewrite Hwin in Hw. injection Hw as -> -> -> ->. split.
    + by intros ?%elem_of_nil.
    + intros Hno. destruct (Hno w). by apply hit5_immediate_win.
  - rewrite Hwin in Hr. injection Hr as -> -> -> ->. split.
    + intros Hx. apply hit5_immediate_win; [done|].
      by apply hit5_other_side_iff, HT.
    + intros _ Hx. apply HT, hit5_other_side_iff; [done|].
      by apply hit5_immediate_win.
Qed.

Lemma winDetection_their_wins_witness :
  (29 ∈ [29] → immediate_win (other_side white_four) 29) ∧
  ((∀ y, ¬ immediate_win white_four y) →
   immediate_win (other_side white_four) 29 → 29 ∈ [29]).
Proof.
  apply (winDetection_their_wins white_four [] [29] [] [] 29).
  - reflexivity.
  - vm_compute. reflexivity.
Defined.

(** ** C8: a winning point counted twice *)

(** C8 fails on [dup_threat]. Neither side has a two-move win, BLACK to
    move has no winning point, and WHITE has one, (3,2): the claim has
    [negaAB] play that block and nothing else, and the forced block of the
    code, run on this board, gives the value 0 and leaves the cells and the
    player as they were. But (3,2) completes two
    windows of five, W.WWW and .WWWW; [checkWin] enters the point once for
    each window, and with two entries in [theirWins] [negaAB] returns -1,
    a lost position, with the board untouched and no move played. *)
Theorem negaAB_duplicate_threat :
  wf_board dup_threat = true ∧
  get_empty_points dup_threat ≠ [] ∧
  (∀ x, ¬ immediate_win dup_threat x) ∧
  (∀ x, immediate_win (other_side dup_threat) x ↔ x = pt 3 2) ∧
  winDetection dup_threat = Ok ([], [pt 3 2; pt 3 2], [], []) ∧
  negaAB (- 1) 1 2 None dup_threat
  = Ok (((- 1)%Q, Some (pt 3 2)), dup_threat) ∧
  ∃ b', negaAB_forced negaAB (- 1) 1 2 (pt 3 2) dup_threat
        = Ok ((0%Q, Some (pt 3 2)), b') ∧
        same_position b' dup_threat.
Proof.
  assert (wf_board dup_threat = true) as Hwf by reflexivity.
  assert (winDetection dup_threat = Ok ([], [pt 3 2; pt 3 2], [], []))
    as Hwin by (vm_compute; reflexivity).
  destruct (winDetection_spec dup_threat Hwf)
    as [(x & Hx & _) | (Hnone & T & M2 & T2 & Hr & HT & _)];
    [by rewrite Hwin in Hx|].
  rewrite Hwin in Hr. injection Hr as <- <- <-.
  split; [done|]. split; [by vm_compute|]. split; [|split].
  - intros x Hx%hit5_immediate_win; [|done]. by apply (Hnone x).
  - intros x.
    rewrite <- (hit5_immediate_win (other_side dup_threat))
      by (by apply other_side_wf).
    rewrite <- hit5_other_side_iff by reflexivity.
    rewrite <- HT, !elem_of_cons. split; [|by left].
    by intros [->|[->|?%elem_of_nil]].
  - split; [done|]. split; [vm_compute; reflexivity|].
    eexists. split; [vm_compute; reflexivity|].
    vm_compute. by split; [|split].
Qed.

(** ** The two-move wins are threats *)

Lemma get_color_after_move b x y :
  0 ≤ x < len_board b → 0 ≤ y < len_board b →
  get_color (after_move b x) y
  = if decide (y = x) then Ok (current_player b) else get_color b y.
Proof.
  intros Hx Hy. unfold after_move. rewrite get_color_with_player.
  case_decide as Hxy.
  - subst y. by apply get_color_place_eq.
  - apply get_color_place_ne; [lia|done|done].
Qed.

Lemma len_board_after_move b x : len_board (after_move b x) = len_board b.
Proof. unfold after_move. by rewrite len_board_with_player, len_board_place. Qed.

(** The keys of [threatDict] for the player to move: three stones, the
    empty cell [5 - back] among them or beside them, and an empty cell at
    each end. *)
Lemma own_threat_chars w back :
  threatDict !! w = Some (true, back) →
  1 ≤ 5 - back ≤ 4 ∧
  ∀ j : nat, (j < 6)%nat →
    String.get j w
    = Some (if decide (j = 0%nat ∨ j = 5%nat ∨ Z.of_nat j = 5 - back)
            then "."%char else "x"%char).
Proof.
  intros Hw. unfold threatDict, dict_of in Hw. simpl in Hw.
  repeat (apply lookup_insert_Some in Hw as [[<- Hv] | [_ Hw]]);
    [..|by rewrite lookup_empty in Hw]; try done;
    injection Hv as <-; (split; [lia|]);
    intros [|[|[|[|[|[|j]]]]]] Hj; try lia; reflexivity.
Qed.

Lemma step_inj (s st a c : Z) : 0 < st → s + a * st = s + c * st → a = c.
Proof. intros Hst H. apply (Z.mul_cancel_r _ _ st); lia. Qed.

Lemma own_threat_real b x q :
  wf_board b = true → hit6 b true x →
  q ∈ get_empty_points (after_move b x) →
  x ∈ get_empty_points b ∧
  ∃ p, immediate_win (after_move (after_move b x) q) p.
Proof.
  intros Hwf (s & st & w & back & Hst & Hsp & Hw & ->) Hq.
  destruct (wf_board_inv b Hwf) as (_ & _ & Hcp & _).
  set (cp := current_player b) in *.
  destruct (own_threat_chars w back Hw) as (Hidx & Hchars).
  pose proof (shifts_range b st Hwf Hst) as Hst0.
  set (idx := 5 - back) in *.
  assert (∀ j : nat, (j < 6)%nat →
            0 ≤ s + Z.of_nat j * st < len_board b ∧
            get_color b (s + Z.of_nat j * st)
            = Ok (if decide (j = 0%nat ∨ j = 5%nat ∨ Z.of_nat j = idx)
                  then EMPTY else cp)) as Hcells.
  { intros j Hj.
    destruct (spelled_get _ _ _ _ _ _ _ Hsp (Hchars j Hj))
      as (Hr & c & Hc & Hp).
    split; [done|]. rewrite Hc. f_equal. case_decide.
    - by apply piece_of_dot in Hp.
    - by apply piece_of_x in Hp. }
  destruct (Hcells (Z.to_nat idx) ltac:(lia)) as [Hx Hxe].
  rewrite Z2Nat.id in Hx, Hxe by lia.
  rewrite decide_True in Hxe by (right; right; lia).
  set (x := s + idx * st) in *.
  assert (x ∈ get_empty_points b) as Hxin by (by apply empty_point_spec).
  split; [done|].
  destruct (play_after_move b x Hwf Hxin) as (_ & _ & Hwf1).
  set (b1 := after_move b x) in *.
  destruct (play_after_move b1 q Hwf1 Hq) as (_ & _ & Hwf2).
  set (b2 := after_move b1 q) in *.
  apply empty_point_spec in Hq as [Hqr Hqe].
  unfold b1 in Hqr, Hqe. rewrite len_board_after_move in Hqr.
  rewrite get_color_after_move in Hqe by done.
  (* the cells of the window after the two moves *)
  assert (∀ j : nat, (j < 6)%nat → s + Z.of_nat j * st ≠ q →
            get_color b2 (s + Z.of_nat j * st)
            = Ok (if decide (j = 0%nat ∨ j = 5%nat) then EMPTY else cp))
    as Hafter.
  { intros j Hj Hne. destruct (Hcells j Hj) as [Hr Hc].
    unfold b2. rewrite get_color_after_move
      by (unfold b1; rewrite ?len_board_after_move; done).
    rewrite decide_False by done.
    unfold b1. rewrite get_color_after_move by done.
    destruct (decide (s + Z.of_nat j * st = x)) as [Hjx|Hjx].
    - assert (Z.of_nat j = idx) as Hji
        by (apply (step_inj s st); [lia|exact Hjx]).
      rewrite decide_False; [done|]. lia.
    - rewrite Hc. f_equal.
      assert (Z.of_nat j ≠ idx) as Hji by (intros Hji; by rewrite Hji in Hjx).
      destruct (decide (j = 0%nat ∨ j = 5%nat)) as [H05|H05].
      + rewrite decide_True; [done|tauto].
      + rewrite decide_False; [done|tauto]. }
  assert (∀ j : nat, (1 ≤ j ≤ 4)%nat → s + Z.of_nat j * st ≠ q) as Hstones.
  { intros j Hj Hjq. destruct (Hcells j ltac:(lia)) as [_ Hc].
    rewrite <- Hjq in Hqe. unfold stone in Hcp.
    destruct (decide (s + Z.of_nat j * st = x)) as [Hjx|Hjx].
    - injection Hqe as Hqe. change (cp = EMPTY) in Hqe.
      by rewrite Hqe in Hcp.
    - rewrite Hc in Hqe.
      destruct (decide (j = 0%nat ∨ j = 5%nat ∨ Z.of_nat j = idx))
        as [[H0|[H5|Hji]]|Hno]; [lia|lia| |].
      + apply Hjx. unfold x. by rewrite Hji.
      + injection Hqe as Hqe. by rewrite Hqe in Hcp. }
  assert (current_player b2 = cp) as Hcp2.
  { unfold b2, b1, after_move. simpl. apply opponent_involutive. }
  assert (len_board b2 = len_board b) as Hlen2
    by (unfold b2, b1; by rewrite !len_board_after_move).
  (* the end of the window that the opponent left open *)
  destruct (decide (q = s)) as [Hqs|Hqs].
  - exists (s + 5 * st). apply hit5_immediate_win; [done|].
    exists (s + st), st, "xxxx."%string, 4.
    split; [done|]. split; [|split; [done|split; [done|lia]]].
    apply spelled_intro. intros j Hj. simpl in Hj.
    replace (s + st + Z.of_nat j * st) with (s + Z.of_nat (S j) * st) by lia.
    destruct (Hcells (S j) ltac:(lia)) as [Hr _].
    split; [by rewrite Hlen2|]. rewrite Hcp2.
    destruct (decide (j = 4%nat)) as [->|Hj4].
    + exists "."%char, EMPTY. split; [done|]. split; [|done].
      rewrite Hafter; [done|lia|]. simpl. lia.
    + exists "x"%char, cp. split.
      { by destruct j as [|[|[|[|j]]]]; try lia. }
      split; [|by apply piece_of_x].
      rewrite Hafter; [|lia|apply Hstones; lia].
      rewrite decide_False; [done|lia].
  - exists s. apply hit5_immediate_win; [done|].
    exists s, st, ".xxxx"%string, 0.
    split; [done|]. split; [|split; [done|split; [done|lia]]].
    apply spelled_intro. intros j Hj. simpl in Hj.
    destruct (Hcells j ltac:(lia)) as [Hr _].
    split; [by rewrite Hlen2|]. rewrite Hcp2.
    destruct (decide (j = 0%nat)) as [->|Hj0].
    + exists "."%char, EMPTY. split; [done|]. split; [|done].
      rewrite Hafter; [done|lia|]. simpl. lia.
    + exists "x"%char, cp. split.
      { by destruct j as [|[|[|[|[|j]]]]]; try lia. }
      split; [|by apply piece_of_x].
      rewrite Hafter; [|lia|apply Hstones; lia].
      rewrite decide_False; [done|lia].
Qed.

(** X13. On a well-formed board, every point [x] of the third list of
    [winDetection] (the two-move wins of the player to move) is an EMPTY
    point and a real threat: after the player has played on [x], whatever
    empty point the opponent plays on, the player has an immediate winning
    point. *)
Theorem winDetection_own_threats (b : SimpleGoBoard)
    (myWins theirWins my2mWins their2mWins : list Z) (x q : Z) :
  wf_board b = true →
  winDetection b = Ok (myWins, theirWins, my2mWins, their2mWins) →
  x ∈ my2mWins →
  x ∈ get_empty_points b ∧
  (q ∈ get_empty_points (after_move b x) →
   ∃ p, immediate_win (after_move (after_move b x) q) p).
Proof.
  intros Hwf Hwin Hx.
  assert (hit6 b true x) as Hhit.
  { destruct (winDetection_spec b Hwf)
      as [(w & Hw & _) | (_ & T & M2 & T2 & Hr & _ & HM2 & _)].
    - rewrite Hwin in Hw. injection Hw as -> -> -> ->.
      by apply elem_of_nil in Hx.
    - rewrite Hwin in Hr. injection Hr as -> -> -> ->. by apply HM2. }
  split.
  - apply empty_point_spec, (tier_move_empty b 2), tier2_hit6, Hhit.
  - intros Hq. by destruct (own_threat_real b x q Hwf Hhit Hq).
Qed.

Lemma winDetection_own_threats_witness :
  34 ∈ get_empty_points open_three ∧
  (10 ∈ get_empty_points (after_move open_three 34) →
   ∃ p, immediate_win (after_move (after_move open_three 34) 10) p).
Proof.
  apply (winDetection_own_threats open_three [] [] [34; 38] [] 34 10).
  - reflexivity.
  - vm_compute. reflexivity.
  - by left.
Defined.

(** ** The check of one direction *)

(** X14. At a stone of a well-formed board, along one of the four
    directions, with [nf] stones of its colour following it and [nb]
    preceding it: [_point_direction_check_connect_gomoko] fails its
    assertion [count <= 5] when [nf >= 4] and [nb >= 1] (the first loop
    stops at five and the second counts on), and otherwise returns whether
    [nf + nb >= 4], that is whether the stone lies on five or more. *)
Theorem direction_check_outcome (b : SimpleGoBoard) (p d : Z) (c : color) :
  wf_board b = true → stone c → 0 ≤ p < len_board b →
  get_color b p = Ok c → d ∈ shifts b →
  ∃ nf nb : nat,
    run b c d p nf ∧ run b c (- d) p nb ∧
    _point_direction_check_connect_gomoko b p d
    = (if (4 <=? Z.of_nat nf) && (1 <=? Z.of_nat nb)
       then Raise AssertionError
       else Ok (4 <=? Z.of_nat nf + Z.of_nat nb)) ∧
    (on_line b c p d 5 ↔ 4 ≤ Z.of_nat nf + Z.of_nat nb).
Proof.
  intros Hwf Hc Hp Hg Hd. pose proof (shifts_range b d Hwf Hd) as Hd0.
  destruct (run_exists b c d Hwf Hc ltac:(lia) ltac:(lia) p Hp Hg) as [nf Hf].
  destruct (run_exists b c (- d) Hwf Hc ltac:(lia) ltac:(lia) p Hp Hg)
    as [nb Hb].
  exists nf, nb. split; [done|]. split; [done|]. split.
  - apply (direction_check_runs b p d c nf nb); (done || lia).
  - rewrite (on_line_runs b c p d 5 nf nb Hg Hf Hb). lia.
Qed.

Lemma direction_check_outcome_witness :
  ∃ nf nb : nat,
    run six_in_a_row BLACK 1 10 nf ∧ run six_in_a_row BLACK (- 1) 10 nb ∧
    _point_direction_check_connect_gomoko six_in_a_row 10 1
    = (if (4 <=? Z.of_nat nf) && (1 <=? Z.of_nat nb)
       then Raise AssertionError
       else Ok (4 <=? Z.of_nat nf + Z.of_nat nb)) ∧
    (on_line six_in_a_row BLACK 10 1 5 ↔ 4 ≤ Z.of_nat nf + Z.of_nat nb).
Proof.
  apply (direction_check_outcome six_in_a_row 10 1 BLACK).
  - reflexivity.
  - reflexivity.
  - by vm_compute.
  - reflexivity.
  - by left.
Defined.

(** ** Moves and the empty points *)

Lemma filter_all {A} (P : A → Prop) `{∀ x, Decision (P x)} (l : list A) :
  (∀ x, x ∈ l → P x) → filter P l = l.
Proof.
  induction l as [|a l IH]; intros Hall; [done|].
  rewrite filter_cons_True by (apply Hall; by left).
  f_equal. apply IH. intros x Hx. apply Hall. by right.
Qed.

Lemma where1d_from_insert (f : color → bool) (c : color) (l : list color) :
  f c = false →
  ∀ (k : Z) (i : nat),
    (i < length l)%nat →
    where1d_from k f (<[i := c]> l)
    = filter (λ x, x ≠ k + Z.of_nat i) (where1d_from k f l).
Proof.
  intros Hc. induction l as [|a l IH]; intros k i Hi; simpl in Hi; [lia|].
  assert (∀ k', k < k' → filter (λ x, x ≠ k) (where1d_from k' f l)
                         = where1d_from k' f l) as Hlater.
  { intros k' Hk. apply filter_all.
    intros x Hx. apply where1d_from_spec in Hx. lia. }
  destruct i as [|i]; simpl.
  - rewrite Hc, Z.add_0_r. destruct (f a).
    + rewrite filter_cons_False by (intros H; by apply H).
      symmetry. apply Hlater. lia.
    + symmetry. apply Hlater. lia.
  - rewrite IH by lia.
    replace (k + 1 + Z.of_nat i) with (k + Z.pos (Pos.of_succ_nat i)) by lia.
    destruct (f a); [|done].
    rewrite filter_cons_True by lia. done.
Qed.

(** X15. An accepted move takes exactly the point played out of the empty
    points, the others keeping their order: after [play_move_gomoku] has
    returned True for the cell of index [i], [get_empty_points] is what it
    was without [i]. *)
Theorem play_move_gomoku_empty_points (b b' : SimpleGoBoard) (point : Z)
    (c : color) (i : nat) :
  np_index (len_board b) point = Ok i →
  play_move_gomoku b point c = Ok (true, b') →
  get_empty_points b'
  = filter (λ x, x ≠ Z.of_nat i) (get_empty_points b) ∧
  Z.of_nat i ∈ get_empty_points b.
Proof.
  intros Hi. unfold play_move_gomoku.
  destruct (is_black_white c) eqn:Hc; [|done]. simpl.
  unfold get_color, set_color. rewrite Hi. cbn [rbind].
  destruct (board b !! i) as [cur|] eqn:Hcur; [|done].
  destruct cur; try done. simpl. intros [= <-].
  unfold get_empty_points, where1d. simpl. split.
  - rewrite where1d_from_insert.
    + done.
    + unfold color_eqb. apply bool_decide_eq_false_2. intros <-. done.
    + by apply lookup_lt_Some in Hcur.
  - apply where1d_from_spec. split.
    + apply lookup_lt_Some in Hcur. lia.
    + exists EMPTY. split; [|done].
      replace (Z.to_nat (Z.of_nat i - 0)) with i by lia. done.
Qed.

Lemma play_move_gomoku_empty_points_witness :
  ∃ b', play_move_gomoku (reset 7) 9 BLACK = Ok (true, b') ∧
        get_empty_points b'
        = filter (λ x, x ≠ Z.of_nat 9) (get_empty_points (reset 7)) ∧
        Z.of_nat 9 ∈ get_empty_points (reset 7).
Proof.
  eexists. split; [vm_compute; reflexivity|].
  apply (play_move_gomoku_empty_points (reset 7) _ 9 BLACK 9).
  - reflexivity.
  - vm_compute. reflexivity.
Defined.

(** ** Sequences of moves *)

Lemma undo_all_app b moves1 : ∀ moves2 b1,
  undo_all b moves1 = Ok b1 →
  undo_all b (moves1 ++ moves2) = undo_all b1 moves2.
Proof.
  revert b. induction moves1 as [|m moves1 IH]; intros b moves2 b1; simpl.
  { by intros [= <-]. }
  intros (b0 & -> & Hrest)%rbind_Ok. cbn [rbind]. by apply IH.
Qed.

(** X16. Moves played in turn on distinct empty points all succeed
    ([play_move_gomoku] returns True for each of them), and taken back in
    the opposite order, one [undo] each, they give the board state the
    sequence started from. *)
Theorem play_all_undo_all (moves : list Z) : ∀ b : SimpleGoBoard,
  is_black_white (current_player b) = true →
  NoDup moves →
  (∀ m, m ∈ moves → m ∈ get_empty_points b) →
  ∃ b', play_all b moves = Ok (replicate (length moves) true, b') ∧
        undo_all b' (rev moves) = Ok b.
Proof.
  induction moves as [|m moves IH]; intros b Hcp Hnd Hempty.
  { by exists b. }
  apply NoDup_cons in Hnd as [Hm Hnd].
  destruct (proj1 (empty_point_spec b m) (Hempty m ltac:(by left)))
    as [Hr Hg].
  destruct (play_undo b m (Z.to_nat m)) as (b1 & Hplay & Hundo).
  - done.
  - by apply np_index_in_range.
  - rewrite get_color_in_range in Hg by done.
    by destruct (board b !! Z.to_nat m) as [c|]; [injection Hg as ->|].
  - pose proof Hplay as Hb1.
    rewrite play_move_place in Hb1 by done. injection Hb1 as Hb1.
    destruct (IH b1) as (b' & Hall & Hback).
    + rewrite <- Hb1. simpl. by destruct (current_player b).
    + done.
    + intros m' Hm'.
      destruct (proj1 (empty_point_spec b m') (Hempty m' ltac:(by right)))
        as [Hr' Hg'].
      apply empty_point_spec. rewrite <- Hb1.
      rewrite len_board_with_player, len_board_place. split; [done|].
      rewrite get_color_with_player, get_color_place_ne; [done|lia|done|].
      intros ->. done.
    + exists b'. cbn [play_all length replicate]. rewrite Hplay.
      cbn [rbind]. rewrite Hall. cbn [rbind]. split; [done|].
      cbn [rev]. rewrite (undo_all_app _ _ _ _ Hback). simpl.
      by rewrite Hundo.
Qed.

Lemma play_all_undo_all_witness :
  ∃ b', play_all (reset 7) [9; 10; 20]
        = Ok (replicate (length [9; 10; 20]) true, b') ∧
        undo_all b' (rev [9; 10; 20]) = Ok (reset 7).
Proof.
  apply (play_all_undo_all [9; 10; 20] (reset 7)).
  - reflexivity.
  - apply (bool_decide_unpack (NoDup [9; 10; 20])). reflexivity.
  - intros m Hm. apply empty_point_spec.
    repeat (apply elem_of_cons in Hm as [-> | Hm]);
      [by vm_compute..|by apply elem_of_nil in Hm].
Defined.

(** ** The opponent's threats *)

Lemma threatDict_swap w own back :
  threatDict !! w = Some (own, back) →
  threatDict !! swap_sides w = Some (negb own, back).
Proof.
  intros H. unfold threatDict, dict_of in H. simpl in H.
  repeat (apply lookup_insert_Some in H as [[<- [= <- <-]] | [_ H]]);
    [..|by rewrite lookup_empty in H]; by vm_compute.
Qed.

Lemma hit6_other_side b own x :
  stone (current_player b) →
  hit6 b own x → hit6 (other_side b) (negb own) x.
Proof.
  intros Hcp (s & st & w & back & Hst & Hsp & Hw & ->).
  exists s, st, (swap_sides w), back. split; [done|]. split.
  - by apply spelled_swap.
  - split; [by apply threatDict_swap|done].
Qed.

(** X24. On a well-formed board, every point [x] of the fourth list of
    [winDetection] (the two-move wins of the opponent) is an EMPTY point
    and a real threat of the opponent: were the opponent to play on [x],
    then whatever empty point the answer takes, the opponent has an
    immediate winning point. *)
Theorem winDetection_their_threats (b : SimpleGoBoard)
    (myWins theirWins my2mWins their2mWins : list Z) (x q : Z) :
  wf_board b = true →
  winDetection b = Ok (myWins, theirWins, my2mWins, their2mWins) →
  x ∈ their2mWins →
  x ∈ get_empty_points b ∧
  (q ∈ get_empty_points (after_move (other_side b) x) →
   ∃ p, immediate_win (after_move (after_move (other_side b) x) q) p).
Proof.
  intros Hwf Hwin Hx. destruct (wf_board_inv b Hwf) as (_ & _ & Hcp & _).
  assert (hit6 b false x) as Hhit.
  { destruct (winDetection_spec b Hwf)
      as [(w & Hw & _) | (_ & T & M2 & T2 & Hr & _ & _ & HT2)].
    - rewrite Hwin in Hw. injection Hw as -> -> -> ->.
      by apply elem_of_nil in Hx.
    - rewrite Hwin in Hr. injection Hr as -> -> -> ->. by apply HT2. }
  apply (hit6_other_side b false x Hcp) in Hhit.
  pose proof (other_side_wf b Hwf) as Hwf'.
  split.
  - apply (empty_point_spec (other_side b)),
      (tier_move_empty (other_side b) 2), tier2_hit6, Hhit.
  - intros Hq. by destruct (own_threat_real (other_side b) x q Hwf' Hhit Hq).
Qed.

Lemma winDetection_their_threats_witness :
  34 ∈ get_empty_points (other_side open_three) ∧
  (10 ∈ get_empty_points (after_move (other_side (other_side open_three)) 34) →
   ∃ p, immediate_win
          (after_move (after_move (other_side (other_side open_three)) 34) 10)
          p).
Proof.
  apply (winDetection_their_threats (other_side open_three)
           [] [] [] [34; 38] 34 10).
  - reflexivity.
  - vm_compute. reflexivity.
  - by left.
Defined.

(** * The Go rules *)

(** ** Arrays *)

Lemma arr_get_in_range {A} (a : list A) (p : Z) (x : A) :
  0 ≤ p → a !! Z.to_nat p = Some x → arr_get a p = Ok x.
Proof.
  intros Hp Hx. unfold arr_get. pose proof (lookup_lt_Some _ _ _ Hx).
  rewrite np_index_in_range by lia. simpl. by rewrite Hx.
Qed.

Lemma arr_set_in_range {A} (a : list A) (p : Z) (v : A) :
  0 ≤ p < Z.of_nat (length a) → arr_set a p v = Ok (<[Z.to_nat p := v]> a).
Proof. intros Hp. unfold arr_set. by rewrite np_index_in_range. Qed.

Lemma arr_set_all_in_range {A} (points : list Z) (v : A) : ∀ a : list A,
  (∀ p, p ∈ points → 0 ≤ p < Z.of_nat (length a)) →
  ∃ a', arr_set_all a points v = Ok a' ∧ length a' = length a ∧
        ∀ q x, 0 ≤ q →
          (a' !! Z.to_nat q = Some x ↔
           (q ∈ points ∧ q < Z.of_nat (length a) ∧ x = v) ∨
           ((q ∉ points) ∧ a !! Z.to_nat q = Some x)).
Proof.
  induction points as [|p points IH]; intros a Hin; simpl.
  { exists a. split; [done|]. split; [done|]. intros q x Hq. split.
    - intros Hx. right. split; [by intros ?%elem_of_nil|done].
    - by intros [(?%elem_of_nil & _)|[_ Hx]]. }
  rewrite arr_set_in_range by (apply Hin; by left). cbn [rbind].
  destruct (IH (<[Z.to_nat p := v]> a)) as (a' & -> & Hlen & Hcells).
  { intros q Hq. rewrite length_insert. apply Hin. by right. }
  rewrite length_insert in Hlen. exists a'. split; [done|]. split; [done|].
  intros q x Hq. rewrite (Hcells q x Hq), length_insert.
  pose proof (Hin p ltac:(by left)) as Hp.
  destruct (decide (q = p)) as [->|Hne].
  - rewrite list_lookup_insert_eq by lia. split.
    + intros [(_ & ? & ->)|[Hnot [= <-]]]; left;
        (split; [by left|split; [lia|done]]).
    + intros [(_ & ? & ->)|[Hnot _]].
      * destruct (decide (p ∈ points)); [by left|by right].
      * exfalso. apply Hnot. by left.
  - rewrite list_lookup_insert_ne by lia. split.
    + intros [(Hqin & ? & ->)|[Hnot Hx]]; [left|right].
      * split; [by right|done].
      * split; [|done]. by intros [->|?]%elem_of_cons.
    + intros [([->|Hqin]%elem_of_cons & ? & ->)|[Hnot Hx]]; [done|left|right].
      * done.
      * split; [|done]. intros ?. apply Hnot. by right.
Qed.

Lemma where_true_from_spec (block : list bool) : ∀ i q,
  q ∈ where_true_from i block ↔
  i ≤ q ∧ block !! Z.to_nat (q - i) = Some true.
Proof.
  induction block as [|m block IH]; intros i q; simpl.
  { split; [by intros ?%elem_of_nil|by intros [_ ?]]. }
  assert (q ∈ where_true_from (i + 1) block ↔
          i + 1 ≤ q ∧ (m :: block) !! Z.to_nat (q - i) = Some true) as Htail.
  { rewrite IH. split; intros [Hle Hl]; (split; [done|]).
    - replace (Z.to_nat (q - i)) with (S (Z.to_nat (q - (i + 1)))) by lia.
      done.
    - replace (Z.to_nat (q - i)) with (S (Z.to_nat (q - (i + 1)))) in Hl
        by lia. done. }
  destruct m.
  - rewrite elem_of_cons, Htail. split.
    + intros [->|[Hle Hl]]; [|split; [lia|done]].
      split; [lia|]. by rewrite Z.sub_diag.
    + intros [Hle Hl]. destruct (decide (q = i)) as [->|Hne]; [by left|].
      right. split; [lia|done].
  - rewrite Htail. split.
    + intros [Hle Hl]. split; [lia|done].
    + intros [Hle Hl]. split; [|done].
      destruct (decide (q = i)) as [->|Hne]; [|lia].
      by rewrite Z.sub_diag in Hl.
Qed.

Lemma where_true_spec (block : list bool) (q : Z) :
  q ∈ where_true block ↔ 0 ≤ q ∧ block !! Z.to_nat q = Some true.
Proof.
  unfold where_true. rewrite where_true_from_spec.
  by replace (q - 0) with q by lia.
Qed.

(** ** The neighbour lists *)

Lemma neighbor_table_length (n : Z) :
  length (neighbor_table n) = Z.to_nat (maxpoint_of n).
Proof. unfold neighbor_table. by rewrite !length_map, length_seq. Qed.

Lemma neighbor_table_lookup (n p : Z) :
  0 ≤ p < maxpoint_of n →
  neighbor_table n !! Z.to_nat p
  = Some (if on_board_rc n p
          then filter (fun q => on_board_rc n q = true)
                      [p - 1; p + 1; p - (n + 1); p + (n + 1)]
          else []).
Proof.
  intros Hp. unfold neighbor_table. rewrite !list_lookup_fmap.
  rewrite lookup_seq_lt by lia. simpl. by rewrite Z2Nat.id by lia.
Qed.

Lemma maxpoint_of_grid (n p : Z) :
  1 ≤ n → on_board_rc n p = true →
  0 ≤ p - (n + 1) ∧ p + (n + 1) < maxpoint_of n.
Proof.
  intros Hn Hp. apply on_board_rc_range in Hp; [|done].
  unfold maxpoint_of. lia.
Qed.

Lemma wf_position_inv (g : GoBoard) :
  wf_position g = true →
  wf_board (position g) = true ∧
  neighbors g = neighbor_table (size (position g)) ∧
  1 ≤ size (position g) ∧
  len_board (position g) = maxpoint g.
Proof.
  unfold wf_position. rewrite andb_true_iff, bool_decide_eq_true.
  intros [Hwf Hnb]. destruct (wf_board_inv _ Hwf) as (Hn & Hl & _).
  done.
Qed.

Lemma adjacent_spec (g : GoBoard) (p q : Z) :
  wf_position g = true →
  adjacent g p q ↔
  on_board_rc (size (position g)) p = true ∧
  on_board_rc (size (position g)) q = true ∧
  q ∈ _neighbors (position g) p.
Proof.
  intros (Hwf & Hnb & Hn & Hl)%wf_position_inv.
  unfold adjacent, _neighbors, NS. rewrite Hnb.
  set (n := size (position g)) in *. split.
  - intros (Hp & nbs & Hlk & Hq).
    pose proof (lookup_lt_Some _ _ _ Hlk) as Hlt.
    rewrite neighbor_table_length in Hlt.
    rewrite neighbor_table_lookup in Hlk by lia.
    destruct (on_board_rc n p); injection Hlk as <-.
    + apply list_elem_of_filter in Hq as [Hq1 Hq2]. done.
    + by apply elem_of_nil in Hq.
  - intros (Hp & Hq & Hin).
    pose proof (on_board_rc_range n p Hn Hp) as Hr.
    split; [lia|]. eexists. split.
    + apply neighbor_table_lookup. unfold maxpoint_of. lia.
    + rewrite Hp. apply list_elem_of_filter. done.
Qed.

Lemma adjacent_range (g : GoBoard) (p q : Z) :
  wf_position g = true → adjacent g p q →
  0 ≤ p < maxpoint g ∧ 0 ≤ q < maxpoint g.
Proof.
  intros Hwf (Hp & Hq & _)%adjacent_spec; [|done].
  destruct (wf_position_inv g Hwf) as (_ & _ & Hn & _).
  apply on_board_rc_range in Hp, Hq; try done.
  unfold maxpoint, maxpoint_of. lia.
Qed.

Lemma adjacent_sym (g : GoBoard) (p q : Z) :
  wf_position g = true → adjacent g p q → adjacent g q p.
Proof.
  intros Hwf. rewrite !adjacent_spec by done. intros (Hp & Hq & Hin).
  split; [done|]. split; [done|]. unfold _neighbors in *.
  rewrite !elem_of_cons in Hin. rewrite !elem_of_cons.
  destruct Hin as [->|[->|[->|[->|?%elem_of_nil]]]]; [| | | |done]; lia.
Qed.

Lemma neighbors_lookup (g : GoBoard) (p : Z) :
  wf_position g = true → 0 ≤ p < maxpoint g →
  ∃ nbs, arr_get (neighbors g) p = Ok nbs ∧
         (∀ q, q ∈ nbs ↔ adjacent g p q).
Proof.
  intros Hwf Hp. destruct (wf_position_inv g Hwf) as (_ & Hnb & Hn & _).
  eexists. split.
  - apply arr_get_in_range; [lia|]. rewrite Hnb.
    apply neighbor_table_lookup. done.
  - intros q. unfold adjacent. rewrite Hnb.
    rewrite neighbor_table_lookup by done. split.
    + intros Hq. split; [lia|]. eauto.
    + by intros (_ & nbs & [= <-] & Hq).
Qed.

Lemma filter_ext_in {A} (P Q : A → Prop) `{∀ x, Decision (P x)}
    `{∀ x, Decision (Q x)} (l : list A) :
  (∀ x, x ∈ l → P x ↔ Q x) → filter P l = filter Q l.
Proof.
  induction l as [|a l IH]; intros Hext; [done|].
  rewrite !filter_cons.
  rewrite IH by (intros x Hx; apply Hext; by right).
  destruct (decide (P a)) as [Hp|Hp], (decide (Q a)) as [Hq|Hq]; try done.
  - exfalso. apply Hq, (Hext a); [by left|done].
  - exfalso. apply Hp, (Hext a); [by left|done].
Qed.

Lemma collect_points_spec (b : SimpleGoBoard) (keep : color → bool)
    (points : list Z) :
  (∀ q, q ∈ points → 0 ≤ q < len_board b) →
  collect_points b keep points
  = Ok (filter (fun q => cell_is b keep q = true) points).
Proof.
  induction points as [|q points IH]; intros Hin; [done|]. simpl.
  destruct (get_color_total b q) as [c Hc]; [apply Hin; by left|].
  rewrite Hc. cbn [rbind]. rewrite IH by (intros r Hr; apply Hin; by right).
  cbn [rbind]. rewrite filter_cons.
  assert (cell_is b keep q = keep c) as -> by (unfold cell_is; by rewrite Hc).
  by destruct (keep c).
Qed.

Lemma initialize_neighbors_reset (n : Z) (points : list Z) :
  1 ≤ n → (∀ p, p ∈ points → 0 ≤ p < maxpoint_of n) →
  initialize_neighbors_loop (reset n) points
  = Ok (map (fun p => if on_board_rc n p
                      then filter (fun q => on_board_rc n q = true)
                                  [p - 1; p + 1; p - (n + 1); p + (n + 1)]
                      else []) points).
Proof.
  intros Hn. induction points as [|p points IH]; intros Hin; [done|].
  simpl. rewrite reset_get_color by (try done; apply Hin; by left).
  cbn [rbind]. rewrite IH by (intros r Hr; apply Hin; by right).
  destruct (on_board_rc n p) eqn:Hp; [|done].
  change (color_eqb EMPTY BORDER) with false. cbv iota.
  unfold _on_board_neighbors, _neighbors, NS. change (size (reset n)) with n.
  destruct (maxpoint_of_grid n p Hn Hp) as [Hlo Hhi].
  rewrite collect_points_spec.
  2:{ intros q Hq. rewrite reset_len by done.
      rewrite !elem_of_cons in Hq.
      destruct Hq as [->|[->|[->|[->|?%elem_of_nil]]]]; [| | | |done]; lia. }
  cbn [rbind]. do 2 f_equal. apply filter_ext_in. intros q Hq.
  assert (0 ≤ q < maxpoint_of n) as Hr.
  { rewrite !elem_of_cons in Hq.
    destruct Hq as [->|[->|[->|[->|?%elem_of_nil]]]]; [| | | |done]; lia. }
  unfold cell_is. rewrite reset_get_color by done.
  by destruct (on_board_rc n q).
Qed.

Lemma py_range_0 (m : Z) :
  py_range 0 m 1 = map Z.of_nat (seq 0 (Z.to_nat m)).
Proof.
  unfold py_range. replace ((m - 0 + 1 - 1) / 1) with m
    by (rewrite Z.div_1_r; lia).
  apply map_ext. intros k. lia.
Qed.

Lemma initialize_neighbors_table (n : Z) :
  1 ≤ n → _initialize_neighbors (reset n) = Ok (neighbor_table n).
Proof.
  intros Hn. unfold _initialize_neighbors. change (size (reset n)) with n.
  rewrite py_range_0. apply initialize_neighbors_reset; [done|].
  intros p (k & -> & Hk)%list_elem_of_fmap.
  apply elem_of_seq in Hk. lia.
Qed.

Section ResetGo.

Variable NULLPOINT : Z.

(** X17. [reset(size)], for a size of at least 1, gives a well-formed
    state of the Go rules: the empty board, no ko point, a cache that holds
    NULLPOINT everywhere, and neighbour lists in which [q] is listed for
    [p] exactly when both are points of the grid and [q] is one of
    [p - 1], [p + 1], [p - NS], [p + NS]; a border cell has no neighbours
    and is nobody's neighbour, and the lists are symmetric. *)
Theorem reset_go_spec (n : Z) :
  1 ≤ n →
  ∃ g, reset_go NULLPOINT n = Ok g ∧
       position g = reset n ∧ ko_recapture g = None ∧
       liberty_of g = replicate (Z.to_nat (maxpoint_of n)) NULLPOINT ∧
       wf_go NULLPOINT g = true ∧
       (∀ p q, adjacent g p q ↔
               on_board_rc n p = true ∧ on_board_rc n q = true ∧
               (q = p - 1 ∨ q = p + 1 ∨ q = p - (n + 1) ∨ q = p + (n + 1))) ∧
       (∀ p q, adjacent g p q → adjacent g q p).
Proof.
  intros Hn. unfold reset_go. rewrite reset_board_reset by done.
  cbn [rbind]. rewrite initialize_neighbors_table by done. cbn [rbind].
  eexists. split; [reflexivity|].
  set (g := mkGo _ _ _ _).
  assert (wf_position g = true) as Hwfp.
  { unfold wf_position. rewrite andb_true_iff. split.
    - by apply reset_wf.
    - by apply bool_decide_eq_true. }
  split; [done|]. split; [done|]. split; [done|]. split; [|split].
  - unfold wf_go. rewrite !andb_true_iff. split; [split; [done|]|].
    + apply bool_decide_eq_true. simpl. rewrite length_replicate.
      unfold maxpoint. simpl. unfold maxpoint_of. nia.
    + apply forallb_forall. intros lib Hlib. apply orb_true_iff. left.
      apply bool_decide_eq_true. simpl in Hlib.
      apply list_elem_of_In in Hlib.
      by apply elem_of_replicate in Hlib as [-> _].
  - intros p q. rewrite adjacent_spec by done.
    unfold _neighbors, NS. change (size (position g)) with n.
    rewrite !elem_of_cons. split.
    + intros (Hp & Hq & [->|[->|[->|[->|?%elem_of_nil]]]]); try done;
        (split; [done|split; [done|]]); tauto.
    + intros (Hp & Hq & Hcase). split; [done|]. split; [done|]. tauto.
  - intros p q. by apply adjacent_sym.
Qed.

End ResetGo.

Lemma reset_go_spec_witness :
  ∃ g, reset_go 0 7 = Ok g ∧
       position g = reset 7 ∧ ko_recapture g = None ∧
       liberty_of g = replicate (Z.to_nat (maxpoint_of 7)) 0 ∧
       wf_go 0 g = true ∧
       (∀ p q, adjacent g p q ↔
               on_board_rc 7 p = true ∧ on_board_rc 7 q = true ∧
               (q = p - 1 ∨ q = p + 1 ∨ q = p - (7 + 1) ∨ q = p + (7 + 1))) ∧
       (∀ p q, adjacent g p q → adjacent g q p).
Proof. apply (reset_go_spec 0 7). lia. Defined.

(** ** Reading the neighbours *)

Lemma neighbors_of_color_spec (g : GoBoard) (p : Z) (c : color) :
  wf_position g = true → 0 ≤ p < maxpoint g →
  ∃ nbs all,
    arr_get (neighbors g) p = Ok all ∧
    nbs = filter (fun q => cell_is (position g) (fun nb_color => color_eqb nb_color c) q = true) all ∧
    neighbors_of_color g p c = Ok nbs ∧
    (∀ q, q ∈ nbs ↔ adjacent g p q ∧ get_color (position g) q = Ok c).
Proof.
  intros Hwf Hp. destruct (neighbors_lookup g p Hwf Hp) as (all & Hall & Hadj).
  assert (∀ q, q ∈ all → 0 ≤ q < len_board (position g)) as Hr.
  { intros q Hq%Hadj. apply adjacent_range in Hq as [_ Hq]; [|done].
    destruct (wf_position_inv g Hwf) as (_ & _ & _ & ->). done. }
  eexists _, all. split; [done|]. split; [reflexivity|]. split.
  - unfold neighbors_of_color. rewrite Hall. cbn [rbind].
    by apply collect_points_spec.
  - intros q. rewrite list_elem_of_filter, Hadj. unfold cell_is, color_eqb.
    split.
    + intros [Hc Hq]. split; [done|].
      destruct (get_color (position g) q) as [c'|]; [|done].
      apply bool_decide_eq_true in Hc. by subst.
    + intros [Hq ->]. split; [|done]. by apply bool_decide_eq_true.
Qed.

Lemma find_color_spec (b : SimpleGoBoard) (c : color) (nbs : list Z) :
  (∀ q, q ∈ nbs → 0 ≤ q < len_board b) →
  ∃ r, find_color b c nbs = Ok r ∧
       match r with
       | Some l => l ∈ nbs ∧ get_color b l = Ok c
       | None => ∀ q, q ∈ nbs → get_color b q ≠ Ok c
       end.
Proof.
  induction nbs as [|nb nbs IH]; intros Hin; simpl.
  { exists None. split; [done|]. by intros q ?%elem_of_nil. }
  destruct (get_color_total b nb) as [c' Hc']; [apply Hin; by left|].
  rewrite Hc'. cbn [rbind]. unfold color_eqb.
  destruct (bool_decide (c' = c)) eqn:Heq.
  - apply bool_decide_eq_true in Heq as ->. exists (Some nb).
    split; [done|]. split; [by left|done].
  - apply bool_decide_eq_false in Heq.
    destruct IH as (r & -> & Hr); [intros q Hq; apply Hin; by right|].
    exists r. split; [done|]. destruct r as [l|].
    + destruct Hr. split; [by right|done].
    + intros q [->|Hq]%elem_of_cons; [congruence|by apply Hr].
Qed.

Lemma find_neighbor_of_color_spec (g : GoBoard) (p : Z) (c : color) :
  wf_position g = true → 0 ≤ p < maxpoint g →
  ∃ r, find_neighbor_of_color g p c = Ok r ∧
       match r with
       | Some l => adjacent g p l ∧ get_color (position g) l = Ok c
       | None => ∀ q, adjacent g p q → get_color (position g) q ≠ Ok c
       end.
Proof.
  intros Hwf Hp. destruct (neighbors_lookup g p Hwf Hp) as (all & Hall & Hadj).
  unfold find_neighbor_of_color. rewrite Hall. cbn [rbind].
  destruct (find_color_spec (position g) c all) as (r & -> & Hr).
  { intros q Hq%Hadj. apply adjacent_range in Hq as [_ Hq]; [|done].
    destruct (wf_position_inv g Hwf) as (_ & _ & _ & ->). done. }
  exists r. split; [done|]. destruct r as [l|].
  - destruct Hr as [Hl Hc]. split; [by apply Hadj|done].
  - intros q Hq. apply Hr. by apply Hadj.
Qed.

Lemma stone_has_liberty_spec (g : GoBoard) (p : Z) :
  wf_position g = true → 0 ≤ p < maxpoint g →
  ∃ r : bool, _stone_has_liberty g p = Ok r ∧
    (r = true ↔ ∃ l, adjacent g p l ∧ get_color (position g) l = Ok EMPTY).
Proof.
  intros Hwf Hp.
  destruct (find_neighbor_of_color_spec g p EMPTY Hwf Hp) as (r & Hr & Hspec).
  unfold _stone_has_liberty. rewrite Hr. cbn [rbind]. eexists.
  split; [reflexivity|]. rewrite bool_decide_eq_true.
  destruct r as [l|].
  - split; [eauto|done].
  - split; [done|]. intros (l & Hl & Hc). exfalso. by apply (Hspec l).
Qed.

(** ** Blocks *)

Lemma connected_color (g : GoBoard) (c : color) (p q : Z) :
  get_color (position g) p = Ok c → connected g c p q →
  get_color (position g) q = Ok c.
Proof. intros Hp Hq. by destruct Hq. Qed.

Lemma connected_trans (g : GoBoard) (c : color) (p q r : Z) :
  connected g c p q → connected g c q r → connected g c p r.
Proof.
  intros Hpq Hqr. induction Hqr as [|r r' _ IH Hadj Hc]; [done|].
  by apply (connected_step g c p r r').
Qed.

Lemma connected_sym (g : GoBoard) (c : color) (p q : Z) :
  wf_position g = true → get_color (position g) p = Ok c →
  connected g c p q → connected g c q p.
Proof.
  intros Hwf Hp Hpq. induction Hpq as [|q r Hpq IH Hadj Hc].
  { apply connected_refl. }
  apply (connected_trans g c r q p); [|done].
  apply (connected_step g c r r q); [apply connected_refl| |].
  - by apply adjacent_sym.
  - by apply (connected_color g c p q).
Qed.

Lemma connected_range (g : GoBoard) (c : color) (p q : Z) :
  wf_position g = true → 0 ≤ p < maxpoint g → connected g c p q →
  0 ≤ q < maxpoint g.
Proof.
  intros Hwf Hp Hq. destruct Hq as [|q r _ Hadj _]; [done|].
  by apply adjacent_range in Hadj as [_ ?].
Qed.

Lemma unmarked_insert (marker : list bool) (i : nat) :
  marker !! i = Some false →
  S (unmarked (<[i := true]> marker)) = unmarked marker.
Proof.
  unfold unmarked. revert i. induction marker as [|m marker IH]; intros i Hi.
  { done. }
  destruct i as [|i]; simpl in *.
  - injection Hi as ->. rewrite filter_cons_False by done.
    by rewrite filter_cons_True by done.
  - rewrite !filter_cons. destruct (decide (m = false)); simpl.
    + f_equal. by apply IH.
    + by apply IH.
Qed.

Lemma unmarked_le (marker : list bool) : (unmarked marker ≤ length marker)%nat.
Proof. unfold unmarked. apply length_filter. Qed.

Lemma mark_neighbors_spec (len : Z) (nbs : list Z) :
  ∀ (marker : list bool) (pointstack : list Z),
    Z.of_nat (length marker) = len →
    (∀ q, q ∈ nbs → 0 ≤ q < len) →
    ∃ marker' pointstack',
      mark_neighbors marker pointstack nbs = Ok (marker', pointstack') ∧
      Z.of_nat (length marker') = len ∧
      (∀ q, 0 ≤ q →
            (marker' !! Z.to_nat q = Some true ↔
             marker !! Z.to_nat q = Some true ∨ q ∈ nbs)) ∧
      (∀ q, q ∈ pointstack' ↔
            q ∈ pointstack ∨
            (q ∈ nbs ∧ marker !! Z.to_nat q ≠ Some true)) ∧
      (length pointstack' + unmarked marker'
       = length pointstack + unmarked marker)%nat.
Proof.
  induction nbs as [|nb nbs IH]; intros marker pointstack Hlen Hin; simpl.
  { exists marker, pointstack. split; [done|]. split; [done|].
    split; [|split; [|done]].
    - intros q _. split; [by left|]. by intros [?|?%elem_of_nil].
    - intros q. split; [by left|]. by intros [?|[?%elem_of_nil _]]. }
  pose proof (Hin nb ltac:(by left)) as Hnb.
  destruct (lookup_lt_is_Some_2 marker (Z.to_nat nb) ltac:(lia)) as [m Hm].
  rewrite (arr_get_in_range marker nb m) by (lia || done). cbn [rbind].
  destruct m; simpl.
  - destruct (IH marker pointstack Hlen) as (m' & s' & -> & Hl' & Hm' & Hs' & Hcount).
    { intros q Hq. apply Hin. by right. }
    exists m', s'. split; [done|]. split; [done|]. split; [|split; [|done]].
    + intros q Hq. rewrite (Hm' q Hq), elem_of_cons. split; [tauto|].
      intros [?|[->|?]]; tauto.
    + intros q. rewrite (Hs' q), elem_of_cons. split; [tauto|].
      intros [?|[[->|?] Hnot]]; tauto.
  - rewrite arr_set_in_range by lia. cbn [rbind].
    destruct (IH (<[Z.to_nat nb := true]> marker) (nb :: pointstack))
      as (m' & s' & -> & Hl' & Hm' & Hs' & Hcount).
    { by rewrite length_insert. }
    { intros q Hq. apply Hin. by right. }
    exists m', s'. split; [done|]. split; [done|]. split; [|split].
    + intros q Hq. rewrite (Hm' q Hq), elem_of_cons.
      destruct (decide (q = nb)) as [->|Hne].
      * rewrite list_lookup_insert_eq by lia. tauto.
      * rewrite list_lookup_insert_ne by lia. tauto.
    + intros q. rewrite (Hs' q), !elem_of_cons.
      destruct (decide (q = nb)) as [->|Hne].
      * rewrite list_lookup_insert_eq by lia. rewrite Hm. split; [|tauto].
        intros _. right. split; [by left|done].
      * destruct (decide (0 ≤ q)) as [Hq|Hq].
        -- rewrite list_lookup_insert_ne by lia. tauto.
        -- assert (q ∉ nbs) as Hnot.
           { intros Hqin. assert (0 ≤ q < len); [|lia].
             apply Hin. by right. }
           tauto.
    + rewrite Hcount. simpl.
      pose proof (unmarked_insert marker (Z.to_nat nb) Hm). lia.
Qed.

Lemma block_loop_spec (g : GoBoard) (c : color) (s : Z) :
  wf_position g = true →
  ∀ (fuel : nat) (marker : list bool) (pointstack : list Z),
    Z.of_nat (length marker) = maxpoint g →
    (∀ q, 0 ≤ q → marker !! Z.to_nat q = Some true → connected g c s q) →
    marker !! Z.to_nat s = Some true → 0 ≤ s →
    (∀ q, q ∈ pointstack → 0 ≤ q ∧ marker !! Z.to_nat q = Some true) →
    (∀ q r, 0 ≤ q → marker !! Z.to_nat q = Some true → q ∉ pointstack →
            adjacent g q r → get_color (position g) r = Ok c →
            marker !! Z.to_nat r = Some true) →
    (length pointstack + unmarked marker < fuel)%nat →
    ∃ marker',
      block_loop fuel g c marker pointstack = Ok marker' ∧
      Z.of_nat (length marker') = maxpoint g ∧
      (∀ q, 0 ≤ q →
            (marker' !! Z.to_nat q = Some true ↔ connected g c s q)).
Proof.
  intros Hwf. induction fuel as [|fuel IH];
    intros marker pointstack Hlen Hsound Hs Hs0 Hstack Hclosed Hfuel; [lia|].
  simpl. destruct pointstack as [|p pointstack].
  { exists marker. split; [done|]. split; [done|]. intros q Hq.
    split; [by apply Hsound|].
    intros Hconn. induction Hconn as [|q r Hconn IHc Hadj Hc]; [done|].
    pose proof (adjacent_range g q r Hwf Hadj) as [Hq0 Hr0].
    apply (Hclosed q r); try done; try lia.
    - apply IHc. lia.
    - by intros ?%elem_of_nil. }
  destruct (Hstack p ltac:(by left)) as [Hp0 Hpm].
  assert (0 ≤ p < maxpoint g) as Hp.
  { apply lookup_lt_Some in Hpm. lia. }
  destruct (neighbors_of_color_spec g p c Hwf Hp)
    as (nbs & all & _ & _ & -> & Hnbs).
  cbn [rbind].
  destruct (mark_neighbors_spec (maxpoint g) nbs marker pointstack Hlen)
    as (m' & s' & -> & Hl' & Hm' & Hs' & Hcount).
  { intros q [Hq _]%Hnbs. by apply adjacent_range in Hq as [_ ?]. }
  cbn [rbind]. apply IH; try done.
  - intros q Hq Hqm. apply (Hm' q Hq) in Hqm as [Hold|Hnew].
    + by apply Hsound.
    + apply Hnbs in Hnew as [Hadj Hc].
      apply (connected_step g c s p q); [by apply Hsound|done|done].
  - apply Hm'; [done|by left].
  - intros q Hq. apply Hs' in Hq as [Hq|[Hq Hnot]].
    + destruct (Hstack q ltac:(by right)) as [Hq0 Hqm].
      split; [done|]. apply Hm'; [done|by left].
    + pose proof Hq as [Hadj _]%Hnbs.
      apply adjacent_range in Hadj as [_ Hq0]; [|done].
      split; [lia|]. apply Hm'; [lia|by right].
  - intros q r Hq Hqm Hnot Hadj Hc.
    pose proof (adjacent_range g q r Hwf Hadj) as [_ Hr0].
    apply Hm'; [lia|].
    destruct (decide (q = p)) as [->|Hne].
    { right. by apply Hnbs. }
    left. destruct (decide (marker !! Z.to_nat q = Some true)) as [Hy|Hn].
    + apply (Hclosed q r); try done.
      intros [->|Hin]%elem_of_cons; [done|].
      apply Hnot, Hs'. by left.
    + exfalso. apply (Hm' q Hq) in Hqm as [Hold|Hnew]; [done|].
      apply Hnot, Hs'. by right.
  - simpl in Hfuel. lia.
Qed.

(** [_block_of] marks the block of the stone. *)
Lemma block_of_marks (g : GoBoard) (stone : Z) (c : color) :
  wf_position g = true → 0 ≤ stone < maxpoint g →
  get_color (position g) stone = Ok c → is_black_white c = true →
  ∃ marker,
    _block_of g stone = Ok marker ∧
    Z.of_nat (length marker) = maxpoint g ∧
    (∀ q, q ∈ where_true marker ↔ connected g c stone q).
Proof.
  intros Hwf Hs Hc Hbw. unfold _block_of. rewrite Hc. cbn [rbind].
  rewrite Hbw. cbn [negb].
  rewrite arr_set_in_range by (rewrite length_replicate; lia).
  cbn [rbind].
  set (marker := <[Z.to_nat stone := true]> (replicate _ false)).
  assert (∀ q, 0 ≤ q → marker !! Z.to_nat q = Some true → q = stone) as Honly.
  { intros q Hq Hqm. destruct (decide (q = stone)) as [|Hne]; [done|].
    unfold marker in Hqm. rewrite list_lookup_insert_ne in Hqm by lia.
    by apply lookup_replicate in Hqm as [? _]. }
  assert (marker !! Z.to_nat stone = Some true) as Hsm.
  { unfold marker. apply list_lookup_insert_eq. rewrite length_replicate. lia. }
  destruct (block_loop_spec g c stone Hwf (block_fuel g) marker [stone])
    as (marker' & -> & Hlen & Hspec).
  - unfold marker. rewrite length_insert, length_replicate. lia.
  - intros q Hq ->%Honly; [|done]. apply connected_refl.
  - done.
  - lia.
  - intros q ->%list_elem_of_singleton. split; [lia|done].
  - intros q r Hq ->%Honly; [|done]. intros Hnot. exfalso. apply Hnot.
    by left.
  - pose proof (unmarked_insert (replicate (Z.to_nat (maxpoint g)) false)
                  (Z.to_nat stone)) as Hu.
    fold marker in Hu. specialize (Hu ltac:(apply lookup_replicate; lia)).
    pose proof (unmarked_le (replicate (Z.to_nat (maxpoint g)) false)) as Hle.
    rewrite length_replicate in Hle. unfold block_fuel. simpl. lia.
  - exists marker'. split; [done|]. split; [done|]. intros q.
    rewrite where_true_spec. split.
    + intros [Hq Hqm]. by apply Hspec.
    + intros Hconn.
      pose proof (connected_range g c stone q Hwf Hs Hconn) as Hq.
      split; [lia|]. apply Hspec; [lia|done].
Qed.

(** X18. On a well-formed state, for a stone of colour BLACK or WHITE,
    [_block_of] returns (its loop ends, nothing is raised) a marker array
    as long as the board that marks exactly the block of the stone: the
    points reached from it through neighbours of its colour. The stone is
    marked, and every marked point is a point of the array that holds the
    colour of the stone. *)
Theorem block_of_spec (g : GoBoard) (stone : Z) (c : color) :
  wf_position g = true → 0 ≤ stone < maxpoint g →
  get_color (position g) stone = Ok c → is_black_white c = true →
  ∃ marker,
    _block_of g stone = Ok marker ∧
    Z.of_nat (length marker) = maxpoint g ∧
    stone ∈ where_true marker ∧
    (∀ q, q ∈ where_true marker ↔ connected g c stone q) ∧
    (∀ q, q ∈ where_true marker →
          0 ≤ q < maxpoint g ∧ get_color (position g) q = Ok c).
Proof.
  intros Hwf Hs Hc Hbw.
  destruct (block_of_marks g stone c Hwf Hs Hc Hbw)
    as (marker & Hblock & Hlen & Hspec).
  exists marker. split; [done|]. split; [done|]. split; [|split; [done|]].
  - apply Hspec, connected_refl.
  - intros q Hq%Hspec. split.
    + by apply (connected_range g c stone q).
    + by apply (connected_color g c stone q).
Qed.

Lemma block_of_spec_witness :
  ∃ marker,
    _block_of corner_atari (pt 4 4) = Ok marker ∧
    Z.of_nat (length marker) = maxpoint corner_atari ∧
    pt 4 4 ∈ where_true marker ∧
    (∀ q, q ∈ where_true marker ↔ connected corner_atari BLACK (pt 4 4) q) ∧
    (∀ q, q ∈ where_true marker →
          0 ≤ q < maxpoint corner_atari ∧
          get_color (position corner_atari) q = Ok BLACK).
Proof.
  apply (block_of_spec corner_atari (pt 4 4) BLACK).
  - reflexivity.
  - by vm_compute.
  - reflexivity.
  - reflexivity.
Defined.

(** ** States that differ in the cache *)

Lemma adjacent_ext (g g' : GoBoard) (p q : Z) :
  neighbors g' = neighbors g → adjacent g p q → adjacent g' p q.
Proof. unfold adjacent. by intros ->. Qed.

Lemma connected_ext (g g' : GoBoard) (c : color) (p q : Z) :
  neighbors g' = neighbors g →
  (∀ r, get_color (position g) r = Ok c → get_color (position g') r = Ok c) →
  connected g c p q → connected g' c p q.
Proof.
  intros Hnb Hcells Hconn. induction Hconn as [|q r _ IH Hadj Hc].
  { apply connected_refl. }
  apply (connected_step g' c p q r); [done| |by apply Hcells].
  by apply (adjacent_ext g g').
Qed.

Section GoProofs.

Variable NULLPOINT : Z.

Lemma wf_go_inv (g : GoBoard) :
  wf_go NULLPOINT g = true →
  wf_position g = true ∧
  Z.of_nat (length (liberty_of g)) = maxpoint g ∧
  ∀ lib, lib ∈ liberty_of g → lib = NULLPOINT ∨ 0 ≤ lib < maxpoint g.
Proof.
  unfold wf_go. rewrite !andb_true_iff, bool_decide_eq_true.
  intros [[Hwf Hlen] Hall]. split; [done|]. split; [done|].
  intros lib Hlib. rewrite forallb_forall in Hall.
  apply list_elem_of_In, Hall in Hlib.
  apply orb_true_iff in Hlib as [Hlib|Hlib].
  - left. by apply bool_decide_eq_true in Hlib.
  - right. apply andb_true_iff in Hlib. lia.
Qed.

Lemma wf_go_intro (g : GoBoard) :
  wf_position g = true →
  Z.of_nat (length (liberty_of g)) = maxpoint g →
  (∀ lib, lib ∈ liberty_of g → lib = NULLPOINT ∨ 0 ≤ lib < maxpoint g) →
  wf_go NULLPOINT g = true.
Proof.
  intros Hwf Hlen Hall. unfold wf_go.
  rewrite !andb_true_iff, bool_decide_eq_true.
  split; [done|]. apply forallb_forall. intros lib Hlib.
  apply list_elem_of_In, Hall in Hlib as [->|Hlib]; apply orb_true_iff.
  - left. by apply bool_decide_eq_true.
  - right. apply andb_true_iff. lia.
Qed.

(** ** Liberties *)

Lemma get_liberty_loop_spec (g : GoBoard) (stones : list Z) :
  wf_position g = true →
  (∀ q, q ∈ stones → 0 ≤ q < maxpoint g) →
  ∃ r, get_liberty_loop g stones = Ok r ∧
       match r with
       | Some l => ∃ q, q ∈ stones ∧ adjacent g q l ∧
                        get_color (position g) l = Ok EMPTY
       | None => ∀ q l, q ∈ stones → adjacent g q l →
                        get_color (position g) l ≠ Ok EMPTY
       end.
Proof.
  intros Hwf. induction stones as [|s stones IH]; intros Hin; simpl.
  { exists None. split; [done|]. by intros q l ?%elem_of_nil. }
  destruct (find_neighbor_of_color_spec g s EMPTY Hwf) as (r & -> & Hr).
  { apply Hin. by left. }
  cbn [rbind]. destruct r as [l|].
  - exists (Some l). split; [done|]. exists s. split; [by left|done].
  - destruct IH as (r & -> & Hrest); [intros q Hq; apply Hin; by right|].
    exists r. split; [done|]. destruct r as [l|].
    + destruct Hrest as (q & Hq & Hl). exists q. split; [by right|done].
    + intros q l [->|Hq]%elem_of_cons; [apply Hr|by apply Hrest].
Qed.

Lemma where_true_range (block : list bool) (q : Z) :
  q ∈ where_true block → 0 ≤ q < Z.of_nat (length block).
Proof.
  intros [Hq Hl]%where_true_spec. apply lookup_lt_Some in Hl. lia.
Qed.

Lemma has_liberty_spec (g : GoBoard) (block : list bool) :
  wf_go NULLPOINT g = true →
  Z.of_nat (length block) = maxpoint g →
  ∃ (r : bool) lo,
    _has_liberty g block = Ok (r, with_liberty_of g lo) ∧
    wf_go NULLPOINT (with_liberty_of g lo) = true ∧
    (r = false → lo = liberty_of g) ∧
    (r = true ↔ ∃ q l, q ∈ where_true block ∧ adjacent g q l ∧
                       get_color (position g) l = Ok EMPTY).
Proof.
  intros Hwfg Hlen. destruct (wf_go_inv g Hwfg) as (Hwf & Hlo & Hlibs).
  unfold _has_liberty, _get_liberty.
  destruct (get_liberty_loop_spec g (where_true block) Hwf) as (r & -> & Hr).
  { intros q Hq%where_true_range. lia. }
  cbn [rbind]. destruct r as [lib|].
  - destruct Hr as (q & Hq & Hadj & Hc). rewrite Hc. cbn [rbind].
    change (color_eqb EMPTY EMPTY) with true. cbn [negb].
    destruct (arr_set_all_in_range (where_true block) lib (liberty_of g))
      as (lo & -> & Hlen' & Hcells).
    { intros s Hs%where_true_range. lia. }
    cbn [rbind]. exists true, lo. split; [done|]. split; [|split; [done|]].
    + apply wf_go_intro;
        [done|change (Z.of_nat (length lo) = maxpoint g); lia|].
      change (maxpoint (with_liberty_of g lo)) with (maxpoint g).
      change (liberty_of (with_liberty_of g lo)) with lo.
      intros x (i & Hi)%list_elem_of_lookup_1.
      specialize (Hcells (Z.of_nat i) x ltac:(lia)).
      rewrite Nat2Z.id in Hcells.
      apply Hcells in Hi as [(_ & _ & ->)|[_ Hi]].
      * right. by apply adjacent_range in Hadj as [_ ?].
      * apply Hlibs. by apply list_elem_of_lookup_2 in Hi.
    + split; [|done]. intros _. by exists q, lib.
  - exists false, (liberty_of g). split; [by destruct g|].
    split; [by destruct g|]. split; [done|]. split; [done|].
    intros (q & l & Hq & Hadj & Hc). exfalso. by apply (Hr q l).
Qed.

Lemma fast_liberty_check_total (g : GoBoard) (p : Z) :
  wf_go NULLPOINT g = true → 0 ≤ p < maxpoint g →
  ∃ r : bool, _fast_liberty_check NULLPOINT g p = Ok r.
Proof.
  intros Hwfg Hp. destruct (wf_go_inv g Hwfg) as (Hwf & Hlo & Hlibs).
  destruct (wf_position_inv g Hwf) as (_ & _ & _ & Hlen).
  unfold _fast_liberty_check.
  destruct (lookup_lt_is_Some_2 (liberty_of g) (Z.to_nat p) ltac:(lia))
    as [lib Hlib].
  rewrite (arr_get_in_range _ _ lib) by (lia || done). cbn [rbind].
  assert (∃ cached : bool,
            (if bool_decide (lib ≠ NULLPOINT)
             then let* c := get_color (position g) lib in
                  Ok (color_eqb c EMPTY)
             else Ok false) = Ok cached) as [cached ->].
  { case_bool_decide as Hne; [|by eexists].
    destruct (Hlibs lib) as [?|Hr]; [by apply list_elem_of_lookup_2 in Hlib|done|].
    destruct (get_color_total (position g) lib) as [c ->]; [lia|].
    by eexists. }
  cbn [rbind]. destruct cached; [by eexists|].
  destruct (stone_has_liberty_spec g p Hwf Hp) as (r & -> & _).
  cbn [rbind]. destruct r; by eexists.
Qed.

(** The block of [stone]: what [_block_of] marks and [_has_liberty]
    reads. *)
Lemma block_liberty (g : GoBoard) (stone : Z) (c : color) (marker : list bool) :
  (∀ q, q ∈ where_true marker ↔ connected g c stone q) →
  (∃ q l, q ∈ where_true marker ∧ adjacent g q l ∧
          get_color (position g) l = Ok EMPTY) ↔
  block_has_liberty g c stone.
Proof.
  intros Hblock. unfold block_has_liberty.
  split; intros (q & l & Hq & Hl); exists q, l; (split; [|done]);
    by apply Hblock.
Qed.

(** The two capture checks on a stone, side by side. *)
Lemma detect_capture_spec (g : GoBoard) (nb : Z) (c : color) :
  wf_go NULLPOINT g = true → 0 ≤ nb < maxpoint g →
  get_color (position g) nb = Ok c → is_black_white c = true →
  ∃ (captured : bool) lo,
    _detect_capture NULLPOINT g nb = Ok (captured, with_liberty_of g lo) ∧
    wf_go NULLPOINT (with_liberty_of g lo) = true ∧
    if captured then
      ¬ block_has_liberty g c nb ∧
      ∃ single cells lo',
        _detect_and_process_capture NULLPOINT g nb
        = Ok (single,
              with_liberty_of
                (with_position g (with_board (position g) cells)) lo') ∧
        (∀ s, single = Some s → s = nb) ∧
        length cells = length (board (position g)) ∧
        Z.of_nat (length lo') = maxpoint g ∧
        (∀ lib, lib ∈ lo' → lib = NULLPOINT ∨ 0 ≤ lib < maxpoint g) ∧
        (∀ q x, 0 ≤ q →
           (cells !! Z.to_nat q = Some x ↔
            (connected g c nb q ∧ x = EMPTY) ∨
            (¬ connected g c nb q ∧
             board (position g) !! Z.to_nat q = Some x)))
    else
      _detect_and_process_capture NULLPOINT g nb
      = Ok (None, with_liberty_of g lo).
Proof.
  intros Hwfg Hnb Hc Hbw.
  destruct (wf_go_inv g Hwfg) as (Hwf & Hlo & Hlibs).
  destruct (wf_position_inv g Hwf) as (_ & _ & _ & Hlen).
  unfold _detect_capture, _detect_and_process_capture.
  destruct (fast_liberty_check_total g nb Hwfg Hnb) as [fast ->].
  cbn [rbind]. destruct fast.
  { exists false, (liberty_of g). by destruct g. }
  destruct (block_of_marks g nb c Hwf Hnb Hc Hbw) as (marker & -> & Hml & Hblock).
  cbn [rbind].
  destruct (has_liberty_spec g marker Hwfg Hml)
    as (has & lo & -> & Hwf' & Hsame & Hhas).
  cbn [rbind]. rewrite (block_liberty g nb c marker Hblock) in Hhas.
  exists (negb has), lo. split; [done|]. split; [done|].
  destruct has; simpl; [done|].
  split; [intros Hl; by apply Hhas in Hl|].
  rewrite (Hsame eq_refl).
  destruct (arr_set_all_in_range (where_true marker) EMPTY
              (board (position g))) as (cells & -> & Hcl & Hcells).
  { intros q Hq%where_true_range. unfold len_board in Hlen. lia. }
  cbn [rbind].
  destruct (arr_set_all_in_range (where_true marker) NULLPOINT
              (liberty_of g)) as (lo' & -> & Hll & Hlo').
  { intros q Hq%where_true_range. lia. }
  cbn [rbind]. eexists _, cells, lo'. split; [reflexivity|].
  split; [intros s; by destruct (_ =? 1); intros [= <-]|].
  split; [done|]. split; [lia|]. split; [|].
  - intros x (i & Hi)%list_elem_of_lookup_1.
    specialize (Hlo' (Z.of_nat i) x ltac:(lia)).
    rewrite Nat2Z.id in Hlo'.
    apply Hlo' in Hi as [(_ & _ & ->)|[_ Hi]]; [by left|].
    apply Hlibs. by apply list_elem_of_lookup_2 in Hi.
  - intros q x Hq. rewrite (Hcells q x Hq), (Hblock q). split.
    + intros [(Hconn & _ & ->)|[Hnot Hx]]; [by left|by right].
    + intros [[Hconn ->]|[Hnot Hx]]; [left|by right].
      split; [done|]. split; [|done].
      apply (connected_range g c nb q Hwf Hnb) in Hconn.
      unfold len_board in Hlen. lia.
Qed.

End GoProofs.

(** ** Cells of a state *)

Lemma get_color_lookup (b : SimpleGoBoard) (q : Z) (x : color) :
  0 ≤ q → get_color b q = Ok x ↔ board b !! Z.to_nat q = Some x.
Proof.
  intros Hq. destruct (decide (q < len_board b)) as [Hlt|Hge].
  - rewrite get_color_in_range by lia.
    destruct (board b !! Z.to_nat q); split; congruence.
  - unfold get_color, np_index.
    replace (q <? len_board b) with false by lia.
    replace (q <? 0) with false by lia. rewrite !andb_false_r. simpl.
    rewrite lookup_ge_None_2 by (unfold len_board in Hge; lia). done.
Qed.

Lemma place_place_empty (b : SimpleGoBoard) (p : Z) (c : color) :
  0 ≤ p → get_color b p = Ok EMPTY → place (place b p c) p EMPTY = b.
Proof.
  intros Hp Hc%get_color_lookup; [|done]. destruct b as [n cells cp m sc].
  unfold place, with_board. simpl in *. f_equal.
  rewrite list_insert_insert_eq. by apply list_insert_id.
Qed.

Lemma wf_board_stone (b : SimpleGoBoard) (p : Z) (c : color) :
  wf_board b = true → 0 ≤ p < len_board b → get_color b p = Ok EMPTY →
  is_black_white c = true → wf_board (place b p c) = true.
Proof.
  intros Hwf Hp Hc Hbw.
  destruct (wf_board_inv b Hwf) as (_ & _ & Hcp & _).
  pose proof (wf_board_place b p c (current_player b) Hwf Hp Hc Hbw Hcp) as H.
  by destruct b.
Qed.

Lemma stone_on_board (g : GoBoard) (q : Z) (c : color) :
  wf_position g = true → 0 ≤ q → get_color (position g) q = Ok c →
  c ≠ BORDER → on_board_rc (size (position g)) q = true.
Proof.
  intros (Hwf & _)%wf_position_inv Hq Hc%get_color_lookup Hne; [|done].
  destruct (wf_board_inv _ Hwf) as (_ & _ & _ & Hcells).
  destruct (on_board_rc (size (position g)) q) eqn:Hon; [done|].
  exfalso. apply Hne. by apply (Hcells q c Hq Hc).
Qed.

(** ** The relation of a state to the state before its captures *)

Lemma block_has_liberty_back (g : GoBoard) (c : color) (p q : Z) :
  connected g c p q → block_has_liberty g c q → block_has_liberty g c p.
Proof.
  intros Hpq (q' & l & Hq' & Hl). exists q', l. split; [|done].
  by apply (connected_trans g c p q q').
Qed.

Lemma block_has_liberty_forth (g : GoBoard) (c : color) (p q : Z) :
  wf_position g = true → get_color (position g) p = Ok c →
  connected g c p q → block_has_liberty g c p → block_has_liberty g c q.
Proof.
  intros Hwf Hp Hpq. apply block_has_liberty_back.
  by apply connected_sym.
Qed.

Lemma captured_from_refl (opp : color) (g : GoBoard) : captured_from opp g g.
Proof. unfold captured_from. repeat split; try done. intros q _. by left. Qed.

Lemma captured_from_cache (opp : color) (g g' : GoBoard) (lo : list Z) :
  captured_from opp g g' → captured_from opp g (with_liberty_of g' lo).
Proof. done. Qed.

Lemma captured_from_maxpoint (opp : color) (g g' : GoBoard) :
  captured_from opp g g' → maxpoint g' = maxpoint g.
Proof. intros (_ & _ & Hs & _). unfold maxpoint. by rewrite Hs. Qed.

(** A cell that holds a stone of another colour than [opp], or is empty,
    is what it was. *)
Lemma captured_from_kept (opp : color) (g g' : GoBoard) (q : Z) (c : color) :
  captured_from opp g g' → 0 ≤ q < maxpoint g → c ≠ opp →
  get_color (position g) q = Ok c → get_color (position g') q = Ok c.
Proof.
  intros (_ & _ & _ & _ & _ & _ & Hcells) Hq Hne Hc.
  destruct (Hcells q Hq) as [->|(Hopp & _)]; [done|]. congruence.
Qed.

Lemma captured_from_still (opp : color) (g g' : GoBoard) (q : Z) (c : color) :
  captured_from opp g g' → 0 ≤ q < maxpoint g → c ≠ EMPTY →
  get_color (position g') q = Ok c → get_color (position g) q = Ok c.
Proof.
  intros (_ & _ & _ & _ & _ & _ & Hcells) Hq Hne Hc.
  destruct (Hcells q Hq) as [<-|(_ & He & _)]; [done|]. congruence.
Qed.

(** A block without a liberty after the captures had none before them. *)
Lemma no_liberty_before (opp : color) (g g' : GoBoard) (c : color) (q : Z) :
  wf_position g = true → captured_from opp g g' → c ≠ EMPTY →
  0 ≤ q < maxpoint g →
  get_color (position g') q = Ok c →
  (c = opp ∨ opp ≠ EMPTY) →
  ¬ block_has_liberty g' c q → ¬ block_has_liberty g c q.
Proof.
  intros Hwf Hcap Hce Hq Hc Hopp Hnone Hlib.
  pose proof Hcap as (Hnb & _ & _ & _ & _ & _ & Hcells).
  pose proof (captured_from_still opp g g' q c Hcap Hq Hce Hc) as Hc0.
  assert (∀ r, connected g c q r →
               get_color (position g') r = Ok c ∧ connected g' c q r) as Hpath.
  { intros r Hconn. induction Hconn as [|r r' Hconn [IH1 IH2] Hadj Hr'].
    { split; [done|apply connected_refl]. }
    pose proof (adjacent_range g r r' Hwf Hadj) as [_ Hr0].
    assert (get_color (position g') r' = Ok c) as Hkept.
    { destruct (Hcells r' Hr0) as [->|(Ho & _ & Hno)]; [done|].
      exfalso. apply Hno.
      assert (c = opp) as <- by congruence.
      apply (block_has_liberty_forth g c q r'); try done.
      by apply (connected_step g c q r r'). }
    split; [done|].
    apply (connected_step g' c q r r'); [done| |done].
    by apply (adjacent_ext g g'). }
  destruct Hlib as (q' & l & Hq' & Hadj & Hl).
  apply Hnone. exists q', l. split; [by apply Hpath|].
  split; [by apply (adjacent_ext g g')|].
  pose proof (adjacent_range g q' l Hwf Hadj) as [_ Hl0].
  destruct (Hcells l Hl0) as [->|(Ho & _)]; [done|].
  destruct Hopp as [->|Hoe]; congruence.
Qed.

Lemma captured_from_trans (opp : color) (g1 g2 g3 : GoBoard) :
  wf_position g1 = true → opp ≠ EMPTY →
  captured_from opp g1 g2 → captured_from opp g2 g3 →
  captured_from opp g1 g3.
Proof.
  intros Hwf Hoe H12 H23.
  pose proof (captured_from_maxpoint _ _ _ H12) as Hmax.
  pose proof H12 as (Hn1 & Hk1 & Hs1 & Hp1 & Hm1 & Hb1 & Hc1).
  pose proof H23 as (Hn2 & Hk2 & Hs2 & Hp2 & Hm2 & Hb2 & Hc2).
  unfold captured_from. repeat split; try congruence.
  intros q Hq. destruct (Hc2 q ltac:(lia)) as [->|(Ho & He & Hno)].
  { apply Hc1. done. }
  rewrite He. destruct (Hc1 q Hq) as [Hsame|(Ho1 & He1 & Hno1)].
  - right. split; [congruence|]. split; [done|].
    by apply (no_liberty_before opp g1 g2 opp q); try done; try (by left).
  - right. done.
Qed.

Lemma with_liberty_of_same (g : GoBoard) : with_liberty_of g (liberty_of g) = g.
Proof. by destruct g. Qed.

Lemma block_has_liberty_ext (g g' : GoBoard) (c : color) (p : Z) :
  neighbors g' = neighbors g →
  (∀ r x, get_color (position g) r = Ok x → get_color (position g') r = Ok x) →
  block_has_liberty g c p → block_has_liberty g' c p.
Proof.
  intros Hnb Hcells (q & l & Hq & Hadj & Hl). exists q, l.
  split; [|split].
  - apply (connected_ext g g'); try done. intros r. apply Hcells.
  - by apply (adjacent_ext g g').
  - by apply Hcells.
Qed.

Lemma captured_from_cache_l (opp : color) (g g' : GoBoard) (lo : list Z) :
  captured_from opp (with_liberty_of g lo) g' → captured_from opp g g'.
Proof.
  intros (Hn & Hk & Hs & Hp & Hm & Hb & Hcells).
  unfold captured_from. repeat split; try done.
  intros q Hq. destruct (Hcells q Hq) as [?|(Ho & He & Hno)]; [by left|].
  right. split; [done|]. split; [done|]. intros Hl. apply Hno.
  by apply (block_has_liberty_ext g (with_liberty_of g lo)).
Qed.

Lemma wf_board_with_player (b : SimpleGoBoard) (c : color) :
  wf_board b = true → is_black_white c = true →
  wf_board (with_player b c) = true.
Proof.
  unfold wf_board. rewrite !andb_true_iff. simpl. intros [[? ?] _] ->. done.
Qed.

Lemma all_color_spec (b : SimpleGoBoard) (c : color) (nbs : list Z) :
  (∀ q, q ∈ nbs → 0 ≤ q < len_board b) →
  ∃ r : bool, all_color b c nbs = Ok r ∧
              (r = true → ∀ q, q ∈ nbs → get_color b q = Ok c).
Proof.
  induction nbs as [|nb nbs IH]; intros Hin; simpl.
  { exists true. split; [done|]. by intros _ q ?%elem_of_nil. }
  destruct (get_color_total b nb) as [x Hx]; [apply Hin; by left|].
  rewrite Hx. cbn [rbind]. unfold color_eqb.
  case_bool_decide as Hxc; cbn [negb]; [|by exists false].
  destruct IH as (r & -> & Hr); [intros q Hq; apply Hin; by right|].
  exists r. split; [done|]. intros -> q [->|Hq]%elem_of_cons.
  - by rewrite Hx, Hxc.
  - by apply Hr.
Qed.

Section GoMoves.

Variable NULLPOINT : Z.

(** One neighbour, for [is_legal] and for [play_move]. *)
Lemma capture_step (g : GoBoard) (nb : Z) (opp : color) :
  wf_go NULLPOINT g = true → 0 ≤ nb < maxpoint g →
  get_color (position g) nb = Ok opp → is_black_white opp = true →
  ∃ (captured : bool) lo single g',
    _detect_capture NULLPOINT g nb = Ok (captured, with_liberty_of g lo) ∧
    wf_go NULLPOINT (with_liberty_of g lo) = true ∧
    _detect_and_process_capture NULLPOINT g nb = Ok (single, g') ∧
    wf_go NULLPOINT g' = true ∧ captured_from opp g g' ∧
    (∀ s, single = Some s → s = nb) ∧
    if captured then get_color (position g') nb = Ok EMPTY
    else g' = with_liberty_of g lo ∧ single = None.
Proof.
  intros Hwfg Hnb Hc Hbw.
  destruct (wf_go_inv NULLPOINT g Hwfg) as (Hwf & Hlo & Hlibs).
  destruct (wf_position_inv g Hwf) as (Hwfb & Hnbs & Hn & Hlen).
  destruct (wf_board_inv _ Hwfb) as (_ & Hl & Hcp & Hold).
  destruct (detect_capture_spec NULLPOINT g nb opp Hwfg Hnb Hc Hbw)
    as (captured & lo & Hdet & Hwf' & Hcase).
  exists captured, lo. destruct captured.
  2:{ exists None, (with_liberty_of g lo). repeat split; try done.
      intros q _. by left. }
  destruct Hcase
    as (Hnone & single & cells & lo' & Hdpc & Hsingle & Hcl & Hll & Hlr & Hcells).
  eexists single, _. split; [done|]. split; [done|]. split; [exact Hdpc|].
  set (g' := with_liberty_of _ lo').
  assert (∀ q, 0 ≤ q < maxpoint g →
            (connected g opp nb q ∧ get_color (position g') q = Ok EMPTY) ∨
            (¬ connected g opp nb q ∧
             get_color (position g') q = get_color (position g) q)) as Hq.
  { intros q Hq.
    destruct (lookup_lt_is_Some_2 cells (Z.to_nat q)) as [x Hx].
    { unfold len_board in Hlen. lia. }
    assert (get_color (position g') q = Ok x) as Hgx.
    { apply get_color_lookup; [lia|done]. }
    apply (Hcells q x ltac:(lia)) in Hx as [[Hconn ->]|[Hnot Hx]];
      [by left|].
    right. split; [done|]. rewrite Hgx. symmetry.
    apply get_color_lookup; [lia|done]. }
  split; [|split; [|split; [done|]]].
  - apply wf_go_intro; [|done|done].
    unfold wf_position. rewrite andb_true_iff. split.
    2:{ by apply bool_decide_eq_true. }
    apply wf_board_intro; try done.
    + unfold len_board. simpl. rewrite Hcl. done.
    + simpl. intros i x Hx.
      specialize (Hcells (Z.of_nat i) x ltac:(lia)).
      rewrite Nat2Z.id in Hcells.
      apply Hcells in Hx as [[Hconn ->]|[Hnot Hx]].
      * pose proof (connected_color g opp nb _ Hc Hconn) as Hco.
        rewrite (stone_on_board g (Z.of_nat i) opp); try done; [lia|].
        intros ->. done.
      * apply (Hold (Z.of_nat i)); [lia|]. by rewrite Nat2Z.id.
  - unfold captured_from. repeat split; try done. intros q Hq0.
    destruct (Hq q Hq0) as [[Hconn He]|[Hnot Hs]]; [right|by left].
    split; [by apply (connected_color g opp nb)|]. split; [done|].
    intros Hlib. apply Hnone.
    by apply (block_has_liberty_back g opp nb q).
  - destruct (Hq nb Hnb) as [[_ He]|[Hnot _]]; [done|].
    exfalso. apply Hnot, connected_refl.
Qed.

(** The loop of [_detect_captures], over the neighbours that hold [opp],
    and the loop of [play_move] over all the neighbours. *)
Lemma capture_loops (opp : color) (nbs : list Z) :
  is_black_white opp = true →
  ∀ (g : GoBoard) (acc : list Z),
    wf_go NULLPOINT g = true →
    (∀ nb, nb ∈ nbs → 0 ≤ nb < maxpoint g) →
    ∃ (captured : bool) lo single_captures g',
      detect_captures_loop NULLPOINT g
        (filter (fun q => cell_is (position g)
                            (fun nb_color => color_eqb nb_color opp) q = true)
                nbs)
      = Ok (captured, with_liberty_of g lo) ∧
      wf_go NULLPOINT (with_liberty_of g lo) = true ∧
      process_captures_loop NULLPOINT g opp nbs acc
      = Ok (single_captures, g') ∧
      wf_go NULLPOINT g' = true ∧ captured_from opp g g' ∧
      (∀ s, s ∈ single_captures →
            s ∈ acc ∨ (s ∈ nbs ∧ get_color (position g') s = Ok EMPTY)) ∧
      if captured
      then ∃ nb, nb ∈ nbs ∧ get_color (position g') nb = Ok EMPTY
      else g' = with_liberty_of g lo.
Proof.
  intros Hbw. assert (opp ≠ EMPTY) as Hoe by (by intros ->).
  induction nbs as [|nb nbs IH]; intros g acc Hwfg Hin.
  { exists false, (liberty_of g), acc, g. simpl.
    rewrite with_liberty_of_same.
    split; [done|]. split; [done|]. split; [done|]. split; [done|].
    split; [apply captured_from_refl|]. split; [|done]. intros s Hs. by left. }
  pose proof (Hin nb ltac:(by left)) as Hnb.
  assert (∀ q, q ∈ nbs → 0 ≤ q < maxpoint g) as Hin'.
  { intros q Hq. apply Hin. by right. }
  destruct (wf_go_inv NULLPOINT g Hwfg) as (Hwf & _ & _).
  destruct (wf_position_inv g Hwf) as (_ & _ & _ & Hlen).
  destruct (get_color_total (position g) nb) as [x Hx]; [lia|].
  rewrite filter_cons.
  assert (cell_is (position g) (fun nb_color => color_eqb nb_color opp) nb
          = color_eqb x opp) as Hcell by (unfold cell_is; by rewrite Hx).
  cbn [process_captures_loop]. rewrite Hx. cbn [rbind].
  destruct (color_eqb x opp) eqn:Hxo.
  2:{ destruct (decide _) as [Hd|_]; [congruence|].
      destruct (IH g acc Hwfg Hin')
        as (captured & lo & scs & g' & Hdet & Hwl & Hproc & Hwf' & Hcap
            & Hscs & Hcase).
      exists captured, lo, scs, g'.
      split; [done|]. split; [done|]. split; [done|]. split; [done|].
      split; [done|]. split.
      { intros s [?|[? ?]]%Hscs; [by left|right]. split; [by right|done]. }
      destruct captured; [|done].
      destruct Hcase as (nb' & Hnb' & He). exists nb'. split; [by right|done]. }
  destruct (decide _) as [_|Hd]; [|congruence].
  apply bool_decide_eq_true in Hxo as ->.
  destruct (capture_step g nb opp Hwfg Hnb Hx Hbw)
    as (cap & lo & single & g1 & Hdet & Hwl & Hdpc & Hwf1 & Hcap1 & Hsingle
        & Hcase).
  cbn [detect_captures_loop]. rewrite Hdet, Hdpc. cbn [rbind].
  pose proof (captured_from_maxpoint _ _ _ Hcap1) as Hmax.
  destruct cap.
  - (* the block of [nb] is captured *)
    destruct (IH g1 (match single with Some s => acc ++ [s] | None => acc end)
                Hwf1)
      as (_ & _ & scs & g' & _ & _ & Hproc & Hwf' & Hcap & Hscs & _).
    { intros q Hq. rewrite Hmax. by apply Hin'. }
    assert (get_color (position g') nb = Ok EMPTY) as Hnbe.
    { apply (captured_from_kept opp g1 g' nb EMPTY);
        try done; try lia; congruence. }
    exists true, lo, scs, g'. split; [done|]. split; [done|].
    split; [by destruct single|]. split; [done|].
    split; [by apply (captured_from_trans opp g g1 g')|]. split.
    + intros s [Hs|[Hs He]]%Hscs.
      * destruct single as [s0|]; [|by left].
        apply elem_of_app in Hs as [Hs|Hs]; [by left|].
        apply list_elem_of_singleton in Hs as ->.
        right. rewrite (Hsingle s0 eq_refl). split; [by left|done].
      * right. split; [by right|done].
    + exists nb. split; [by left|done].
  - destruct Hcase as [-> ->].
    destruct (IH (with_liberty_of g lo) acc Hwl Hin')
      as (captured & lo2 & scs & g' & Hdet2 & Hwl2 & Hproc & Hwf' & Hcap
          & Hscs & Hcase).
    exists captured, lo2, scs, g'. split; [exact Hdet2|].
    split; [done|]. split; [done|]. split; [done|].
    split; [by apply (captured_from_cache_l opp g g' lo)|]. split.
    { intros s [?|[? ?]]%Hscs; [by left|right]. split; [by right|done]. }
    destruct captured; [|done].
    destruct Hcase as (nb' & Hnb' & He). exists nb'. split; [by right|done].
Qed.

End GoMoves.

Section GoMaster.

Variable NULLPOINT : Z.

Lemma stone_placed_wf (g : GoBoard) (p : Z) (c : color) :
  wf_go NULLPOINT g = true → is_black_white c = true →
  0 ≤ p < maxpoint g → get_color (position g) p = Ok EMPTY →
  wf_go NULLPOINT (stone_placed g p c) = true ∧
  get_color (position (stone_placed g p c)) p = Ok c ∧
  set_color (position g) p c = Ok (place (position g) p c) ∧
  set_color (place (position g) p c) p EMPTY = Ok (position g).
Proof.
  intros Hwfg Hbw Hp He.
  destruct (wf_go_inv NULLPOINT g Hwfg) as (Hwf & Hlo & Hlibs).
  destruct (wf_position_inv g Hwf) as (Hwfb & Hnbs & Hn & Hlen).
  split; [|split; [|split]].
  - apply wf_go_intro; [|done|done].
    unfold wf_position. rewrite andb_true_iff. split.
    + apply wf_board_stone; try done. lia.
    + by apply bool_decide_eq_true.
  - apply get_color_place_eq. lia.
  - apply set_color_place. lia.
  - rewrite set_color_place by (rewrite len_board_place; lia).
    rewrite place_place_empty by (done || lia). done.
Qed.

(** [is_legal] and [play_move] on a point, side by side. *)
Lemma moves_spec (g : GoBoard) (p : Z) (c : color) :
  wf_go NULLPOINT g = true → is_black_white c = true →
  0 ≤ p < maxpoint g →
  ∃ (ok : bool) lo g',
    is_legal NULLPOINT g (Some p) c = Ok (ok, with_liberty_of g lo) ∧
    wf_go NULLPOINT (with_liberty_of g lo) = true ∧
    play_move NULLPOINT g (Some p) c = Ok (ok, g') ∧
    wf_go NULLPOINT g' = true ∧
    if ok then
      get_color (position g) p = Ok EMPTY ∧ Some p ≠ ko_recapture g ∧
      (∃ g1 ko,
         captured_from (opponent c) (stone_placed g p c) g1 ∧
         g' = with_position (with_ko g1 ko)
                            (with_player (position g1) (opponent c)) ∧
         ∀ k, ko = Some k →
              adjacent g p k ∧ get_color (position g1) k = Ok EMPTY ∧
              ∀ q, adjacent g p q →
                   get_color (position g) q = Ok (opponent c)) ∧
      block_has_liberty g' c p
    else
      (∃ lo', g' = with_liberty_of g lo') ∧
      (get_color (position g) p ≠ Ok EMPTY ∨ Some p = ko_recapture g ∨
       ¬ block_has_liberty (stone_placed g p c) c p).
Proof.
  intros Hwfg Hbw Hp.
  destruct (wf_go_inv NULLPOINT g Hwfg) as (Hwf & Hlo & Hlibs).
  destruct (wf_position_inv g Hwf) as (Hwfb & Hnbs & Hn & Hlen).
  assert (is_black_white (opponent c) = true) as Hbwo by (by destruct c).
  assert (c ≠ opponent c) as Hco by (by destruct c).
  destruct (get_color_total (position g) p) as [cur Hcur]; [lia|].
  set (Pempty := get_color (position g) p = Ok EMPTY).
  unfold is_legal, play_move. rewrite Hbw, Hcur. cbn [negb rbind].
  destruct (color_eqb cur EMPTY) eqn:Hce; cbn [negb].
  2:{ exists false, (liberty_of g), g. rewrite with_liberty_of_same.
      split; [done|]. split; [done|]. split; [done|]. split; [done|]. split.
      - exists (liberty_of g). by rewrite with_liberty_of_same.
      - left. unfold Pempty. rewrite Hcur. intros [= ->]. done. }
  apply bool_decide_eq_true in Hce as ->.
  case_bool_decide as Hko.
  { exists false, (liberty_of g), g. rewrite with_liberty_of_same.
    split; [done|]. split; [done|]. split; [done|]. split; [done|]. split.
    - exists (liberty_of g). by rewrite with_liberty_of_same.
    - by right; left. }
  destruct (stone_placed_wf g p c Hwfg Hbw Hp Hcur)
    as (Hwfg0 & Hpc & Hset & Hback).
  destruct (neighbors_lookup g p Hwf Hp) as (all & Hall & Hadj).
  assert (∀ q, q ∈ all → 0 ≤ q < maxpoint g) as Hallr.
  { intros q Hq%Hadj. by apply adjacent_range in Hq as [_ ?]. }
  unfold _is_surrounded. rewrite Hall. cbn [rbind].
  destruct (all_color_spec (position g) (opponent c) all)
    as (eye & -> & Heye).
  { intros q Hq%Hallr. lia. }
  cbn [rbind]. rewrite Hset. cbn [rbind].
  fold (stone_placed g p c). set (g0 := stone_placed g p c) in *.
  change (neighbors (with_position g (place (position g) p c)))
    with (neighbors g).
  change (maxpoint g) with (maxpoint g0) in Hp, Hallr.
  destruct (wf_go_inv NULLPOINT g0 Hwfg0) as (Hwf0 & _ & _).
  destruct (neighbors_of_color_spec g0 p (opponent c) Hwf0 Hp)
    as (nbs & all0 & Hall0 & Hnbseq & Hnoc & _).
  assert (all0 = all) as -> by (change (neighbors g0) with (neighbors g) in Hall0; congruence).
  destruct (capture_loops NULLPOINT (opponent c) all Hbwo g0 [] Hwfg0 Hallr)
    as (cap & lo & scs & g1 & Hdet & Hwl & Hloop & Hwf1 & Hcap & Hscs & Hcase).
  rewrite <- Hnbseq in Hdet.
  unfold _detect_captures. rewrite Hnoc. cbn [rbind]. rewrite Hdet.
  rewrite Hall0. cbn [rbind]. rewrite Hloop. cbn [rbind].
  pose proof (captured_from_maxpoint _ _ _ Hcap) as Hmax.
  destruct (wf_go_inv NULLPOINT g1 Hwf1) as (Hwfp1 & _ & _).
  assert (get_color (position g1) p = Ok c) as Hpc1.
  { by apply (captured_from_kept (opponent c) g0 g1). }
  destruct (stone_has_liberty_spec g1 p Hwfp1 ltac:(lia)) as (has & Hhas & Hhs).
  rewrite Hhas. cbn [rbind].
  set (ko := if eye && (Z.of_nat (length scs) =? 1)
             then head scs else None).
  assert (∀ ge,
            wf_go NULLPOINT ge = true →
            captured_from (opponent c) g0 ge →
            position ge = position g1 →
            block_has_liberty ge c p →
            let g' := with_position (with_ko ge ko)
                        (with_player (position ge) (opponent c)) in
            wf_go NULLPOINT g' = true ∧
            (Pempty ∧ Some p ≠ ko_recapture g ∧
             (∃ g1 ko,
                captured_from (opponent c) g0 g1 ∧
                g' = with_position (with_ko g1 ko)
                       (with_player (position g1) (opponent c)) ∧
                ∀ k, ko = Some k →
                     adjacent g p k ∧ get_color (position g1) k = Ok EMPTY ∧
                     ∀ q, adjacent g p q →
                          get_color (position g) q = Ok (opponent c)) ∧
             block_has_liberty g' c p)) as Hfinal.
  { intros ge Hwfe Hcape Hpos Hlib g'.
    destruct (wf_go_inv NULLPOINT ge Hwfe) as (Hwfpe & Hloe & Hlibse).
    apply andb_true_iff in Hwfpe as [Hwfbe Hnbe].
    split.
    - apply wf_go_intro; [|done|done].
      unfold wf_position. rewrite andb_true_iff.
      split; [by apply wf_board_with_player|done].
    - split; [done|]. split; [done|].
      split; [|by apply (block_has_liberty_ext ge g')].
      exists ge, ko. split; [done|]. split; [done|].
      intros k Hk. unfold ko in Hk.
      destruct eye; [|done]. destruct (_ =? 1); [|done]. simpl in Hk.
      apply head_Some_elem_of in Hk.
      apply Hscs in Hk as [?%elem_of_nil|[Hk He]]; [done|].
      split; [by apply Hadj|]. split; [by rewrite Hpos|].
      intros q Hq%Hadj. by apply (Heye eq_refl). }
  assert (∀ lo, wf_go NULLPOINT (with_liberty_of g0 lo) = true →
                wf_go NULLPOINT (with_liberty_of g lo) = true) as Hcache.
  { intros lo' (_ & Hlen' & Hlibs')%wf_go_inv. by apply wf_go_intro. }
  destruct cap.
  - (* a capture: the move is legal *)
    destruct Hcase as (nb & Hnb & He).
    assert (has = true) as ->.
    { apply Hhs. exists nb. split; [|done].
      apply (adjacent_ext g g1); [by destruct Hcap|]. by apply Hadj. }
    cbn [negb rbind]. change (position (with_liberty_of g0 lo))
      with (place (position g) p c). rewrite Hback. cbn [rbind].
    eexists true, lo, _. split; [reflexivity|]. split; [by apply Hcache|].
    split; [reflexivity|].
    apply Hfinal; try done.
    exists p, nb. split; [apply connected_refl|]. split; [|done].
    apply (adjacent_ext g g1); [by destruct Hcap|]. by apply Hadj.
  - subst g1. rewrite Hhas. destruct has; cbn [negb rbind].
    + (* the stone has a liberty *)
      change (position (with_liberty_of g0 lo)) with (place (position g) p c).
      rewrite Hback. cbn [rbind].
      eexists true, lo, _. split; [reflexivity|]. split; [by apply Hcache|].
      split; [reflexivity|].
      apply Hfinal; try done.
      destruct (proj1 Hhs eq_refl) as (l & Hl & Hle).
      exists p, l. split; [apply connected_refl|done].
    + (* the block of the stone decides *)
      destruct (block_of_marks (with_liberty_of g0 lo) p c Hwfp1 ltac:(lia)
                  Hpc1 Hbw) as (marker & -> & Hml & Hblock).
      cbn [rbind].
      destruct (has_liberty_spec NULLPOINT (with_liberty_of g0 lo) marker
                  Hwf1 Hml) as (has2 & lo2 & -> & Hwf2 & Hsame & Hh2).
      cbn [rbind].
      rewrite (block_liberty _ p c marker Hblock) in Hh2.
      change (with_liberty_of (with_liberty_of g0 lo) lo2)
        with (with_liberty_of g0 lo2) in *.
      destruct has2; cbn [negb rbind].
      * change (position (with_liberty_of g0 lo2))
          with (place (position g) p c).
        rewrite Hback. cbn [rbind].
        eexists true, lo2, _. split; [reflexivity|].
        split; [by apply Hcache|]. split; [reflexivity|].
        apply Hfinal; try done.
        apply (block_has_liberty_ext (with_liberty_of g0 lo)); try done.
        by apply Hh2.
      * change (position (with_liberty_of g0 lo2))
          with (place (position g) p c).
        rewrite Hback. cbn [rbind].
        exists false, lo2, (with_liberty_of g lo2).
        split; [done|]. split; [by apply Hcache|]. split; [done|].
        split; [by apply Hcache|].
        split; [by exists lo2|]. right; right. intros Hlib.
        assert (true = false); [|done]. symmetry. apply Hh2.
        by apply (block_has_liberty_ext g0).
Qed.

End GoMaster.

Section GoTheorems.

Variable NULLPOINT : Z.

(** X19. On a well-formed state, for BLACK or WHITE and PASS or a point
    of the array, [is_legal] answers (nothing is raised) and leaves the
    board, the player to move, the ko point and the neighbour lists as
    they were: the stone it tries is taken back, and only the liberty cache
    may have changed, the state staying well formed. *)
Theorem is_legal_frame (g : GoBoard) (point : option Z) (c : color) :
  wf_go NULLPOINT g = true → is_black_white c = true →
  (∀ p, point = Some p → 0 ≤ p < maxpoint g) →
  ∃ (legal : bool) lo,
    is_legal NULLPOINT g point c = Ok (legal, with_liberty_of g lo) ∧
    wf_go NULLPOINT (with_liberty_of g lo) = true.
Proof.
  intros Hwf Hbw Hp. destruct point as [p|].
  - destruct (moves_spec NULLPOINT g p c Hwf Hbw (Hp p eq_refl))
      as (ok & lo & _ & Hlegal & Hwl & _).
    by exists ok, lo.
  - exists true, (liberty_of g). unfold is_legal. rewrite Hbw.
    by rewrite with_liberty_of_same.
Qed.

(** X20. On a well-formed state, for BLACK or WHITE and PASS or a point
    of the array, [play_move] answers (nothing is raised: no index is out
    of range, no assertion fails, the loop of [_block_of] ends), the state
    it leaves is well formed with the same neighbour lists, and when the
    answer is False nothing but the liberty cache has changed. *)
Theorem play_move_total (g : GoBoard) (point : option Z) (c : color) :
  wf_go NULLPOINT g = true → is_black_white c = true →
  (∀ p, point = Some p → 0 ≤ p < maxpoint g) →
  ∃ (ok : bool) g',
    play_move NULLPOINT g point c = Ok (ok, g') ∧
    wf_go NULLPOINT g' = true ∧ neighbors g' = neighbors g ∧
    (ok = false → ∃ lo, g' = with_liberty_of g lo).
Proof.
  intros Hwf Hbw Hp. destruct point as [p|].
  - destruct (moves_spec NULLPOINT g p c Hwf Hbw (Hp p eq_refl))
      as (ok & lo & g' & _ & _ & Hplay & Hwf' & Hcase).
    exists ok, g'. split; [done|]. split; [done|]. destruct ok.
    + destruct Hcase as (_ & _ & (g1 & ko & Hcap & -> & _) & _).
      split; [by destruct Hcap|done].
    + destruct Hcase as [[lo' ->] _]. split; [done|]. intros _. by exists lo'.
  - unfold play_move. rewrite Hbw. cbn [negb]. eexists true, _.
    split; [reflexivity|]. split; [|done].
    destruct (wf_go_inv NULLPOINT g Hwf) as (Hwfp & Hlen & Hlibs).
    apply andb_true_iff in Hwfp as [Hwfb Hnb].
    apply wf_go_intro; [|done|done].
    unfold wf_position. rewrite andb_true_iff. split; [|done].
    apply wf_board_with_player; [done|by destruct c].
Qed.

(** X21. When [play_move] accepts a stone of colour [c] on the point [p],
    the point holds [c] afterwards, the opponent is to move, and every
    other cell of the array is what it was or held an opponent's stone and
    is EMPTY now; and the block of every stone taken off had no liberty
    on the board with the stone played: a move never removes a stone of
    the mover and never captures a block that has a liberty. *)
Theorem play_move_captures (g g' : GoBoard) (p : Z) (c : color) :
  wf_go NULLPOINT g = true → is_black_white c = true →
  0 ≤ p < maxpoint g →
  play_move NULLPOINT g (Some p) c = Ok (true, g') →
  get_color (position g') p = Ok c ∧
  current_player (position g') = opponent c ∧
  ∀ q, 0 ≤ q < maxpoint g → q ≠ p →
       get_color (position g') q = get_color (position g) q ∨
       (get_color (position g) q = Ok (opponent c) ∧
        get_color (position g') q = Ok EMPTY ∧
        ¬ block_has_liberty (stone_placed g p c) (opponent c) q).
Proof.
  intros Hwf Hbw Hp Hplay.
  destruct (moves_spec NULLPOINT g p c Hwf Hbw Hp)
    as (ok & lo & g'' & _ & _ & Hplay' & _ & Hcase).
  rewrite Hplay in Hplay'. injection Hplay' as <- <-.
  destruct Hcase as (He & _ & (g1 & ko & Hcap & -> & _) & _).
  destruct (wf_go_inv NULLPOINT g Hwf) as (Hwfp & _ & _).
  destruct (wf_position_inv g Hwfp) as (_ & _ & _ & Hlen).
  change (get_color (position g1) p = Ok c ∧
          opponent c = opponent c ∧
          ∀ q, 0 ≤ q < maxpoint g → q ≠ p →
               get_color (position g1) q = get_color (position g) q ∨
               (get_color (position g) q = Ok (opponent c) ∧
                get_color (position g1) q = Ok EMPTY ∧
                ¬ block_has_liberty (stone_placed g p c) (opponent c) q)).
  split; [|split; [done|]].
  - apply (captured_from_kept (opponent c) (stone_placed g p c) g1);
      try done.
    + by destruct c.
    + apply get_color_place_eq. lia.
  - intros q Hq Hne.
    assert (get_color (position (stone_placed g p c)) q
            = get_color (position g) q) as Hsame.
    { apply get_color_place_ne; lia. }
    destruct Hcap as (_ & _ & _ & _ & _ & _ & Hcells).
    destruct (Hcells q Hq) as [Hkept|(Ho & Hnow & Hno)].
    + left. by rewrite Hkept.
    + right. by rewrite <- Hsame.
Qed.

(** X22. [play_move] never leaves the stone it has played without a
    liberty: when it accepts the move, the block of the stone has a
    liberty on the board it leaves. And it refuses a point only when the
    point is not EMPTY, is the ko point, or the move is a suicide: the
    block of the stone would have no liberty on the board with the stone
    played. *)
Theorem play_move_liberty (g g' : GoBoard) (p : Z) (c : color) (ok : bool) :
  wf_go NULLPOINT g = true → is_black_white c = true →
  0 ≤ p < maxpoint g →
  play_move NULLPOINT g (Some p) c = Ok (ok, g') →
  if ok then block_has_liberty g' c p
  else get_color (position g) p ≠ Ok EMPTY ∨ Some p = ko_recapture g ∨
       ¬ block_has_liberty (stone_placed g p c) c p.
Proof.
  intros Hwf Hbw Hp Hplay.
  destruct (moves_spec NULLPOINT g p c Hwf Hbw Hp)
    as (ok' & lo & g'' & _ & _ & Hplay' & _ & Hcase).
  rewrite Hplay in Hplay'. injection Hplay' as <- <-.
  destruct ok; [by destruct Hcase as (_ & _ & _ & ?)|by destruct Hcase].
Qed.

(** X25. The ko rule. When [play_move] accepts a stone on the point [p]
    and sets the ko point, that point is a neighbour of [p] that held an
    opponent's stone and is EMPTY now, all the neighbours of [p] held
    opponent's stones before the move, and the opponent's [play_move] on
    the ko point is refused at once, the state staying as it is. *)
Theorem play_move_ko (g g' : GoBoard) (p k : Z) (c : color) :
  wf_go NULLPOINT g = true → is_black_white c = true →
  0 ≤ p < maxpoint g →
  play_move NULLPOINT g (Some p) c = Ok (true, g') →
  ko_recapture g' = Some k →
  adjacent g p k ∧
  get_color (position g) k = Ok (opponent c) ∧
  get_color (position g') k = Ok EMPTY ∧
  (∀ q, adjacent g p q → get_color (position g) q = Ok (opponent c)) ∧
  play_move NULLPOINT g' (Some k) (opponent c) = Ok (false, g').
Proof.
  intros Hwf Hbw Hp Hplay Hk.
  destruct (moves_spec NULLPOINT g p c Hwf Hbw Hp)
    as (ok & lo & g'' & _ & _ & Hplay' & _ & Hcase).
  rewrite Hplay in Hplay'. injection Hplay' as <- <-.
  destruct Hcase as (_ & _ & (g1 & ko & _ & -> & Hko) & _).
  destruct (Hko k Hk) as (Hadj & He & Hall).
  split; [done|]. split; [by apply Hall|]. split; [done|]. split; [done|].
  unfold play_move.
  replace (is_black_white (opponent c)) with true by (by destruct c).
  cbn [negb].
  change (get_color (position (with_position (with_ko g1 ko)
            (with_player (position g1) (opponent c)))) k)
    with (get_color (position g1) k).
  rewrite He. cbn [rbind]. change (color_eqb EMPTY EMPTY) with true.
  cbn [negb]. by rewrite bool_decide_eq_true_2.
Qed.

(** X23. [is_legal] answers what [play_move] would: on a well-formed
    state, for BLACK or WHITE and PASS or a point of the array, both
    return, with the same boolean. *)
Theorem is_legal_play_move_agree (g : GoBoard) (point : option Z) (c : color) :
  wf_go NULLPOINT g = true → is_black_white c = true →
  (∀ p, point = Some p → 0 ≤ p < maxpoint g) →
  ∃ (ok : bool) g1 g2,
    is_legal NULLPOINT g point c = Ok (ok, g1) ∧
    play_move NULLPOINT g point c = Ok (ok, g2).
Proof.
  intros Hwf Hbw Hp. destruct point as [p|].
  - destruct (moves_spec NULLPOINT g p c Hwf Hbw (Hp p eq_refl))
      as (ok & lo & g' & Hlegal & _ & Hplay & _).
    by exists ok, (with_liberty_of g lo), g'.
  - unfold is_legal, play_move. rewrite Hbw. by eexists true, _, _.
Qed.

End GoTheorems.

Lemma is_legal_frame_witness :
  ∃ (legal : bool) lo,
    is_legal 0 corner_atari (Some (pt 2 1)) BLACK
    = Ok (legal, with_liberty_of corner_atari lo) ∧
    wf_go 0 (with_liberty_of corner_atari lo) = true.
Proof.
  apply (is_legal_frame 0 corner_atari (Some (pt 2 1)) BLACK).
  - reflexivity.
  - reflexivity.
  - intros p [= <-]. by vm_compute.
Defined.

Lemma play_move_total_witness :
  ∃ (ok : bool) g',
    play_move 0 corner_atari (Some (pt 2 1)) BLACK = Ok (ok, g') ∧
    wf_go 0 g' = true ∧ neighbors g' = neighbors corner_atari ∧
    (ok = false → ∃ lo, g' = with_liberty_of corner_atari lo).
Proof.
  apply (play_move_total 0 corner_atari (Some (pt 2 1)) BLACK).
  - reflexivity.
  - reflexivity.
  - intros p [= <-]. by vm_compute.
Defined.

Lemma play_move_captures_witness :
  ∃ g', play_move 0 corner_atari (Some (pt 2 1)) BLACK = Ok (true, g') ∧
    get_color (position g') (pt 2 1) = Ok BLACK ∧
    current_player (position g') = opponent BLACK ∧
    ∀ q, 0 ≤ q < maxpoint corner_atari → q ≠ pt 2 1 →
         get_color (position g') q = get_color (position corner_atari) q ∨
         (get_color (position corner_atari) q = Ok (opponent BLACK) ∧
          get_color (position g') q = Ok EMPTY ∧
          ¬ block_has_liberty (stone_placed corner_atari (pt 2 1) BLACK)
              (opponent BLACK) q).
Proof.
  eexists. split; [vm_compute; reflexivity|].
  apply (play_move_captures 0 corner_atari _ (pt 2 1) BLACK).
  - reflexivity.
  - reflexivity.
  - by vm_compute.
  - vm_compute. reflexivity.
Defined.

Lemma play_move_liberty_witness :
  ∃ g', play_move 0 corner_atari (Some (pt 2 1)) BLACK = Ok (true, g') ∧
        block_has_liberty g' BLACK (pt 2 1).
Proof.
  eexists. split; [vm_compute; reflexivity|].
  apply (play_move_liberty 0 corner_atari _ (pt 2 1) BLACK true).
  - reflexivity.
  - reflexivity.
  - by vm_compute.
  - vm_compute. reflexivity.
Defined.

Lemma is_legal_play_move_agree_witness :
  ∃ (ok : bool) g1 g2,
    is_legal 0 corner_atari (Some (pt 2 1)) BLACK = Ok (ok, g1) ∧
    play_move 0 corner_atari (Some (pt 2 1)) BLACK = Ok (ok, g2).
Proof.
  apply (is_legal_play_move_agree 0 corner_atari (Some (pt 2 1)) BLACK).
  - reflexivity.
  - reflexivity.
  - intros p [= <-]. by vm_compute.
Defined.

Lemma play_move_ko_witness :
  ∃ g', play_move 0 ko_shape (Some (pt 2 3)) BLACK = Ok (true, g') ∧
        adjacent ko_shape (pt 2 3) (pt 2 2) ∧
        get_color (position ko_shape) (pt 2 2) = Ok (opponent BLACK) ∧
        get_color (position g') (pt 2 2) = Ok EMPTY ∧
        (∀ q, adjacent ko_shape (pt 2 3) q →
              get_color (position ko_shape) q = Ok (opponent BLACK)) ∧
        play_move 0 g' (Some (pt 2 2)) (opponent BLACK) = Ok (false, g').
Proof.
  eexists. split; [vm_compute; reflexivity|].
  apply (play_move_ko 0 ko_shape _ (pt 2 3) (pt 2 2) BLACK).
  - reflexivity.
  - reflexivity.
  - by vm_compute.
  - vm_compute. reflexivity.
  - reflexivity.
Defined.

(** ** The cache after [is_legal] *)

(** [is_legal] leaves the board as it was, but not what [play_move] does
    next: the liberty it caches for the stones that the stone it tried
    joined into one block need not be a liberty of each of them once the
    stone is taken back, and [_fast_liberty_check] trusts it. With BLACK
    stones at (1,1) and (1,3) and WHITE stones at (2,1) and (2,2), WHITE
    on (1,2) captures the stone at (1,1); after [is_legal] for BLACK on
    (1,2) the same move leaves that stone on the board, without a
    liberty. *)
Example stale_cache_misses_capture :
  let g := go7 [(pt 1 1, BLACK); (pt 1 3, BLACK);
                (pt 2 1, WHITE); (pt 2 2, WHITE)] WHITE in
  (∃ g', play_move 0 g (Some (pt 1 2)) WHITE = Ok (true, g') ∧
         get_color (position g') (pt 1 1) = Ok EMPTY) ∧
  (∃ g1 g', is_legal 0 g (Some (pt 1 2)) BLACK = Ok (true, g1) ∧
            position g1 = position g ∧
            play_move 0 g1 (Some (pt 1 2)) WHITE = Ok (true, g') ∧
            get_color (position g') (pt 1 1) = Ok BLACK ∧
            ¬ block_has_liberty g' BLACK (pt 1 1)).
Proof.
  split.
  - eexists. split; vm_compute; reflexivity.
  - eexists _, _. split; [vm_compute; reflexivity|].
    split; [vm_compute; reflexivity|].
    split; [vm_compute; reflexivity|].
    split; [vm_compute; reflexivity|].
    intros (q & l & Hq & Hadj & Hl).
    assert (q = pt 1 1) as ->.
    { clear Hadj Hl. induction Hq as [|q r _ IH Hadj Hc]; [done|]. subst q.
      destruct Hadj as (_ & nbs & Hnbs & Hr).
      vm_compute in Hnbs. injection Hnbs as <-.
      repeat (apply elem_of_cons in Hr as [->|Hr]);
        [by vm_compute in Hc..|by apply elem_of_nil in Hr]. }
    destruct Hadj as (_ & nbs & Hnbs & Hr).
    vm_compute in Hnbs. injection Hnbs as <-.
    repeat (apply elem_of_cons in Hr as [->|Hr]);
      [by vm_compute in Hl..|by apply elem_of_nil in Hr].
Qed.
